(* ===== verification/_CoqProject ===== *)
-Q . S2P
Prelude.v
ZendTypes.v
ZendArith.v
ZendString.v
ZendSeparate.v
ZendParams.v
ZendBitset.v
ZendOperators.v
ZendCase.v
ZendBuffers.v
ZendArena.v
ZendWorklist.v
ZendBufferWitnesses.v
ZendHash.v
ZendHashLinks.v
ZendSymtable.v
ZendHashWitnesses.v
Engine.v
ModelEngine.v
ZendAssign.v
ZendConvert.v
ZendSsa.v
ZendFrames.v
ZendObjects.v
ZendVm.v
ZendVmLabels.v
ZendVmSpec.v
ZendVmTable.v
ZendVmRuns.v
ZendVmSame.v
ZendVmExec.v
ZendVmNumbers.v
ZendVmWitnesses.v
ZendExecWitnesses.v
ZendWitnesses.v
PamNative.v
PamExports.v
PamProtocol.v
PamHost.v
PamWitnesses.v
PamHostWitnesses.v
