(* ===== verification/Prelude.v ===== *)
(** * PAM native runtime: a verification library

    PAM serves PHP applications from one long-lived process: a Rust host (src/src)
    embeds the PHP engine and talks to it through the C functions of
    src/native/pam_php.c, declared in src/native/pam.h. The engine is linked as a
    library; what the C file sees of it is its headers, staged under
    src/runtime/android/8.5.8-r1/<abi>/include/php: inline functions and macros
    that are compiled into PAM. This library models the C code of both layers, and
    the part of the Rust host that guards it (src/src/php.rs).

    ** Parts and how they interact

    - The host calls [pam_php_init] once, then [pam_php_eval] or
      [pam_php_execute_file] to load the application, then the queries
      ([pam_php_server_config], ...) and, per event, [pam_php_dispatch_http],
      [pam_php_resume_http], [pam_php_cancel_http] or [pam_php_dispatch_ws]; it
      frees each published answer with [pam_php_string_free] and ends with
      [pam_php_shutdown].
    - Every call into PHP goes through [pam_runtime_function] (a cached lookup of a
      static method of the class Pam\Internal\Runtime) and [pam_runtime_call],
      inside a region guarded by [zend_first_try], because the engine reports fatal
      errors by a jump to the innermost handler in [EG(bailout)].
    - The C file takes no lock and keeps its state in statics. The host may call it
      from any thread: two shared atomics, [ACTIVE] and [OWNER], see to it that one
      thread does.
    - The C file shares counted strings, streams, the SAPI globals and the constants
      with the engine, and owns a C heap of its own for the INI text and for the
      answers it publishes.

    ** Files

    - Prelude: bytes, words of fixed width, blocks of memory, and the computations
      [M] with three outcomes: return, bailout (the jump), undefined behaviour. [wp]
      is the weakest precondition the specifications are written with.
    - ZendTypes (Zend/zend_types.h, zend_gc.h): the GC word, zvals, reference
      counting, references, type masks and the layout of hash tables. Modules [Gc],
      [Ty], [Zv], [Heap], [TypeHint], [HashLayout].
    - ZendArith (Zend/zend_multiply.h, zend_operators.h, zend_range_check.h,
      ext/random/php_random_uint128.h): the per-processor variants of overflow
      checked arithmetic; doubles are the binary64 of the Standard Library.
    - ZendString (Zend/zend_string.h): allocation, sharing, reallocation,
      comparison and the hash function with its variants.
    - ZendSeparate (Zend/zend_types.h, zend_variables.h): duplication and
      copy-on-write separation.
    - ZendParams (Zend/zend_API.h): the [zend_parse_arg_*] functions, the
      [ZEND_PARSE_PARAMETERS] block and the argument information of native
      functions.
    - ZendBitset (Zend/zend_bitset.h): sets of numbers as arrays of words.
    - ZendOperators (Zend/zend_operators.h): the substring searches and the decimal
      printers, on blocks of bytes with offsets as pointers.
    - ZendCase (Zend/zend_operators.h): the search without regard to case; the case
      tables of the library are the class [CaseMaps] with the law [CaseLaws].
    - ZendBuffers (Zend/zend_smart_str.h): strings under construction in the counted
      heap. [SmartStrAlloc] are the library functions that make room, [SmartStrLaws]
      what they promise; [holds_text] is the text a smart string stands for.
    - ZendArena (Zend/zend_arena.h, zend_ptr_stack.h): arenas over integer addresses
      with [emalloc] as a parameter ([allocates]), the tracked variant for memory
      checkers, and stacks of pointers. Modules [Arena], [TrackedArena], [PtrStack].
    - ZendWorklist (Zend/Optimizer/zend_worklist.h): worklists over bit sets, in the
      memory of an arena; [spec_work] is the abstract list they refine.
    - ZendHash (Zend/zend_hash.h over the tables of zend_types.h): the flag word, all
      iteration macros over the memory of a table, the test for a list, the filling
      of a packed table. Modules [Table], [Iter], [Lists], [Fill]. [visible] is the
      list of entries that a table stands for.
    - ZendHashLinks (Zend/zend_hash.h): the collision chains, the append of a new key
      and the deletion while iterating backwards; [chains_ok] is their invariant.
    - ZendSymtable (Zend/zend_hash.h): the inline functions over the functions of
      zend_hash.c, which are the class [HashFunctions] with the laws [HashLaws] (a
      table without a destructor, as a map from keys to values).
    - Engine: the state behind the boundary ([es]: counted heap, streams, constants,
      SAPI and executor globals), the library functions as the class [ZendEngine],
      the inline layer over them (zend_gc.h, zend_variables.h, php_streams.h), and
      the interface the C file relies on: [Ownership] and the laws [EngineLaws] and
      [LifecycleLaws], stated as who holds each reference and each open stream.
    - ModelEngine: an instance of that interface, so that the laws can hold together.
    - ZendAssign (Zend/zend_execute.h, zend_operators.h): copying operands into
      variables, assignment and taking a value out of its reference; [exact] says that
      every reference count is the number of holders.
    - ZendConvert (Zend/zend_operators.h): doubles to integers, and the truth of a
      value.
    - ZendSsa (Zend/Optimizer/zend_ssa.h, zend_inference.h, zend_cfg.h): the chains
      of uses and phi functions of the optimiser, the walks over them, and the ranges
      it keeps for integers; [use_chain_ok] says that a chain lists the uses in order.
    - ZendFrames (Zend/zend_execute.h, zend_compile.h): the stack of call frames on
      its pages; [vm_ok] is its invariant, [extends] the law of the library function
      that adds a page.
    - ZendObjects (Zend/zend_objects_API.h, zend_weakrefs.h, zend_lazy_objects.h): the
      free handles of the object store, the sizes and slots of objects, their release.
    - ZendVm (Zend/zend_vm_def.h over zend_compile.h): the machine ([vst]: frame,
      instruction, saved instruction, slots, engine), the instructions ([zend_op]) and
      the handlers of arithmetic, comparison, truth, jumps, increments and copies, with
      their helpers and their type-specialised variants. The library behind them is the
      class [VmLibrary], the control macros and operand lookups the class [VmMacros].
    - ZendVmLabels (Zend/zend_vm_execute.h): the table of handlers and its rules.
    - ZendVmSpec (Zend/zend_vm_execute.h): how a handler is chosen for an instruction,
      from the kinds and, when they are known, the types of its operands; [entry_for]
      says that a handler of the table serves the instruction.
    - ZendVmTable (Zend/zend_vm_execute.h): the parts of the table, one per opcode and per
      specialisation, and what an index says of an instruction ([alike]).
    - ZendVmRuns: what is relied on of the macros and the library ([VmLaws]), equality
      but for the saved instruction ([same_outcome]), and the runs of the handlers on
      numbers, plain values and variables.
    - ZendVmSame: the chosen handler against the general one; [usual] is what the choice
      relies on, of the optimiser's information and of the machine.
    - ZendVmExec (Zend/zend_vm_execute.h, zend_compile.h): the loop against the
      interpreter [interpret_loop]; how handlers are stored ([Serialiser]); jump targets
      and constants ([PassTwo]).
    - ZendVmNumbers: what the arithmetic handlers leave in the slot of the result, and
      the ranges of ZendSsa at work.
    - PamNative: the statics, the C heap and every [static] function of pam_php.c
      ([pam_runtime_function], [pam_runtime_call], [pam_copy_string_result],
      [pam_set_php_binary], [pam_register_file_handles], [pam_embed_init], the two
      native PHP functions), with their specifications and the theorems about the
      method cache, the standard streams and PHP_BINARY.
    - PamExports: the exported functions, composed as the C code composes them, and
      the theorems about whole exchanges, the lifecycle and scripts, published
      results, and the failure paths that leave something behind.
    - PamProtocol: the exported functions as one system. [call] is a call of the
      host, [permitted] its rules, [reached] the sequences of calls it can make from a
      process without an engine, [spec_step] the abstract machine they refine, and
      [call_for_bytes] the host's own wrapper (src/src/php.rs).
    - PamHost: the functions of src/src/php.rs as programs of threads ([prog]) over
      the shared [ACTIVE] and [OWNER] and a session of PamProtocol; [hstep] is one
      access or one call of one thread, [hreached] any interleaving of any number of
      threads, [process_ok] the invariant that ties the guards to the session.
    - ZendWitnesses, ZendBufferWitnesses, ZendHashWitnesses, ZendExecWitnesses,
      ZendVmWitnesses, PamWitnesses, PamHostWitnesses: every
      theorem with hypotheses at a concrete input, with small models of the library
      functions where a class or a law stands for them.

    ** How the code is read

    A C function is a Rocq function of the same name. A pointer is a [loc], a
    nullable one an [option loc]. The variables a C function writes through pointers
    ([result], [*output], [*output_length]) are fields of [world]. Operations on the
    counted heap return [None], and computations [Undef], where C would be undefined:
    a dangling pointer, a write outside a block, a failed [ZEND_ASSERT], a member of
    a union that was not the one written. [malloc] gives a block of bytes that are
    not yet written. Integers are [Z] with their wrap-around written out. A
    specification [wp m Q B w] says that [m] is defined in [w], so every theorem of
    that form includes memory safety. The engine's allocator may refuse: then
    [zend_string_init_m] bails out, and the specifications name the size that was
    refused. Fuel bounds the loops that do not follow the structure of a list, and
    the theorems show that it is enough: [HT_HASH_RESET_loop] has the number of slots
    plus one; [shift_out], [bits_up] and [bits_down] have 64, the turns after which a
    word shifted by one bit is empty; [map_foreach_loop] and [packed_foreach_loop]
    the used elements plus one; [find_prev] the table size plus one, since a chain
    visits a bucket once; [memnstr_loop] and [memnrstr_loop] the length of the
    haystack, since each turn moves by one byte, and [memnistr_loop] one more;
    [print_ulong_loop] twenty, the digits of a 64-bit word; [grow_max] the pointers
    pushed plus one; [use_loop] and [phi_use_loop] the instructions and the phi functions
    plus one, since a chain visits each once; [i_zend_is_true] two, since a reference never leads to another.
    The loop of the virtual machine is cut after [n] instructions, for every [n]. A
    handler of zend_vm_def.h is one function with the kinds of the operands as
    arguments, where the generator writes one per kind; the numbers of the kinds in the
    table, [zend_swap_operands] and the branch that follows a comparison are parameters.
    A NaN that an operation makes is stored as one pattern. A call into the engine
    returns, bails out or is undefined; a script that loops for ever is a call that is
    never answered, a thread that takes no further step, and no theorem says that a
    request ends.

    ** What the theorems show

    - The system (PamProtocol, C2, C5, C6, C9): every sequence of calls the host may
      make refines the abstract machine; a permitted call is defined; the C heap is
      accounted for; every session can be closed.
    - The host (PamHost, C3, C4, C7, C10): one thread speaks to the engine; each of its
      calls is permitted, so C5 applies to it; what is left when the threads rest; the
      calls that make up an initialisation.
    - Exchanges (PamExports, C1 and C11 to C14): arguments, header bag and body the
      engine sees; what is published; that success is forced when the engine answers;
      restoration of the previous body; no handler left behind, and no reference or stream
      but the ones each theorem names (the class name while the class is not cached, a
      request body that PHP code opens).
    - Lifecycle and scripts (PamExports, C15 to C18).
    - Internal functions and failure paths (PamNative and PamExports, C19 to C24): the
      method cache, published copies, the standard streams that become constants, the
      native PHP functions, what two failure paths leave behind.
    - Parameter parsing (ZendParams, C25).
    - Running code: the loop of the virtual machine with chosen handlers refines an
      interpreter of the opcodes (ZendVmExec, C26), since each chosen handler does what
      the general one does (ZendVmSame, C27); what the handlers compute on integers, and
      that the ranges the optimiser inferred make the unchecked handlers right
      (ZendVmNumbers, C28, C29); an entry of the table tells instructions apart
      (ZendVmTable, C39); call frames (ZendFrames, C30), assignment (ZendAssign, C31),
      conversions (ZendConvert, C38).
    - Hash tables: appends and deletions keep the chains (ZendHashLinks, C32, C33),
      iteration (ZendHash, C34), symbol tables (ZendSymtable, C35).
    - Buffers and text: smart strings (ZendBuffers, C36), arenas (ZendArena, C37),
      search (ZendCase, C40), worklists (ZendWorklist, C8).
    - The other theorems of these files are proved alike and support or complete
      them: the host's [call_for_bytes], shutdown and PHP_BINARY on their own, the
      fast paths of parameters, copy-on-write, string allocation and comparison,
      reference counting, recursion guards, table layout, bit sets, the arithmetic
      variants, substring search and decimal printing, fresh and tracked arenas,
      pointer stacks, filling of tables, typed elements and indirect values, copies
      into variables, truth, room, growth and arguments of frames, the memory of worklists, the object store, the variants of the string hash, ranges and the walks over
      use chains, entries of the handler table, stored handlers, jump targets.

    ** Not modelled, and the plan

    The engine library itself and the C library are parameters: their code is not in
    the repository. src/native/resolver_shim.c forwards three resolver symbols and has
    no logic of its own. The Rust server around src/src/php.rs, the PHP runtime
    classes, the packages and the build scripts are other languages. Of php.rs itself
    the start-up milestones and the types of the answers are left out.
    Of the virtual machine the handlers of calls, arrays, objects, iteration and
    assignment are left out, and of zend_vm_execute.h the copies of each handler per
    kind of operand and per way of dispatch, which the generator writes from the
    template. The empty-array test of [===] is modelled with the lookup that the
    generated file calls; its definition is not in the repository, so its law speaks of
    values that are no references. The headers of the extensions are declarations or
    third-party code, and PAM calls none of them. Next in order: the handlers of calls
    and of arrays, the renaming and type masks of static single assignment, syntax trees
    (zend_ast.h), the rest of the inline functions of zend_API.h (frame and class
    helpers) and zend_smart_string.h. *)

From Stdlib Require Export ZArith Lia.
From Stdlib Require Import Strings.Byte.
From stdpp Require Export base gmap gmultiset list strings numbers.

#[global] Open Scope Z_scope.
#[global] Set Default Proof Using "Type".

(** ** Bytes and byte strings *)

Abbreviation byte := Byte.byte.
Abbreviation bytes := (list Byte.byte).
Abbreviation NUL := Byte.x00.

#[global] Instance byte_eq_dec : EqDecision byte := Byte.byte_eq_dec.

#[global] Program Instance byte_countable : Countable byte :=
  inj_countable Byte.to_N Byte.of_N _.
Next Obligation. intros b. apply Byte.of_to_N. Qed.

#[global] Instance byte_inhabited : Inhabited byte := populate NUL.

(** A C string literal, without its terminator. *)
Definition lit (s : string) : bytes := String.list_byte_of_string s.

(** The value of a byte read as [unsigned char], and as [signed char]. *)
Definition uchar (b : byte) : Z := Z.of_N (Byte.to_N b).
Definition schar (b : byte) : Z := if uchar b <? 128 then uchar b else uchar b - 256.

Lemma uchar_range b : 0 <= uchar b < 256.
Proof. unfold uchar. pose proof (Byte.to_N_bounded b). lia. Qed.

(** ** Fixed-width integers *)

Definition u32 (z : Z) : Z := z mod 2 ^ 32.
Definition u64 (z : Z) : Z := z mod 2 ^ 64.

(** The two's complement reading of the low [w] bits. *)
Definition sint (w z : Z) : Z :=
  let m := z mod 2 ^ w in if m <? 2 ^ (w - 1) then m else m - 2 ^ w.
Definition s32 (z : Z) : Z := sint 32 z.
Definition s64 (z : Z) : Z := sint 64 z.

Definition in_u32 (z : Z) : Prop := 0 <= z < 2 ^ 32.
Definition in_u64 (z : Z) : Prop := 0 <= z < 2 ^ 64.

Lemma u32_range z : 0 <= u32 z < 2 ^ 32.
Proof. apply Z.mod_pos_bound. lia. Qed.
Lemma u64_range z : 0 <= u64 z < 2 ^ 64.
Proof. apply Z.mod_pos_bound. lia. Qed.
Lemma u32_small z : 0 <= z < 2 ^ 32 → u32 z = z.
Proof. apply Z.mod_small. Qed.
Lemma u64_small z : 0 <= z < 2 ^ 64 → u64 z = z.
Proof. apply Z.mod_small. Qed.
Lemma u64_idemp z : u64 (u64 z) = u64 z.
Proof. apply u64_small, u64_range. Qed.

Lemma u64_add_l a b : u64 (u64 a + b) = u64 (a + b).
Proof. apply Zplus_mod_idemp_l. Qed.
Lemma u64_add_r a b : u64 (a + u64 b) = u64 (a + b).
Proof. apply Zplus_mod_idemp_r. Qed.
Lemma u64_mul_l a b : u64 (u64 a * b) = u64 (a * b).
Proof. apply Zmult_mod_idemp_l. Qed.
Lemma u64_mul_r a b : u64 (a * u64 b) = u64 (a * b).
Proof. apply Zmult_mod_idemp_r. Qed.

Create HintDb pam_word.
Create Rewrite HintDb pam_word.
#[export] Hint Rewrite u64_add_l u64_add_r u64_mul_l u64_mul_r u64_idemp : pam_word.
#[export] Hint Resolve u32_range u64_range uchar_range : pam_word.

(** Equality of words bit by bit. Masks are written with [Z.ones]. *)
Lemma testbit_ones_if n i : 0 <= n → 0 <= i → Z.testbit (Z.ones n) i = (i <? n).
Proof.
  intros. destruct (i <? n) eqn:E; [apply Z.ones_spec_low|apply Z.ones_spec_high]; lia.
Qed.

Lemma testbit_above w z i : 0 <= z < 2 ^ w → 0 <= w <= i → Z.testbit z i = false.
Proof.
  intros Hz Hi. rewrite <- (Z.mod_small z (2 ^ w)) by done.
  by apply Z.mod_pow2_bits_high.
Qed.

Ltac zbits_norm :=
  repeat first
    [ rewrite Z.lor_spec | rewrite Z.land_spec | rewrite Z.lxor_spec
    | rewrite Z.sub_add | rewrite Z.add_0_r | rewrite Z.sub_0_r | rewrite Z.testbit_0_l
    | match goal with
      | |- context [Z.testbit (Z.shiftl ?x ?k) ?i] => rewrite (Z.shiftl_spec x k i) by lia
      | |- context [Z.testbit (Z.shiftr ?x ?k) ?i] => rewrite (Z.shiftr_spec x k i) by lia
      | |- context [Z.testbit (Z.ones ?n) ?i] => rewrite (testbit_ones_if n i) by lia
      | |- context [Z.testbit ?x ?i] => rewrite (Z.testbit_neg_r x i) by lia
      end ].

Ltac zbits_split :=
  match goal with
  | |- context [?a <? ?b] => destruct (Z.ltb_spec a b)
  | |- context [Z.testbit ?x (?i - ?k)] =>
      lazymatch goal with
      | H : i < k |- _ => fail
      | H : k <= i |- _ => fail
      | _ => destruct (Z.lt_ge_cases i k)
      end
  end.

Ltac zbits :=
  apply Z.bits_inj'; let i := fresh "i" in intros i ?;
  repeat (zbits_norm; zbits_split); zbits_norm;
  repeat match goal with
  | |- context [Z.testbit ?x ?i] => destruct (Z.testbit x i) eqn:?
  end; simpl; try lia; try done.

Lemma land_le_r a b : 0 <= b → Z.land a b <= b.
Proof.
  intros Hb. assert (H : Z.ldiff (Z.land a b) b = 0).
  { apply Z.bits_inj'. intros i _. rewrite Z.ldiff_spec, Z.land_spec, Z.testbit_0_l.
    by destruct (Z.testbit a i), (Z.testbit b i). }
  apply Z.sub_nocarry_ldiff in H. pose proof (proj2 (Z.ldiff_nonneg b (Z.land a b))). lia.
Qed.

Lemma lor_ge_r a b : 0 <= a → b <= Z.lor a b.
Proof. intros. pose proof (Z.add_lor_land a b). rewrite Z.land_comm in *.
  pose proof (land_le_r b a). lia. Qed.

Lemma lor_lt_pow2 w a b : 0 <= w → 0 <= a < 2 ^ w → 0 <= b < 2 ^ w → 0 <= Z.lor a b < 2 ^ w.
Proof.
  intros Hw Ha Hb. assert (H : Z.lor a b = Z.lor a b mod 2 ^ w).
  { rewrite <- Z.land_ones, Z.land_lor_distr_l, !Z.land_ones, !Z.mod_small; done. }
  rewrite H. apply Z.mod_pos_bound. lia.
Qed.

(** ** C results, pointers and blocks of memory *)

(** [ZEND_RESULT_CODE] of zend_types.h. *)
Definition SUCCESS : Z := 0.
Definition FAILURE : Z := -1.

(** A non-null pointer to the start of an allocation; a nullable C pointer is
    an [option loc]. *)
Abbreviation loc := positive.

(** A byte of memory; [None] is memory never written (indeterminate). *)
Abbreviation cell := (option Byte.byte).
Abbreviation block := (list (option Byte.byte)).

(** [memcpy (blk + off, src, n)] with [n = length src]; [None] when the write is
    out of the bounds of the block. *)
Definition blk_write (blk : block) (off : nat) (src : block) : option block :=
  if decide (off + length src ≤ length blk)%nat
  then Some (take off blk ++ src ++ drop (off + length src) blk)
  else None.

Lemma blk_write_fits blk off src :
  (off + length src ≤ length blk)%nat →
  blk_write blk off src = Some (take off blk ++ src ++ drop (off + length src) blk).
Proof. intros. unfold blk_write. by rewrite decide_True. Qed.

(** ** Computations that return, bail out or are undefined

    C code that calls into the engine ends in one of three ways: it returns a
    value, the engine leaves it through [zend_bailout] (a [longjmp] to the
    handler in [EG(bailout)]), or it did something C leaves undefined: a write
    outside a block, a release of a pointer that is not live. *)
Inductive outcome (S A : Type) : Type :=
| Ret (a : A) (s : S)
| Bail (s : S)
| Undef.
Arguments Ret {S A} a s.
Arguments Bail {S A} s.
Arguments Undef {S A}.

Definition M (S A : Type) : Type := S → outcome S A.

#[global] Instance M_ret S : MRet (M S) := λ A a s, Ret a s.
#[global] Instance M_bind S : MBind (M S) := λ A B f m s,
  match m s with Ret a s' => f a s' | Bail s' => Bail s' | Undef => Undef end.

Definition get {S} : M S S := λ s, Ret s s.
Definition gets {S A} (f : S → A) : M S A := λ s, Ret (f s) s.
Definition modify {S} (f : S → S) : M S () := λ s, Ret () (f s).
Definition bail {S A} : M S A := λ s, Bail s.
Definition undef {S A} : M S A := λ _, Undef.
(** Undefined behaviour unless the value is there. *)
Definition need {S A} (o : option A) : M S A :=
  match o with Some a => mret a | None => undef end.

(** Run [m] for each element, in order. *)
Fixpoint for_each {S A} (f : A → M S ()) (l : list A) : M S () :=
  match l with
  | [] => mret ()
  | x :: l => f x ;; for_each f l
  end.

(** Weakest preconditions: [wp m Q B s] says that [m] run in [s] is defined,
    that a return satisfies [Q] and a bailout satisfies [B]. *)
Definition wp {S A} (m : M S A) (Q : A → S → Prop) (B : S → Prop) (s : S) : Prop :=
  match m s with Ret a s' => Q a s' | Bail s' => B s' | Undef => False end.

(** No bailout leaves the computation. *)
Definition never {S : Type} : S → Prop := λ _, False.

Section wp.
Context {S : Type}.
Implicit Types (s : S) (B : S → Prop).

Lemma wp_ret {A} (a : A) (Q : A → S → Prop) B s : Q a s → wp (mret a) Q B s.
Proof. done. Qed.

Lemma wp_bind {A C} (m : M S A) (k : A → M S C) Q B s :
  wp m (λ a, wp (k a) Q B) B s → wp (m ≫= k) Q B s.
Proof. unfold wp, mbind, M_bind. by destruct (m s). Qed.

Lemma wp_mono {A} (m : M S A) (Q Q' : A → S → Prop) B B' s :
  wp m Q B s → (∀ a s', Q a s' → Q' a s') → (∀ s', B s' → B' s') → wp m Q' B' s.
Proof. unfold wp. intros H HQ HB. destruct (m s); auto. Qed.

Lemma wp_get (Q : S → S → Prop) B s : Q s s → wp get Q B s.
Proof. done. Qed.
Lemma wp_gets {A} (f : S → A) (Q : A → S → Prop) B s : Q (f s) s → wp (gets f) Q B s.
Proof. done. Qed.
Lemma wp_modify (f : S → S) (Q : () → S → Prop) B s : Q () (f s) → wp (modify f) Q B s.
Proof. done. Qed.
Lemma wp_bail {A} (Q : A → S → Prop) B s : B s → wp bail Q B s.
Proof. done. Qed.
Lemma wp_need {A} (o : option A) a (Q : A → S → Prop) B s :
  o = Some a → Q a s → wp (need o) Q B s.
Proof. intros H HQ. by rewrite H. Qed.

(** A specification together with the result it speaks of. *)
Lemma wp_result {A} (m : M S A) (Q : A → S → Prop) B s :
  wp m Q B s → wp m (λ a s', Q a s' ∧ m s = Ret a s') (λ s', B s' ∧ m s = Bail s') s.
Proof. unfold wp. by destruct (m s). Qed.

End wp.

(** One step of symbolic execution of a computation under [wp]. *)
Ltac wp_step :=
  lazymatch goal with
  | |- wp (mbind _ _) _ _ _ => apply wp_bind
  | |- wp (mret _) _ _ _ => apply wp_ret
  | |- wp get _ _ _ => apply wp_get
  | |- wp (gets _) _ _ _ => apply wp_gets
  | |- wp (modify _) _ _ _ => apply wp_modify
  | |- wp bail _ _ _ => apply wp_bail
  end.
Ltac wp_steps := repeat (wp_step; cbn beta).
(** Use a specification of the computation at the head. *)
Tactic Notation "wp_use" uconstr(H) := eapply wp_mono; [eapply H| |].
