(* ===== verification/ZendTypes.v ===== *)
(** * The data representation of the Zend engine (Zend/zend_types.h)

    The reference counted header shared by every heap value, the zval with its
    type word, the type-hint masks and the memory layout of the hash table.
    The C macros and inline functions keep their names; a 32-bit field is a [Z]
    with its wrap-around written out. *)

From S2P Require Import Prelude.

(** ** The garbage-collector word: type, flags and root-buffer info *)
Module Gc.

Definition GC_TYPE_MASK : Z := 0x0000000f.
Definition GC_FLAGS_MASK : Z := 0x000003f0.
Definition GC_INFO_MASK : Z := 0xfffffc00.
Definition GC_FLAGS_SHIFT : Z := 0.
Definition GC_INFO_SHIFT : Z := 10.

Definition GC_NOT_COLLECTABLE : Z := Z.shiftl 1 4.
Definition GC_PROTECTED : Z := Z.shiftl 1 5.
Definition GC_IMMUTABLE : Z := Z.shiftl 1 6.
Definition GC_PERSISTENT : Z := Z.shiftl 1 7.
Definition GC_PERSISTENT_LOCAL : Z := Z.shiftl 1 8.

Definition IS_STR_CLASS_NAME_MAP_PTR : Z := GC_PROTECTED.
Definition IS_STR_INTERNED : Z := GC_IMMUTABLE.
Definition IS_STR_PERSISTENT : Z := GC_PERSISTENT.
Definition IS_STR_PERMANENT : Z := Z.shiftl 1 8.
Definition IS_STR_VALID_UTF8 : Z := Z.shiftl 1 9.

Definition zval_gc_type (gc_type_info : Z) : Z := Z.land gc_type_info GC_TYPE_MASK.

Definition zval_gc_flags (gc_type_info : Z) : Z :=
  Z.land (Z.shiftr gc_type_info GC_FLAGS_SHIFT) (Z.shiftr GC_FLAGS_MASK GC_FLAGS_SHIFT).

Definition zval_gc_info (gc_type_info : Z) : Z := Z.shiftr gc_type_info GC_INFO_SHIFT.

(** [GC_TYPE_INFO(p) |= flags << GC_FLAGS_SHIFT], on the word itself. *)
Definition gc_add_flags (type_info flags : Z) : Z :=
  Z.lor type_info (Z.shiftl flags GC_FLAGS_SHIFT).

(** [GC_TYPE_INFO(p) &= ~(flags << GC_FLAGS_SHIFT)]; the complement of a 32-bit
    word is its exclusive or with all ones. *)
Definition gc_del_flags (type_info flags : Z) : Z :=
  Z.land type_info (Z.lxor (Z.shiftl flags GC_FLAGS_SHIFT) 0xffffffff).

(** [GC_MAY_LEAK] of Zend/zend_gc.h: the value may be part of a cycle and is not
    yet in the root buffer. *)
Definition GC_MAY_LEAK (type_info : Z) : bool :=
  Z.land type_info (Z.lor GC_INFO_MASK (Z.shiftl GC_NOT_COLLECTABLE GC_FLAGS_SHIFT)) =? 0.

(** Recursion protection, on the collector word of an array or object. *)
Definition GC_IS_RECURSIVE (w : Z) : bool := negb (Z.land (zval_gc_flags w) GC_PROTECTED =? 0).
Definition GC_PROTECT_RECURSION (w : Z) : Z := gc_add_flags w GC_PROTECTED.
Definition GC_UNPROTECT_RECURSION (w : Z) : Z := gc_del_flags w GC_PROTECTED.
Definition GC_TRY_PROTECT_RECURSION (w : Z) : Z :=
  if Z.land (zval_gc_flags w) GC_IMMUTABLE =? 0 then GC_PROTECT_RECURSION w else w.
Definition GC_TRY_UNPROTECT_RECURSION (w : Z) : Z :=
  if Z.land (zval_gc_flags w) GC_IMMUTABLE =? 0 then GC_UNPROTECT_RECURSION w else w.

(** The same with a guard word of the object, one bit per kind of traversal. *)
Definition ZEND_GUARD_PROPERTY_MASK : Z := 31.
Definition ZEND_GUARD_RECURSION_DEBUG : Z := Z.shiftl 1 5.
Definition ZEND_GUARD_RECURSION_EXPORT : Z := Z.shiftl 1 6.
Definition ZEND_GUARD_RECURSION_JSON : Z := Z.shiftl 1 7.
Definition ZEND_GUARD_IS_RECURSIVE (pg t : Z) : bool := negb (Z.land pg t =? 0).
Definition ZEND_GUARD_PROTECT_RECURSION (pg t : Z) : Z := Z.lor pg t.
Definition ZEND_GUARD_UNPROTECT_RECURSION (pg t : Z) : Z := Z.land pg (Z.lxor t 0xffffffff).

(** A guard word when the object has one, else its collector word. *)
Definition ZEND_GUARD_OR_GC_IS_RECURSIVE (pg : option Z) (t w : Z) : bool :=
  match pg with Some g => ZEND_GUARD_IS_RECURSIVE g t | None => GC_IS_RECURSIVE w end.
Definition ZEND_GUARD_OR_GC_PROTECT_RECURSION (pg : option Z) (t w : Z) : option Z * Z :=
  match pg with
  | Some g => (Some (ZEND_GUARD_PROTECT_RECURSION g t), w)
  | None => (None, GC_PROTECT_RECURSION w)
  end.
Definition ZEND_GUARD_OR_GC_UNPROTECT_RECURSION (pg : option Z) (t w : Z) : option Z * Z :=
  match pg with
  | Some g => (Some (ZEND_GUARD_UNPROTECT_RECURSION g t), w)
  | None => (None, GC_UNPROTECT_RECURSION w)
  end.

(** A word of flag bits only: bits 4 to 9. *)
Definition flag_word (f : Z) : Prop := 0 <= f ∧ Z.land f GC_FLAGS_MASK = f.

End Gc.
Export Gc.

(** ** Types of a zval *)
Module Ty.

Definition IS_UNDEF : Z := 0.
Definition IS_NULL : Z := 1.
Definition IS_FALSE : Z := 2.
Definition IS_TRUE : Z := 3.
Definition IS_LONG : Z := 4.
Definition IS_DOUBLE : Z := 5.
Definition IS_STRING : Z := 6.
Definition IS_ARRAY : Z := 7.
Definition IS_OBJECT : Z := 8.
Definition IS_RESOURCE : Z := 9.
Definition IS_REFERENCE : Z := 10.
Definition IS_CONSTANT_AST : Z := 11.
Definition IS_CALLABLE : Z := 12.
Definition IS_ITERABLE : Z := 13.
Definition IS_VOID : Z := 14.
Definition IS_STATIC : Z := 15.
Definition IS_MIXED : Z := 16.
Definition IS_NEVER : Z := 17.
Definition IS_INDIRECT : Z := 12.
Definition IS_PTR : Z := 13.
Definition IS_ALIAS_PTR : Z := 14.
Definition IS_ERROR : Z := 15.
Definition IS_BOOL : Z := 18.
Definition IS_NUMBER : Z := 19.

Definition Z_TYPE_MASK : Z := 0xff.
Definition Z_TYPE_FLAGS_MASK : Z := 0xff00.
Definition Z_TYPE_FLAGS_SHIFT : Z := 8.
Definition Z_TYPE_INFO_EXTRA_SHIFT : Z := 16.

Definition IS_TYPE_REFCOUNTED : Z := Z.shiftl 1 0.
Definition IS_TYPE_COLLECTABLE : Z := Z.shiftl 1 1.

Definition Z_TYPE_INFO_REFCOUNTED (t : Z) : bool := negb (Z.land t Z_TYPE_FLAGS_MASK =? 0).

Definition IS_INTERNED_STRING_EX : Z := IS_STRING.
Definition IS_STRING_EX : Z := Z.lor IS_STRING (Z.shiftl IS_TYPE_REFCOUNTED Z_TYPE_FLAGS_SHIFT).
Definition collectable_ex (ty : Z) : Z :=
  Z.lor (Z.lor ty (Z.shiftl IS_TYPE_REFCOUNTED Z_TYPE_FLAGS_SHIFT))
        (Z.shiftl IS_TYPE_COLLECTABLE Z_TYPE_FLAGS_SHIFT).
Definition IS_ARRAY_EX : Z := collectable_ex IS_ARRAY.
Definition IS_OBJECT_EX : Z := collectable_ex IS_OBJECT.
Definition IS_RESOURCE_EX : Z :=
  Z.lor IS_RESOURCE (Z.shiftl IS_TYPE_REFCOUNTED Z_TYPE_FLAGS_SHIFT).
Definition IS_REFERENCE_EX : Z := collectable_ex IS_REFERENCE.
Definition IS_CONSTANT_AST_EX : Z :=
  Z.lor IS_CONSTANT_AST (Z.shiftl IS_TYPE_REFCOUNTED Z_TYPE_FLAGS_SHIFT).

(** The [GC_*] words a freshly built value starts with. *)
Definition not_collectable (ty : Z) : Z :=
  Z.lor ty (Z.shiftl GC_NOT_COLLECTABLE GC_FLAGS_SHIFT).
Definition GC_NULL : Z := not_collectable IS_NULL.
Definition GC_STRING : Z := not_collectable IS_STRING.
Definition GC_ARRAY : Z := IS_ARRAY.
Definition GC_OBJECT : Z := IS_OBJECT.
Definition GC_RESOURCE : Z := not_collectable IS_RESOURCE.
Definition GC_REFERENCE : Z := not_collectable IS_REFERENCE.
Definition GC_CONSTANT_AST : Z := not_collectable IS_CONSTANT_AST.

Definition ZEND_SAME_FAKE_TYPE (faketype realtype : Z) : bool :=
  (faketype =? realtype)
  || ((faketype =? IS_BOOL) && ((realtype =? IS_TRUE) || (realtype =? IS_FALSE))).

End Ty.
Export Ty.

(** ** Values *)
Module Zv.

(** The union [zend_value]: an integer, a double (its 64 bits), a pointer to a
    counted heap value, or any other pointer. [VNone] is a union never written. *)
Inductive zend_value : Type :=
| VNone
| VLval (lval : Z)
| VDval (bits : Z)
| VCounted (counted : loc)
| VPtr (ptr : option loc).

#[global] Instance zend_value_eq_dec : EqDecision zend_value.
Proof. solve_decision. Defined.

(** [struct _zval_struct]: the value, the type word [u1.type_info], the word [u2]. *)
Record zval : Type := Zval { z_value : zend_value; Z_TYPE_INFO : Z; Z_EXTRA : Z }.

#[global] Instance zval_eq_dec : EqDecision zval.
Proof. solve_decision. Defined.

(** An automatic zval before anything is stored in it. *)
Definition zval_uninit : zval := Zval VNone IS_UNDEF 0.

(** The bytes of the type word, on a little-endian layout. *)
Definition zval_get_type (z : zval) : Z := Z.land (Z_TYPE_INFO z) 0xff.
Definition Z_TYPE_FLAGS (z : zval) : Z := Z.land (Z.shiftr (Z_TYPE_INFO z) 8) 0xff.
Definition Z_TYPE_EXTRA (z : zval) : Z := Z.land (Z.shiftr (Z_TYPE_INFO z) 16) 0xffff.

Definition Z_COUNTED (z : zval) : option loc :=
  match z_value z with VCounted l => Some l | _ => None end.
Definition Z_LVAL (z : zval) : option Z :=
  match z_value z with VLval n => Some n | _ => None end.

Definition Z_CONSTANT (z : zval) : bool := zval_get_type z =? IS_CONSTANT_AST.
Definition Z_REFCOUNTED (z : zval) : bool := negb (Z_TYPE_FLAGS z =? 0).
Definition Z_COLLECTABLE (z : zval) : bool :=
  negb (Z.land (Z_TYPE_FLAGS z) IS_TYPE_COLLECTABLE =? 0).
Definition Z_COPYABLE (z : zval) : bool := zval_get_type z =? IS_ARRAY.
Definition Z_IMMUTABLE (z : zval) : bool := Z_TYPE_INFO z =? IS_ARRAY.
Definition Z_OPT_TYPE (z : zval) : Z := Z.land (Z_TYPE_INFO z) Z_TYPE_MASK.
Definition Z_OPT_REFCOUNTED (z : zval) : bool := Z_TYPE_INFO_REFCOUNTED (Z_TYPE_INFO z).
Definition Z_OPT_COLLECTABLE (z : zval) : bool :=
  negb (Z.land (Z_TYPE_INFO z) (Z.shiftl IS_TYPE_COLLECTABLE Z_TYPE_FLAGS_SHIFT) =? 0).
Definition Z_OPT_ISREF (z : zval) : bool := Z_OPT_TYPE z =? IS_REFERENCE.
Definition Z_ISREF (z : zval) : bool := zval_get_type z =? IS_REFERENCE.
Definition Z_ISUNDEF (z : zval) : bool := zval_get_type z =? IS_UNDEF.
Definition Z_ISNULL (z : zval) : bool := zval_get_type z =? IS_NULL.

(** The macros that store into a zval [z]. Those that only set the type keep the
    rest of the union. *)
Definition set_type (z : zval) (t : Z) : zval := Zval (z_value z) t (Z_EXTRA z).
Definition set_value (z : zval) (v : zend_value) (t : Z) : zval := Zval v t (Z_EXTRA z).

Definition ZVAL_UNDEF (z : zval) : zval := set_type z IS_UNDEF.
Definition ZVAL_NULL (z : zval) : zval := set_type z IS_NULL.
Definition ZVAL_FALSE (z : zval) : zval := set_type z IS_FALSE.
Definition ZVAL_TRUE (z : zval) : zval := set_type z IS_TRUE.
Definition ZVAL_BOOL (z : zval) (b : bool) : zval := set_type z (if b then IS_TRUE else IS_FALSE).
Definition ZVAL_LONG (z : zval) (l : Z) : zval := set_value z (VLval l) IS_LONG.
Definition ZVAL_DOUBLE (z : zval) (d : Z) : zval := set_value z (VDval d) IS_DOUBLE.
Definition ZVAL_INTERNED_STR (z : zval) (s : loc) : zval :=
  set_value z (VCounted s) IS_INTERNED_STRING_EX.
Definition ZVAL_NEW_STR (z : zval) (s : loc) : zval := set_value z (VCounted s) IS_STRING_EX.
Definition ZVAL_ARR (z : zval) (a : loc) : zval := set_value z (VCounted a) IS_ARRAY_EX.
Definition ZVAL_OBJ (z : zval) (o : loc) : zval := set_value z (VCounted o) IS_OBJECT_EX.
Definition ZVAL_RES (z : zval) (r : loc) : zval := set_value z (VCounted r) IS_RESOURCE_EX.
Definition ZVAL_REF (z : zval) (r : loc) : zval := set_value z (VCounted r) IS_REFERENCE_EX.
Definition ZVAL_AST (z : zval) (a : loc) : zval := set_value z (VCounted a) IS_CONSTANT_AST_EX.
Definition ZVAL_INDIRECT (z : zval) (v : option loc) : zval := set_value z (VPtr v) IS_INDIRECT.
Definition ZVAL_PTR (z : zval) (p : option loc) : zval := set_value z (VPtr p) IS_PTR.
Definition ZVAL_ALIAS_PTR (z : zval) (p : option loc) : zval := set_value z (VPtr p) IS_ALIAS_PTR.
Definition ZVAL_ERROR (z : zval) : zval := set_type z IS_ERROR.

(** [ZVAL_COPY_VALUE]: the value and the type word, not [u2]. *)
Definition ZVAL_COPY_VALUE (z v : zval) : zval := Zval (z_value v) (Z_TYPE_INFO v) (Z_EXTRA z).

End Zv.
Export Zv.

(** ** The counted heap *)
Module Heap.

(** What lies behind the counted header. Arrays, objects, resources and constant
    expressions keep their contents in the engine. *)
Inductive zend_body : Type :=
| BString (h len : Z) (val : block)
| BReference (val : zval)
| BOther.

(** [zend_refcounted_h] followed by the body. *)
Record zend_refcounted : Type :=
  Counted { gc_refcount : Z; gc_type_info : Z; gc_body : zend_body }.

Abbreviation zheap := (gmap positive zend_refcounted).

Definition with_refcount (o : zend_refcounted) (rc : Z) : zend_refcounted :=
  Counted rc (gc_type_info o) (gc_body o).
Definition with_type_info (o : zend_refcounted) (t : Z) : zend_refcounted :=
  Counted (gc_refcount o) t (gc_body o).

Definition GC_FLAGS (o : zend_refcounted) : Z := zval_gc_flags (gc_type_info o).
Definition GC_TYPE (o : zend_refcounted) : Z := zval_gc_type (gc_type_info o).
Definition has_flag (o : zend_refcounted) (f : Z) : bool := negb (Z.land (GC_FLAGS o) f =? 0).

Definition zend_gc_refcount (p : zend_refcounted) : Z := gc_refcount p.
Definition zend_gc_set_refcount (p : zend_refcounted) (rc : Z) : zend_refcounted :=
  with_refcount p rc.
Definition zend_gc_addref (p : zend_refcounted) : zend_refcounted :=
  with_refcount p (u32 (gc_refcount p + 1)).
Definition zend_gc_try_addref (p : zend_refcounted) : zend_refcounted :=
  if Z.land (gc_type_info p) GC_IMMUTABLE =? 0
  then with_refcount p (u32 (gc_refcount p + 1)) else p.
Definition zend_gc_try_delref (p : zend_refcounted) : zend_refcounted :=
  if Z.land (gc_type_info p) GC_IMMUTABLE =? 0
  then with_refcount p (u32 (gc_refcount p - 1)) else p.
(** [ZEND_ASSERT(p->refcount > 0)] holds or the decrement is undefined. *)
Definition zend_gc_delref (p : zend_refcounted) : option zend_refcounted :=
  if 0 <? gc_refcount p then Some (with_refcount p (u32 (gc_refcount p - 1))) else None.
Definition zend_gc_addref_ex (p : zend_refcounted) (rc : Z) : zend_refcounted :=
  with_refcount p (u32 (gc_refcount p + rc)).
Definition zend_gc_delref_ex (p : zend_refcounted) (rc : Z) : zend_refcounted :=
  with_refcount p (u32 (gc_refcount p - rc)).

(** The same operations through a pointer; [None] when the pointer is dangling. *)
Definition GC_ADDREF (l : loc) (h : zheap) : option zheap :=
  o ← h !! l; Some (<[l := zend_gc_addref o]> h).
Definition GC_DELREF (l : loc) (h : zheap) : option (Z * zheap) :=
  o ← h !! l; o' ← zend_gc_delref o; Some (gc_refcount o', <[l := o']> h).

Definition zval_refcount_p (z : zval) (h : zheap) : option Z :=
  l ← Z_COUNTED z; o ← h !! l; Some (gc_refcount o).
(** [ZEND_ASSERT(Z_REFCOUNTED_P(pz))] guards both. *)
Definition zval_addref_p (z : zval) (h : zheap) : option zheap :=
  if Z_REFCOUNTED z then l ← Z_COUNTED z; GC_ADDREF l h else None.
Definition zval_delref_p (z : zval) (h : zheap) : option (Z * zheap) :=
  if Z_REFCOUNTED z then l ← Z_COUNTED z; GC_DELREF l h else None.

Definition Z_TRY_ADDREF_P (z : zval) (h : zheap) : option zheap :=
  if Z_REFCOUNTED z then zval_addref_p z h else Some h.
Definition Z_TRY_DELREF_P (z : zval) (h : zheap) : option zheap :=
  if Z_REFCOUNTED z then snd <$> zval_delref_p z h else Some h.

(** [ZVAL_COPY(z, v)]. *)
Definition ZVAL_COPY (z v : zval) (h : zheap) : option (zval * zheap) :=
  let z' := ZVAL_COPY_VALUE z v in
  if Z_TYPE_INFO_REFCOUNTED (Z_TYPE_INFO v)
  then l ← Z_COUNTED v; h' ← GC_ADDREF l h; Some (z', h')
  else Some (z', h).

(** [ZVAL_STR] and [ZVAL_STR_COPY] look at the string's interned flag. *)
Definition ZSTR_IS_INTERNED (o : zend_refcounted) : bool := has_flag o IS_STR_INTERNED.

Definition ZVAL_STR (z : zval) (s : loc) (h : zheap) : option zval :=
  o ← h !! s;
  Some (set_value z (VCounted s) (if ZSTR_IS_INTERNED o then IS_INTERNED_STRING_EX else IS_STRING_EX)).

Definition ZVAL_STR_COPY (z : zval) (s : loc) (h : zheap) : option (zval * zheap) :=
  o ← h !! s;
  if ZSTR_IS_INTERNED o
  then Some (set_value z (VCounted s) IS_INTERNED_STRING_EX, h)
  else h' ← GC_ADDREF s h; Some (set_value z (VCounted s) IS_STRING_EX, h').

(** [ZVAL_DEREF]: the zval a reference points to, or the zval itself. *)
Definition ZVAL_DEREF (z : zval) (h : zheap) : option zval :=
  if Z_ISREF z
  then l ← Z_COUNTED z; o ← h !! l;
       match gc_body o with BReference v => Some v | _ => None end
  else Some z.

(** A fresh address and a new value there. *)
Definition halloc (o : zend_refcounted) (h : zheap) : loc * zheap :=
  let l := fresh (dom h) in (l, <[l := o]> h).

(** [ZVAL_NEW_REF(z, r)] and [ZVAL_MAKE_REF]. *)
Definition ZVAL_NEW_REF (z r : zval) (h : zheap) : zval * zheap :=
  let '(l, h') := halloc (Counted 1 GC_REFERENCE (BReference (ZVAL_COPY_VALUE zval_uninit r))) h in
  (set_value z (VCounted l) IS_REFERENCE_EX, h').
Definition ZVAL_MAKE_REF (z : zval) (h : zheap) : zval * zheap :=
  if Z_ISREF z then (z, h) else ZVAL_NEW_REF z z h.

(** [ZVAL_UNREF]: move the referenced value out and free the reference. *)
Definition ZVAL_UNREF (z : zval) (h : zheap) : option (zval * zheap) :=
  if Z_ISREF z
  then l ← Z_COUNTED z; o ← h !! l;
       match gc_body o with
       | BReference v => Some (ZVAL_COPY_VALUE z v, delete l h)
       | _ => None
       end
  else None.

(** [ZVAL_COPY_DEREF(z, v)]. *)
Definition ZVAL_COPY_DEREF (z v : zval) (h : zheap) : option (zval * zheap) :=
  if Z_OPT_REFCOUNTED v
  then if Z_OPT_ISREF v
       then l ← Z_COUNTED v; o ← h !! l;
            match gc_body o with
            | BReference r =>
                h' ← (if Z_OPT_REFCOUNTED r then zval_addref_p r h else Some h);
                Some (ZVAL_COPY_VALUE z r, h')
            | _ => None
            end
       else h' ← zval_addref_p v h; Some (ZVAL_COPY_VALUE z v, h')
  else Some (ZVAL_COPY_VALUE z v, h).

(** [zend_may_modify_arg_in_place]. *)
Definition zend_may_modify_arg_in_place (z : zval) (h : zheap) : option bool :=
  if Z_REFCOUNTED z
  then l ← Z_COUNTED z; o ← h !! l;
       Some ((Z.land (GC_FLAGS o) (Z.lor GC_IMMUTABLE GC_PERSISTENT) =? 0)
             && (gc_refcount o =? 1))
  else Some false.

End Heap.
Export Heap.

(** ** Type hints: [zend_type] *)
Module TypeHint.

Definition TYPE_MASK : Z := Z.shiftl 1 25 - 1.
Definition NAME_BIT : Z := Z.shiftl 1 24.
Definition LITERAL_NAME_BIT : Z := Z.shiftl 1 23.
Definition LIST_BIT : Z := Z.shiftl 1 22.
Definition KIND_MASK : Z := Z.lor (Z.lor LIST_BIT NAME_BIT) LITERAL_NAME_BIT.
Definition ITERABLE_BIT : Z := Z.shiftl 1 21.
Definition ARENA_BIT : Z := Z.shiftl 1 20.
Definition INTERSECTION_BIT : Z := Z.shiftl 1 19.
Definition UNION_BIT : Z := Z.shiftl 1 18.
Definition MAY_BE_MASK : Z := Z.shiftl 1 18 - 1.
Definition NULLABLE_BIT : Z := 0x2.

(** [MAY_BE_BOOL] and [MAY_BE_ANY] of Zend/zend_type_info.h. *)
Definition MAY_BE (code : Z) : Z := Z.shiftl 1 code.
Definition MAY_BE_BOOL : Z := Z.lor (MAY_BE IS_FALSE) (MAY_BE IS_TRUE).
Definition MAY_BE_ANY : Z :=
  foldr Z.lor 0 (MAY_BE <$> [IS_NULL; IS_FALSE; IS_TRUE; IS_LONG; IS_DOUBLE; IS_STRING;
                             IS_ARRAY; IS_OBJECT; IS_RESOURCE]).

(** [ptr] is a class name, a type list or NULL; a list is given by its elements. *)
Inductive zend_type : Type :=
| Type_ (ptr : zend_type_ptr) (type_mask : Z)
with zend_type_ptr : Type :=
| PNull
| PName (name : bytes)
| PList (types : zend_type_list)
with zend_type_list : Type :=
| TNil
| TCons (t : zend_type) (l : zend_type_list).

Definition t_ptr (t : zend_type) : zend_type_ptr := let 'Type_ p _ := t in p.
Definition type_mask (t : zend_type) : Z := let 'Type_ _ m := t in m.

Definition has_bit (t : zend_type) (b : Z) : bool := negb (Z.land (type_mask t) b =? 0).

Definition ZEND_TYPE_IS_SET (t : zend_type) : bool := has_bit t TYPE_MASK.
Definition ZEND_TYPE_IS_COMPLEX (t : zend_type) : bool := has_bit t KIND_MASK.
Definition ZEND_TYPE_HAS_NAME (t : zend_type) : bool := has_bit t NAME_BIT.
Definition ZEND_TYPE_HAS_LITERAL_NAME (t : zend_type) : bool := has_bit t LITERAL_NAME_BIT.
Definition ZEND_TYPE_HAS_LIST (t : zend_type) : bool := has_bit t LIST_BIT.
Definition ZEND_TYPE_IS_ITERABLE_FALLBACK (t : zend_type) : bool := has_bit t ITERABLE_BIT.
Definition ZEND_TYPE_IS_INTERSECTION (t : zend_type) : bool := has_bit t INTERSECTION_BIT.
Definition ZEND_TYPE_IS_UNION (t : zend_type) : bool := has_bit t UNION_BIT.
Definition ZEND_TYPE_USES_ARENA (t : zend_type) : bool := has_bit t ARENA_BIT.
Definition ZEND_TYPE_IS_ONLY_MASK (t : zend_type) : bool :=
  ZEND_TYPE_IS_SET t && match t_ptr t with PNull => true | _ => false end.

(** The elements the loop of [ZEND_TYPE_LIST_FOREACH] visits. *)
Fixpoint list_types (l : zend_type_list) : list zend_type :=
  match l with TNil => [] | TCons t l => t :: list_types l end.

(** [ZEND_TYPE_FOREACH] is a [do ... while (++_cur < _end)] loop: it reads its
    first element before it tests the bound, so an empty list is undefined. *)
Definition ZEND_TYPE_FOREACH (t : zend_type) : option (list zend_type) :=
  if ZEND_TYPE_HAS_LIST t
  then match t_ptr t with
       | PList (TCons u l) => Some (u :: list_types l)
       | _ => None
       end
  else Some [t].

Definition ZEND_TYPE_SET_PTR (t : zend_type) (p : zend_type_ptr) : zend_type :=
  Type_ p (type_mask t).
Definition ZEND_TYPE_SET_PTR_AND_KIND (t : zend_type) (p : zend_type_ptr) (kind_bit : Z) : zend_type :=
  Type_ p (Z.lor (Z.land (type_mask t) (Z.lxor KIND_MASK 0xffffffff)) kind_bit).
Definition ZEND_TYPE_SET_LIST (t : zend_type) (l : zend_type_list) : zend_type :=
  ZEND_TYPE_SET_PTR_AND_KIND t (PList l) LIST_BIT.

Definition ZEND_TYPE_FULL_MASK (t : zend_type) : Z := type_mask t.
Definition ZEND_TYPE_PURE_MASK (t : zend_type) : Z := Z.land (type_mask t) MAY_BE_MASK.
Definition ZEND_TYPE_FULL_MASK_WITHOUT_NULL (t : zend_type) : Z :=
  Z.land (type_mask t) (Z.lxor NULLABLE_BIT 0xffffffff).
Definition ZEND_TYPE_PURE_MASK_WITHOUT_NULL (t : zend_type) : Z :=
  Z.land (Z.land (type_mask t) MAY_BE_MASK) (Z.lxor NULLABLE_BIT 0xffffffff).
Definition ZEND_TYPE_CONTAINS_CODE (t : zend_type) (code : Z) : bool :=
  has_bit t (Z.shiftl 1 code).
Definition ZEND_TYPE_ALLOW_NULL (t : zend_type) : bool := has_bit t NULLABLE_BIT.

Definition nullable (allow_null : bool) : Z := if allow_null then NULLABLE_BIT else 0.

Definition ZEND_TYPE_INIT_NONE (extra_flags : Z) : zend_type := Type_ PNull extra_flags.
Definition ZEND_TYPE_INIT_MASK (m : Z) : zend_type := Type_ PNull m.
Definition ZEND_TYPE_INIT_CODE (code : Z) (allow_null : bool) (extra_flags : Z) : zend_type :=
  ZEND_TYPE_INIT_MASK
    (Z.lor (Z.lor (if code =? IS_BOOL then MAY_BE_BOOL
                   else if code =? IS_ITERABLE then ITERABLE_BIT
                   else if code =? IS_MIXED then MAY_BE_ANY
                   else Z.shiftl 1 code)
                  (nullable allow_null)) extra_flags).
Definition ZEND_TYPE_INIT_PTR (p : zend_type_ptr) (kind : Z) (allow_null : bool) (extra_flags : Z) :=
  Type_ p (Z.lor (Z.lor kind (nullable allow_null)) extra_flags).
Definition ZEND_TYPE_INIT_PTR_MASK (p : zend_type_ptr) (m : Z) : zend_type := Type_ p m.
Definition ZEND_TYPE_INIT_UNION (l : zend_type_list) (extra_flags : Z) : zend_type :=
  Type_ (PList l) (Z.lor (Z.lor LIST_BIT UNION_BIT) extra_flags).
Definition ZEND_TYPE_INIT_INTERSECTION (l : zend_type_list) (extra_flags : Z) : zend_type :=
  Type_ (PList l) (Z.lor (Z.lor LIST_BIT INTERSECTION_BIT) extra_flags).
Definition ZEND_TYPE_INIT_CLASS (name : bytes) (allow_null : bool) (extra_flags : Z) : zend_type :=
  ZEND_TYPE_INIT_PTR (PName name) NAME_BIT allow_null extra_flags.
Definition ZEND_TYPE_INIT_CLASS_MASK (name : bytes) (m : Z) : zend_type :=
  ZEND_TYPE_INIT_PTR_MASK (PName name) (Z.lor NAME_BIT m).
Definition ZEND_TYPE_INIT_CLASS_CONST (name : bytes) (allow_null : bool) (extra_flags : Z) : zend_type :=
  ZEND_TYPE_INIT_PTR (PName name) LITERAL_NAME_BIT allow_null extra_flags.
Definition ZEND_TYPE_INIT_CLASS_CONST_MASK (name : bytes) (m : Z) : zend_type :=
  ZEND_TYPE_INIT_PTR_MASK (PName name) (Z.lor LITERAL_NAME_BIT m).

End TypeHint.

(** ** Memory layout of the hash table *)
Module HashLayout.

Definition HT_INVALID_IDX : Z := u32 (-1).
Definition HT_MIN_MASK : Z := u32 (-2).
Definition HT_MIN_SIZE : Z := 8.
Definition HT_MAX_SIZE : Z := 0x40000000.

Definition sizeof_uint32 : Z := 4.
Definition sizeof_zval : Z := 16.
Definition sizeof_Bucket : Z := 32.

Definition HT_IDX_TO_HASH (idx : Z) : Z := idx.
Definition HT_HASH_TO_IDX (idx : Z) : Z := idx.

(** The arithmetic is on [uint32_t] up to the cast to [size_t]. *)
Definition HT_SIZE_TO_MASK (nTableSize : Z) : Z := u32 (- u32 (nTableSize + nTableSize)).
Definition HT_HASH_SIZE (nTableMask : Z) : Z := u64 (u32 (- nTableMask) * sizeof_uint32).
Definition HT_DATA_SIZE (nTableSize : Z) : Z := u64 (nTableSize * sizeof_Bucket).
Definition HT_SIZE_EX (nTableSize nTableMask : Z) : Z :=
  u64 (HT_DATA_SIZE nTableSize + HT_HASH_SIZE nTableMask).
Definition HT_USED_SIZE (nTableMask nNumUsed : Z) : Z :=
  u64 (HT_HASH_SIZE nTableMask + u64 (nNumUsed * sizeof_Bucket)).
Definition HT_PACKED_DATA_SIZE (nTableSize : Z) : Z := u64 (nTableSize * sizeof_zval).
Definition HT_PACKED_SIZE_EX (nTableSize nTableMask : Z) : Z :=
  u64 (HT_PACKED_DATA_SIZE nTableSize + HT_HASH_SIZE nTableMask).
Definition HT_PACKED_USED_SIZE (nTableMask nNumUsed : Z) : Z :=
  u64 (HT_HASH_SIZE nTableMask + u64 (nNumUsed * sizeof_zval)).

(** [HT_SET_DATA_ADDR] and [HT_GET_DATA_ADDR] on addresses. *)
Definition HT_SET_DATA_ADDR (ptr nTableMask : Z) : Z := ptr + HT_HASH_SIZE nTableMask.
Definition HT_GET_DATA_ADDR (arData nTableMask : Z) : Z := arData - HT_HASH_SIZE nTableMask.

(** The byte offset from [arData] of the hash slot [HT_HASH_EX(data, idx)]: the
    index is reinterpreted as a signed 32-bit integer. *)
Definition HT_HASH_EX_offset (idx : Z) : Z := s32 idx * sizeof_uint32.

(** [HT_HASH_RESET] (the vector variant): 64 bytes, sixteen slots, per turn of a
    [do ... while (size != 0)] loop over [size], an unsigned [size_t]. The state
    is the slot array; a turn that leaves the array is undefined. *)
Fixpoint HT_HASH_RESET_loop (fuel : nat) (p size : Z) (slots : list Z) : option (list Z) :=
  match fuel with
  | O => None
  | S fuel =>
      if p + 16 <=? Z.of_nat (length slots)
      then
        let slots' := take (Z.to_nat p) slots ++ replicate 16 HT_INVALID_IDX
                        ++ drop (Z.to_nat p + 16) slots in
        let size' := u64 (size - 64) in
        if size' =? 0 then Some slots' else HT_HASH_RESET_loop fuel (p + 16) size' slots'
      else None
  end.

(** One turn per 64 bytes; the slots are those of the table's hash part. *)
Definition HT_HASH_RESET (nTableMask : Z) (slots : list Z) : option (list Z) :=
  let size := HT_HASH_SIZE nTableMask in
  if (64 <=? size) && (Z.land size 0x3f =? 0)
  then HT_HASH_RESET_loop (S (length slots)) 0 size slots else None.

(** The variant for other processors: [memset] with the low byte of
    [HT_INVALID_IDX], four bytes to a slot. *)
Definition HT_HASH_RESET_memset (nTableMask : Z) (slots : list Z) : option (list Z) :=
  let n := Z.to_nat (HT_HASH_SIZE nTableMask / sizeof_uint32) in
  if decide (n ≤ length slots)%nat
  then Some (replicate n (Z.land HT_INVALID_IDX 0xff * 0x01010101) ++ drop n slots) else None.

(** [HT_HASH_RESET_PACKED]: the two slots before [arData]. *)
Definition HT_HASH_RESET_PACKED (slots : list Z) : list Z :=
  let n := length slots in
  <[(n - 1)%nat := HT_INVALID_IDX]> (<[(n - 2)%nat := HT_INVALID_IDX]> slots).

End HashLayout.

(** ** Theorems *)

Ltac gc_unfold :=
  unfold zval_gc_type, zval_gc_flags, zval_gc_info, gc_add_flags, gc_del_flags,
    GC_TYPE_MASK, GC_FLAGS_MASK, GC_FLAGS_SHIFT, GC_INFO_SHIFT in *;
  change 0x0000000f with (Z.ones 4) in *; change 0x3f0 with (Z.shiftl (Z.ones 6) 4) in *;
  change 0xffffffff with (Z.ones 32) in *.

Lemma flag_word_bit f i :
  flag_word f → 0 <= i → i < 4 ∨ 10 <= i → Z.testbit f i = false.
Proof.
  intros [Hf He] Hi Ho. rewrite <- He. gc_unfold. zbits_norm.
  destruct Ho; [rewrite (Z.testbit_neg_r (Z.ones 6)) by lia|zbits_norm; zbits_split; [lia|]];
    apply andb_false_r.
Qed.

(** Decide the goal at bit [i] of words whose flag operand is [f]. *)
Ltac flag_bits f Hf :=
  apply Z.bits_inj'; let i := fresh "i" in intros i ?;
  repeat (zbits_norm; zbits_split); zbits_norm;
  repeat match goal with
  | |- context [Z.testbit f ?j] => rewrite (flag_word_bit f j Hf) by lia
  end;
  repeat match goal with
  | |- context [Z.testbit ?x ?j] => destruct (Z.testbit x j) eqn:?
  end; try done; try lia.

(** The three fields of the collector word overlap nowhere and lose nothing. *)
Lemma gc_word_fields w :
  Z.lor (Z.lor (zval_gc_type w) (zval_gc_flags w)) (Z.shiftl (zval_gc_info w) GC_INFO_SHIFT) = w.
Proof. gc_unfold. zbits. Qed.

Lemma gc_add_flags_fields w f :
  flag_word f →
  zval_gc_type (gc_add_flags w f) = zval_gc_type w ∧
  zval_gc_info (gc_add_flags w f) = zval_gc_info w ∧
  zval_gc_flags (gc_add_flags w f) = Z.lor (zval_gc_flags w) f.
Proof. intros Hf. gc_unfold. split_and!; flag_bits f Hf. Qed.

Lemma gc_del_flags_fields w f :
  flag_word f → in_u32 w →
  zval_gc_type (gc_del_flags w f) = zval_gc_type w ∧
  zval_gc_info (gc_del_flags w f) = zval_gc_info w ∧
  zval_gc_flags (gc_del_flags w f) = Z.ldiff (zval_gc_flags w) f.
Proof.
  intros Hf Hw. assert (Hhi : ∀ j, 32 <= j → Z.testbit w j = false).
  { intros. apply (testbit_above 32); [done|lia]. }
  gc_unfold. split_and!; apply Z.bits_inj'; intros i Hi; rewrite ?Z.ldiff_spec.
  all: repeat (zbits_norm; zbits_split); zbits_norm.
  all: rewrite ?(flag_word_bit f (i + 10) Hf), ?Hhi by lia.
  all: try (rewrite (flag_word_bit f i Hf) by lia).
  all: repeat match goal with
  | |- context [Z.testbit ?x ?j] => destruct (Z.testbit x j) eqn:?
  end; try done; try lia.
Qed.

(** Type, flags and GC information partition the 32-bit type word, and adding
    or removing flags changes nothing else. *)
Lemma gc_word_partition w f :
  flag_word f → in_u32 w →
  Z.lor (Z.lor (zval_gc_type w) (zval_gc_flags w)) (Z.shiftl (zval_gc_info w) GC_INFO_SHIFT) = w ∧
  zval_gc_type (gc_add_flags w f) = zval_gc_type w ∧
  zval_gc_info (gc_add_flags w f) = zval_gc_info w ∧
  zval_gc_flags (gc_add_flags w f) = Z.lor (zval_gc_flags w) f ∧
  zval_gc_type (gc_del_flags w f) = zval_gc_type w ∧
  zval_gc_info (gc_del_flags w f) = zval_gc_info w ∧
  zval_gc_flags (gc_del_flags w f) = Z.ldiff (zval_gc_flags w) f.
Proof.
  intros Hf Hw. destruct (gc_add_flags_fields w f Hf) as (?&?&?).
  destruct (gc_del_flags_fields w f Hf Hw) as (?&?&?).
  split_and!; auto using gc_word_fields.
Qed.

(** Setting and clearing one bit of a 32-bit word. *)
Lemma bit_set w n : 0 <= n → (Z.land (Z.lor w (Z.shiftl 1 n)) (Z.shiftl 1 n) =? 0) = false.
Proof.
  intros Hn. apply Z.eqb_neq. intros H. apply (f_equal (λ x, Z.testbit x n)) in H. revert H.
  rewrite Z.land_spec, Z.lor_spec, Z.shiftl_spec, Z.sub_diag, Z.testbit_0_l by done.
  by destruct (Z.testbit w n).
Qed.

Lemma bit_set_clear w n :
  in_u32 w → 0 <= n < 32 → Z.land w (Z.shiftl 1 n) = 0 →
  Z.land (Z.lor w (Z.shiftl 1 n)) (Z.lxor (Z.shiftl 1 n) 0xffffffff) = w.
Proof.
  intros Hw Hn H0. change 0xffffffff with (Z.ones 32). apply Z.bits_inj'. intros i Hi.
  rewrite Z.land_spec, Z.lor_spec, Z.lxor_spec, testbit_ones_if by lia.
  apply (f_equal (λ x, Z.testbit x i)) in H0. rewrite Z.land_spec, Z.testbit_0_l in H0.
  destruct (Z.ltb_spec i 32).
  - by destruct (Z.testbit w i), (Z.testbit (Z.shiftl 1 n) i).
  - rewrite (testbit_above 32 w i) by (done || lia). rewrite Z.shiftl_spec, (testbit_above 1) by lia. done.
Qed.

Lemma flags_protected w : Z.land (zval_gc_flags w) GC_PROTECTED = Z.land w GC_PROTECTED.
Proof.
  unfold zval_gc_flags, GC_FLAGS_SHIFT. rewrite !Z.shiftr_0_r, <- Z.land_assoc. by f_equal.
Qed.

(** Protecting an object against recursion is seen by the test, keeps type,
    GC information and property guards, and unprotecting restores guard and type
    word when it was not protected before. *)
Theorem recursion_protection pg t w :
  t ∈ [ZEND_GUARD_RECURSION_DEBUG; ZEND_GUARD_RECURSION_EXPORT; ZEND_GUARD_RECURSION_JSON] →
  in_u32 w → from_option in_u32 True pg →
  let '(pg', w') := ZEND_GUARD_OR_GC_PROTECT_RECURSION pg t w in
  ZEND_GUARD_OR_GC_IS_RECURSIVE pg' t w' = true ∧
  zval_gc_type w' = zval_gc_type w ∧ zval_gc_info w' = zval_gc_info w ∧
  (∀ g g', pg = Some g → pg' = Some g' →
     Z.land g' ZEND_GUARD_PROPERTY_MASK = Z.land g ZEND_GUARD_PROPERTY_MASK) ∧
  (ZEND_GUARD_OR_GC_IS_RECURSIVE pg t w = false →
     ZEND_GUARD_OR_GC_UNPROTECT_RECURSION pg' t w' = (pg, w)).
Proof.
  intros Ht Hw Hg.
  assert (∃ n, t = Z.shiftl 1 n ∧ 5 <= n < 32) as (n&->&Hn).
  { repeat (apply elem_of_cons in Ht as [->|Ht]); [by exists 5|by exists 6|by exists 7|].
    by apply elem_of_nil in Ht. }
  destruct pg as [g|]; simpl in *.
  - unfold ZEND_GUARD_IS_RECURSIVE, ZEND_GUARD_PROTECT_RECURSION, ZEND_GUARD_UNPROTECT_RECURSION.
    rewrite bit_set by lia. split_and!; [done..| |].
    + intros ? ? [= <-] [= <-]. change ZEND_GUARD_PROPERTY_MASK with (Z.ones 5).
      rewrite !Z.land_ones by lia. rewrite <- !Z.land_ones, Z.land_lor_distr_l by lia.
      replace (Z.land (Z.shiftl 1 n) (Z.ones 5)) with 0; [apply Z.lor_0_r|].
      symmetry. apply Z.bits_inj'. intros i Hi. rewrite Z.land_spec, testbit_ones_if, Z.testbit_0_l by lia.
      destruct (Z.ltb_spec i 5); [|apply andb_false_r].
      by rewrite Z.shiftl_spec, Z.testbit_neg_r by lia.
    + intros H%negb_false_iff%Z.eqb_eq. rewrite bit_set_clear by (done || lia). done.
  - unfold GC_IS_RECURSIVE, GC_PROTECT_RECURSION, GC_UNPROTECT_RECURSION. rewrite !flags_protected.
    assert (Hf : flag_word GC_PROTECTED) by done.
    destruct (gc_add_flags_fields w GC_PROTECTED Hf) as (Hty&Hinfo&_). rewrite Hty, Hinfo.
    unfold gc_add_flags, gc_del_flags, GC_FLAGS_SHIFT, GC_PROTECTED. rewrite !Z.shiftl_0_r.
    rewrite bit_set by lia. split_and!; [done..|]. intros H%negb_false_iff%Z.eqb_eq.
    by rewrite bit_set_clear by (done || lia).
Qed.

(** *** Type words *)

(** The flag byte of a well-formed zval: collectable only with refcounted. *)
Definition type_flags_ok (z : zval) : Prop :=
  Z_TYPE_FLAGS z = 0 ∨ Z_TYPE_FLAGS z = IS_TYPE_REFCOUNTED
  ∨ Z_TYPE_FLAGS z = Z.lor IS_TYPE_REFCOUNTED IS_TYPE_COLLECTABLE.

Lemma opt_flags t : Z.land t Z_TYPE_FLAGS_MASK = Z.shiftl (Z.land (Z.shiftr t 8) 0xff) 8.
Proof.
  change Z_TYPE_FLAGS_MASK with (Z.shiftl (Z.ones 8) 8). change 0xff with (Z.ones 8). zbits.
Qed.

Lemma opt_collectable t :
  Z.land t (Z.shiftl IS_TYPE_COLLECTABLE Z_TYPE_FLAGS_SHIFT)
  = Z.shiftl (Z.land (Z.land (Z.shiftr t 8) 0xff) IS_TYPE_COLLECTABLE) 8.
Proof.
  change (Z.shiftl IS_TYPE_COLLECTABLE Z_TYPE_FLAGS_SHIFT) with (Z.shiftl (Z.ones 1) 9).
  change IS_TYPE_COLLECTABLE with (Z.shiftl (Z.ones 1) 1). change 0xff with (Z.ones 8).
  zbits; replace (i - 8 + 8) with i by lia; try done.
Qed.

Lemma shiftl_eqb_0 a n : 0 <= n → (Z.shiftl a n =? 0) = (a =? 0).
Proof.
  intros. rewrite Z.shiftl_mul_pow2 by done. pose proof (Z.pow_pos_nonneg 2 n).
  destruct (Z.eqb_spec a 0), (Z.eqb_spec (a * 2 ^ n) 0); nia.
Qed.

Lemma opt_refcounted z : Z_OPT_REFCOUNTED z = Z_REFCOUNTED z.
Proof.
  unfold Z_OPT_REFCOUNTED, Z_TYPE_INFO_REFCOUNTED, Z_REFCOUNTED, Z_TYPE_FLAGS.
  by rewrite opt_flags, shiftl_eqb_0.
Qed.

Lemma opt_accessors_agree z :
  Z_OPT_TYPE z = zval_get_type z ∧
  Z_OPT_REFCOUNTED z = Z_REFCOUNTED z ∧
  Z_OPT_COLLECTABLE z = Z_COLLECTABLE z ∧
  Z_OPT_ISREF z = Z_ISREF z.
Proof.
  split_and!; [done|apply opt_refcounted| |done].
  unfold Z_OPT_COLLECTABLE, Z_COLLECTABLE, Z_TYPE_FLAGS.
  by rewrite opt_collectable, shiftl_eqb_0.
Qed.

(** The optimised test of [Z_REFCOUNTED] is the bit test it stands for. *)
Lemma refcounted_bit z :
  type_flags_ok z → Z_REFCOUNTED z = negb (Z.land (Z_TYPE_FLAGS z) IS_TYPE_REFCOUNTED =? 0).
Proof. unfold Z_REFCOUNTED. by intros [-> | [-> | ->]]. Qed.

(** *** Copies and releases *)

Lemma GC_ADDREF_lookup l h o :
  h !! l = Some o → GC_ADDREF l h = Some (<[l := zend_gc_addref o]> h).
Proof. unfold GC_ADDREF. by intros ->. Qed.

Lemma GC_DELREF_lookup l h o :
  h !! l = Some o → 0 < gc_refcount o < 2 ^ 32 →
  GC_DELREF l h = Some (gc_refcount o - 1, <[l := with_refcount o (gc_refcount o - 1)]> h).
Proof.
  intros Hl Hr. unfold GC_DELREF. rewrite Hl. simpl. unfold zend_gc_delref.
  rewrite (proj2 (Z.ltb_lt _ _)) by lia. simpl. by rewrite u32_small by lia.
Qed.

(** ZVAL_COPY shares the value and adds a reference only to counted values;
    dropping it again restores the heap. *)
Theorem copy_then_release z v h :
  (Z_REFCOUNTED v = true →
     ∃ l o, Z_COUNTED v = Some l ∧ h !! l = Some o ∧ 0 < gc_refcount o < 2 ^ 32 - 1) →
  ∃ z' h', ZVAL_COPY z v h = Some (z', h') ∧ z_value z' = z_value v ∧
    zval_get_type z' = zval_get_type v ∧ Z_TRY_DELREF_P z' h' = Some h.
Proof.
  intros Hc. unfold ZVAL_COPY.
  pose proof (opt_refcounted v) as Ho. unfold Z_OPT_REFCOUNTED in Ho.
  rewrite Ho. destruct (Z_REFCOUNTED v) eqn:Hr.
  - destruct (Hc eq_refl) as (l&o&Hl&Ho'&Hb). rewrite Hl. simpl.
    rewrite (GC_ADDREF_lookup _ _ _ Ho'). simpl. eexists _, _. split_and!; [done..|].
    unfold Z_TRY_DELREF_P. change (Z_REFCOUNTED (ZVAL_COPY_VALUE z v)) with (Z_REFCOUNTED v).
    rewrite Hr. unfold zval_delref_p.
    change (Z_REFCOUNTED (ZVAL_COPY_VALUE z v)) with (Z_REFCOUNTED v). rewrite Hr.
    change (Z_COUNTED (ZVAL_COPY_VALUE z v)) with (Z_COUNTED v). rewrite Hl. simpl.
    rewrite (GC_DELREF_lookup _ _ (zend_gc_addref o)); [|by rewrite lookup_insert_eq|].
    + simpl. rewrite insert_insert_eq. f_equal. rewrite u32_small by lia.
      rewrite insert_id; [done|]. rewrite Ho'. f_equal. destruct o. unfold with_refcount. simpl.
      f_equal. lia.
    + simpl. rewrite u32_small; lia.
  - eexists _, _. split_and!; [done..|]. unfold Z_TRY_DELREF_P.
    change (Z_REFCOUNTED (ZVAL_COPY_VALUE z v)) with (Z_REFCOUNTED v). by rewrite Hr.
Qed.

(** ZVAL_MAKE_REF wraps a value in a reference through which it is read back,
    and ZVAL_UNREF restores the value and the heap. *)
Lemma make_ref_unref z h :
  Z_ISREF z = false →
  ∃ r h', ZVAL_MAKE_REF z h = (r, h') ∧ Z_ISREF r = true ∧
    (∃ v, ZVAL_DEREF r h' = Some v ∧ z_value v = z_value z ∧ Z_TYPE_INFO v = Z_TYPE_INFO z) ∧
    ZVAL_UNREF r h' = Some (z, h).
Proof.
  intros Hz. unfold ZVAL_MAKE_REF. rewrite Hz. unfold ZVAL_NEW_REF, halloc.
  set (l := fresh (dom h)). assert (Hl : h !! l = None).
  { apply not_elem_of_dom, is_fresh. }
  eexists _, _. split_and!; [done..| |].
  - eexists. split_and!.
    { unfold ZVAL_DEREF. simpl. by rewrite lookup_insert_eq. } all: done.
  - unfold ZVAL_UNREF. simpl. rewrite lookup_insert_eq. simpl.
    rewrite delete_insert_id by done. by destruct z.
Qed.

(** *** Layout of the hash table *)
Section layout.
Import HashLayout.

Lemma HT_SIZE_TO_MASK_eq n : 0 < n < 2 ^ 31 → HT_SIZE_TO_MASK n = 2 ^ 32 - 2 * n.
Proof.
  intros. unfold HT_SIZE_TO_MASK. rewrite (u32_small (n + n)) by lia. unfold u32.
  rewrite Z_mod_nz_opp_full; rewrite Z.mod_small; lia.
Qed.

Lemma HT_HASH_SIZE_mask n :
  0 < n < 2 ^ 31 → HT_HASH_SIZE (HT_SIZE_TO_MASK n) = 8 * n.
Proof.
  intros. rewrite HT_SIZE_TO_MASK_eq by done. unfold HT_HASH_SIZE, sizeof_uint32.
  assert (u32 (- (2 ^ 32 - 2 * n)) = 2 * n) as ->.
  { unfold u32. rewrite Z_mod_nz_opp_full; rewrite Z.mod_small; lia. }
  rewrite u64_small; lia.
Qed.

(** Powers of two from the smallest to the largest table. *)
Definition table_size (n : Z) : Prop := ∃ k, 3 <= k <= 30 ∧ n = 2 ^ k.

Lemma table_size_bounds n : table_size n → 8 <= n <= HT_MAX_SIZE ∧ (8 | n).
Proof.
  intros (k&Hk&->). change HT_MAX_SIZE with (2 ^ 30). change 8 with (2 ^ 3) at 1.
  split; [split; apply Z.pow_le_mono_r; lia|].
  exists (2 ^ (k - 3)). change 8 with (2 ^ 3). rewrite <- Z.pow_add_r by lia. f_equal. lia.
Qed.

(** For every legal table size the mask, the hash part, the total allocation
    and the packed allocation are what the size says without wrapping, doubling
    stays below HT_MAX_SIZE, and the data address is recovered from the data
    pointer. *)
Theorem table_layout_fits n :
  table_size n →
  HT_SIZE_TO_MASK n ≠ 0 ∧
  HT_HASH_SIZE (HT_SIZE_TO_MASK n) = 8 * n ∧
  HT_SIZE_EX n (HT_SIZE_TO_MASK n) = 40 * n ∧
  HT_PACKED_SIZE_EX n (HT_SIZE_TO_MASK n) = 24 * n ∧
  (if n <? HT_MAX_SIZE then n + n else n) <= HT_MAX_SIZE ∧
  HT_SIZE_TO_MASK (2 * HT_MAX_SIZE) = 0 ∧
  (∀ ptr, HT_GET_DATA_ADDR (HT_SET_DATA_ADDR ptr (HT_SIZE_TO_MASK n)) (HT_SIZE_TO_MASK n) = ptr).
Proof.
  intros Hn. pose proof (table_size_bounds n Hn) as [[Hlo Hhi] _].
  unfold HT_MAX_SIZE in Hhi. pose proof (HT_HASH_SIZE_mask n) as Hs.
  split_and!.
  - rewrite HT_SIZE_TO_MASK_eq; lia.
  - apply Hs. lia.
  - unfold HT_SIZE_EX, HT_DATA_SIZE, sizeof_Bucket. rewrite Hs by lia.
    rewrite (u64_small (n * 32)), u64_small; lia.
  - unfold HT_PACKED_SIZE_EX, HT_PACKED_DATA_SIZE, sizeof_zval. rewrite Hs by lia.
    rewrite (u64_small (n * 16)), u64_small; lia.
  - destruct (Z.ltb_spec n HT_MAX_SIZE) as [H|H]; [|done].
    destruct Hn as (k&Hk&->). change HT_MAX_SIZE with (2 ^ 30) in *.
    apply Z.pow_lt_mono_r_iff in H; [|lia..]. replace (2 ^ k + 2 ^ k) with (2 ^ Z.succ k).
    + apply Z.pow_le_mono_r; lia.
    + rewrite Z.pow_succ_r; lia.
  - done.
  - intros. unfold HT_GET_DATA_ADDR, HT_SET_DATA_ADDR. lia.
Qed.

(** The hash slot of any hash value lies inside the hash part, below the data
    pointer. *)
Lemma hash_slot_in_bounds n h :
  table_size n → 0 <= h < 2 ^ 32 →
  - HT_HASH_SIZE (HT_SIZE_TO_MASK n) <= HT_HASH_EX_offset (Z.lor h (HT_SIZE_TO_MASK n)) <= -4.
Proof.
  intros Hn Hh. pose proof (table_size_bounds n Hn) as [[Hlo Hhi] _]. unfold HT_MAX_SIZE in Hhi.
  rewrite HT_HASH_SIZE_mask by lia.
  destruct Hn as (k&Hk&Hn). assert (H31 : 2 ^ 31 <= HT_SIZE_TO_MASK n < 2 ^ 32).
  { rewrite HT_SIZE_TO_MASK_eq; lia. }
  assert (Hlor : HT_SIZE_TO_MASK n <= Z.lor h (HT_SIZE_TO_MASK n) < 2 ^ 32).
  { split; [apply lor_ge_r|apply (lor_lt_pow2 32)]; lia. }
  unfold HT_HASH_EX_offset, sizeof_uint32, s32, sint. rewrite Z.mod_small by lia.
  rewrite (proj2 (Z.ltb_ge _ _)) by lia. rewrite HT_SIZE_TO_MASK_eq in * by lia. lia.
Qed.

Lemma HT_HASH_RESET_loop_fills fuel (j m : nat) rest :
  (0 < m < fuel)%nat → Z.of_nat m < 2 ^ 32 → length rest = (16 * m)%nat →
  HT_HASH_RESET_loop fuel (16 * Z.of_nat j) (64 * Z.of_nat m)
    (replicate (16 * j) HT_INVALID_IDX ++ rest)
  = Some (replicate (16 * (j + m)) HT_INVALID_IDX).
Proof.
  revert j m rest. induction fuel as [|fuel IH]; intros j m rest Hm Hb Hr; [lia|].
  cbn [HT_HASH_RESET_loop]. rewrite (proj2 (Z.leb_le _ _)) by
    (rewrite length_app, length_replicate, Hr; lia).
  assert (Hsplit : take (Z.to_nat (16 * Z.of_nat j)) (replicate (16 * j) HT_INVALID_IDX ++ rest) ++
     replicate 16 HT_INVALID_IDX ++ drop (Z.to_nat (16 * Z.of_nat j) + 16)
       (replicate (16 * j) HT_INVALID_IDX ++ rest)
     = replicate (16 * S j) HT_INVALID_IDX ++ drop 16 rest).
  { replace (Z.to_nat (16 * Z.of_nat j)) with (16 * j)%nat by lia.
    rewrite take_app_length' by by rewrite length_replicate.
    rewrite drop_app_ge by (rewrite length_replicate; lia). rewrite length_replicate.
    rewrite app_assoc, <- replicate_add. f_equal; f_equal; lia. }
  rewrite Hsplit. clear Hsplit. rewrite u64_small by lia.
  replace (64 * Z.of_nat m - 64) with (64 * Z.of_nat (m - 1)) by lia.
  destruct (Z.eqb_spec (64 * Z.of_nat (m - 1)) 0) as [H|H].
  - rewrite drop_ge, app_nil_r by lia. do 2 f_equal. lia.
  - replace (16 * Z.of_nat j + 16) with (16 * Z.of_nat (S j)) by lia.
    rewrite IH; [do 2 f_equal; lia|lia|lia|]. rewrite length_drop. lia.
Qed.

(** The vector loop and the memset variant of HT_HASH_RESET both terminate
    and set every slot to HT_INVALID_IDX. *)
Theorem hash_reset_clears n slots :
  table_size n → Z.of_nat (length slots) = 2 * n →
  HT_HASH_RESET (HT_SIZE_TO_MASK n) slots = Some (replicate (length slots) HT_INVALID_IDX) ∧
  HT_HASH_RESET_memset (HT_SIZE_TO_MASK n) slots = Some (replicate (length slots) HT_INVALID_IDX).
Proof.
  intros Hn Hl. pose proof (table_size_bounds n Hn) as [[Hlo Hhi] [q Hq]].
  unfold HT_MAX_SIZE in Hhi. unfold HT_HASH_RESET, HT_HASH_RESET_memset. rewrite HT_HASH_SIZE_mask by lia. split.
  - change 0x3f with (Z.ones 6). rewrite Z.land_ones by lia.
    replace (8 * n) with (q * 2 ^ 6) by lia. rewrite Z.mod_mul, (proj2 (Z.leb_le _ _)) by lia.
    replace (q * 2 ^ 6) with (8 * n) by lia.
    pose proof (HT_HASH_RESET_loop_fills (S (length slots)) 0 (Z.to_nat q) slots) as H.
    replace (64 * Z.of_nat (Z.to_nat q)) with (8 * n) in H by lia.
    change (16 * Z.of_nat 0) with 0 in H. change (16 * 0)%nat with 0%nat in H.
    change (replicate 0 HT_INVALID_IDX ++ slots) with slots in H. simpl andb.
    rewrite H; [|lia..]. do 2 f_equal. lia.
  - replace (8 * n / sizeof_uint32) with (2 * n); [|unfold sizeof_uint32].
    + rewrite decide_True by lia. rewrite drop_ge, app_nil_r by lia. do 2 f_equal. lia.
    + replace (8 * n) with (2 * n * 4) by lia. by rewrite Z.div_mul.
Qed.

End layout.

(** *** Type hints *)
Section typehint.
Import TypeHint.

Lemma set_kind_mask m kind :
  Z.land (Z.lor (Z.land m (Z.lxor KIND_MASK 0xffffffff)) kind) KIND_MASK = Z.land kind KIND_MASK.
Proof.
  rewrite Z.land_lor_distr_l, <- Z.land_assoc.
  change (Z.land (Z.lxor KIND_MASK 0xffffffff) KIND_MASK) with 0. by rewrite Z.land_0_r.
Qed.

(** Storing a list replaces whatever kind the type had, leaves the type-mask bits
    alone, and iteration then visits exactly the list. *)
Lemma set_list_kind t u l :
  let t' := ZEND_TYPE_SET_LIST t (TCons u l) in
  ZEND_TYPE_HAS_LIST t' = true ∧ ZEND_TYPE_HAS_NAME t' = false ∧
  ZEND_TYPE_HAS_LITERAL_NAME t' = false ∧
  ZEND_TYPE_PURE_MASK t' = ZEND_TYPE_PURE_MASK t ∧
  ZEND_TYPE_ALLOW_NULL t' = ZEND_TYPE_ALLOW_NULL t ∧
  ZEND_TYPE_FOREACH t' = Some (u :: list_types l).
Proof.
  intros t'.
  assert (Hk : ∀ b, Z.land b KIND_MASK = b →
      Z.land (type_mask t') b = Z.land LIST_BIT b).
  { intros b Hb. rewrite <- Hb, (Z.land_comm b), !Z.land_assoc. subst t'. simpl.
    by rewrite set_kind_mask. }
  assert (Ho : ∀ b, Z.land LIST_BIT b = 0 → Z.land (Z.lxor KIND_MASK 0xffffffff) b = b →
      Z.land (type_mask t') b = Z.land (type_mask t) b).
  { intros b Hb Hc. subst t'. simpl. by rewrite Z.land_lor_distr_l, <- Z.land_assoc, Hb, Hc,
      Z.lor_0_r. }
  assert (Hl : ZEND_TYPE_HAS_LIST t' = true).
  { unfold ZEND_TYPE_HAS_LIST, has_bit. by rewrite Hk. }
  unfold ZEND_TYPE_HAS_NAME, ZEND_TYPE_HAS_LITERAL_NAME, ZEND_TYPE_PURE_MASK,
    ZEND_TYPE_ALLOW_NULL, has_bit. rewrite !Hk, !Ho by done.
  split_and!; [done..|]. unfold ZEND_TYPE_FOREACH. by rewrite Hl.
Qed.

End typehint.
