(* ===== verification/ZendArith.v ===== *)
(** * Machine arithmetic of the engine
      (Zend/zend_multiply.h, Zend/zend_operators.h, Zend/zend_range_check.h,
       ext/random/php_random_uint128.h)

    The headers carry one variant of each routine per processor. Every variant
    is modelled from its own instructions, and the theorems state that all of
    them compute the same mathematical function with the same overflow report. *)

From Stdlib Require Import SpecFloat.
From S2P Require Import Prelude ZendTypes.

(** ** Instructions *)
Module Asm.

(** Low and high halves of the unsigned product. *)
Definition mul_lo (a b : Z) : Z := u64 (a * b).
Definition umulh (a b : Z) : Z := (a * b) / 2 ^ 64.
(** High half of the signed product, and arithmetic shift right. *)
Definition smulh (a b : Z) : Z := (a * b) / 2 ^ 64.
Definition asr (n a : Z) : Z := a / 2 ^ n.
(** Addition that sets the carry, and the carry it sets. *)
Definition add64 (a b : Z) : Z := u64 (a + b).
Definition carry (a b : Z) : Z := (a + b) / 2 ^ 64.
(** The signed overflow flag of a 64-bit addition and subtraction, as the
    processor computes it from the operands' and the result's sign bits. *)
Definition sign (a : Z) : bool := Z.testbit a 63.
Definition add_overflows (a b : Z) : bool :=
  Bool.eqb (sign a) (sign b) && negb (Bool.eqb (sign (u64 (a + b))) (sign a)).
Definition sub_overflows (a b : Z) : bool :=
  negb (Bool.eqb (sign a) (sign b)) && negb (Bool.eqb (sign (u64 (a - b))) (sign a)).

End Asm.

(** ** Sizes: [zend_safe_address] *)
Module SafeAddress.
Import Asm.

(** The result and the overflow flag from the two halves left by the asm block. *)
Definition finish (res m_overflow : Z) : Z * bool :=
  if negb (m_overflow =? 0) then (0, true) else (res, false).

(** amd64. [mul] leaves the high half in rdx and sets the carry when it is not
    zero; [offset_0] and [nmemb_1] say that the compiler knows the constant. *)
Definition zend_safe_address_x86_64 (offset_0 nmemb_1 : bool) (nmemb size offset : Z) : Z * bool :=
  if offset_0 && (offset =? 0) then
    let res := mul_lo nmemb size in
    let hi := umulh nmemb size in
    let cf := if hi =? 0 then 0 else 1 in
    finish res (u64 (hi + cf))
  else if nmemb_1 && (nmemb =? 1) then
    finish (add64 size offset) (u64 (0 + carry size offset))
  else
    let lo := mul_lo nmemb size in
    let hi := umulh nmemb size in
    finish (add64 lo offset) (u64 (hi + carry lo offset)).

(** arm64: mul, umulh, adds, adc. *)
Definition zend_safe_address_aarch64 (nmemb size offset : Z) : Z * bool :=
  let lo := mul_lo nmemb size in
  let hi := umulh nmemb size in
  finish (add64 lo offset) (u64 (hi + carry lo offset)).

(** ppc64: mulld, mulhdu, addc, addze. *)
Definition zend_safe_address_ppc64 (nmemb size offset : Z) : Z * bool :=
  let lo := mul_lo nmemb size in
  let hi := umulh nmemb size in
  finish (add64 lo offset) (u64 (hi + carry lo offset)).

(** 32-bit targets compute in 64 bits. *)
Definition zend_safe_address_32 (nmemb size offset : Z) : Z * bool :=
  let res := u64 (u64 (nmemb * size) + offset) in
  if 0xFFFFFFFF <? res then (0, true) else (u32 res, false).

(** i386: [mull], [addl] and [adcl] on 32-bit registers. *)
Definition zend_safe_address_i386 (offset_0 : bool) (nmemb size offset : Z) : Z * bool :=
  let lo := u32 (nmemb * size) in
  let hi := nmemb * size / 2 ^ 32 in
  if offset_0 && (offset =? 0) then
    let cf := if hi =? 0 then 0 else 1 in
    finish lo (u32 (hi + cf))
  else finish (u32 (lo + offset)) (u32 (hi + (lo + offset) / 2 ^ 32)).

(** arm: [umlal] accumulates the product into the pair [(offset, 0)]. *)
Definition zend_safe_address_arm (nmemb size offset : Z) : Z * bool :=
  let acc := u64 (nmemb * size + offset) in finish (u32 acc) (acc / 2 ^ 32).

(** What the callers rely on, on targets with a [w]-bit [size_t]. *)
Definition safe_address (w nmemb size offset : Z) : Z * bool :=
  let r := nmemb * size + offset in if r <? 2 ^ w then (r, false) else (0, true).

(** [zend_safe_address_guarded] and [zend_safe_addmult]: an overflow raises
    [E_ERROR], which does not return. *)
Definition zend_safe_address_guarded (nmemb size offset : Z) : option Z :=
  let '(ret, overflow) := zend_safe_address_aarch64 nmemb size offset in
  if overflow then None else Some ret.
Definition zend_safe_addmult (nmemb size offset : Z) : option Z :=
  let '(ret, overflow) := zend_safe_address_aarch64 nmemb size offset in
  if overflow then None else Some ret.

End SafeAddress.

(** ** Doubles

    Binary64 with rounding to nearest, as the Standard Library specifies it. *)
Module Binary64.

Definition double : Type := spec_float.
(** The conversion [(double) z]. *)
Definition of_long (z : Z) : double := binary_normalize 53 1024 z 0 false.
Definition dadd : double → double → double := SFadd 53 1024.
Definition dsub : double → double → double := SFsub 53 1024.
Definition dmul : double → double → double := SFmul 53 1024.

(** A zval that holds an integer, or the double the operation falls back to. *)
Inductive number : Type :=
| NLong (l : Z)
| NDouble (d : double).

End Binary64.

(** ** Signed multiplication: [ZEND_SIGNED_MULTIPLY_LONG] *)
Module SignedMultiply.
Import Asm Binary64.

Definition in_s64 (z : Z) : bool := (- 2 ^ 63 <=? z) && (z <? 2 ^ 63).

(** [__builtin_smull_overflow]. *)
Definition mul_builtin (a b : Z) : number :=
  if negb (in_s64 (a * b)) then NDouble (dmul (of_long a) (of_long b)) else NLong (s64 (a * b)).

(** amd64: [imul] sets the carry when the product does not fit; [adc $0] moves
    the carry into [usedval]. *)
Definition mul_x86_64 (a b : Z) : number :=
  let tmp := s64 (a * b) in
  let cf := if tmp =? a * b then 0 else 1 in
  let usedval := 0 + cf in
  if negb (usedval =? 0) then NDouble (dmul (of_long a) (of_long b)) else NLong tmp.

(** arm64: mul, smulh, sub with the sign of the low half. *)
Definition mul_aarch64 (a b : Z) : number :=
  let tmp := s64 (a * b) in
  let usedval := u64 (smulh a b - asr 63 tmp) in
  if negb (usedval =? 0) then NDouble (dmul (of_long a) (of_long b)) else NLong tmp.

(** ppc64: compares the high half with the sign of the low half. *)
Definition mul_ppc64 (a b : Z) : number :=
  let low := s64 (a * b) in
  let high := smulh a b in
  if negb (asr 63 low =? high) then NDouble (dmul (of_long a) (of_long b)) else NLong low.

(** 32-bit integers. arm: smull, sub with the sign of the low half. *)
Definition mul_arm (a b : Z) : number :=
  let tmp := s32 (a * b) in
  let usedval := u32 (a * b / 2 ^ 32 - asr 31 tmp) in
  if negb (usedval =? 0) then NDouble (dmul (of_long a) (of_long b)) else NLong tmp.

(** Other 32-bit targets multiply in 64 bits. *)
Definition mul_long32 (a b : Z) : number :=
  let result := s64 (a * b) in
  if (2 ^ 31 - 1 <? result) || (result <? - 2 ^ 31) then NDouble (of_long result) else NLong (s32 result).

End SignedMultiply.

(** ** Integers of the language: increment, decrement, add, subtract *)
Module LongOps.
Import Asm Binary64.

Definition ZEND_LONG_MAX : Z := 2 ^ 63 - 1.
Definition ZEND_LONG_MIN : Z := - 2 ^ 63.
Definition LONG_SIGN_MASK : Z := ZEND_LONG_MIN.

(** amd64 and arm64: the overflow flag decides. *)
Definition fast_long_increment_function_asm (op1 : Z) : number :=
  if add_overflows op1 1 then NDouble (dadd (of_long ZEND_LONG_MAX) (of_long 1)) else NLong (s64 (op1 + 1)).
(** The portable variant compares with the largest integer. *)
Definition fast_long_increment_function (op1 : Z) : number :=
  if op1 =? ZEND_LONG_MAX then NDouble (dadd (of_long ZEND_LONG_MAX) (of_long 1)) else NLong (op1 + 1).

Definition fast_long_decrement_function_asm (op1 : Z) : number :=
  if sub_overflows op1 1 then NDouble (dsub (of_long ZEND_LONG_MIN) (of_long 1)) else NLong (s64 (op1 - 1)).
Definition fast_long_decrement_function (op1 : Z) : number :=
  if op1 =? ZEND_LONG_MIN then NDouble (dsub (of_long ZEND_LONG_MIN) (of_long 1)) else NLong (op1 - 1).

Definition fast_long_add_function_asm (op1 op2 : Z) : number :=
  if add_overflows op1 op2 then NDouble (dadd (of_long op1) (of_long op2)) else NLong (s64 (op1 + op2)).
(** The portable variant adds as unsigned and compares sign masks. *)
Definition fast_long_add_function (op1 op2 : Z) : number :=
  let sum := s64 (u64 op1 + u64 op2) in
  if (Z.land op1 LONG_SIGN_MASK =? Z.land op2 LONG_SIGN_MASK)
     && negb (Z.land op1 LONG_SIGN_MASK =? Z.land sum LONG_SIGN_MASK)
  then NDouble (dadd (of_long op1) (of_long op2)) else NLong sum.

Definition fast_long_sub_function_asm (op1 op2 : Z) : number :=
  if sub_overflows op1 op2 then NDouble (dsub (of_long op1) (of_long op2)) else NLong (s64 (op1 - op2)).
Definition fast_long_sub_function (op1 op2 : Z) : number :=
  let sub := s64 (u64 op1 - u64 op2) in
  if negb (Z.land op1 LONG_SIGN_MASK =? Z.land op2 LONG_SIGN_MASK)
     && negb (Z.land op1 LONG_SIGN_MASK =? Z.land sub LONG_SIGN_MASK)
  then NDouble (dsub (of_long op1) (of_long op2)) else NLong sub.

(** With the overflow builtins of the compiler. *)
Definition fast_long_increment_function_builtin (op1 : Z) : number :=
  if negb (SignedMultiply.in_s64 (op1 + 1)) then NDouble (dadd (of_long ZEND_LONG_MAX) (of_long 1)) else NLong (s64 (op1 + 1)).
Definition fast_long_decrement_function_builtin (op1 : Z) : number :=
  if negb (SignedMultiply.in_s64 (op1 - 1)) then NDouble (dsub (of_long ZEND_LONG_MIN) (of_long 1)) else NLong (s64 (op1 - 1)).
Definition fast_long_add_function_builtin (op1 op2 : Z) : number :=
  if negb (SignedMultiply.in_s64 (op1 + op2)) then NDouble (dadd (of_long op1) (of_long op2)) else NLong (s64 (op1 + op2)).
Definition fast_long_sub_function_builtin (op1 op2 : Z) : number :=
  if negb (SignedMultiply.in_s64 (op1 - op2)) then NDouble (dsub (of_long op1) (of_long op2)) else NLong (s64 (op1 - op2)).

(** What PHP promises: the exact integer when it fits, the operation on doubles
    otherwise. *)
Definition php_number (z : Z) (d : double) : number :=
  if SignedMultiply.in_s64 z then NLong z else NDouble d.

End LongOps.

(** ** Range checks between integer types *)
Module RangeCheck.

Definition INT_MAX : Z := 2 ^ 31 - 1.
Definition INT_MIN : Z := - 2 ^ 31.
Definition UINT_MAX : Z := 2 ^ 32 - 1.

Definition ZEND_LONG_INT_OVFL (zlong : Z) : bool := INT_MAX <? zlong.
Definition ZEND_LONG_INT_UDFL (zlong : Z) : bool := zlong <? INT_MIN.
Definition ZEND_LONG_EXCEEDS_INT (zlong : Z) : bool :=
  ZEND_LONG_INT_OVFL zlong || ZEND_LONG_INT_UDFL zlong.
Definition ZEND_LONG_UINT_OVFL (zlong : Z) : bool := (zlong <? 0) || (UINT_MAX <? zlong).
Definition ZEND_SIZE_T_INT_OVFL (size : Z) : bool := INT_MAX <? size.
Definition ZEND_SIZE_T_UINT_OVFL (size : Z) : bool := UINT_MAX <? size.
(** [(size_t)(zlong)] is the value modulo [2^64]. *)
Definition ZEND_SIZE_T_GT_ZEND_LONG (size zlong : Z) : bool := (zlong <? 0) || (u64 zlong <? size).
Definition ZEND_SIZE_T_GTE_ZEND_LONG (size zlong : Z) : bool := (zlong <? 0) || (u64 zlong <=? size).
Definition ZEND_SIZE_T_LT_ZEND_LONG (size zlong : Z) : bool := (0 <=? zlong) && (size <? u64 zlong).
Definition ZEND_SIZE_T_LTE_ZEND_LONG (size zlong : Z) : bool := (0 <=? zlong) && (size <=? u64 zlong).

End RangeCheck.

(** ** Emulated 128-bit integers *)
Module Uint128.

Record php_random_uint128_t : Type := U128 { hi : Z; lo : Z }.

Definition php_random_uint128_hi (num : php_random_uint128_t) : Z := hi num.
Definition php_random_uint128_lo (num : php_random_uint128_t) : Z := lo num.
Definition php_random_uint128_constant (h l : Z) : php_random_uint128_t := U128 h l.

Definition php_random_uint128_add (num1 num2 : php_random_uint128_t) : php_random_uint128_t :=
  let r_lo := u64 (lo num1 + lo num2) in
  U128 (u64 (hi num1 + hi num2 + (if r_lo <? lo num1 then 1 else 0))) r_lo.

Definition php_random_uint128_multiply (num1 num2 : php_random_uint128_t) : php_random_uint128_t :=
  let x0 := Z.land (lo num1) 0xffffffff in
  let x1 := Z.shiftr (lo num1) 32 in
  let y0 := Z.land (lo num2) 0xffffffff in
  let y1 := Z.shiftr (lo num2) 32 in
  let mid := u64 (u64 (x1 * y0) + Z.shiftr (u64 (x0 * y0)) 32) in
  let z0 := u64 (Z.land mid 0xffffffff + u64 (x0 * y1)) in
  let r_hi := u64 (u64 (hi num1 * lo num2) + u64 (lo num1 * hi num2)) in
  let r_lo := u64 (lo num1 * lo num2) in
  U128 (u64 (r_hi + u64 (u64 (u64 (x1 * y1) + Z.shiftr mid 32) + Z.shiftr z0 32))) r_lo.

Definition rotr64_of (v s : Z) : Z := Z.lor (Z.shiftr v s) (u64 (Z.shiftl v (Z.land (u64 (- s)) 63))).
Definition php_random_pcgoneseq128xslrr64_rotr64 (num : php_random_uint128_t) : Z :=
  let v := Z.lxor (hi num) (lo num) in
  let s := Z.shiftr (hi num) 58 in
  rotr64_of v s.

(** The native variant on [__uint128_t]. *)
Definition u128 (z : Z) : Z := z mod 2 ^ 128.
Definition native_constant (h l : Z) : Z := u128 (Z.shiftl h 64 + l).
Definition native_add (a b : Z) : Z := u128 (a + b).
Definition native_multiply (a b : Z) : Z := u128 (a * b).
Definition native_hi (a : Z) : Z := u64 (Z.shiftr a 64).
Definition native_lo (a : Z) : Z := u64 a.
Definition native_rotr64 (a : Z) : Z :=
  rotr64_of (Z.lxor (u64 (Z.shiftr a 64)) (u64 a)) (Z.shiftr a 122).

(** The number an emulated value stands for. *)
Definition value (n : php_random_uint128_t) : Z := hi n * 2 ^ 64 + lo n.
Definition wf (n : php_random_uint128_t) : Prop := in_u64 (hi n) ∧ in_u64 (lo n).

End Uint128.

(** ** Theorems *)

Lemma u64_split z : z = 2 ^ 64 * (z / 2 ^ 64) + u64 z.
Proof. apply Z.div_mod. lia. Qed.

(** *** Sizes *)
Section sizes.
Import Asm SafeAddress.

Lemma halves_sum n m k :
  in_u64 n → in_u64 m → in_u64 k →
  0 <= umulh n m <= 2 ^ 64 - 2 ∧ 0 <= carry (mul_lo n m) k <= 1 ∧
  n * m + k = 2 ^ 64 * (umulh n m + carry (mul_lo n m) k) + add64 (mul_lo n m) k.
Proof.
  unfold in_u64, umulh, carry, mul_lo, add64. intros Hn Hm Hk.
  pose proof (u64_range (n * m)). pose proof (u64_split (n * m)).
  pose proof (u64_split (u64 (n * m) + k)).
  assert (Hm2 : 0 <= n * m < 2 ^ 64 * (2 ^ 64 - 1)) by nia.
  assert (0 <= n * m / 2 ^ 64 < 2 ^ 64 - 1).
  { split; [apply Z.div_pos; lia|]. apply Z.div_lt_upper_bound; lia. }
  assert (0 <= (u64 (n * m) + k) / 2 ^ 64 < 2).
  { split; [apply Z.div_pos|apply Z.div_lt_upper_bound]; lia. }
  lia.
Qed.

Lemma finish_sum r hi c res :
  r = 2 ^ 64 * (hi + c) + res → 0 <= hi <= 2 ^ 64 - 2 → 0 <= c <= 1 → 0 <= res < 2 ^ 64 →
  finish res (u64 (hi + c)) = if r <? 2 ^ 64 then (r, false) else (0, true).
Proof.
  intros -> Hh Hc Hr. unfold finish. rewrite u64_small by lia.
  destruct (Z.eqb_spec (hi + c) 0), (Z.ltb_spec (2 ^ 64 * (hi + c) + res) (2 ^ 64)); simpl;
    try (f_equal; lia); lia.
Qed.

Lemma safe_address_aarch64_exact nmemb size offset :
  in_u64 nmemb → in_u64 size → in_u64 offset →
  zend_safe_address_aarch64 nmemb size offset = safe_address 64 nmemb size offset.
Proof.
  intros Hn Hs Ho. destruct (halves_sum _ _ _ Hn Hs Ho) as (Hh&Hc&He).
  apply (finish_sum _ _ _ _ He Hh Hc), u64_range.
Qed.

(** The arm64, ppc64 and amd64 variants of zend_safe_address compute nmemb *
    size + offset and report overflow exactly when it does not fit in 64 bits. *)
Theorem safe_address_variants offset_0 nmemb_1 nmemb size offset :
  in_u64 nmemb → in_u64 size → in_u64 offset →
  zend_safe_address_aarch64 nmemb size offset = safe_address 64 nmemb size offset ∧
  zend_safe_address_ppc64 nmemb size offset = safe_address 64 nmemb size offset ∧
  zend_safe_address_x86_64 offset_0 nmemb_1 nmemb size offset = safe_address 64 nmemb size offset.
Proof.
  intros Hn Hs Ho. destruct (halves_sum _ _ _ Hn Hs Ho) as (Hh&Hc&He).
  pose proof (u64_range (mul_lo nmemb size + offset)) as Hr.
  pose proof (finish_sum _ _ _ _ He Hh Hc Hr) as Hf. unfold safe_address.
  split; [exact Hf|]. split; [exact Hf|].
  unfold zend_safe_address_x86_64. destruct (offset_0 && _) eqn:E0; [|destruct (nmemb_1 && _) eqn:E1].
  - apply andb_prop in E0 as [_ ->%Z.eqb_eq]. unfold in_u64 in *.
    destruct (halves_sum nmemb size 0 Hn Hs) as (_&_&He0); [unfold in_u64; lia|].
    pose proof (u64_range (nmemb * size)) as Hl.
    assert (Hz : carry (mul_lo nmemb size) 0 = 0).
    { unfold carry, mul_lo. apply Z.div_small. lia. }
    assert (Ha : add64 (mul_lo nmemb size) 0 = mul_lo nmemb size).
    { unfold add64, mul_lo. rewrite Z.add_0_r. apply u64_idemp. }
    rewrite Hz, Ha in He0. unfold finish, mul_lo in *.
    destruct (Z.eqb_spec (umulh nmemb size) 0) as [E|E].
    + rewrite E in *. rewrite u64_small by lia. simpl.
      destruct (Z.ltb_spec (nmemb * size + 0) (2 ^ 64)); [f_equal; lia|lia].
    + rewrite u64_small by lia. destruct (Z.eqb_spec (umulh nmemb size + 1) 0); [lia|]. simpl.
      destruct (Z.ltb_spec (nmemb * size + 0) (2 ^ 64)); [lia|done].
  - apply andb_prop in E1 as [_ ->%Z.eqb_eq]. unfold in_u64 in *.
    apply (finish_sum _ 0 (carry size offset) (add64 size offset)).
    + unfold carry, add64. rewrite Z.mul_1_l. apply u64_split.
    + lia.
    + unfold carry. split; [apply Z.div_pos; lia|]. apply Z.lt_succ_r, Z.div_lt_upper_bound; lia.
    + apply u64_range.
  - exact Hf.
Qed.

Lemma finish_32 r hi c lo :
  r = 2 ^ 32 * (hi + c) + lo → 0 <= hi <= 2 ^ 32 - 2 → 0 <= c <= 1 → 0 <= lo < 2 ^ 32 →
  finish lo (u32 (hi + c)) = safe_address 32 1 r 0.
Proof.
  intros -> Hh Hc Hl. unfold finish, safe_address. rewrite u32_small by lia.
  destruct (Z.eqb_spec (hi + c) 0), (Z.ltb_spec (1 * (2 ^ 32 * (hi + c) + lo) + 0) (2 ^ 32)); simpl;
    try (f_equal; lia); lia.
Qed.

Lemma safe_address_sum w n m k : safe_address w 1 (n * m + k) 0 = safe_address w n m k.
Proof. unfold safe_address. by rewrite Z.mul_1_l, Z.add_0_r. Qed.

Lemma safe_address_32 offset_0 nmemb size offset :
  in_u32 nmemb → in_u32 size → in_u32 offset →
  zend_safe_address_32 nmemb size offset = safe_address 32 nmemb size offset ∧
  zend_safe_address_i386 offset_0 nmemb size offset = safe_address 32 nmemb size offset ∧
  zend_safe_address_arm nmemb size offset = safe_address 32 nmemb size offset.
Proof.
  unfold in_u32. intros Hn Hs Ho.
  assert (Hp : 0 <= nmemb * size <= (2 ^ 32 - 1) * (2 ^ 32 - 1)) by nia.
  pose proof (Z.div_mod (nmemb * size) (2 ^ 32)) as Hd. pose proof (u32_range (nmemb * size)) as Hl.
  fold (u32 (nmemb * size)) in Hd. set (p := nmemb * size) in *.
  assert (Hh : 0 <= p / 2 ^ 32 <= 2 ^ 32 - 2).
  { split; [apply Z.div_pos; lia|]. apply Z.lt_succ_r, Z.div_lt_upper_bound; lia. }
  assert (Hz : zend_safe_address_arm nmemb size offset = safe_address 32 nmemb size offset
             ∧ zend_safe_address_32 nmemb size offset = safe_address 32 nmemb size offset).
  { unfold zend_safe_address_arm, zend_safe_address_32, safe_address, finish. fold p.
    rewrite (u64_small p), !u64_small by lia.
    pose proof (Z.div_mod (p + offset) (2 ^ 32)). pose proof (u32_range (p + offset)).
    fold (u32 (p + offset)) in *.
    destruct (Z.eqb_spec ((p + offset) / 2 ^ 32) 0), (Z.ltb_spec (p + offset) (2 ^ 32)),
      (Z.ltb_spec 0xFFFFFFFF (p + offset)); simpl; split; try lia; try (f_equal; lia); done. }
  split; [apply Hz|]. split; [|apply Hz]. rewrite <- safe_address_sum.
  unfold zend_safe_address_i386. fold p. destruct (offset_0 && _) eqn:E0.
  - apply andb_prop in E0 as [_ ->%Z.eqb_eq]. unfold finish, safe_address. rewrite Z.add_0_r, Z.mul_1_l, Z.add_0_r.
    destruct (Z.eqb_spec (p / 2 ^ 32) 0) as [E|E]; rewrite (u32_small (p / 2 ^ 32 + _)) by lia.
    + rewrite E. simpl. destruct (Z.ltb_spec p (2 ^ 32)); [f_equal; lia|lia].
    + destruct (Z.eqb_spec (p / 2 ^ 32 + 1) 0); [lia|]. simpl.
      destruct (Z.ltb_spec p (2 ^ 32)); [lia|done].
  - apply finish_32; [|done| |apply u32_range].
    + pose proof (Z.div_mod (u32 p + offset) (2 ^ 32)) as Hc.
      fold (u32 (u32 p + offset)) in Hc. lia.
    + split; [apply Z.div_pos; lia|]. apply Z.lt_succ_r, Z.div_lt_upper_bound; lia.
Qed.

(** An allocation size that passes the guard is the exact size. *)
Lemma safe_address_guarded_exact nmemb size offset r :
  in_u64 nmemb → in_u64 size → in_u64 offset →
  zend_safe_address_guarded nmemb size offset = Some r ↔
  r = nmemb * size + offset ∧ r < 2 ^ 64.
Proof.
  intros Hn Hs Ho. unfold zend_safe_address_guarded.
  rewrite safe_address_aarch64_exact by done. unfold safe_address.
  destruct (Z.ltb_spec (nmemb * size + offset) (2 ^ 64)); (split; [intros [= <-]; lia|]).
  - by intros [-> _].
  - intros [-> ?]. lia.
Qed.

End sizes.

(** *** Signed products *)
Section products.
Import Asm Binary64 SignedMultiply.

Lemma s64_spec z : s64 z = z ↔ - 2 ^ 63 <= z < 2 ^ 63.
Proof.
  unfold s64, sint. change (64 - 1) with 63. pose proof (Z.mod_pos_bound z (2 ^ 64)).
  split.
  - destruct (Z.ltb_spec (z mod 2 ^ 64) (2 ^ 63)); lia.
  - intros. destruct (Z.lt_ge_cases z 0).
    + replace (z mod 2 ^ 64) with (z + 2 ^ 64).
      * destruct (Z.ltb_spec (z + 2 ^ 64) (2 ^ 63)); lia.
      * symmetry. rewrite <- (Z_mod_plus_full z 1). rewrite Z.mod_small; lia.
    + rewrite Z.mod_small by lia. destruct (Z.ltb_spec z (2 ^ 63)); lia.
Qed.

Lemma s64_range z : - 2 ^ 63 <= s64 z < 2 ^ 63.
Proof.
  unfold s64, sint. change (64 - 1) with 63. pose proof (Z.mod_pos_bound z (2 ^ 64)).
  destruct (Z.ltb_spec (z mod 2 ^ 64) (2 ^ 63)); lia.
Qed.

Lemma s64_congr z : ∃ q, z = 2 ^ 64 * q + s64 z.
Proof.
  unfold s64, sint. change (64 - 1) with 63. pose proof (Z.div_mod z (2 ^ 64)).
  destruct (Z.ltb_spec (z mod 2 ^ 64) (2 ^ 63)); [exists (z / 2 ^ 64)|exists (z / 2 ^ 64 + 1)]; lia.
Qed.

Lemma s32_range z : - 2 ^ 31 <= s32 z < 2 ^ 31.
Proof.
  unfold s32, sint. change (32 - 1) with 31. pose proof (Z.mod_pos_bound z (2 ^ 32)).
  destruct (Z.ltb_spec (z mod 2 ^ 32) (2 ^ 31)); lia.
Qed.

Lemma s32_congr z : ∃ q, z = 2 ^ 32 * q + s32 z.
Proof.
  unfold s32, sint. change (32 - 1) with 31. pose proof (Z.div_mod z (2 ^ 32)).
  destruct (Z.ltb_spec (z mod 2 ^ 32) (2 ^ 31)); [exists (z / 2 ^ 32)|exists (z / 2 ^ 32 + 1)]; lia.
Qed.

Lemma in_s64_spec z : in_s64 z = true ↔ - 2 ^ 63 <= z < 2 ^ 63.
Proof. unfold in_s64. lia. Qed.

(** Arithmetic shifts: all the way right leaves the sign, and a product's high
    half is the quotient less one when the low half reads negative. *)
Lemma sign_div m z : 0 < m → - m <= z < m → z / m = if z <? 0 then -1 else 0.
Proof.
  intros Hm Hz. destruct (Z.ltb_spec z 0).
  - replace z with (-1 * m + (z + m)) by lia. rewrite Z.div_add_l, Z.div_small by lia. lia.
  - apply Z.div_small. lia.
Qed.

Lemma high_div m q r : 0 < m → - m <= r < m → (m * q + r) / m = q + if r <? 0 then -1 else 0.
Proof. intros Hm Hr. by rewrite Z.mul_comm, Z.div_add_l, sign_div by lia. Qed.

(** The high half is the sign extension of the low half exactly when nothing
    was lost. *)
Lemma high_is_sign p :
  - 2 ^ 126 <= p <= 2 ^ 126 → (p / 2 ^ 64 = s64 p / 2 ^ 63 ↔ s64 p = p) ∧
  - 2 ^ 62 <= p / 2 ^ 64 <= 2 ^ 62 ∧ -1 <= s64 p / 2 ^ 63 <= 0.
Proof.
  intros Hp. destruct (s64_congr p) as [q Hq]. pose proof (s64_range p) as Hr.
  pose proof (sign_div (2 ^ 63) (s64 p)) as Hs.
  pose proof (high_div (2 ^ 64) q (s64 p)) as Hd. rewrite <- Hq in Hd.
  rewrite Hs, Hd by lia. split; [|destruct (Z.ltb_spec (s64 p) 0); split; lia].
  split; intros; lia.
Qed.

(** The builtin, amd64, arm64 and ppc64 variants of ZEND_SIGNED_MULTIPLY_LONG
    give the exact product when it fits and the rounded double product otherwise. *)
Theorem signed_multiply_variants a b :
  - 2 ^ 63 <= a < 2 ^ 63 → - 2 ^ 63 <= b < 2 ^ 63 →
  let exact := if in_s64 (a * b) then NLong (a * b) else NDouble (dmul (of_long a) (of_long b)) in
  mul_builtin a b = exact ∧ mul_x86_64 a b = exact ∧ mul_aarch64 a b = exact ∧ mul_ppc64 a b = exact.
Proof.
  intros Ha Hb exact. assert (Hp : - 2 ^ 126 <= a * b <= 2 ^ 126).
  { apply Z.abs_le. rewrite Z.abs_mul. change (2 ^ 126) with (2 ^ 63 * 2 ^ 63).
    apply Z.mul_le_mono_nonneg; lia. }
  destruct (high_is_sign (a * b) Hp) as (Hh&Hb1&Hb2).
  unfold mul_builtin, mul_x86_64, mul_aarch64, mul_ppc64, smulh, asr, exact.
  pose proof (s64_spec (a * b)) as Hs. pose proof (in_s64_spec (a * b)) as Hi.
  destruct (in_s64 (a * b)).
  - assert (He : s64 (a * b) = a * b) by (apply Hs, Hi; done).
    assert (Hz : a * b / 2 ^ 64 = a * b / 2 ^ 63) by (rewrite He in Hh; by apply Hh).
    rewrite He, Hz, Z.sub_diag, !Z.eqb_refl. done.
  - assert (He : s64 (a * b) ≠ a * b) by (intros E; apply Hs, Hi in E; done).
    assert (Hz : a * b / 2 ^ 64 ≠ s64 (a * b) / 2 ^ 63) by (intros E; by apply He, Hh).
    rewrite (proj2 (Z.eqb_neq _ _) He). split_and!; try done.
    + replace (u64 _ =? 0) with false; [done|]. symmetry. apply Z.eqb_neq. intros E.
      pose proof (u64_split (a * b / 2 ^ 64 - s64 (a * b) / 2 ^ 63)) as Hx. rewrite E in Hx. lia.
    + rewrite (proj2 (Z.eqb_neq _ _)); [done|]. lia.
Qed.

(** The same on 32-bit targets. *)
Lemma signed_multiply_32 a b :
  - 2 ^ 31 <= a < 2 ^ 31 → - 2 ^ 31 <= b < 2 ^ 31 →
  let exact d := if (- 2 ^ 31 <=? a * b) && (a * b <? 2 ^ 31) then NLong (a * b) else NDouble d in
  mul_arm a b = exact (dmul (of_long a) (of_long b)) ∧ mul_long32 a b = exact (of_long (a * b)).
Proof.
  intros Ha Hb exact. assert (Hp : - 2 ^ 62 <= a * b <= 2 ^ 62).
  { apply Z.abs_le. rewrite Z.abs_mul. change (2 ^ 62) with (2 ^ 31 * 2 ^ 31).
    apply Z.mul_le_mono_nonneg; lia. }
  unfold mul_arm, mul_long32, asr, exact. generalize (dmul (of_long a) (of_long b)). intros d. generalize dependent (a * b). intros p _ Hp.
  rewrite (proj2 (s64_spec p)) by lia. destruct (s32_congr p) as [q Hq]. pose proof (s32_range p).
  pose proof (sign_div (2 ^ 31) (s32 p)) as Hs.
  pose proof (high_div (2 ^ 32) q (s32 p)) as Hd. rewrite <- Hq in Hd.
  rewrite Hs, Hd by lia. replace (q + _ - _) with q by lia.
  assert (Hu : (u32 q =? 0) = (q =? 0)).
  { unfold u32. pose proof (Z.div_mod q (2 ^ 32)). pose proof (Z.mod_pos_bound q (2 ^ 32)).
    destruct (Z.eqb_spec q 0) as [->|]; [done|]. apply Z.eqb_neq. lia. }
  rewrite Hu. destruct (Z.eqb_spec q 0), (Z.leb_spec (- 2 ^ 31) p), (Z.ltb_spec p (2 ^ 31)),
    (Z.ltb_spec (2 ^ 31 - 1) p), (Z.ltb_spec p (- 2 ^ 31)); simpl; split; try done; try lia; f_equal; lia.
Qed.

End products.

(** *** Integer operators *)
Section longs.
Import Asm Binary64 SignedMultiply LongOps.

Lemma sign_u64 z : 0 <= z < 2 ^ 64 → sign z = (2 ^ 63 <=? z).
Proof.
  intros. unfold sign. rewrite Z.testbit_odd, Z.shiftr_div_pow2 by lia.
  destruct (Z.leb_spec (2 ^ 63) z).
  - replace (z / 2 ^ 63) with 1; [done|]. symmetry.
    replace z with (1 * 2 ^ 63 + (z - 2 ^ 63)) by lia. rewrite Z.div_add_l by lia.
    rewrite Z.div_small; lia.
  - by rewrite Z.div_small by lia.
Qed.

Lemma sign_s64 z : - 2 ^ 63 <= z < 2 ^ 63 → sign z = (z <? 0).
Proof.
  intros. unfold sign. rewrite Z.testbit_odd, Z.shiftr_div_pow2 by lia.
  destruct (Z.ltb_spec z 0).
  - replace (z / 2 ^ 63) with (-1); [done|]. symmetry.
    replace z with (-1 * 2 ^ 63 + (z + 2 ^ 63)) by lia. rewrite Z.div_add_l by lia.
    rewrite Z.div_small; lia.
  - by rewrite Z.div_small by lia.
Qed.

Lemma u64_neg z : - 2 ^ 64 <= z < 0 → u64 z = z + 2 ^ 64.
Proof. intros. unfold u64. rewrite <- (Z_mod_plus_full z 1). rewrite Z.mod_small; lia. Qed.

Lemma u64_big z : 2 ^ 64 <= z < 2 * 2 ^ 64 → u64 z = z - 2 ^ 64.
Proof. intros. unfold u64. rewrite <- (Z_mod_plus_full z (-1)). rewrite Z.mod_small; lia. Qed.

Lemma u64_cases z :
  - 2 ^ 64 <= z < 2 * 2 ^ 64 →
  u64 z = if z <? 0 then z + 2 ^ 64 else if z <? 2 ^ 64 then z else z - 2 ^ 64.
Proof.
  intros. destruct (Z.ltb_spec z 0); [apply u64_neg; lia|].
  destruct (Z.ltb_spec z (2 ^ 64)); [apply u64_small|apply u64_big]; lia.
Qed.

(** The overflow flag says that the exact result does not fit. *)
Lemma add_overflows_spec a b :
  - 2 ^ 63 <= a < 2 ^ 63 → - 2 ^ 63 <= b < 2 ^ 63 → add_overflows a b = negb (in_s64 (a + b)).
Proof.
  intros. unfold add_overflows, in_s64. rewrite (sign_s64 a), (sign_s64 b), sign_u64 by (done || apply u64_range).
  rewrite u64_cases by lia.
  destruct (Z.ltb_spec a 0), (Z.ltb_spec b 0), (Z.ltb_spec (a + b) 0); simpl; try lia.
  all: destruct (Z.ltb_spec (a + b) (2 ^ 64)); lia.
Qed.

Lemma sub_overflows_spec a b :
  - 2 ^ 63 <= a < 2 ^ 63 → - 2 ^ 63 <= b < 2 ^ 63 → sub_overflows a b = negb (in_s64 (a - b)).
Proof.
  intros. unfold sub_overflows, in_s64. rewrite (sign_s64 a), (sign_s64 b), sign_u64 by (done || apply u64_range).
  rewrite u64_cases by lia.
  destruct (Z.ltb_spec a 0), (Z.ltb_spec b 0), (Z.ltb_spec (a - b) 0); simpl; try lia.
  all: destruct (Z.ltb_spec (a - b) (2 ^ 64)); lia.
Qed.

Lemma sign_mask z : - 2 ^ 63 <= z < 2 ^ 63 → Z.land z LONG_SIGN_MASK = if z <? 0 then - 2 ^ 63 else 0.
Proof.
  intros Hz. unfold LONG_SIGN_MASK, ZEND_LONG_MIN. change (- 2 ^ 63) with (Z.lnot (Z.ones 63)).
  rewrite <- Z.ldiff_land, Z.ldiff_ones_r, Z.shiftl_mul_pow2, Z.shiftr_div_pow2 by lia.
  change (Z.lnot (Z.ones 63)) with (- 2 ^ 63). destruct (Z.ltb_spec z 0).
  - replace z with (-1 * 2 ^ 63 + (z + 2 ^ 63)) by lia. rewrite Z.div_add_l by lia.
    rewrite Z.div_small; lia.
  - rewrite Z.div_small; lia.
Qed.

Lemma s64_u64 a : s64 (u64 a) = s64 a.
Proof. unfold s64, sint, u64. by rewrite Z.mod_mod by lia. Qed.

Lemma s64_add a b : s64 (u64 a + u64 b) = s64 (a + b).
Proof. rewrite <- s64_u64, u64_add_l, u64_add_r. apply s64_u64. Qed.

Lemma s64_sub a b : s64 (u64 a - u64 b) = s64 (a - b).
Proof. unfold s64, sint, u64. by rewrite <- Zminus_mod. Qed.

Lemma s64_cases z :
  - 2 ^ 64 <= z < 2 ^ 64 →
  s64 z = if z <? - 2 ^ 63 then z + 2 ^ 64 else if z <? 2 ^ 63 then z else z - 2 ^ 64.
Proof.
  intros. unfold s64, sint. change (64 - 1) with 63. change (z mod 2 ^ 64) with (u64 z).
  rewrite u64_cases by lia.
  destruct (Z.ltb_spec z (- 2 ^ 63)), (Z.ltb_spec z (2 ^ 63)), (Z.ltb_spec z 0); try lia;
    repeat match goal with |- context [?x <? ?y] => destruct (Z.ltb_spec x y) end; lia.
Qed.

Lemma php_number_s64 z d :
  (if negb (in_s64 z) then NDouble d else NLong (s64 z)) = php_number z d.
Proof.
  unfold php_number. destruct (in_s64 z) eqn:E; [|done]. simpl. f_equal.
  by apply s64_spec, in_s64_spec.
Qed.

(** The flag, builtin and portable variants of fast_long_add_function and
    fast_long_sub_function give the exact integer when it fits and the double
    operation otherwise. *)
Theorem long_add_sub_variants a b :
  - 2 ^ 63 <= a < 2 ^ 63 → - 2 ^ 63 <= b < 2 ^ 63 →
  fast_long_add_function_asm a b = php_number (a + b) (dadd (of_long a) (of_long b)) ∧
  fast_long_add_function_builtin a b = php_number (a + b) (dadd (of_long a) (of_long b)) ∧
  fast_long_add_function a b = php_number (a + b) (dadd (of_long a) (of_long b)) ∧
  fast_long_sub_function_asm a b = php_number (a - b) (dsub (of_long a) (of_long b)) ∧
  fast_long_sub_function_builtin a b = php_number (a - b) (dsub (of_long a) (of_long b)) ∧
  fast_long_sub_function a b = php_number (a - b) (dsub (of_long a) (of_long b)).
Proof.
  intros Ha Hb.
  unfold fast_long_add_function_asm, fast_long_sub_function_asm,
    fast_long_add_function_builtin, fast_long_sub_function_builtin.
  rewrite add_overflows_spec, sub_overflows_spec, !php_number_s64 by done.
  split; [done|]. split; [done|]. split; [|split; [done|split; [done|]]].
  - unfold fast_long_add_function. rewrite s64_add, (sign_mask a), (sign_mask b), (sign_mask (s64 _)) by (done || apply s64_range).
    rewrite <- php_number_s64. unfold in_s64. rewrite s64_cases by lia.
    destruct (Z.ltb_spec a 0), (Z.ltb_spec b 0), (Z.ltb_spec (a + b) (- 2 ^ 63)),
      (Z.ltb_spec (a + b) (2 ^ 63)); try lia.
    all: rewrite ?(proj2 (Z.leb_le _ _)), ?(proj2 (Z.leb_gt _ _)) by lia; simpl.
    all: repeat match goal with |- context [?x <? 0] => destruct (Z.ltb_spec x 0) end; try done; lia.
  - unfold fast_long_sub_function. rewrite s64_sub, (sign_mask a), (sign_mask b), (sign_mask (s64 _)) by (done || apply s64_range).
    rewrite <- php_number_s64. unfold in_s64. rewrite s64_cases by lia.
    destruct (Z.ltb_spec a 0), (Z.ltb_spec b 0), (Z.ltb_spec (a - b) (- 2 ^ 63)),
      (Z.ltb_spec (a - b) (2 ^ 63)); try lia.
    all: rewrite ?(proj2 (Z.leb_le _ _)), ?(proj2 (Z.leb_gt _ _)) by lia; simpl.
    all: repeat match goal with |- context [?x <? 0] => destruct (Z.ltb_spec x 0) end; try done; lia.
Qed.

(** The three variants of fast_long_increment_function and
    fast_long_decrement_function agree with addition and subtraction of one,
    overflow included. *)
Lemma long_increment_variants a :
  - 2 ^ 63 <= a < 2 ^ 63 →
  fast_long_increment_function_asm a = php_number (a + 1) (dadd (of_long a) (of_long 1)) ∧
  fast_long_increment_function_builtin a = php_number (a + 1) (dadd (of_long a) (of_long 1)) ∧
  fast_long_increment_function a = php_number (a + 1) (dadd (of_long a) (of_long 1)) ∧
  fast_long_decrement_function_asm a = php_number (a - 1) (dsub (of_long a) (of_long 1)) ∧
  fast_long_decrement_function_builtin a = php_number (a - 1) (dsub (of_long a) (of_long 1)) ∧
  fast_long_decrement_function a = php_number (a - 1) (dsub (of_long a) (of_long 1)).
Proof.
  intros Ha. unfold fast_long_increment_function_asm, fast_long_decrement_function_asm,
    fast_long_increment_function_builtin, fast_long_decrement_function_builtin,
    fast_long_increment_function, fast_long_decrement_function, ZEND_LONG_MAX, ZEND_LONG_MIN.
  rewrite add_overflows_spec, sub_overflows_spec by lia.
  rewrite <- !php_number_s64. unfold in_s64. rewrite !s64_cases by lia.
  destruct (Z.eqb_spec a (2 ^ 63 - 1)) as [->|]; [done|].
  destruct (Z.eqb_spec a (- 2 ^ 63)) as [->|]; [done|].
  rewrite !(proj2 (Z.leb_le _ _)) by lia. rewrite !(proj2 (Z.ltb_lt _ (2 ^ 63))) by lia.
  rewrite !(proj2 (Z.ltb_ge _ (- 2 ^ 63))) by lia. done.
Qed.

End longs.

(** *** Comparisons across signedness *)
Section ranges.
Import RangeCheck.

(** Comparing a [size_t] with a [zend_long] through the macros is comparing the
    numbers, whatever the sign. *)
Lemma size_vs_long size zlong :
  in_u64 size → - 2 ^ 63 <= zlong < 2 ^ 63 →
  (ZEND_SIZE_T_GT_ZEND_LONG size zlong = true ↔ zlong < size) ∧
  (ZEND_SIZE_T_GTE_ZEND_LONG size zlong = true ↔ zlong <= size) ∧
  (ZEND_SIZE_T_LT_ZEND_LONG size zlong = true ↔ size < zlong) ∧
  (ZEND_SIZE_T_LTE_ZEND_LONG size zlong = true ↔ size <= zlong) ∧
  (ZEND_LONG_EXCEEDS_INT zlong = false ↔ s32 zlong = zlong) ∧
  (ZEND_LONG_UINT_OVFL zlong = false ↔ u32 zlong = zlong).
Proof.
  unfold in_u64, ZEND_SIZE_T_GT_ZEND_LONG, ZEND_SIZE_T_GTE_ZEND_LONG, ZEND_SIZE_T_LT_ZEND_LONG,
    ZEND_SIZE_T_LTE_ZEND_LONG, ZEND_LONG_EXCEEDS_INT, ZEND_LONG_UINT_OVFL, ZEND_LONG_INT_OVFL,
    ZEND_LONG_INT_UDFL, INT_MAX, INT_MIN, UINT_MAX. intros Hs Hz.
  pose proof (u64_cases zlong) as Hu. split_and!.
  1-4: rewrite Hu by lia; destruct (Z.ltb_spec zlong 0), (Z.ltb_spec zlong (2 ^ 64)); lia.
  - unfold s32, sint. change (32 - 1) with 31. pose proof (Z.div_mod zlong (2 ^ 32)).
    pose proof (Z.mod_pos_bound zlong (2 ^ 32)).
    destruct (Z.ltb_spec (zlong mod 2 ^ 32) (2 ^ 31)); lia.
  - unfold u32. pose proof (Z.div_mod zlong (2 ^ 32)). pose proof (Z.mod_pos_bound zlong (2 ^ 32)). lia.
Qed.

End ranges.

(** *** 128-bit integers *)
Section wide.
Import Uint128.

Lemma u128_join h l : 0 <= l < 2 ^ 64 → u128 (h * 2 ^ 64 + l) = u64 h * 2 ^ 64 + l.
Proof.
  intros Hl. unfold u128. symmetry. pose proof (u64_range h). pose proof (u64_split h).
  apply (Z.mod_unique_pos _ _ (h / 2 ^ 64)); lia.
Qed.

(** Schoolbook multiplication of the halves gives the exact high word. *)
Lemma mulh_halves x0 x1 y0 y1 :
  0 <= x0 < 2 ^ 32 → 0 <= x1 < 2 ^ 32 → 0 <= y0 < 2 ^ 32 → 0 <= y1 < 2 ^ 32 →
  let mid := u64 (u64 (x1 * y0) + Z.shiftr (u64 (x0 * y0)) 32) in
  let z0 := u64 (Z.land mid 0xffffffff + u64 (x0 * y1)) in
  u64 (u64 (u64 (x1 * y1) + Z.shiftr mid 32) + Z.shiftr z0 32)
  = ((x1 * 2 ^ 32 + x0) * (y1 * 2 ^ 32 + y0)) / 2 ^ 64.
Proof.
  intros H1 H2 H3 H4 mid z0.
  assert (0 <= x1 * y0 <= (2 ^ 32 - 1) * (2 ^ 32 - 1)) by nia.
  assert (0 <= x0 * y0 <= (2 ^ 32 - 1) * (2 ^ 32 - 1)) by nia.
  assert (0 <= x0 * y1 <= (2 ^ 32 - 1) * (2 ^ 32 - 1)) by nia.
  assert (0 <= x1 * y1 <= (2 ^ 32 - 1) * (2 ^ 32 - 1)) by nia.
  pose proof (Z.div_mod (x0 * y0) (2 ^ 32)) as Hc.
  pose proof (Z.mod_pos_bound (x0 * y0) (2 ^ 32)) as Hr.
  assert (Hm : mid = x1 * y0 + x0 * y0 / 2 ^ 32).
  { unfold mid. rewrite (u64_small (x1 * y0)), (u64_small (x0 * y0)) by lia.
    rewrite Z.shiftr_div_pow2 by lia. apply u64_small. lia. }
  pose proof (Z.div_mod mid (2 ^ 32)) as Hd. pose proof (Z.mod_pos_bound mid (2 ^ 32)) as Hd'.
  assert (Hz : z0 = mid mod 2 ^ 32 + x0 * y1).
  { unfold z0. change 0xffffffff with (Z.ones 32). rewrite Z.land_ones by lia.
    rewrite (u64_small (x0 * y1)) by lia. apply u64_small. lia. }
  pose proof (Z.div_mod z0 (2 ^ 32)) as He. pose proof (Z.mod_pos_bound z0 (2 ^ 32)) as He'.
  assert (Hq : (x1 * 2 ^ 32 + x0) * (y1 * 2 ^ 32 + y0)
     = (x1 * y1 + mid / 2 ^ 32 + z0 / 2 ^ 32) * 2 ^ 64 + (z0 mod 2 ^ 32 * 2 ^ 32 + (x0 * y0) mod 2 ^ 32)).
  { replace ((x1 * 2 ^ 32 + x0) * (y1 * 2 ^ 32 + y0))
      with (2 ^ 64 * (x1 * y1) + 2 ^ 32 * (x1 * y0) + 2 ^ 32 * (x0 * y1) + x0 * y0) by ring. lia. }
  rewrite Hq, Z.div_add_l by lia. rewrite (Z.div_small (_ + _)) by lia.
  rewrite Z.add_0_r, !Z.shiftr_div_pow2 by lia. rewrite (u64_small (x1 * y1)) by lia.
  rewrite (u64_small (x1 * y1 + mid / 2 ^ 32)) by lia. apply u64_small. split; [lia|].
  apply Z.mul_lt_mono_pos_l with (2 ^ 64); [lia|]. nia.
Qed.

Lemma halves_of a : in_u64 a →
  a = Z.shiftr a 32 * 2 ^ 32 + Z.land a 0xffffffff ∧
  0 <= Z.shiftr a 32 < 2 ^ 32 ∧ 0 <= Z.land a 0xffffffff < 2 ^ 32.
Proof.
  unfold in_u64. intros. change 0xffffffff with (Z.ones 32).
  rewrite Z.land_ones, Z.shiftr_div_pow2 by lia.
  pose proof (Z.div_mod a (2 ^ 32)). pose proof (Z.mod_pos_bound a (2 ^ 32)). lia.
Qed.

(** The two-word emulation of 128-bit arithmetic (addition, multiplication,
    rotation, halves) refines the native 128-bit one. *)
Theorem uint128_emulation a b :
  wf a → wf b →
  value (php_random_uint128_add a b) = native_add (value a) (value b) ∧
  value (php_random_uint128_multiply a b) = native_multiply (value a) (value b) ∧
  php_random_pcgoneseq128xslrr64_rotr64 a = native_rotr64 (value a) ∧
  value (php_random_uint128_constant (hi a) (lo a)) = native_constant (hi a) (lo a) ∧
  php_random_uint128_hi a = native_hi (value a) ∧ php_random_uint128_lo a = native_lo (value a).
Proof.
  destruct a as [h1 l1], b as [h2 l2]. intros [Hh1 Hl1] [Hh2 Hl2]. simpl in *.
  assert (Hhi : Z.shiftr (h1 * 2 ^ 64 + l1) 64 = h1).
  { rewrite Z.shiftr_div_pow2, Z.div_add_l, Z.div_small by (unfold in_u64 in *; lia). lia. }
  assert (Hlo : u64 (h1 * 2 ^ 64 + l1) = l1).
  { unfold u64. rewrite Z.add_comm, Z_mod_plus_full. by apply Z.mod_small. }
  unfold value, native_add, native_multiply, native_constant, native_hi, native_lo,
    native_rotr64, php_random_pcgoneseq128xslrr64_rotr64. simpl. rewrite Hhi, Hlo.
  rewrite (u64_small h1) by done. split_and!.
  - rewrite <- u128_join by apply u64_range. unfold u128.
    pose proof (u64_cases (l1 + l2)) as Hc. unfold in_u64 in *. rewrite Hc by lia.
    destruct (Z.ltb_spec (l1 + l2) 0); [lia|]. destruct (Z.ltb_spec (l1 + l2) (2 ^ 64)).
    + rewrite (proj2 (Z.ltb_ge _ _)) by lia. f_equal. lia.
    + rewrite (proj2 (Z.ltb_lt _ _)) by lia. f_equal. lia.
  - destruct (halves_of l1 Hl1) as (E1&?&?), (halves_of l2 Hl2) as (E2&?&?).
    pose proof (mulh_halves (Z.land l1 0xffffffff) (Z.shiftr l1 32)
                            (Z.land l2 0xffffffff) (Z.shiftr l2 32)) as Hm.
    cbv zeta in Hm. rewrite Hm by done. rewrite <- E1, <- E2. clear Hm.
    rewrite (u64_add_l (h1 * l2)), (u64_add_r (h1 * l2)), u64_add_l.
    rewrite <- (u128_join _ (u64 (l1 * l2))) by apply u64_range. unfold u128.
    replace ((h1 * 2 ^ 64 + l1) * (h2 * 2 ^ 64 + l2))
      with ((h1 * l2 + l1 * h2 + l1 * l2 / 2 ^ 64) * 2 ^ 64 + u64 (l1 * l2)
            + (h1 * h2) * 2 ^ 128) by (pose proof (u64_split (l1 * l2)); lia).
    by rewrite Z_mod_plus_full.
  - f_equal. rewrite Z.shiftr_div_pow2, Z.shiftr_div_pow2 by lia.
    change (2 ^ 122) with (2 ^ 64 * 2 ^ 58). rewrite <- Z.div_div by lia.
    rewrite Z.div_add_l, (Z.div_small l1) by (done || lia). by rewrite Z.add_0_r.
  - rewrite Z.shiftl_mul_pow2 by lia. by rewrite u128_join, u64_small.
  - done.
  - done.
Qed.

End wide.
