(* ===== verification/ZendString.v ===== *)
(** * Strings of the engine (Zend/zend_string.h)

    A [zend_string] is a counted header, a cached hash, a length and the bytes
    with a terminator the length does not count. The operations work on the
    counted heap; [None] is undefined behaviour: a dangling pointer, a read of
    memory never written, a write past the allocation. *)

From S2P Require Import Prelude ZendTypes ZendArith.

(** ** Sizes *)
Module StrSize.

Definition ZEND_MM_ALIGNMENT : Z := 8.
Definition ZEND_MM_ALIGNED_SIZE (size : Z) : Z :=
  Z.land (u64 (size + ZEND_MM_ALIGNMENT - 1)) (Z.lxor (ZEND_MM_ALIGNMENT - 1) (Z.ones 64)).
(** [XtOffsetOf(zend_string, val)]: two 32-bit words, the hash and the length. *)
Definition ZSTR_HEADER_SIZE : Z := 24.
Definition ZSTR_STRUCT_SIZE (len : Z) : Z := u64 (ZSTR_HEADER_SIZE + len + 1).
Definition ZSTR_MAX_OVERHEAD : Z := ZEND_MM_ALIGNED_SIZE (ZSTR_HEADER_SIZE + 1).
Definition ZSTR_MAX_LEN : Z := 2 ^ 64 - 1 - ZSTR_MAX_OVERHEAD.
(** The size [zend_string_alloc] asks the allocator for. *)
Definition zstr_alloc_size (len : Z) : Z := ZEND_MM_ALIGNED_SIZE (ZSTR_STRUCT_SIZE len).

End StrSize.
Export StrSize.

(** ** Views of a string in the heap *)
Module Str.

(** The fields [h], [len] and [val] of a string object. *)
Definition as_string (o : zend_refcounted) : option (Z * Z * block) :=
  match gc_body o with BString h len val => Some (h, len, val) | _ => None end.

(** [len] bytes read from the start of a block, all of them written before. *)
Definition read_bytes (n : nat) (val : block) : option bytes :=
  if decide (n ≤ length val)%nat then mapM id (take n val) else None.

Definition ZSTR_H (o : zend_refcounted) : option Z := '(h, _, _) ← as_string o; Some h.
Definition ZSTR_LEN (o : zend_refcounted) : option Z := '(_, len, _) ← as_string o; Some len.
(** The contents [ZSTR_VAL(s)[0 .. ZSTR_LEN(s))]. *)
Definition zstr_bytes (o : zend_refcounted) : option bytes :=
  '(_, len, val) ← as_string o; read_bytes (Z.to_nat len) val.

Definition with_string (o : zend_refcounted) (h len : Z) (val : block) : zend_refcounted :=
  Counted (gc_refcount o) (gc_type_info o) (BString h len val).

(** *** Hash and reference count *)

Section with_hash.
(** [zend_string_hash_func] is compiled into the engine library. *)
Context (zend_string_hash_func : bytes → Z).

(** Reads the cached hash, or computes it and caches it. *)
Definition zend_string_hash_val (s : loc) (heap : zheap) : option (Z * zheap) :=
  o ← heap !! s; '(h, len, val) ← as_string o;
  if negb (h =? 0) then Some (h, heap)
  else bs ← zstr_bytes o;
       let h' := zend_string_hash_func bs in
       Some (h', <[s := with_string o h' len val]> heap).
End with_hash.

Definition forget_hash (o : zend_refcounted) : option zend_refcounted :=
  '(_, len, val) ← as_string o;
  Some (with_type_info (with_string o 0 len val) (gc_del_flags (gc_type_info o) IS_STR_VALID_UTF8)).
Definition zend_string_forget_hash_val (s : loc) (heap : zheap) : option zheap :=
  o ← heap !! s; o' ← forget_hash o; Some (<[s := o']> heap).

Definition zend_string_refcount (s : loc) (heap : zheap) : option Z :=
  o ← heap !! s; Some (if ZSTR_IS_INTERNED o then 1 else gc_refcount o).

Definition zend_string_addref (s : loc) (heap : zheap) : option (Z * zheap) :=
  o ← heap !! s;
  if ZSTR_IS_INTERNED o then Some (1, heap)
  else heap' ← GC_ADDREF s heap; Some (u32 (gc_refcount o + 1), heap').

Definition zend_string_delref (s : loc) (heap : zheap) : option (Z * zheap) :=
  o ← heap !! s;
  if ZSTR_IS_INTERNED o then Some (1, heap) else GC_DELREF s heap.

(** *** Allocation *)

(** A string object in [size] bytes of fresh memory: the header is written, the
    characters are not. The header itself must fit. *)
Definition fresh_string (size len : Z) (persistent : bool) : option zend_refcounted :=
  if ZSTR_HEADER_SIZE <=? size
  then Some (Counted 1
               (Z.lor GC_STRING (Z.shiftl (if persistent then IS_STR_PERSISTENT else 0) GC_FLAGS_SHIFT))
               (BString 0 len (replicate (Z.to_nat (size - ZSTR_HEADER_SIZE)) None)))
  else None.

Definition zend_string_alloc (len : Z) (persistent : bool) (heap : zheap) : option (loc * zheap) :=
  o ← fresh_string (zstr_alloc_size len) len persistent; Some (halloc o heap).

(** The multiplied size is checked by the allocator; the length is not. *)
Definition zend_string_safe_alloc (n m l : Z) (persistent : bool) (heap : zheap) : option (loc * zheap) :=
  size ← SafeAddress.zend_safe_address_guarded n m (zstr_alloc_size l);
  o ← fresh_string size (u64 (u64 (n * m) + l)) persistent; Some (halloc o heap).

(** [memcpy(ZSTR_VAL(s) + off, src, length src)]. *)
Definition zstr_write (s : loc) (off : nat) (src : block) (heap : zheap) : option zheap :=
  o ← heap !! s; '(h, len, val) ← as_string o; val' ← blk_write val off src;
  Some (<[s := with_string o h len val']> heap).

(** [str] holds the [len] bytes read by [memcpy]. *)
Definition zend_string_init (str : bytes) (persistent : bool) (heap : zheap) : option (loc * zheap) :=
  let len := Z.of_nat (length str) in
  '(s, heap) ← zend_string_alloc len persistent heap;
  heap ← zstr_write s 0 (Some <$> str) heap;
  heap ← zstr_write s (length str) [Some NUL] heap;
  Some (s, heap).

(** [zend_empty_string] and [zend_one_char_string] are interned at startup. *)
Definition zend_string_init_fast (zend_empty_string : loc) (zend_one_char_string : byte → loc)
    (str : bytes) (heap : zheap) : option (loc * zheap) :=
  match str with
  | [] => Some (zend_empty_string, heap)
  | [c] => Some (zend_one_char_string c, heap)
  | _ => zend_string_init str false heap
  end.

Definition zend_string_copy (s : loc) (heap : zheap) : option (loc * zheap) :=
  o ← heap !! s;
  if ZSTR_IS_INTERNED o then Some (s, heap)
  else heap' ← GC_ADDREF s heap; Some (s, heap').

Definition zend_string_dup (s : loc) (persistent : bool) (heap : zheap) : option (loc * zheap) :=
  o ← heap !! s;
  if ZSTR_IS_INTERNED o then Some (s, heap)
  else bs ← zstr_bytes o; zend_string_init bs persistent heap.

Definition zend_string_separate (s : loc) (persistent : bool) (heap : zheap) : option (loc * zheap) :=
  o ← heap !! s;
  if ZSTR_IS_INTERNED o || (1 <? gc_refcount o) then
    heap ← (if ZSTR_IS_INTERNED o then Some heap else snd <$> GC_DELREF s heap);
    bs ← zstr_bytes o; zend_string_init bs persistent heap
  else heap ← zend_string_forget_hash_val s heap; Some (s, heap).

(** [perealloc] to a new size: the bytes that fit are kept, new ones are not
    written. The block may move, and the old pointer is dead either way. *)
Definition zstr_realloc (s : loc) (size len : Z) (heap : zheap) : option (loc * zheap) :=
  o ← heap !! s; '(h, _, val) ← as_string o;
  if ZSTR_HEADER_SIZE <=? size then
    let cap := Z.to_nat (size - ZSTR_HEADER_SIZE) in
    let val' := take cap val ++ replicate (cap - length val) None in
    o' ← forget_hash (with_string o h len val');
    Some (halloc o' (delete s heap))
  else None.

(** The shared tail of the growing and shrinking operations: a shared or interned
    string is copied ([ncopy] bytes, terminator included) into a new allocation. *)
Definition zstr_copy_out (s : loc) (o : zend_refcounted) (ncopy : Z) (fresh : loc * zheap)
    : option (loc * zheap) :=
  let '(ret, heap) := fresh in
  '(_, _, val) ← as_string o;
  if decide (Z.to_nat ncopy ≤ length val)%nat then
    heap ← zstr_write ret 0 (take (Z.to_nat ncopy) val) heap;
    heap ← (if ZSTR_IS_INTERNED o then Some heap else snd <$> GC_DELREF s heap);
    Some (ret, heap)
  else None.

Definition zend_string_realloc (s : loc) (len : Z) (persistent : bool) (heap : zheap) : option (loc * zheap) :=
  o ← heap !! s; slen ← ZSTR_LEN o;
  if negb (ZSTR_IS_INTERNED o) && (gc_refcount o =? 1)
  then zstr_realloc s (zstr_alloc_size len) len heap
  else r ← zend_string_alloc len persistent heap; zstr_copy_out s o (Z.min len slen + 1) r.

Definition zend_string_extend (s : loc) (len : Z) (persistent : bool) (heap : zheap) : option (loc * zheap) :=
  o ← heap !! s; slen ← ZSTR_LEN o;
  if negb (slen <=? len) then None
  else if negb (ZSTR_IS_INTERNED o) && (gc_refcount o =? 1)
  then zstr_realloc s (zstr_alloc_size len) len heap
  else r ← zend_string_alloc len persistent heap; zstr_copy_out s o (slen + 1) r.

Definition zend_string_truncate (s : loc) (len : Z) (persistent : bool) (heap : zheap) : option (loc * zheap) :=
  o ← heap !! s; slen ← ZSTR_LEN o;
  if negb (len <=? slen) then None
  else if negb (ZSTR_IS_INTERNED o) && (gc_refcount o =? 1)
  then zstr_realloc s (zstr_alloc_size len) len heap
  else r ← zend_string_alloc len persistent heap; zstr_copy_out s o (len + 1) r.

Definition zend_string_safe_realloc (s : loc) (n m l : Z) (persistent : bool) (heap : zheap)
    : option (loc * zheap) :=
  o ← heap !! s; slen ← ZSTR_LEN o;
  let len := u64 (u64 (n * m) + l) in
  if negb (ZSTR_IS_INTERNED o) && (gc_refcount o =? 1)
  then size ← SafeAddress.zend_safe_address_guarded n m (zstr_alloc_size l);
       zstr_realloc s size len heap
  else r ← zend_string_safe_alloc n m l persistent heap; zstr_copy_out s o (Z.min len slen + 1) r.

(** *** Release *)

Definition zend_string_free (s : loc) (heap : zheap) : option zheap :=
  o ← heap !! s;
  if ZSTR_IS_INTERNED o then Some heap
  else if gc_refcount o <=? 1 then Some (delete s heap) else None.

Definition zend_string_efree (s : loc) (heap : zheap) : option zheap :=
  o ← heap !! s;
  if negb (ZSTR_IS_INTERNED o) && (gc_refcount o <=? 1) && negb (has_flag o IS_STR_PERSISTENT)
  then Some (delete s heap) else None.

Definition zend_string_release (s : loc) (heap : zheap) : option zheap :=
  o ← heap !! s;
  if ZSTR_IS_INTERNED o then Some heap
  else '(rc, heap) ← GC_DELREF s heap;
       if rc =? 0 then Some (delete s heap) else Some heap.

(** The caller says which allocator the string came from. *)
Definition zend_string_release_ex (s : loc) (persistent : bool) (heap : zheap) : option zheap :=
  o ← heap !! s;
  if ZSTR_IS_INTERNED o then Some heap
  else '(rc, heap) ← GC_DELREF s heap;
       if rc =? 0
       then if Bool.eqb persistent (has_flag o IS_STR_PERSISTENT) then Some (delete s heap) else None
       else Some heap.

(** *** Comparison *)

(** [memcmp(a, b, n) == 0] reads [n] bytes of both. *)
Definition memeq (n : nat) (a b : block) : option bool :=
  x ← read_bytes n a; y ← read_bytes n b; Some (bool_decide (x = y)).

Definition zend_string_equals_cstr (o : zend_refcounted) (s2 : bytes) : option bool :=
  '(_, len, val) ← as_string o;
  if len =? Z.of_nat (length s2) then memeq (length s2) val (Some <$> s2) else Some false.

Definition zend_string_equal_val (o1 o2 : zend_refcounted) : option bool :=
  '(_, len1, v1) ← as_string o1; '(_, _, v2) ← as_string o2; memeq (Z.to_nat len1) v1 v2.

Definition zend_string_equal_content (o1 o2 : zend_refcounted) : option bool :=
  len1 ← ZSTR_LEN o1; len2 ← ZSTR_LEN o2;
  if len1 =? len2 then zend_string_equal_val o1 o2 else Some false.

Definition zend_string_equals (s1 s2 : loc) (heap : zheap) : option bool :=
  o1 ← heap !! s1; o2 ← heap !! s2;
  if decide (s1 = s2) then Some true else zend_string_equal_content o1 o2.

Definition zend_string_starts_with_cstr (o : zend_refcounted) (prefix : bytes) : option bool :=
  '(_, len, val) ← as_string o;
  if Z.of_nat (length prefix) <=? len then memeq (length prefix) val (Some <$> prefix) else Some false.

Definition zend_string_starts_with (o p : zend_refcounted) : option bool :=
  bs ← zstr_bytes p; zend_string_starts_with_cstr o bs.

(** *** Properties that survive concatenation *)

Definition ZSTR_COPYABLE_CONCAT_PROPERTIES : Z := IS_STR_VALID_UTF8.
Definition ZSTR_GET_COPYABLE_CONCAT_PROPERTIES (o : zend_refcounted) : Z :=
  Z.land (GC_FLAGS o) ZSTR_COPYABLE_CONCAT_PROPERTIES.
Definition ZSTR_GET_COPYABLE_CONCAT_PROPERTIES_BOTH (o1 o2 : zend_refcounted) : Z :=
  Z.land (Z.land (GC_FLAGS o1) (GC_FLAGS o2)) ZSTR_COPYABLE_CONCAT_PROPERTIES.
Definition ZSTR_COPY_CONCAT_PROPERTIES_BOTH (out in1 in2 : zend_refcounted) : zend_refcounted :=
  with_type_info out (gc_add_flags (gc_type_info out) (ZSTR_GET_COPYABLE_CONCAT_PROPERTIES_BOTH in1 in2)).

End Str.
Export Str.

(** ** The string hash *)
Module StrHash.

Definition HASH_SEED : Z := 5381.
Definition HASH_HIGH_BIT : Z := 0x8000000000000000.

(** [hash * 33^k + str[0] * 33^(k-1) + ... + str[k-1]] in [zend_ulong]. *)
Definition step4 (hash c0 c1 c2 c3 : Z) : Z :=
  u64 (hash * (33 * 33 * 33 * 33) + c0 * (33 * 33 * 33) + c1 * (33 * 33) + c2 * 33 + c3).
Definition step3 (hash c0 c1 c2 : Z) : Z :=
  u64 (hash * (33 * 33 * 33) + c0 * (33 * 33) + c1 * 33 + c2).
Definition step2 (hash c0 c1 : Z) : Z := u64 (hash * (33 * 33) + c0 * 33 + c1).
Definition step1 (hash c0 : Z) : Z := u64 (hash * 33 + c0).

(** The tail after the 8-byte loop; [cv] is how the target reads a [char]. *)
Definition hash_tail (cv : byte → Z) (hash : Z) (str : bytes) : Z :=
  let '(hash, str) :=
    match str with
    | a :: b :: c :: d :: rest => (step4 hash (cv a) (cv b) (cv c) (cv d), rest)
    | _ => (hash, str)
    end in
  match str with
  | [a; b; c] => step3 hash (cv a) (cv b) (cv c)
  | [a; b] => step2 hash (cv a) (cv b)
  | [a] => step1 hash (cv a)
  | _ => hash
  end.

(** One turn of the loop with indexed loads (amd64). *)
Definition turn_indexed (cv : byte → Z) (hash : Z) (a b c d e f g h : byte) : Z :=
  step4 (step4 hash (cv a) (cv b) (cv c) (cv d)) (cv e) (cv f) (cv g) (cv h).

(** One turn on arm64: a little-endian 8-byte load, the bytes taken out by
    shifts. *)
Definition load64 (bs : bytes) : Z := foldr (λ b acc, uchar b + 256 * acc) 0 bs.
Definition chunk_byte (chunk k : Z) : Z := Z.land (Z.shiftr chunk (8 * k)) 0xff.
Definition turn_chunk (hash : Z) (a b c d e f g h : byte) : Z :=
  let chunk := load64 [a; b; c; d; e; f; g; h] in
  let hash := step4 hash (chunk_byte chunk 0) (chunk_byte chunk 1) (chunk_byte chunk 2) (chunk_byte chunk 3) in
  step4 hash (chunk_byte chunk 4) (chunk_byte chunk 5) (chunk_byte chunk 6) (chunk_byte chunk 7).

(** The loop [for (; len >= 8; len -= 8, str += 8)] followed by the tail. *)
Fixpoint hash_loop (turn : Z → byte → byte → byte → byte → byte → byte → byte → byte → Z)
    (tail : Z → bytes → Z) (hash : Z) (str : bytes) : Z :=
  match str with
  | a :: b :: c :: d :: e :: f :: g :: h :: rest =>
      hash_loop turn tail (turn hash a b c d e f g h) rest
  | _ => tail hash str
  end.

(** The three variants of [zend_inline_hash_func]; [char] is signed on amd64 and
    unsigned on arm64 Android. *)
Definition zend_inline_hash_func_x86_64 (str : bytes) : Z :=
  Z.lor (hash_loop (turn_indexed schar) (hash_tail schar) HASH_SEED str) HASH_HIGH_BIT.
Definition zend_inline_hash_func_aarch64 (str : bytes) : Z :=
  Z.lor (hash_loop turn_chunk (hash_tail uchar) HASH_SEED str) HASH_HIGH_BIT.

(** [hash = ((hash << 5) + hash) + *str++], eight times unrolled, then a switch
    that falls through: both run once per character. *)
Definition shift_step (cv : byte → Z) (hash : Z) (b : byte) : Z :=
  u64 (u64 (u64 (Z.shiftl hash 5) + hash) + cv b).
Definition shift_turn (cv : byte → Z) (hash : Z) (a b c d e f g h : byte) : Z :=
  foldl (shift_step cv) hash [a; b; c; d; e; f; g; h].
Definition shift_tail (cv : byte → Z) (hash : Z) (str : bytes) : Z := foldl (shift_step cv) hash str.
Definition zend_inline_hash_func_portable (cv : byte → Z) (str : bytes) : Z :=
  Z.lor (hash_loop (shift_turn cv) (shift_tail cv) HASH_SEED str) HASH_HIGH_BIT.

(** The comment's definition, [hash(i) = hash(i-1) * 33 + str[i]]. *)
Definition djbx33a (cv : byte → Z) (str : bytes) : Z :=
  foldl (λ hash b, u64 (hash * 33 + cv b)) HASH_SEED str.

End StrHash.

(** ** Theorems *)

(** *** Sizes *)

Lemma aligned_size_eq n :
  0 <= n <= 2 ^ 64 - 8 → ZEND_MM_ALIGNED_SIZE n = 8 * ((n + 7) / 8).
Proof.
  intros. unfold ZEND_MM_ALIGNED_SIZE, ZEND_MM_ALIGNMENT. replace (n + 8 - 1) with (n + 7) by lia.
  rewrite u64_small by lia.
  change (Z.lxor (8 - 1) (Z.ones 64)) with (Z.shiftl (Z.ones 61) 3).
  assert (E : Z.land (n + 7) (Z.shiftl (Z.ones 61) 3) = Z.shiftl (Z.land (Z.shiftr (n + 7) 3) (Z.ones 61)) 3).
  { apply Z.bits_inj'. intros i Hi. rewrite Z.land_spec, !Z.shiftl_spec by lia.
    destruct (Z.lt_ge_cases i 3).
    - rewrite !(Z.testbit_neg_r _ (i - 3)) by lia. apply andb_false_r.
    - rewrite Z.land_spec, Z.shiftr_spec by lia. do 2 f_equal. lia. }
  rewrite E, Z.shiftl_mul_pow2, Z.shiftr_div_pow2, Z.land_ones by lia.
  change (2 ^ 3) with 8. rewrite Z.mod_small; [lia|].
  split; [apply Z.div_pos; lia|]. apply Z.div_lt_upper_bound; lia.
Qed.

Lemma zstr_alloc_size_ge len :
  0 <= len <= ZSTR_MAX_LEN →
  ZSTR_HEADER_SIZE + len + 1 <= zstr_alloc_size len < 2 ^ 64.
Proof.
  intros Hl. unfold ZSTR_MAX_LEN, ZSTR_MAX_OVERHEAD in Hl.
  change (ZEND_MM_ALIGNED_SIZE (ZSTR_HEADER_SIZE + 1)) with 32 in Hl.
  unfold zstr_alloc_size, ZSTR_STRUCT_SIZE, ZSTR_HEADER_SIZE in *.
  rewrite u64_small, aligned_size_eq by lia.
  pose proof (Z.div_mod (24 + len + 1 + 7) 8). pose proof (Z.mod_pos_bound (24 + len + 1 + 7) 8). lia.
Qed.

(** The aligned allocation size of a string holds header, contents and
    terminator without wrapping up to ZSTR_MAX_LEN, and wraps to zero one byte
    further. *)
Theorem string_size_bound len :
  0 <= len <= ZSTR_MAX_LEN →
  ZSTR_HEADER_SIZE + len + 1 <= zstr_alloc_size len < 2 ^ 64 ∧
  (8 | zstr_alloc_size len) ∧
  zstr_alloc_size (ZSTR_MAX_LEN + 1) = 0 ∧
  (∀ p heap, zend_string_alloc (ZSTR_MAX_LEN + 1) p heap = None).
Proof.
  intros Hl. split; [by apply zstr_alloc_size_ge|]. split; [|done].
  unfold ZSTR_MAX_LEN, ZSTR_MAX_OVERHEAD in Hl.
  change (ZEND_MM_ALIGNED_SIZE (ZSTR_HEADER_SIZE + 1)) with 32 in Hl.
  unfold zstr_alloc_size, ZSTR_STRUCT_SIZE, ZSTR_HEADER_SIZE in *.
  rewrite u64_small, aligned_size_eq by lia. apply Z.divide_factor_l.
Qed.

(** *** Well-formed strings *)

(** The object [o] is a string with contents [bs] and its terminator. *)
Definition zstr_ok (bs : bytes) (o : zend_refcounted) : Prop :=
  ∃ h val, gc_body o = BString h (Z.of_nat (length bs)) val ∧
           take (S (length bs)) val = (Some <$> bs) ++ [Some NUL].

Definition fits (bs : bytes) : Prop := Z.of_nat (length bs) <= ZSTR_MAX_LEN.

Lemma mapM_id_Some (bs : bytes) : mapM id (Some <$> bs) = Some bs.
Proof. apply mapM_Some. induction bs; constructor; done. Qed.

Lemma read_bytes_ok n bs rest :
  n = length bs → read_bytes n ((Some <$> bs) ++ rest) = Some bs.
Proof.
  intros ->. unfold read_bytes. rewrite length_app, length_fmap, decide_True by lia.
  rewrite take_app_length' by by rewrite length_fmap. apply mapM_id_Some.
Qed.

Lemma zstr_ok_val bs o :
  zstr_ok bs o → ∃ h rest, gc_body o = BString h (Z.of_nat (length bs)) ((Some <$> bs) ++ Some NUL :: rest).
Proof.
  intros (h&val&Hb&Ht). exists h, (drop (S (length bs)) val). rewrite Hb. f_equal.
  rewrite <- (take_drop (S (length bs)) val) at 1. by rewrite Ht, <- app_assoc.
Qed.

Lemma zstr_ok_bytes bs o : zstr_ok bs o → zstr_bytes o = Some bs.
Proof.
  intros (h&rest&Hb)%zstr_ok_val. unfold zstr_bytes, as_string. rewrite Hb. simpl.
  apply read_bytes_ok. lia.
Qed.

Lemma zstr_ok_len bs o : zstr_ok bs o → ZSTR_LEN o = Some (Z.of_nat (length bs)).
Proof. intros (h&val&Hb&_). unfold ZSTR_LEN, as_string. by rewrite Hb. Qed.

(** A string object as [zend_string_init] leaves it. *)
Definition new_string (bs : bytes) (persistent : bool) : zend_refcounted :=
  Counted 1
    (Z.lor GC_STRING (Z.shiftl (if persistent then IS_STR_PERSISTENT else 0) GC_FLAGS_SHIFT))
    (BString 0 (Z.of_nat (length bs))
       ((Some <$> bs) ++ Some NUL ::
          replicate (Z.to_nat (zstr_alloc_size (Z.of_nat (length bs)) - ZSTR_HEADER_SIZE) - S (length bs)) None)).

Lemma new_string_ok bs p : zstr_ok bs (new_string bs p).
Proof.
  eexists _, _. split; [done|]. rewrite cons_middle, app_assoc.
  rewrite take_app_length'; [done|]. rewrite length_app, length_fmap. simpl. lia.
Qed.

Lemma new_string_flags bs p :
  ZSTR_IS_INTERNED (new_string bs p) = false ∧ has_flag (new_string bs p) IS_STR_PERSISTENT = p
  ∧ GC_TYPE (new_string bs p) = IS_STRING.
Proof. by destruct p. Qed.

Lemma zend_string_init_eq bs p heap :
  fits bs →
  zend_string_init bs p heap = Some (halloc (new_string bs p) heap).
Proof.
  intros Hf. unfold fits in Hf. pose proof (zstr_alloc_size_ge (Z.of_nat (length bs))) as Hs.
  unfold zend_string_init, zend_string_alloc, fresh_string.
  rewrite (proj2 (Z.leb_le _ _)) by lia. simpl. unfold halloc. set (l := fresh (dom heap)).
  set (cap := Z.to_nat (zstr_alloc_size (Z.of_nat (length bs)) - ZSTR_HEADER_SIZE)).
  assert (Hc : (S (length bs) ≤ cap)%nat) by lia.
  unfold zstr_write. rewrite lookup_insert_eq. simpl.
  rewrite blk_write_fits by (rewrite length_fmap, length_replicate; lia). simpl.
  rewrite lookup_insert_eq. simpl.
  rewrite blk_write_fits by (rewrite length_app, length_fmap, length_drop, length_replicate; simpl; lia).
  simpl. rewrite !insert_insert_eq. do 3 f_equal. unfold new_string, with_string. simpl. do 3 f_equal.
  { by rewrite take_app_length' by by rewrite length_fmap. }
  rewrite drop_app_ge by (rewrite length_fmap; lia). f_equal. f_equal.
  rewrite drop_drop, drop_replicate. f_equal. rewrite length_fmap. lia.
Qed.

Lemma halloc_fresh o (heap : zheap) l heap' :
  halloc o heap = (l, heap') → heap !! l = None ∧ heap' = <[l := o]> heap.
Proof. intros [= <- <-]. split; [|done]. apply not_elem_of_dom, is_fresh. Qed.

Lemma release_last s o heap :
  heap !! s = Some o → ZSTR_IS_INTERNED o = false → gc_refcount o = 1 →
  zend_string_release s heap = Some (delete s heap).
Proof.
  intros Hs Hi Hr. unfold zend_string_release. rewrite Hs. simpl. rewrite Hi.
  rewrite (GC_DELREF_lookup _ _ _ Hs) by lia. simpl. rewrite Hr. simpl. by rewrite delete_insert_eq.
Qed.

(** Zend_string_init makes a well-formed, terminated, uninterned string with
    one reference in fresh memory, persistent or not as asked, and releasing it
    gives the heap back. *)
Theorem string_init_release bs p heap :
  fits bs →
  ∃ s heap' o, zend_string_init bs p heap = Some (s, heap') ∧
    heap !! s = None ∧ heap' = <[s := o]> heap ∧
    zstr_ok bs o ∧ gc_refcount o = 1 ∧ ZSTR_IS_INTERNED o = false ∧
    has_flag o IS_STR_PERSISTENT = p ∧
    zend_string_release s heap' = Some heap ∧ zend_string_release_ex s p heap' = Some heap.
Proof.
  intros Hf. rewrite zend_string_init_eq by done.
  destruct (halloc (new_string bs p) heap) as [s heap'] eqn:E.
  apply halloc_fresh in E as [Hn ->].
  destruct (new_string_flags bs p) as (Hi&Hp&_).
  exists s, (<[s := new_string bs p]> heap), (new_string bs p).
  split_and!; try done; [apply new_string_ok| |].
  - rewrite (release_last _ (new_string bs p)) by (rewrite ?lookup_insert_eq; done).
    by rewrite delete_insert_id.
  - unfold zend_string_release_ex. rewrite lookup_insert_eq. cbn [mbind option_bind].
    rewrite Hi, Hp, Bool.eqb_reflx.
    rewrite (GC_DELREF_lookup _ _ (new_string bs p)) by (rewrite ?lookup_insert_eq; done || simpl; lia).
    simpl. by rewrite delete_insert_eq, delete_insert_id.
Qed.

(** *** Growing and shrinking *)

(** The first bytes of the characters of [o] are [bs], inside an allocation of
    [cap] characters. *)
Definition zstr_holds (bs : bytes) (len cap : Z) (o : zend_refcounted) : Prop :=
  ∃ h val, gc_body o = BString h len val ∧ cap <= Z.of_nat (length val) ∧
           take (length bs) val = Some <$> bs.

Lemma take_min_fmap (bs : bytes) n val :
  take (S (length bs)) val = (Some <$> bs) ++ [Some NUL] →
  take (length (take n bs)) val = Some <$> take n bs.
Proof.
  intros H. rewrite length_take, fmap_take.
  replace (n `min` length bs)%nat with ((n `min` length bs) `min` S (length bs))%nat by lia.
  rewrite <- take_take, H, take_app_le by (rewrite length_fmap; lia).
  destruct (Nat.le_ge_cases n (length bs)).
  - f_equal. lia.
  - rewrite !take_ge; [done|rewrite length_fmap; lia..].
Qed.

Lemma zstr_ok_capacity bs o :
  zstr_ok bs o → ∃ h val, gc_body o = BString h (Z.of_nat (length bs)) val ∧
    (S (length bs) ≤ length val)%nat ∧ take (S (length bs)) val = (Some <$> bs) ++ [Some NUL].
Proof.
  intros (h&val&Hb&Ht). exists h, val. split_and!; [done| |done].
  apply (f_equal length) in Ht. rewrite length_take, length_app, length_fmap in Ht. cbn [length] in Ht. lia.
Qed.

(** The only owner's allocation is resized. *)
Lemma zstr_realloc_keeps s o bs len heap :
  heap !! s = Some o → zstr_ok bs o → 0 <= len <= ZSTR_MAX_LEN →
  ∃ s' o', zstr_realloc s (zstr_alloc_size len) len heap = Some (s', <[s' := o']> (delete s heap)) ∧
    delete s heap !! s' = None ∧ gc_refcount o' = gc_refcount o ∧
    zstr_holds (take (Z.to_nat len) bs) len (len + 1) o'.
Proof.
  intros Hs (h&val&Hb&Hv&Ht)%zstr_ok_capacity Hl.
  pose proof (zstr_alloc_size_ge len Hl) as Ha. unfold zstr_realloc, as_string.
  rewrite Hs. simpl. rewrite Hb. simpl. rewrite (proj2 (Z.leb_le _ _)) by lia. simpl.
  eexists _, _. split_and!; [done|apply not_elem_of_dom, is_fresh|done|].
  set (cap := Z.to_nat (zstr_alloc_size len - ZSTR_HEADER_SIZE)).
  eexists _, _. split_and!; [done|rewrite length_app, length_take, length_replicate; lia|].
  rewrite take_app_le; [|rewrite !length_take; lia].
  rewrite take_take, Nat.min_l by (rewrite length_take; lia). by apply take_min_fmap.
Qed.

(** A shared string is copied into a fresh one. *)
Lemma zstr_copy_out_keeps s o bs len p heap :
  heap !! s = Some o → zstr_ok bs o → 0 < gc_refcount o < 2 ^ 32 → 0 <= len <= ZSTR_MAX_LEN →
  ∃ s' o', (r ← zend_string_alloc len p heap; zstr_copy_out s o (Z.min len (Z.of_nat (length bs)) + 1) r)
      = Some (s', <[s' := o']> (if ZSTR_IS_INTERNED o then heap
                                else <[s := with_refcount o (gc_refcount o - 1)]> heap)) ∧
    heap !! s' = None ∧ gc_refcount o' = 1 ∧
    zstr_holds (take (Z.to_nat len) bs) len (len + 1) o'.
Proof.
  intros Hs Hok Hr Hl. pose proof (zstr_ok_capacity _ _ Hok) as (h&val&Hb&Hv&Ht).
  pose proof (zstr_alloc_size_ge len Hl) as Ha. unfold zend_string_alloc, fresh_string.
  rewrite (proj2 (Z.leb_le _ _)) by lia. simpl. unfold halloc. set (s' := fresh (dom heap)).
  assert (Hn : heap !! s' = None) by apply not_elem_of_dom, is_fresh.
  assert (s ≠ s') as Hne by (intros <-; congruence).
  set (cap := Z.to_nat (zstr_alloc_size len - ZSTR_HEADER_SIZE)).
  unfold zstr_copy_out, as_string. rewrite Hb. simpl. rewrite decide_True by lia.
  set (n := Z.to_nat (Z.min len (Z.of_nat (length bs)) + 1)).
  assert (Hlen : length (take n val) = n) by (rewrite length_take; lia).
  unfold zstr_write. rewrite lookup_insert_eq. simpl.
  rewrite blk_write_fits by (rewrite length_replicate; lia). simpl. rewrite insert_insert_eq.
  eexists s', _. split_and!; [|done| |].
  - destruct (ZSTR_IS_INTERNED o); simpl; [done|].
    rewrite (GC_DELREF_lookup _ _ o) by (rewrite ?lookup_insert_ne; done). simpl.
    by rewrite insert_insert_ne by done.
  - done.
  - eexists _, _. split_and!; [done|rewrite !length_app, length_drop, length_replicate; lia|].
    simpl. rewrite take_app_le by (rewrite Hlen, length_take; lia).
    rewrite take_take, Nat.min_l by (rewrite length_take; lia). by apply take_min_fmap.
Qed.

(** What the owner of one reference to [s] sees after the pointer was exchanged
    for [s']: the reference is gone from [s], and nothing else changed. *)
Definition owner_moved (s s' : loc) (o : zend_refcounted) (heap heap' : zheap) : Prop :=
  (∀ l, l ≠ s → l ≠ s' → heap' !! l = heap !! l) ∧
  (if ZSTR_IS_INTERNED o then heap' !! s = Some o
   else if gc_refcount o =? 1 then s' = s ∨ heap' !! s = None
   else heap' !! s = Some (with_refcount o (gc_refcount o - 1))).

(** Zend_string_realloc gives a string of its own with room for the new
    length and the old contents up to it, moves or shares the old object as its
    count says, and extend and truncate agree with it in their directions. *)
Theorem string_realloc_keeps s o bs len p heap :
  heap !! s = Some o → zstr_ok bs o → 0 < gc_refcount o < 2 ^ 32 → 0 <= len <= ZSTR_MAX_LEN →
  ∃ s' heap' o', zend_string_realloc s len p heap = Some (s', heap') ∧
    heap' !! s' = Some o' ∧ gc_refcount o' = 1 ∧
    zstr_holds (take (Z.to_nat len) bs) len (len + 1) o' ∧
    owner_moved s s' o heap heap' ∧
    (Z.of_nat (length bs) <= len → zend_string_extend s len p heap = Some (s', heap')) ∧
    (len <= Z.of_nat (length bs) → zend_string_truncate s len p heap = Some (s', heap')).
Proof.
  intros Hs Hok Hr Hl. unfold zend_string_realloc, zend_string_extend, zend_string_truncate.
  rewrite Hs. cbn [mbind option_bind]. rewrite (zstr_ok_len _ _ Hok). cbn [mbind option_bind].
  unfold owner_moved. destruct (negb (ZSTR_IS_INTERNED o) && (gc_refcount o =? 1)) eqn:Hown.
  - apply andb_prop in Hown as [Hi Hone]. apply negb_true_iff in Hi. rewrite Hi, Hone.
    destruct (zstr_realloc_keeps s o bs len heap Hs Hok Hl) as (s'&o'&->&Hn&Hc&Hh).
    exists s', (<[s' := o']> (delete s heap)), o'. split_and!; [done|apply lookup_insert_eq|lia|done|..].
    + intros l ??. by rewrite lookup_insert_ne, lookup_delete_ne by done.
    + destruct (decide (s' = s)) as [->|]; [by left|right].
      by rewrite lookup_insert_ne, lookup_delete_eq by done.
    + intros. by rewrite (proj2 (Z.leb_le _ _)) by lia.
    + intros. by rewrite (proj2 (Z.leb_le _ _)) by lia.
  - destruct (zstr_copy_out_keeps s o bs len p heap Hs Hok Hr Hl) as (s'&o'&E&Hn&Hc&Hh).
    assert (s' ≠ s) by (intros ->; congruence).
    eexists s', _, o'. rewrite E. split_and!; [done|apply lookup_insert_eq|done|done|..].
    + intros l ??. rewrite lookup_insert_ne by done.
      by destruct (ZSTR_IS_INTERNED o); rewrite ?lookup_insert_ne by done.
    + rewrite lookup_insert_ne by done. destruct (ZSTR_IS_INTERNED o); [done|]. simpl in Hown.
      rewrite Hown. by rewrite lookup_insert_eq.
    + intros. rewrite (proj2 (Z.leb_le _ _)) by lia. cbn [negb]. rewrite <- E. by do 4 f_equal; lia.
    + intros. rewrite (proj2 (Z.leb_le _ _)) by lia. cbn [negb]. rewrite <- E. by do 4 f_equal; lia.
Qed.

(** *** Comparison *)

Lemma read_bytes_prefix n (a : bytes) rest :
  (n ≤ length a)%nat → read_bytes n ((Some <$> a) ++ rest) = Some (take n a).
Proof.
  intros Hn. pose proof (read_bytes_ok n (take n a) ((Some <$> drop n a) ++ rest)) as H.
  rewrite app_assoc, <- fmap_app, take_drop in H. apply H. rewrite length_take. lia.
Qed.

Lemma memeq_ok n (a b : bytes) ra rb :
  (n ≤ length a)%nat → (n ≤ length b)%nat →
  memeq n ((Some <$> a) ++ ra) ((Some <$> b) ++ rb) = Some (bool_decide (take n a = take n b)).
Proof. intros Ha Hb. unfold memeq. by rewrite !read_bytes_prefix. Qed.

Lemma equal_content_ok o1 o2 bs1 bs2 :
  zstr_ok bs1 o1 → zstr_ok bs2 o2 →
  zend_string_equal_content o1 o2 = Some (bool_decide (bs1 = bs2)).
Proof.
  intros H1 H2. unfold zend_string_equal_content.
  rewrite (zstr_ok_len _ _ H1), (zstr_ok_len _ _ H2). simpl.
  apply zstr_ok_val in H1 as (h1&r1&H1). apply zstr_ok_val in H2 as (h2&r2&H2).
  destruct (Z.eqb_spec (Z.of_nat (length bs1)) (Z.of_nat (length bs2))) as [E|E].
  - unfold zend_string_equal_val, as_string. rewrite H1, H2. simpl.
    rewrite memeq_ok by lia. by rewrite !take_ge by lia.
  - rewrite bool_decide_false; [done|]. by intros ->.
Qed.

Lemma starts_with_ok o bs prefix :
  zstr_ok bs o →
  zend_string_starts_with_cstr o prefix = Some (bool_decide (prefix `prefix_of` bs)).
Proof.
  intros (h&r&H)%zstr_ok_val. unfold zend_string_starts_with_cstr, as_string. rewrite H. simpl.
  destruct (Z.leb_spec (Z.of_nat (length prefix)) (Z.of_nat (length bs))) as [E|E].
  - rewrite <- (app_nil_r (Some <$> prefix)), memeq_ok by lia. f_equal.
    apply bool_decide_ext. rewrite (take_ge prefix) by lia. split.
    + intros <-. apply prefix_take.
    + intros [k ->]. by rewrite take_app_length.
  - rewrite bool_decide_false; [done|]. intros Hp%prefix_length. lia.
Qed.

Lemma equals_cstr_ok o bs s2 :
  zstr_ok bs o → zend_string_equals_cstr o s2 = Some (bool_decide (bs = s2)).
Proof.
  intros (h&r&H)%zstr_ok_val. unfold zend_string_equals_cstr, as_string. rewrite H. simpl.
  destruct (Z.eqb_spec (Z.of_nat (length bs)) (Z.of_nat (length s2))) as [E|E].
  - rewrite <- (app_nil_r (Some <$> s2)), memeq_ok by lia. by rewrite !take_ge by lia.
  - rewrite bool_decide_false; [done|]. by intros ->.
Qed.

(** Zend_string_equals, its content and C-string variants and
    zend_string_starts_with decide equality and prefix of the byte strings. *)
Theorem string_comparison s1 s2 o1 o2 bs1 bs2 heap :
  heap !! s1 = Some o1 → heap !! s2 = Some o2 → zstr_ok bs1 o1 → zstr_ok bs2 o2 →
  zend_string_equals s1 s2 heap = Some (bool_decide (bs1 = bs2)) ∧
  zend_string_equal_content o1 o2 = Some (bool_decide (bs1 = bs2)) ∧
  zend_string_equals_cstr o1 bs2 = Some (bool_decide (bs1 = bs2)) ∧
  zend_string_starts_with o1 o2 = Some (bool_decide (bs2 `prefix_of` bs1)).
Proof.
  intros Hs1 Hs2 H1 H2. split_and!; auto using equal_content_ok, equals_cstr_ok.
  - unfold zend_string_equals. rewrite Hs1, Hs2. simpl. case_decide as E.
    + subst. simplify_eq. apply zstr_ok_bytes in H1, H2. simplify_eq.
      by rewrite bool_decide_true.
    + by apply equal_content_ok.
  - unfold zend_string_starts_with. rewrite (zstr_ok_bytes _ _ H2). simpl. by apply starts_with_ok.
Qed.

(** *** The hash function *)
Section hash.
Import StrHash.

Definition djb_step (cv : byte → Z) (hash : Z) (b : byte) : Z := u64 (hash * 33 + cv b).

Lemma djb_step_pull x c : u64 (u64 x * 33 + c) = u64 (x * 33 + c).
Proof. by rewrite <- u64_add_l, u64_mul_l, u64_add_l. Qed.

Ltac djb_pull hash a b c :=
  rewrite (djb_step_pull (hash * 33 + a)), ?(djb_step_pull ((hash * 33 + a) * 33 + b)),
    ?(djb_step_pull (((hash * 33 + a) * 33 + b) * 33 + c)).

Lemma step4_djb cv hash a b c d :
  step4 hash (cv a) (cv b) (cv c) (cv d) = foldl (djb_step cv) hash [a; b; c; d].
Proof. unfold step4, djb_step. simpl. djb_pull hash (cv a) (cv b) (cv c). f_equal. ring. Qed.
Lemma step3_djb cv hash a b c :
  step3 hash (cv a) (cv b) (cv c) = foldl (djb_step cv) hash [a; b; c].
Proof. unfold step3, djb_step. simpl. djb_pull hash (cv a) (cv b) (cv c). f_equal. ring. Qed.
Lemma step2_djb cv hash a b : step2 hash (cv a) (cv b) = foldl (djb_step cv) hash [a; b].
Proof. unfold step2, djb_step. simpl. rewrite !djb_step_pull. f_equal. ring. Qed.

Lemma hash_tail_djb cv hash str :
  (length str < 8)%nat → hash_tail cv hash str = foldl (djb_step cv) hash str.
Proof.
  intros Hl. unfold hash_tail.
  destruct str as [|a [|b [|c [|d rest]]]]; try done; [by rewrite step2_djb|by rewrite step3_djb|].
  change (a :: b :: c :: d :: rest) with ([a; b; c; d] ++ rest) in *. rewrite length_app in Hl.
  rewrite step4_djb, foldl_app. generalize (foldl (djb_step cv) hash [a; b; c; d]). intros x.
  destruct rest as [|e [|f [|g [|h rest]]]]; [done|done| | |simpl in Hl; lia].
  - by rewrite step2_djb.
  - by rewrite step3_djb.
Qed.

Lemma turn_indexed_djb cv hash a b c d e f g h :
  turn_indexed cv hash a b c d e f g h = foldl (djb_step cv) hash [a; b; c; d; e; f; g; h].
Proof. unfold turn_indexed. rewrite !step4_djb, <- foldl_app. reflexivity. Qed.

(** Byte [k] of an 8-byte little-endian load is the [k]-th character. *)
Lemma chunk_byte_load (bs : bytes) (k : nat) b :
  bs !! k = Some b → chunk_byte (load64 bs) (Z.of_nat k) = uchar b.
Proof.
  unfold chunk_byte. change 0xff with (Z.ones 8). rewrite Z.land_ones by lia.
  revert bs. induction k as [|k IH]; intros [|c bs] Hb; try done; simpl in Hb |- *.
  - simplify_eq. rewrite Z.shiftr_0_r, (Z.mul_comm 256). change (2 ^ 8) with 256.
    rewrite Z.mod_add by lia. apply Z.mod_small, uchar_range.
  - rewrite <- (IH bs Hb). f_equal.
    replace (8 * Z.of_nat (S k)) with (8 + 8 * Z.of_nat k) by lia.
    rewrite <- Z.shiftr_shiftr by lia. f_equal. rewrite Z.shiftr_div_pow2 by lia.
    change (2 ^ 8) with 256. rewrite (Z.mul_comm 256), Z.div_add by lia.
    rewrite (Z.div_small (uchar c)) by apply uchar_range. done.
Qed.

Lemma chunk_byte_at (bs : bytes) k b :
  bs !! Z.to_nat k = Some b → 0 <= k → chunk_byte (load64 bs) k = uchar b.
Proof. intros Hb Hk. rewrite <- (Z2Nat.id k) at 1 by done. by apply chunk_byte_load. Qed.

Lemma turn_chunk_djb hash a b c d e f g h :
  turn_chunk hash a b c d e f g h = foldl (djb_step uchar) hash [a; b; c; d; e; f; g; h].
Proof.
  unfold turn_chunk. cbv zeta. set (bs := [a; b; c; d; e; f; g; h]).
  rewrite (chunk_byte_at bs 0 a), (chunk_byte_at bs 1 b), (chunk_byte_at bs 2 c),
    (chunk_byte_at bs 3 d), (chunk_byte_at bs 4 e), (chunk_byte_at bs 5 f),
    (chunk_byte_at bs 6 g), (chunk_byte_at bs 7 h) by done.
  rewrite !step4_djb, <- foldl_app. reflexivity.
Qed.

Lemma shift_step_djb cv hash b : shift_step cv hash b = djb_step cv hash b.
Proof.
  unfold shift_step, djb_step. rewrite Z.shiftl_mul_pow2 by lia. rewrite u64_add_l, <- Z.add_assoc, u64_add_l.
  f_equal. change (2 ^ 5) with 32. ring.
Qed.

Lemma foldl_shift_djb cv str hash : foldl (shift_step cv) hash str = foldl (djb_step cv) hash str.
Proof. revert hash. induction str as [|b str IH]; intros hash; [done|]. simpl. by rewrite shift_step_djb. Qed.

(** The 8-fold unrolled loop followed by the tail runs the step once per byte. *)
Lemma hash_loop_djb cv turn tail hash str :
  (∀ x a b c d e f g h, turn x a b c d e f g h = foldl (djb_step cv) x [a; b; c; d; e; f; g; h]) →
  (∀ x s, (length s < 8)%nat → tail x s = foldl (djb_step cv) x s) →
  hash_loop turn tail hash str = foldl (djb_step cv) hash str.
Proof.
  intros Ht Htl. remember (length str) as n eqn:Hn. revert str hash Hn.
  induction n as [n IH] using lt_wf_ind. intros str hash ->.
  destruct str as [|a [|b [|c [|d [|e [|f [|g [|h rest]]]]]]]];
    try (apply Htl; simpl; lia).
  cbn [hash_loop]. rewrite Ht, (IH (length rest)), <- foldl_app; [reflexivity|simpl; lia|reflexivity].
Qed.

Lemma foldl_djb_range cv str hash :
  0 <= hash < 2 ^ 64 → 0 <= foldl (djb_step cv) hash str < 2 ^ 64.
Proof.
  revert hash. induction str as [|b str IH]; intros hash H; [done|]. apply IH, u64_range.
Qed.

Lemma foldl_djb_ascii str hash :
  Forall (λ b, uchar b < 128) str → foldl (djb_step schar) hash str = foldl (djb_step uchar) hash str.
Proof.
  intros Hs. revert hash. induction Hs as [|b str Hb Hs IH]; intros hash; [done|]. simpl.
  rewrite IH. f_equal. unfold djb_step, schar. by rewrite (proj2 (Z.ltb_lt _ _)).
Qed.

(** The unrolled, chunked and shift-and-add variants of zend_inline_hash_func
    compute DJBX33A with the top bit set, over signed or unsigned characters as
    the target has them; on ASCII strings the targets agree. *)
Theorem string_hash_variants str :
  zend_inline_hash_func_x86_64 str = Z.lor (djbx33a schar str) HASH_HIGH_BIT ∧
  zend_inline_hash_func_aarch64 str = Z.lor (djbx33a uchar str) HASH_HIGH_BIT ∧
  (∀ cv, zend_inline_hash_func_portable cv str = Z.lor (djbx33a cv str) HASH_HIGH_BIT) ∧
  (∀ cv, 2 ^ 63 <= Z.lor (djbx33a cv str) HASH_HIGH_BIT < 2 ^ 64) ∧
  (Forall (λ b, uchar b < 128) str →
     zend_inline_hash_func_x86_64 str = zend_inline_hash_func_aarch64 str).
Proof.
  assert (Hx : zend_inline_hash_func_x86_64 str = Z.lor (djbx33a schar str) HASH_HIGH_BIT).
  { unfold zend_inline_hash_func_x86_64. f_equal.
    apply hash_loop_djb; intros; [apply turn_indexed_djb|by apply hash_tail_djb]. }
  assert (Ha : zend_inline_hash_func_aarch64 str = Z.lor (djbx33a uchar str) HASH_HIGH_BIT).
  { unfold zend_inline_hash_func_aarch64. f_equal.
    apply hash_loop_djb; intros; [apply turn_chunk_djb|by apply hash_tail_djb]. }
  split_and!; [done|done| | |].
  - intros cv. unfold zend_inline_hash_func_portable. f_equal.
    apply hash_loop_djb; intros; apply foldl_shift_djb.
  - intros cv. pose proof (foldl_djb_range cv str HASH_SEED) as Hr.
    change (foldl (djb_step cv) HASH_SEED str) with (djbx33a cv str) in Hr.
    split; [apply lor_ge_r|apply (lor_lt_pow2 64)]; unfold HASH_SEED, HASH_HIGH_BIT in *; lia.
  - intros Hs. rewrite Hx, Ha. f_equal. by apply foldl_djb_ascii.
Qed.

(** The bytes of a UTF-8 string hash differently on the two targets. *)
Example string_hash_targets_differ :
  zend_inline_hash_func_x86_64 [Byte.xc3; Byte.xa9] ≠ zend_inline_hash_func_aarch64 [Byte.xc3; Byte.xa9].
Proof. by vm_compute. Qed.

End hash.
