(* ===== verification/ZendSeparate.v ===== *)
(** * Copy on write (Zend/zend_types.h)

    Duplicating a value and separating a shared one before it is written:
    [ZVAL_DUP], [ZVAL_COPY_OR_DUP], [SEPARATE_STRING], [SEPARATE_ARRAY],
    [SEPARATE_ZVAL_NOREF], [SEPARATE_ZVAL], and the constructors of references.
    [zend_array_dup] and [zval_copy_ctor_func] are engine functions outside the
    headers. *)

From S2P Require Import Prelude ZendTypes ZendString.

(** ** References *)

(** The reference cell of a [GC_REFERENCE] with its flags. *)
Definition new_reference (refcount flags : Z) (val : zval) : zend_refcounted :=
  Counted refcount (Z.lor GC_REFERENCE (Z.shiftl flags GC_FLAGS_SHIFT)) (BReference val).

(** [ZVAL_NEW_EMPTY_REF]: the value inside is not initialised. *)
Definition ZVAL_NEW_EMPTY_REF (z : zval) (h : zheap) : zval * zheap :=
  let '(l, h') := halloc (new_reference 1 0 zval_uninit) h in
  (set_value z (VCounted l) IS_REFERENCE_EX, h').
Definition ZVAL_MAKE_REF_EX (z : zval) (refcount : Z) (h : zheap) : zval * zheap :=
  let '(l, h') := halloc (new_reference refcount 0 (ZVAL_COPY_VALUE zval_uninit z)) h in
  (set_value z (VCounted l) IS_REFERENCE_EX, h').
Definition ZVAL_NEW_PERSISTENT_REF (z r : zval) (h : zheap) : zval * zheap :=
  let '(l, h') := halloc (new_reference 1 GC_PERSISTENT (ZVAL_COPY_VALUE zval_uninit r)) h in
  (set_value z (VCounted l) IS_REFERENCE_EX, h').

Definition ZVAL_OBJ_COPY (z : zval) (o : loc) (h : zheap) : option (zval * zheap) :=
  h' ← GC_ADDREF o h; Some (ZVAL_OBJ z o, h').

(** ** Duplication and separation *)
Section separation.
Variable zend_array_dup : loc → zheap → option (loc * zheap).
Variable zval_copy_ctor_func : zval → zheap → option (zval * zheap).

Definition ZVAL_DUP (z v : zval) (h : zheap) : option (zval * zheap) :=
  let t := Z_TYPE_INFO v in
  if Z.land t Z_TYPE_MASK =? IS_ARRAY then
    gc ← Z_COUNTED v; '(a, h') ← zend_array_dup gc h; Some (ZVAL_ARR z a, h')
  else
    h' ← (if Z_TYPE_INFO_REFCOUNTED t then gc ← Z_COUNTED v; GC_ADDREF gc h else Some h);
    Some (ZVAL_COPY_VALUE z v, h').

Definition ZVAL_COPY_OR_DUP (z v : zval) (h : zheap) : option (zval * zheap) :=
  let t := Z_TYPE_INFO v in
  let z' := ZVAL_COPY_VALUE z v in
  if Z_TYPE_INFO_REFCOUNTED t then
    gc ← Z_COUNTED v; o ← h !! gc;
    if negb (has_flag o GC_PERSISTENT) || (GC_TYPE o =? IS_OBJECT)
    then h' ← GC_ADDREF gc h; Some (z', h')
    else zval_copy_ctor_func z' h
  else Some (z', h).

(** [zval_copy_ctor] and [zval_opt_copy_ctor] (Zend/zend_variables.h). *)
Definition zval_copy_ctor (z : zval) (h : zheap) : option (zval * zheap) :=
  if zval_get_type z =? IS_ARRAY then
    a ← Z_COUNTED z; '(l, h') ← zend_array_dup a h; Some (ZVAL_ARR z l, h')
  else if Z_REFCOUNTED z then h' ← zval_addref_p z h; Some (z, h')
  else Some (z, h).
Definition zval_opt_copy_ctor (z : zval) (h : zheap) : option (zval * zheap) :=
  if Z_OPT_TYPE z =? IS_ARRAY then
    a ← Z_COUNTED z; '(l, h') ← zend_array_dup a h; Some (ZVAL_ARR z l, h')
  else if Z_OPT_REFCOUNTED z then h' ← zval_addref_p z h; Some (z, h')
  else Some (z, h).

(** [ZEND_ASSERT]s that do not hold leave the rest undefined. *)
Definition SEPARATE_STRING (z : zval) (h : zheap) : option (zval * zheap) :=
  rc ← zval_refcount_p z h;
  if 1 <? rc then
    s ← Z_COUNTED z; o ← h !! s;
    if Z_REFCOUNTED z && negb (ZSTR_IS_INTERNED o) then
      bs ← zstr_bytes o;
      '(n, h1) ← zend_string_init bs false h;
      '(_, h2) ← GC_DELREF s h1;
      Some (ZVAL_NEW_STR z n, h2)
    else None
  else Some (z, h).

Definition SEPARATE_ARRAY (z : zval) (h : zheap) : option (zval * zheap) :=
  a ← Z_COUNTED z; o ← h !! a;
  if 1 <? gc_refcount o then
    '(l, h1) ← zend_array_dup a h;
    o1 ← h1 !! a;
    Some (ZVAL_ARR z l, <[a := zend_gc_try_delref o1]> h1)
  else Some (z, h).

Definition SEPARATE_ZVAL_NOREF (z : zval) (h : zheap) : option (zval * zheap) :=
  if zval_get_type z =? IS_REFERENCE then None
  else if zval_get_type z =? IS_ARRAY then SEPARATE_ARRAY z h
  else Some (z, h).

(** The statement after the reference was taken apart. *)
Definition separate_array_if (z : zval) (h : zheap) : option (zval * zheap) :=
  if zval_get_type z =? IS_ARRAY then SEPARATE_ARRAY z h else Some (z, h).

Definition SEPARATE_ZVAL (z : zval) (h : zheap) : option (zval * zheap) :=
  if Z_ISREF z then
    r ← Z_COUNTED z; o ← h !! r;
    match gc_body o with
    | BReference val =>
        let z := ZVAL_COPY_VALUE z val in
        '(rc, h) ← GC_DELREF r h;
        if rc =? 0 then separate_array_if z (delete r h)
        else if Z_OPT_TYPE z =? IS_ARRAY then
          a ← Z_COUNTED z; '(l, h) ← zend_array_dup a h; Some (ZVAL_ARR z l, h)
        else if Z_OPT_REFCOUNTED z then h ← zval_addref_p z h; Some (z, h)
        else separate_array_if z h
    | _ => None
    end
  else separate_array_if z h.

End separation.

(** ** Theorems *)

(** SEPARATE_STRING leaves the zval with a string of the same contents that
    nobody else holds, in place when it was alone and as a copy, one reference
    less on the original, when it was shared. *)
Theorem separate_string_exclusive z s o bs h :
  Z_COUNTED z = Some s → Z_REFCOUNTED z = true → h !! s = Some o → zstr_ok bs o → fits bs →
  ZSTR_IS_INTERNED o = false → 0 < gc_refcount o < 2 ^ 32 →
  ∃ z' h' n on, SEPARATE_STRING z h = Some (z', h') ∧ Z_COUNTED z' = Some n ∧ h' !! n = Some on ∧
    zstr_ok bs on ∧ gc_refcount on = 1 ∧
    (gc_refcount o = 1 → z' = z ∧ h' = h) ∧
    (1 < gc_refcount o → h !! n = None ∧ h' = <[s := with_refcount o (gc_refcount o - 1)]> (<[n := on]> h)).
Proof.
  intros Hz Hr Hs Hok Hf Hi Hc. unfold SEPARATE_STRING, zval_refcount_p. rewrite Hz. simpl.
  rewrite Hs. simpl. destruct (Z.ltb_spec 1 (gc_refcount o)) as [H1|H1].
  - rewrite Hr, Hi. simpl. rewrite (zstr_ok_bytes _ _ Hok). simpl.
    rewrite zend_string_init_eq by done. destruct (halloc (new_string bs false) h) as [n h1] eqn:Ha.
    apply halloc_fresh in Ha as [Hn ->]. simpl. assert (n ≠ s) by congruence.
    rewrite (GC_DELREF_lookup s _ o) by (done || by rewrite lookup_insert_ne). simpl.
    eexists _, _, n, (new_string bs false). split_and!; try done; [|apply new_string_ok|lia].
    by rewrite lookup_insert_ne, lookup_insert_eq.
  - eexists z, h, s, o. split_and!; try done; lia.
Qed.

(** The two copy constructors and [ZVAL_DUP] are one operation; on anything but an
    array it is [ZVAL_COPY]. *)
Lemma duplication_variants dup z v h :
  zval_copy_ctor dup z h = zval_opt_copy_ctor dup z h ∧
  zval_copy_ctor dup z h = ZVAL_DUP dup z z h ∧
  (zval_get_type v ≠ IS_ARRAY → ZVAL_DUP dup z v h = ZVAL_COPY z v h).
Proof.
  pose proof (opt_refcounted z) as Hr.
  assert (Hc : ZVAL_COPY_VALUE z z = z) by by destruct z.
  unfold zval_copy_ctor, zval_opt_copy_ctor, ZVAL_DUP, ZVAL_COPY. rewrite Hr. unfold Z_OPT_REFCOUNTED in Hr.
  split_and!; [done| |].
  - change (Z.land (Z_TYPE_INFO z) Z_TYPE_MASK) with (zval_get_type z).
    destruct (zval_get_type z =? IS_ARRAY); [done|]. rewrite Hr, Hc. unfold zval_addref_p.
    destruct (Z_REFCOUNTED z); [|done]. by destruct (Z_COUNTED z).
  - intros Ht. change (Z.land (Z_TYPE_INFO v) Z_TYPE_MASK) with (zval_get_type v).
    rewrite (proj2 (Z.eqb_neq _ _) Ht). destruct (Z_TYPE_INFO_REFCOUNTED (Z_TYPE_INFO v)); [|done].
    by destruct (Z_COUNTED v).
Qed.

(** *** Separation before a write *)
Section separation_laws.
Context (dup : loc → zheap → option (loc * zheap)).

(** [zend_array_dup] returns a new array with one reference; the original keeps
    its own. *)
Definition dup_law : Prop := ∀ a o h, h !! a = Some o → GC_TYPE o = IS_ARRAY →
  ∃ l ol h', dup a h = Some (l, h') ∧ h !! l = None ∧ h' !! l = Some ol ∧
    gc_refcount ol = 1 ∧ GC_TYPE ol = IS_ARRAY ∧ h' !! a = Some o.

(** The zval points to a live array nobody else refers to. *)
Definition exclusive (z : zval) (h : zheap) : Prop :=
  zval_get_type z = IS_ARRAY → ∃ a o, Z_COUNTED z = Some a ∧ h !! a = Some o ∧ gc_refcount o = 1.

(** A value that is not a reference: its counted part is live and counted. *)
Definition live_value (z : zval) (h : zheap) : Prop :=
  Z_ISREF z = false ∧
  (zval_get_type z = IS_ARRAY ∨ Z_REFCOUNTED z = true →
     ∃ a o, Z_COUNTED z = Some a ∧ h !! a = Some o ∧ 0 < gc_refcount o < 2 ^ 32 ∧
            (zval_get_type z = IS_ARRAY → GC_TYPE o = IS_ARRAY)).

Hypothesis duplicates : dup_law.

Lemma separate_array_spec z h :
  zval_get_type z = IS_ARRAY → live_value z h →
  ∃ z' h', SEPARATE_ARRAY dup z h = Some (z', h') ∧ zval_get_type z' = IS_ARRAY ∧ exclusive z' h'.
Proof using duplicates.
  intros Ht [_ Hl]. destruct (Hl (or_introl Ht)) as (a&o&Ha&Ho&Hc&Hg). unfold SEPARATE_ARRAY.
  rewrite Ha. simpl. rewrite Ho. simpl. destruct (Z.ltb_spec 1 (gc_refcount o)) as [H1|H1].
  - destruct (duplicates a o h Ho (Hg Ht)) as (l&ol&h'&Hd&Hn&Hl'&Hc'&_&Ha'). rewrite Hd. simpl.
    rewrite Ha'. simpl. eexists _, _. split_and!; [done..|]. intros _. exists l, ol.
    split_and!; [done| |done]. rewrite lookup_insert_ne; [done|]. congruence.
  - eexists _, _. split_and!; [done..|]. intros _. exists a, o. split_and!; [done..|lia].
Qed.

Lemma separate_array_if_spec z h :
  live_value z h →
  ∃ z' h', separate_array_if dup z h = Some (z', h') ∧ zval_get_type z' = zval_get_type z ∧ exclusive z' h'.
Proof using duplicates.
  intros Hl. unfold separate_array_if. destruct (Z.eqb_spec (zval_get_type z) IS_ARRAY) as [Ht|Ht].
  - rewrite Ht. by apply separate_array_spec.
  - exists z, h. split_and!; [done..|]. by intros ?.
Qed.

(** The value of a reference that others still hold. *)
Lemma separate_shared z r o h :
  live_value z h → Z_COUNTED z ≠ Some r → h !! r = Some o →
  ∃ z' h',
    (if Z_OPT_TYPE z =? IS_ARRAY then a ← Z_COUNTED z; '(l, h) ← dup a h; Some (ZVAL_ARR z l, h)
     else if Z_OPT_REFCOUNTED z then h ← zval_addref_p z h; Some (z, h)
     else separate_array_if dup z h) = Some (z', h') ∧
    zval_get_type z' = zval_get_type z ∧ Z_ISREF z' = false ∧ exclusive z' h' ∧
    (zval_get_type z ≠ IS_ARRAY → h' !! r = Some o).
Proof using duplicates.
  intros [Hi Hl] Hr Ho. change (Z_OPT_TYPE z) with (zval_get_type z).
  destruct (Z.eqb_spec (zval_get_type z) IS_ARRAY) as [Ht|Ht].
  - destruct (Hl (or_introl Ht)) as (a&oa&Ha&Hoa&_&Hg). rewrite Ha. simpl.
    destruct (duplicates a oa h Hoa (Hg Ht)) as (l&ol&h'&Hd&_&Hl'&Hc&_). rewrite Hd. simpl.
    eexists _, _. split_and!; [done..| |done]. intros _. by exists l, ol.
  - rewrite opt_refcounted. destruct (Z_REFCOUNTED z) eqn:Hc.
    + destruct (Hl (or_intror eq_refl)) as (a&oa&Ha&Hoa&_). unfold zval_addref_p. rewrite Hc, Ha. simpl.
      rewrite (GC_ADDREF_lookup _ _ _ Hoa). simpl. eexists _, _. split_and!; [done..|by intros ?|].
      intros _. rewrite lookup_insert_ne; [done|]. intros ->. done.
    + unfold separate_array_if. rewrite (proj2 (Z.eqb_neq _ _) Ht). eexists _, _.
      split_and!; [done..|by intros ?|done].
Qed.

(** SEPARATE_ZVAL takes a reference apart, frees it when it was the last
    holder, and leaves a value of the same type that is no reference and, when it
    is an array, is shared with nobody. *)
Theorem separate_zval_exclusive z v r o h :
  (if Z_ISREF z then Z_COUNTED z = Some r ∧ h !! r = Some o ∧ gc_body o = BReference v ∧
     0 < gc_refcount o < 2 ^ 32 ∧ Z_COUNTED v ≠ Some r ∧ live_value v h
   else v = z ∧ live_value z h) →
  ∃ z' h', SEPARATE_ZVAL dup z h = Some (z', h') ∧ zval_get_type z' = zval_get_type v ∧
    Z_ISREF z' = false ∧ exclusive z' h' ∧
    (Z_ISREF z = true → zval_get_type v ≠ IS_ARRAY →
       (gc_refcount o = 1 → h' = delete r h) ∧
       (1 < gc_refcount o → h' !! r = Some (with_refcount o (gc_refcount o - 1)))).
Proof using duplicates.
  intros H. unfold SEPARATE_ZVAL. destruct (Z_ISREF z) eqn:Hz.
  2: { destruct H as [-> Hl]. destruct (separate_array_if_spec z h Hl) as (z'&h'&Hs&Ht&He).
       eexists _, _. split_and!; [done..| |done|done]. unfold Z_ISREF in *. by rewrite Ht. }
  destruct H as (Hr&Ho&Hb&Hc&Hv&Hl). rewrite Hr. simpl. rewrite Ho. simpl. rewrite Hb.
  rewrite (GC_DELREF_lookup r h o Ho) by done. simpl.
  assert (Hlive : ∀ h1, (∀ k, k ≠ r → h1 !! k = h !! k) → live_value (ZVAL_COPY_VALUE z v) h1).
  { intros h1 H1. destruct Hl as [Hi Hl]. split; [done|]. intros Hx. destruct (Hl Hx) as (a&oa&Ha&Hoa&Hrest).
    exists a, oa. split_and!; [done| |apply Hrest..]. rewrite H1; [done|]. intros ->. by rewrite Ha in Hv. }
  destruct (Z.eqb_spec (gc_refcount o - 1) 0) as [H1|H1].
  { rewrite delete_insert_eq.
    destruct (separate_array_if_spec (ZVAL_COPY_VALUE z v) (delete r h)) as (z'&h'&Hs&Ht&He).
    { apply Hlive. intros k Hk. by rewrite lookup_delete_ne. }
    eexists _, _. split_and!; [done..| |done|].
    { unfold Z_ISREF. rewrite Ht. apply Hl. }
    intros _ Hna. split; [intros _|lia]. unfold separate_array_if in Hs.
    rewrite (proj2 (Z.eqb_neq _ _) Hna : (zval_get_type (ZVAL_COPY_VALUE z v) =? IS_ARRAY) = false) in Hs.
    by injection Hs as _ <-. }
  set (h1 := <[r := with_refcount o (gc_refcount o - 1)]> h).
  assert (Hh1 : ∀ k, k ≠ r → h1 !! k = h !! k) by (intros k Hk; unfold h1; by rewrite lookup_insert_ne).
  destruct (separate_shared (ZVAL_COPY_VALUE z v) r (with_refcount o (gc_refcount o - 1)) h1)
    as (z'&h'&Hs&Ht&Hi&He&Hk); [by apply Hlive|done|by apply lookup_insert_eq|].
  eexists _, _. split_and!; [done..|]. intros _ Hna. split; [lia|]. intros _. by apply Hk.
Qed.

End separation_laws.
