(* ===== verification/ZendParams.v ===== *)
(** * Parameter parsing of native functions (Zend/zend_API.h)

    The [zend_parse_arg_*] inline functions and the [ZEND_PARSE_PARAMETERS]
    macros that native PHP functions open with. The conversions the fast paths
    fall back to, class lookup and [instanceof] are engine code outside the
    headers: they are the operations of [Slow]. *)

From S2P Require Import Prelude ZendTypes ZendString.

(** ** Results of a parser *)

(** A parser returns 1 after writing its destinations, returns 0, or read a
    member of the union that was not the one written. *)
Inductive parse (A : Type) : Type :=
| Accepted (a : A)
| Refused
| Unread.
Arguments Accepted {A} a.
Arguments Refused {A}.
Arguments Unread {A}.

Definition pbind {A B} (m : parse A) (k : A → parse B) : parse B :=
  match m with Accepted a => k a | Refused => Refused | Unread => Unread end.
Definition reading {A} (o : option A) : parse A :=
  match o with Some a => Accepted a | None => Unread end.
Definition told {A} (o : option A) : parse A :=
  match o with Some a => Accepted a | None => Refused end.

(** Engine functions the parsers call: a conversion gives the value it leaves in
    the destination, or [None] when it refuses. *)
Class Slow : Type := {
  zend_parse_arg_bool_slow : zval → Z → option bool;
  zend_flf_parse_arg_bool_slow : zval → Z → option bool;
  zend_parse_arg_long_slow : zval → Z → option Z;
  zend_flf_parse_arg_long_slow : zval → Z → option Z;
  zend_parse_arg_double_slow : zval → Z → option Z;
  zend_parse_arg_number_slow : zval → Z → option zval;
  zend_parse_arg_number_or_str_slow : zval → Z → option zval;
  zend_parse_arg_str_slow : zval → Z → option loc;
  zend_flf_parse_arg_str_slow : zval → Z → option loc;
  zend_parse_arg_str_or_long_slow : zval → Z → option (loc + Z);
  zend_is_iterable : zval → bool;
  instanceof_function : loc → loc → bool;
  object_ce : loc → loc;
  zend_lookup_class_of : loc → option loc
}.

(** ** The parsers *)
Module Zpp.
Section parsers.
Context {slow : Slow}.

Definition is_type (z : zval) (t : Z) : bool := zval_get_type z =? t.

Definition Z_DVAL (z : zval) : option Z := match z_value z with VDval d => Some d | _ => None end.

(** [*is_null = 0] happens only with [check_null]; [None] is a flag not written. *)
Definition is_null0 (check_null : bool) : option bool := if check_null then Some false else None.

Definition zend_parse_arg_bool_ex (arg : zval) (check_null : bool) (arg_num : Z) (frameless : bool)
    : parse (bool * option bool) :=
  let is_null := is_null0 check_null in
  if is_type arg IS_TRUE then Accepted (true, is_null)
  else if is_type arg IS_FALSE then Accepted (false, is_null)
  else if check_null && is_type arg IS_NULL then Accepted (false, Some true)
  else pbind (told (if frameless then zend_flf_parse_arg_bool_slow arg arg_num
                    else zend_parse_arg_bool_slow arg arg_num)) (λ dest, Accepted (dest, is_null)).

Definition zend_parse_arg_bool (arg : zval) (check_null : bool) (arg_num : Z) : parse (bool * option bool) :=
  zend_parse_arg_bool_ex arg check_null arg_num false.

Definition zend_parse_arg_long_ex (arg : zval) (check_null : bool) (arg_num : Z) (frameless : bool)
    : parse (Z * option bool) :=
  let is_null := is_null0 check_null in
  if is_type arg IS_LONG then pbind (reading (Z_LVAL arg)) (λ l, Accepted (l, is_null))
  else if check_null && is_type arg IS_NULL then Accepted (0, Some true)
  else pbind (told (if frameless then zend_flf_parse_arg_long_slow arg arg_num
                    else zend_parse_arg_long_slow arg arg_num)) (λ dest, Accepted (dest, is_null)).

Definition zend_parse_arg_long (arg : zval) (check_null : bool) (arg_num : Z) : parse (Z * option bool) :=
  zend_parse_arg_long_ex arg check_null arg_num false.

(** [dest] is the double's bits; 0.0 is the word 0. *)
Definition zend_parse_arg_double (arg : zval) (check_null : bool) (arg_num : Z) : parse (Z * option bool) :=
  let is_null := is_null0 check_null in
  if is_type arg IS_DOUBLE then pbind (reading (Z_DVAL arg)) (λ d, Accepted (d, is_null))
  else if check_null && is_type arg IS_NULL then Accepted (0, Some true)
  else pbind (told (zend_parse_arg_double_slow arg arg_num)) (λ dest, Accepted (dest, is_null)).

(** A [zval **dest] is [NULL] or points to the argument. *)
Definition zend_parse_arg_number (arg : zval) (check_null : bool) (arg_num : Z) : parse (option zval) :=
  if is_type arg IS_LONG || is_type arg IS_DOUBLE then Accepted (Some arg)
  else if check_null && is_type arg IS_NULL then Accepted None
  else pbind (told (zend_parse_arg_number_slow arg arg_num)) (λ z, Accepted (Some z)).

Definition zend_parse_arg_number_or_str (arg : zval) (check_null : bool) (arg_num : Z) : parse (option zval) :=
  if is_type arg IS_LONG || is_type arg IS_DOUBLE || is_type arg IS_STRING then Accepted (Some arg)
  else if check_null && is_type arg IS_NULL then Accepted None
  else pbind (told (zend_parse_arg_number_or_str_slow arg arg_num)) (λ z, Accepted (Some z)).

Definition zend_parse_arg_str_ex (arg : zval) (check_null : bool) (arg_num : Z) (frameless : bool)
    : parse (option loc) :=
  if is_type arg IS_STRING then pbind (reading (Z_COUNTED arg)) (λ s, Accepted (Some s))
  else if check_null && is_type arg IS_NULL then Accepted None
  else pbind (told (if frameless then zend_flf_parse_arg_str_slow arg arg_num
                    else zend_parse_arg_str_slow arg arg_num)) (λ s, Accepted (Some s)).

Definition zend_parse_arg_str (arg : zval) (check_null : bool) (arg_num : Z) : parse (option loc) :=
  zend_parse_arg_str_ex arg check_null arg_num false.

(** The characters and the length of a string the heap holds. *)
Definition str_chars (s : loc) (h : zheap) : parse (block * Z) :=
  reading (o ← h !! s; '(_, len, val) ← as_string o; Some (val, len)).

(** [*dest] and [*dest_len]; a null pointer is [None]. *)
Definition zend_parse_arg_string (arg : zval) (check_null : bool) (arg_num : Z) (h : zheap)
    : parse (option block * Z) :=
  pbind (zend_parse_arg_str arg check_null arg_num) (λ str,
    match str with
    | None => if check_null then Accepted (None, 0) else Unread
    | Some s => pbind (str_chars s h) (λ '(val, len), Accepted (Some val, len))
    end).

(** [strlen]: the bytes before the first terminator; [None] past the block or on
    memory never written. *)
Fixpoint strlen (val : block) : option Z :=
  match val with
  | [] | None :: _ => None
  | Some c :: val => if decide (c = NUL) then Some 0 else n ← strlen val; Some (n + 1)
  end.

Definition zend_str_has_nul_byte (s : loc) (h : zheap) : parse bool :=
  pbind (str_chars s h) (λ '(val, len), pbind (reading (strlen val)) (λ n, Accepted (negb (len =? n)))).

Definition zend_parse_arg_path_str (arg : zval) (check_null : bool) (arg_num : Z) (h : zheap)
    : parse (option loc) :=
  pbind (zend_parse_arg_str arg check_null arg_num) (λ dest,
    match dest with
    | None => Accepted None
    | Some s => pbind (zend_str_has_nul_byte s h) (λ bad, if bad then Refused else Accepted (Some s))
    end).

Definition zend_parse_arg_path (arg : zval) (check_null : bool) (arg_num : Z) (h : zheap)
    : parse (option block * Z) :=
  pbind (zend_parse_arg_path_str arg check_null arg_num h) (λ str,
    match str with
    | None => if check_null then Accepted (None, 0) else Unread
    | Some s => pbind (str_chars s h) (λ '(val, len), Accepted (Some val, len))
    end).

Definition zend_parse_arg_iterable (arg : zval) (check_null : bool) : parse (option zval) :=
  if zend_is_iterable arg then Accepted (Some arg)
  else if check_null && is_type arg IS_NULL then Accepted None
  else Refused.

Definition zend_parse_arg_array (arg : zval) (check_null or_object : bool) : parse (option zval) :=
  if is_type arg IS_ARRAY || (or_object && is_type arg IS_OBJECT) then Accepted (Some arg)
  else if check_null && is_type arg IS_NULL then Accepted None
  else Refused.

(** Two destinations at once: a pointer, or [NULL] and an integer. [None] as the
    integer is a destination not written. *)
Definition zend_parse_arg_array_ht_or_long (arg : zval) (allow_null : bool) (arg_num : Z)
    : parse (option loc * option Z * option bool) :=
  let is_null := is_null0 allow_null in
  if is_type arg IS_ARRAY then pbind (reading (Z_COUNTED arg)) (λ a, Accepted (Some a, None, is_null))
  else if is_type arg IS_LONG then pbind (reading (Z_LVAL arg)) (λ l, Accepted (None, Some l, is_null))
  else if allow_null && is_type arg IS_NULL then Accepted (None, None, Some true)
  else pbind (told (zend_parse_arg_long_slow arg arg_num)) (λ l, Accepted (None, Some l, is_null)).

(** [!ce || instanceof_function(Z_OBJCE_P(arg), ce)]. *)
Definition of_class (arg : zval) (ce : option loc) : parse bool :=
  match ce with
  | None => Accepted true
  | Some ce => pbind (reading (Z_COUNTED arg)) (λ o, Accepted (instanceof_function (object_ce o) ce))
  end.

Definition zend_parse_arg_object (arg : zval) (ce : option loc) (check_null : bool) : parse (option zval) :=
  pbind (if is_type arg IS_OBJECT then of_class arg ce else Accepted false) (λ ok,
    if ok then Accepted (Some arg)
    else if check_null && is_type arg IS_NULL then Accepted None
    else Refused).

Definition zend_parse_arg_obj (arg : zval) (ce : option loc) (check_null : bool) : parse (option loc) :=
  pbind (if is_type arg IS_OBJECT then of_class arg ce else Accepted false) (λ ok,
    if ok then pbind (reading (Z_COUNTED arg)) (λ o, Accepted (Some o))
    else if check_null && is_type arg IS_NULL then Accepted None
    else Refused).

Definition zend_parse_arg_obj_or_long (arg : zval) (ce : loc) (allow_null : bool) (arg_num : Z)
    : parse (option loc * option Z * option bool) :=
  let is_null := is_null0 allow_null in
  pbind (if is_type arg IS_OBJECT then of_class arg (Some ce) else Accepted false) (λ ok,
    if ok then pbind (reading (Z_COUNTED arg)) (λ o, Accepted (Some o, None, is_null))
    else if is_type arg IS_LONG then pbind (reading (Z_LVAL arg)) (λ l, Accepted (None, Some l, is_null))
    else if allow_null && is_type arg IS_NULL then Accepted (None, None, Some true)
    else pbind (told (zend_parse_arg_long_slow arg arg_num)) (λ l, Accepted (None, Some l, is_null))).

Definition zend_parse_arg_resource (arg : zval) (check_null : bool) : parse (option zval) :=
  if is_type arg IS_RESOURCE then Accepted (Some arg)
  else if check_null && is_type arg IS_NULL then Accepted None
  else Refused.

(** [Z_REFVAL_P]. *)
Definition refval (z : zval) (h : zheap) : parse zval :=
  reading (l ← Z_COUNTED z; o ← h !! l; match gc_body o with BReference v => Some v | _ => None end).

Definition zend_parse_arg_zval (arg : zval) (check_null : bool) (h : zheap) : parse (option zval) :=
  if check_null then
    if is_type arg IS_NULL then Accepted None
    else if Z_ISREF arg
    then pbind (refval arg h) (λ v, Accepted (if is_type v IS_NULL then None else Some arg))
    else Accepted (Some arg)
  else Accepted (Some arg).

Definition zend_parse_arg_zval_deref (arg : zval) (check_null : bool) : parse (option zval) :=
  Accepted (if check_null && is_type arg IS_NULL then None else Some arg).

Definition zend_parse_arg_array_ht_or_str (arg : zval) (allow_null : bool) (arg_num : Z)
    : parse (option loc * option loc) :=
  if is_type arg IS_STRING then pbind (reading (Z_COUNTED arg)) (λ s, Accepted (None, Some s))
  else if is_type arg IS_ARRAY then pbind (reading (Z_COUNTED arg)) (λ a, Accepted (Some a, None))
  else if allow_null && is_type arg IS_NULL then Accepted (None, None)
  else pbind (told (zend_parse_arg_str_slow arg arg_num)) (λ s, Accepted (None, Some s)).

Definition zend_parse_arg_str_or_long (arg : zval) (allow_null : bool) (arg_num : Z)
    : parse (option loc * option Z * option bool) :=
  let is_null := is_null0 allow_null in
  if is_type arg IS_STRING then pbind (reading (Z_COUNTED arg)) (λ s, Accepted (Some s, None, is_null))
  else if is_type arg IS_LONG then pbind (reading (Z_LVAL arg)) (λ l, Accepted (None, Some l, is_null))
  else if allow_null && is_type arg IS_NULL then Accepted (None, None, Some true)
  else pbind (told (zend_parse_arg_str_or_long_slow arg arg_num)) (λ r,
    match r with
    | inl s => Accepted (Some s, None, is_null)
    | inr l => Accepted (None, Some l, is_null)
    end).

Definition zend_parse_arg_obj_or_class_name (arg : zval) (allow_null : bool) : parse (option loc) :=
  if is_type arg IS_STRING then
    pbind (reading (Z_COUNTED arg)) (λ s, pbind (told (zend_lookup_class_of s)) (λ ce, Accepted (Some ce)))
  else if is_type arg IS_OBJECT then pbind (reading (Z_COUNTED arg)) (λ o, Accepted (Some (object_ce o)))
  else if allow_null && is_type arg IS_NULL then Accepted None
  else Refused.

Definition zend_parse_arg_obj_or_str (arg : zval) (base_ce : option loc) (allow_null : bool) (arg_num : Z)
    : parse (option loc * option loc) :=
  pbind (if is_type arg IS_OBJECT then of_class arg base_ce else Accepted false) (λ ok,
    if ok then pbind (reading (Z_COUNTED arg)) (λ o, Accepted (Some o, None))
    else pbind (zend_parse_arg_str arg allow_null arg_num) (λ s, Accepted (None, s))).

End parsers.

(** ** The macros *)

Inductive zend_expected_type : Type :=
| Z_EXPECTED_LONG | Z_EXPECTED_LONG_OR_NULL
| Z_EXPECTED_BOOL | Z_EXPECTED_BOOL_OR_NULL
| Z_EXPECTED_STRING | Z_EXPECTED_STRING_OR_NULL
| Z_EXPECTED_ARRAY | Z_EXPECTED_ARRAY_OR_NULL
| Z_EXPECTED_ARRAY_OR_LONG | Z_EXPECTED_ARRAY_OR_LONG_OR_NULL
| Z_EXPECTED_ITERABLE | Z_EXPECTED_ITERABLE_OR_NULL
| Z_EXPECTED_FUNC | Z_EXPECTED_FUNC_OR_NULL
| Z_EXPECTED_RESOURCE | Z_EXPECTED_RESOURCE_OR_NULL
| Z_EXPECTED_PATH | Z_EXPECTED_PATH_OR_NULL
| Z_EXPECTED_OBJECT | Z_EXPECTED_OBJECT_OR_NULL
| Z_EXPECTED_DOUBLE | Z_EXPECTED_DOUBLE_OR_NULL
| Z_EXPECTED_NUMBER | Z_EXPECTED_NUMBER_OR_NULL
| Z_EXPECTED_NUMBER_OR_STRING | Z_EXPECTED_NUMBER_OR_STRING_OR_NULL
| Z_EXPECTED_ARRAY_OR_STRING | Z_EXPECTED_ARRAY_OR_STRING_OR_NULL
| Z_EXPECTED_STRING_OR_LONG | Z_EXPECTED_STRING_OR_LONG_OR_NULL
| Z_EXPECTED_OBJECT_OR_CLASS_NAME | Z_EXPECTED_OBJECT_OR_CLASS_NAME_OR_NULL
| Z_EXPECTED_OBJECT_OR_STRING | Z_EXPECTED_OBJECT_OR_STRING_OR_NULL.

Definition ZPP_ERROR_OK : Z := 0.
Definition ZPP_ERROR_FAILURE : Z := 1.
Definition ZPP_ERROR_WRONG_CALLBACK : Z := 2.
Definition ZPP_ERROR_WRONG_CLASS : Z := 3.
Definition ZPP_ERROR_WRONG_CLASS_OR_NULL : Z := 4.
Definition ZPP_ERROR_WRONG_CLASS_OR_STRING : Z := 5.
Definition ZPP_ERROR_WRONG_CLASS_OR_STRING_OR_NULL : Z := 6.
Definition ZPP_ERROR_WRONG_CLASS_OR_LONG : Z := 7.
Definition ZPP_ERROR_WRONG_CLASS_OR_LONG_OR_NULL : Z := 8.
Definition ZPP_ERROR_WRONG_ARG : Z := 9.
Definition ZPP_ERROR_WRONG_COUNT : Z := 10.
Definition ZPP_ERROR_UNEXPECTED_EXTRA_NAMED : Z := 11.
Definition ZPP_ERROR_WRONG_CALLBACK_OR_NULL : Z := 12.

Definition ZEND_PARSE_PARAMS_QUIET : Z := Z.shiftl 1 1.

(** What one parameter leaves in the caller's variables. *)
Inductive dest : Type :=
| DBool (b : bool) (is_null : option bool)
| DLong (l : Z) (is_null : option bool)
| DDouble (bits : Z) (is_null : option bool)
| DZval (z : option zval)
| DPtr (p : option loc)
| DChars (chars : option block) (len : Z)
| DPtrLong (p : option loc) (l : option Z) (is_null : option bool)
| DPtrs (a b : option loc)
| DArgs (args : list zval).

(** One [Z_PARAM_*] macro: whether the argument is dereferenced first, its
    parser, and on refusal the expected type it stores (if it stores one) and
    the error code. The macros here call [Z_PARAM_PROLOGUE] with [separate] 0;
    those that copy a shared value before it is parsed are not among them. *)
Record param : Type := Param {
  p_deref : bool;
  p_parse : zval → Z → zheap → parse dest;
  p_expected : option zend_expected_type;
  p_error : Z }.

Definition pmap {A B} (f : A → B) (m : parse A) : parse B := pbind m (λ a, Accepted (f a)).

Section macros.
Context {slow : Slow}.

(** A refusal reported with an expected type, nullable or not. *)
Definition wrong_arg (deref : bool) (parser : zval → Z → zheap → parse dest) (check_null : bool)
    (plain or_null : zend_expected_type) : param :=
  Param deref parser (Some (if check_null then or_null else plain)) ZPP_ERROR_WRONG_ARG.

Definition Z_PARAM_ARRAY (check_null : bool) : param :=
  wrong_arg false (λ arg _ _, pmap DZval (zend_parse_arg_array arg check_null false)) check_null
    Z_EXPECTED_ARRAY Z_EXPECTED_ARRAY_OR_NULL.
Definition Z_PARAM_ARRAY_OR_OBJECT : param :=
  wrong_arg false (λ arg _ _, pmap DZval (zend_parse_arg_array arg false true)) false
    Z_EXPECTED_ARRAY Z_EXPECTED_ARRAY_OR_NULL.
Definition Z_PARAM_ITERABLE_EX (check_null : bool) : param :=
  wrong_arg false (λ arg _ _, pmap DZval (zend_parse_arg_iterable arg check_null)) check_null
    Z_EXPECTED_ITERABLE Z_EXPECTED_ITERABLE_OR_NULL.
Definition Z_PARAM_BOOL_EX (check_null deref : bool) : param :=
  wrong_arg deref (λ arg i _, pmap (uncurry DBool) (zend_parse_arg_bool arg check_null i)) check_null
    Z_EXPECTED_BOOL Z_EXPECTED_BOOL_OR_NULL.
Definition Z_PARAM_OBJ_OR_CLASS_NAME_EX (allow_null : bool) : param :=
  wrong_arg false (λ arg _ _, pmap DPtr (zend_parse_arg_obj_or_class_name arg allow_null)) allow_null
    Z_EXPECTED_OBJECT_OR_CLASS_NAME Z_EXPECTED_OBJECT_OR_CLASS_NAME_OR_NULL.
Definition Z_PARAM_OBJ_OR_STR_EX (allow_null : bool) : param :=
  wrong_arg false (λ arg i _, pmap (uncurry DPtrs) (zend_parse_arg_obj_or_str arg None allow_null i)) allow_null
    Z_EXPECTED_OBJECT_OR_STRING Z_EXPECTED_OBJECT_OR_STRING_OR_NULL.
Definition Z_PARAM_OBJ_OF_CLASS_OR_STR_EX (base_ce : option loc) (allow_null : bool) : param :=
  let parser := λ arg i _, pmap (uncurry DPtrs) (zend_parse_arg_obj_or_str arg base_ce allow_null i) in
  match base_ce with
  | Some _ => Param false parser None
      (if allow_null then ZPP_ERROR_WRONG_CLASS_OR_STRING_OR_NULL else ZPP_ERROR_WRONG_CLASS_OR_STRING)
  | None => wrong_arg false parser allow_null Z_EXPECTED_OBJECT_OR_STRING Z_EXPECTED_OBJECT_OR_STRING_OR_NULL
  end.
Definition Z_PARAM_DOUBLE_EX (check_null deref : bool) : param :=
  wrong_arg deref (λ arg i _, pmap (uncurry DDouble) (zend_parse_arg_double arg check_null i)) check_null
    Z_EXPECTED_DOUBLE Z_EXPECTED_DOUBLE_OR_NULL.
Definition Z_PARAM_ARRAY_HT_OR_LONG_EX (allow_null : bool) : param :=
  wrong_arg false (λ arg i _, pmap (λ '(p, l, n), DPtrLong p l n)
                                (zend_parse_arg_array_ht_or_long arg allow_null i)) allow_null
    Z_EXPECTED_ARRAY_OR_LONG Z_EXPECTED_ARRAY_OR_LONG_OR_NULL.
Definition Z_PARAM_LONG_EX (check_null deref : bool) : param :=
  wrong_arg deref (λ arg i _, pmap (uncurry DLong) (zend_parse_arg_long arg check_null i)) check_null
    Z_EXPECTED_LONG Z_EXPECTED_LONG_OR_NULL.
Definition Z_PARAM_NUMBER_EX (check_null : bool) : param :=
  wrong_arg false (λ arg i _, pmap DZval (zend_parse_arg_number arg check_null i)) check_null
    Z_EXPECTED_NUMBER Z_EXPECTED_NUMBER_OR_NULL.
Definition Z_PARAM_NUMBER_OR_STR_EX (check_null : bool) : param :=
  wrong_arg false (λ arg i _, pmap DZval (zend_parse_arg_number_or_str arg check_null i)) check_null
    Z_EXPECTED_NUMBER_OR_STRING Z_EXPECTED_NUMBER_OR_STRING_OR_NULL.
Definition Z_PARAM_OBJECT_EX (check_null deref : bool) : param :=
  wrong_arg deref (λ arg _ _, pmap DZval (zend_parse_arg_object arg None check_null)) check_null
    Z_EXPECTED_OBJECT Z_EXPECTED_OBJECT_OR_NULL.
Definition Z_PARAM_OBJ_EX (check_null deref : bool) : param :=
  wrong_arg deref (λ arg _ _, pmap DPtr (zend_parse_arg_obj arg None check_null)) check_null
    Z_EXPECTED_OBJECT Z_EXPECTED_OBJECT_OR_NULL.

(** A class constraint: the error code names the class, or the expected type
    when there is no class. *)
Definition wrong_class (deref : bool) (parser : zval → Z → zheap → parse dest) (ce : option loc)
    (check_null : bool) : param :=
  match ce with
  | Some _ => Param deref parser None (if check_null then ZPP_ERROR_WRONG_CLASS_OR_NULL else ZPP_ERROR_WRONG_CLASS)
  | None => wrong_arg deref parser check_null Z_EXPECTED_OBJECT Z_EXPECTED_OBJECT_OR_NULL
  end.
Definition Z_PARAM_OBJECT_OF_CLASS_EX (ce : option loc) (check_null deref : bool) : param :=
  wrong_class deref (λ arg _ _, pmap DZval (zend_parse_arg_object arg ce check_null)) ce check_null.
Definition Z_PARAM_OBJ_OF_CLASS_EX (ce : option loc) (check_null deref : bool) : param :=
  wrong_class deref (λ arg _ _, pmap DPtr (zend_parse_arg_obj arg ce check_null)) ce check_null.
Definition Z_PARAM_OBJ_OF_CLASS_OR_LONG_EX (ce : loc) (allow_null : bool) : param :=
  Param false (λ arg i _, pmap (λ '(p, l, n), DPtrLong p l n) (zend_parse_arg_obj_or_long arg ce allow_null i)) None
    (if allow_null then ZPP_ERROR_WRONG_CLASS_OR_LONG_OR_NULL else ZPP_ERROR_WRONG_CLASS_OR_LONG).
Definition Z_PARAM_PATH_EX (check_null deref : bool) : param :=
  wrong_arg deref (λ arg i h, pmap (uncurry DChars) (zend_parse_arg_path arg check_null i h)) check_null
    Z_EXPECTED_PATH Z_EXPECTED_PATH_OR_NULL.
Definition Z_PARAM_PATH_STR_EX (check_null deref : bool) : param :=
  wrong_arg deref (λ arg i h, pmap DPtr (zend_parse_arg_path_str arg check_null i h)) check_null
    Z_EXPECTED_PATH Z_EXPECTED_PATH_OR_NULL.
Definition Z_PARAM_RESOURCE_EX (check_null deref : bool) : param :=
  wrong_arg deref (λ arg _ _, pmap DZval (zend_parse_arg_resource arg check_null)) check_null
    Z_EXPECTED_RESOURCE Z_EXPECTED_RESOURCE_OR_NULL.
Definition Z_PARAM_STRING_EX (check_null deref : bool) : param :=
  wrong_arg deref (λ arg i h, pmap (uncurry DChars) (zend_parse_arg_string arg check_null i h)) check_null
    Z_EXPECTED_STRING Z_EXPECTED_STRING_OR_NULL.
Definition Z_PARAM_STR_EX (check_null deref : bool) : param :=
  wrong_arg deref (λ arg i _, pmap DPtr (zend_parse_arg_str arg check_null i)) check_null
    Z_EXPECTED_STRING Z_EXPECTED_STRING_OR_NULL.
(** Never refuses: the code it would report is none. *)
Definition Z_PARAM_ZVAL (check_null : bool) : param :=
  Param false (λ arg _ _, pmap DZval (zend_parse_arg_zval_deref arg check_null)) None ZPP_ERROR_OK.
Definition Z_PARAM_ARRAY_HT_OR_STR_EX (allow_null : bool) : param :=
  wrong_arg false (λ arg i _, pmap (uncurry DPtrs) (zend_parse_arg_array_ht_or_str arg allow_null i)) allow_null
    Z_EXPECTED_ARRAY_OR_STRING Z_EXPECTED_ARRAY_OR_STRING_OR_NULL.
Definition Z_PARAM_STR_OR_LONG_EX (allow_null : bool) : param :=
  wrong_arg false (λ arg i _, pmap (λ '(p, l, n), DPtrLong p l n)
                                (zend_parse_arg_str_or_long arg allow_null i)) allow_null
    Z_EXPECTED_STRING_OR_LONG Z_EXPECTED_STRING_OR_LONG_OR_NULL.

End macros.

(** *** The parsing block *)

(** The lines between [ZEND_PARSE_PARAMETERS_START] and [_END]. *)
Inductive zspec : Type :=
| Z_PARAM_OPTIONAL
| One (p : param)
| Z_PARAM_VARIADIC_EX (post_varargs : Z).

(** The block's variables: [_i], [_optional], [_error_code], [_expected_type],
    [_arg]; [_real_arg] points to argument [_i] throughout. *)
Record zpp : Type := ZState {
  zi : Z; z_optional : bool; z_error_code : Z; z_expected : zend_expected_type; z_arg : option zval }.

Definition zpp0 : zpp := ZState 0 false ZPP_ERROR_OK Z_EXPECTED_LONG None.

(** The call frame: the arguments, whether it has extra named ones, the heap. *)
Record frame : Type := Frame { f_args : list zval; f_extra_named : bool; f_heap : zheap }.

Definition EX_NUM_ARGS (f : frame) : Z := Z.of_nat (length (f_args f)).

(** How a line leaves the block: go on with what it stored, [break], or a failed
    assertion or a read outside the frame. *)
Inductive line : Type :=
| Continue (st : zpp) (d : list dest)
| Break (st : zpp)
| Stuck.

(** [Z_PARAM_PROLOGUE] for argument [_i], then the parser. *)
Definition run_param (f : frame) (p : param) (arg : zval) (i : Z) : parse (zval * parse dest) :=
  pbind (if p_deref p && Z_ISREF arg then refval arg (f_heap f) else Accepted arg)
        (λ arg, Accepted (arg, p_parse p arg i (f_heap f))).

Definition run_line (f : frame) (min_num_args : Z) (l : zspec) (st : zpp) : line :=
  let num_args := EX_NUM_ARGS f in
  match l with
  | Z_PARAM_OPTIONAL => Continue (ZState (zi st) true (z_error_code st) (z_expected st) (z_arg st)) []
  | One p =>
      let i := u32 (zi st + 1) in
      let st := ZState i (z_optional st) (z_error_code st) (z_expected st) (z_arg st) in
      if ((i <=? min_num_args) || z_optional st) && ((min_num_args <? i) || negb (z_optional st)) then
        if z_optional st && (num_args <? i) then Break st
        else match f_args f !! Z.to_nat (i - 1) ≫= λ a, Some (run_param f p a i) with
        | Some (Accepted (arg, r)) =>
            let st := ZState i (z_optional st) (z_error_code st) (z_expected st) (Some arg) in
            match r with
            | Accepted d => Continue st [d]
            | Refused => Break (ZState i (z_optional st) (p_error p) (default (z_expected st) (p_expected p)) (Some arg))
            | Unread => Stuck
            end
        | _ => Stuck
        end
      else Stuck
  | Z_PARAM_VARIADIC_EX post =>
      let n := u32 (num_args - zi st - post) in
      let '(i, d) := if 0 <? n then (u32 (zi st + n), take (Z.to_nat n) (drop (Z.to_nat (zi st)) (f_args f)))
                     else (zi st, []) in
      let code := if f_extra_named f then ZPP_ERROR_UNEXPECTED_EXTRA_NAMED else z_error_code st in
      Continue (ZState i (z_optional st) code (z_expected st) (z_arg st)) [DArgs d]
  end.

Fixpoint run_lines (f : frame) (min_num_args max_num_args : Z) (ls : list zspec) (st : zpp) (ds : list dest)
    : option (zpp * list dest) :=
  match ls with
  | [] => if (zi st =? max_num_args) || (max_num_args =? u32 (-1)) then Some (st, ds) else None
  | l :: ls =>
      match run_line f min_num_args l st with
      | Continue st d => run_lines f min_num_args max_num_args ls st (ds ++ d)
      | Break st => Some (st, ds)
      | Stuck => None
      end
  end.

(** Errors raised: [zend_wrong_parameters_count_error] and
    [zend_wrong_parameter_error]. *)
Inductive report : Type :=
| CountError (min_num_args max_num_args : Z)
| ParameterError (error_code i : Z) (expected : zend_expected_type) (arg : option zval).

Inductive parsed : Type :=
| Parsed (ds : list dest)
| Failed (error_code : Z) (reports : list report).

(** [ZEND_PARSE_PARAMETERS_START_EX(flags, min, max) lines ZEND_PARSE_PARAMETERS_END_EX]. *)
Definition ZEND_PARSE_PARAMETERS_EX (flags min_num_args max_num_args : Z) (ls : list zspec) (f : frame)
    : option parsed :=
  let quiet := negb (Z.land flags ZEND_PARSE_PARAMS_QUIET =? 0) in
  let num_args := EX_NUM_ARGS f in
  '(st, ds, rs) ←
    (if (num_args <? min_num_args) || (max_num_args <? num_args) then
       Some (ZState 0 false ZPP_ERROR_FAILURE Z_EXPECTED_LONG None, [],
             if quiet then [] else [CountError min_num_args max_num_args])
     else '(st, ds) ← run_lines f min_num_args max_num_args ls zpp0 []; Some (st, ds, []));
  Some (if z_error_code st =? ZPP_ERROR_OK then Parsed ds
        else Failed (z_error_code st)
               (rs ++ if quiet then []
                      else [ParameterError (z_error_code st) (zi st) (z_expected st) (z_arg st)])).

(** [ZEND_PARSE_PARAMETERS_NONE()]: true when the function goes on. *)
Definition ZEND_PARSE_PARAMETERS_NONE (f : frame) : bool := EX_NUM_ARGS f =? 0.

End Zpp.

(** ** Declared signatures *)
Module ArgInfo.
Import TypeHint.

Definition ZEND_TYPE_EXTRA_FLAGS_SHIFT : Z := 25.
Definition ZEND_SEND_MODE_SHIFT : Z := ZEND_TYPE_EXTRA_FLAGS_SHIFT.
Definition ZEND_IS_VARIADIC_BIT : Z := Z.shiftl 1 (ZEND_TYPE_EXTRA_FLAGS_SHIFT + 2).
Definition ZEND_IS_TENTATIVE_BIT : Z := Z.shiftl 1 (ZEND_TYPE_EXTRA_FLAGS_SHIFT + 4).

Definition ZEND_ARG_INFO_FLAGS (pass_by_ref : Z) (is_variadic is_tentative : bool) : Z :=
  Z.lor (Z.lor (Z.shiftl pass_by_ref ZEND_SEND_MODE_SHIFT)
               (if is_variadic then ZEND_IS_VARIADIC_BIT else 0))
        (if is_tentative then ZEND_IS_TENTATIVE_BIT else 0).

(** The name field of the first entry holds the number of required arguments. *)
Inductive arg_name : Type :=
| RequiredArgs (n : Z)
| ArgName (name : bytes).

Record zend_internal_arg_info : Type := ArgInfo { ai_name : arg_name; ai_type : zend_type }.

Definition ZEND_BEGIN_ARG_WITH_RETURN_TYPE_INFO_EX (return_reference required_num_args type : Z)
    (allow_null : bool) : zend_internal_arg_info :=
  ArgInfo (RequiredArgs required_num_args)
    (ZEND_TYPE_INIT_CODE type allow_null (ZEND_ARG_INFO_FLAGS return_reference false false)).
Definition ZEND_BEGIN_ARG_WITH_RETURN_TYPE_MASK_EX (return_reference required_num_args type : Z)
    : zend_internal_arg_info :=
  ArgInfo (RequiredArgs required_num_args)
    (ZEND_TYPE_INIT_MASK (Z.lor type (ZEND_ARG_INFO_FLAGS return_reference false false))).
Definition ZEND_ARG_INFO (pass_by_ref : Z) (name : bytes) : zend_internal_arg_info :=
  ArgInfo (ArgName name) (ZEND_TYPE_INIT_NONE (ZEND_ARG_INFO_FLAGS pass_by_ref false false)).

(** [ZEND_FE(name, arg_info)]: the name, the signature and its argument count. *)
Record zend_function_entry : Type := FunctionEntry {
  fe_name : bytes; fe_arg_info : list zend_internal_arg_info; fe_num_args : Z }.
Definition ZEND_FE (name : bytes) (arg_info : list zend_internal_arg_info) : zend_function_entry :=
  FunctionEntry name arg_info (Z.of_nat (length arg_info) - 1).

(** What a signature declares. *)
Definition return_type (ai : list zend_internal_arg_info) : option zend_type := ai_type <$> head ai.
Definition required_args (ai : list zend_internal_arg_info) : option Z :=
  a ← head ai; match ai_name a with RequiredArgs n => Some n | ArgName _ => None end.

End ArgInfo.

(** ** Theorems *)

(** *** The block parses the arguments one by one *)
Section blocks.
Import Zpp.

(** What parsing promises: the arguments are judged in order by their parameters,
    up to the first that is refused. *)
Inductive verdict : Type :=
| VOk (ds : list dest)
| VWrong (i : Z) (p : param) (arg : zval)
| VUndefined.

Definition prepend (ds : list dest) (v : verdict) : verdict :=
  match v with VOk ds' => VOk (ds ++ ds') | v => v end.

Fixpoint judge (f : frame) (i : Z) (ps : list param) (args : list zval) : verdict :=
  match ps, args with
  | p :: ps, a :: args =>
      match run_param f p a i with
      | Accepted (_, Accepted d) => prepend [d] (judge f (i + 1) ps args)
      | Accepted (arg, Refused) => VWrong i p arg
      | _ => VUndefined
      end
  | _, _ => VOk []
  end.

(** The lines of a function with required and optional parameters. *)
Definition lines_of (rs os : list param) : list zspec :=
  (One <$> rs) ++ match os with [] => [] | _ => Z_PARAM_OPTIONAL :: (One <$> os) end.

(** A parameter that can refuse reports an error when it does. *)
Definition reports_refusal (p : param) : Prop :=
  p_error p ≠ ZPP_ERROR_OK ∨ ∀ a i h, p_parse p a i h ≠ Refused.

Definition finish (r : option (zpp * list dest)) : option parsed :=
  r ≫= λ '(st, ds),
  Some (if z_error_code st =? ZPP_ERROR_OK then Parsed ds
        else Failed (z_error_code st) [ParameterError (z_error_code st) (zi st) (z_expected st) (z_arg st)]).

Definition settle (v : verdict) : option parsed :=
  match v with
  | VOk ds => Some (Parsed ds)
  | VWrong i p arg =>
      Some (Failed (p_error p) [ParameterError (p_error p) i (default Z_EXPECTED_LONG (p_expected p)) (Some arg)])
  | VUndefined => None
  end.

Abbreviation at_arg k optional arg := (ZState (Z.of_nat k) optional ZPP_ERROR_OK Z_EXPECTED_LONG arg).

Lemma prepend_app ds ds' v : prepend ds (prepend ds' v) = prepend (ds ++ ds') v.
Proof. destruct v; simpl; by rewrite ?app_assoc. Qed.

(** One parameter whose argument is there. *)
Lemma run_one f mn mx p ls k (opt : bool) arg ds pre a args :
  f_args f = pre ++ a :: args → length pre = k → Z.of_nat k + 1 < 2 ^ 32 →
  (if opt then mn <= Z.of_nat k else Z.of_nat k < mn) → reports_refusal p →
  ∃ arg', finish (run_lines f mn mx (One p :: ls) (at_arg k opt arg) ds)
    = match run_param f p a (Z.of_nat k + 1) with
      | Accepted (_, Accepted d) => finish (run_lines f mn mx ls (at_arg (S k) opt arg') (ds ++ [d]))
      | Accepted (b, Refused) => settle (VWrong (Z.of_nat k + 1) p b)
      | _ => None
      end.
Proof.
  intros Hf Hk Hb Ho Hp. cbn [run_lines]. unfold run_line. cbn [zi z_optional z_error_code z_expected z_arg].
  rewrite u32_small by lia.
  assert (Hg : ((Z.of_nat k + 1 <=? mn) || opt) && ((mn <? Z.of_nat k + 1) || negb opt) = true).
  { destruct opt; simpl; lia. }
  rewrite Hg. unfold EX_NUM_ARGS. rewrite Hf, length_app. simpl length.
  rewrite (proj2 (Z.ltb_ge _ _)) by lia. rewrite andb_false_r.
  replace (Z.to_nat (Z.of_nat k + 1 - 1)) with k by lia.
  rewrite lookup_app_r, Hk, Nat.sub_diag by lia. simpl.
  destruct (run_param f p a (Z.of_nat k + 1)) as [[b r]| |] eqn:Er; [|by exists None..].
  exists (Some b). destruct r as [d| |] eqn:Ed; [|simpl|done].
  - by replace (Z.of_nat k + 1) with (Z.of_nat (S k)) by lia.
  - destruct Hp as [Hp|Hp]; [by rewrite (proj2 (Z.eqb_neq _ _) Hp)|].
    unfold run_param in Er. destruct (if p_deref p && Z_ISREF a then _ else _) as [c| |]; try done.
    simpl in Er. injection Er as _ Er. by apply Hp in Er.
Qed.

Lemma run_required f mn mx ps ls k arg ds pre args args' :
  f_args f = pre ++ args ++ args' → length pre = k → length args = length ps →
  Z.of_nat (k + length ps) <= mn → mn < 2 ^ 32 → Forall reports_refusal ps →
  ∃ arg', finish (run_lines f mn mx ((One <$> ps) ++ ls) (at_arg k false arg) ds)
    = match judge f (Z.of_nat k + 1) ps args with
      | VOk ds' => finish (run_lines f mn mx ls (at_arg (k + length ps) false arg') (ds ++ ds'))
      | v => settle v
      end.
Proof.
  revert k arg ds pre args. induction ps as [|p ps IH]; intros k arg ds pre args Hf Hk Hl Hb Hm Hps.
  { exists arg. destruct args; [|done]. simpl. by rewrite Nat.add_0_r, app_nil_r. }
  destruct args as [|a args]; [done|]. apply Forall_cons_1 in Hps as [Hp Hps]. simpl in Hf, Hl, Hb.
  change ((One <$> p :: ps) ++ ls) with (One p :: (One <$> ps) ++ ls). cbn [judge length].
  destruct (run_one f mn mx p ((One <$> ps) ++ ls) k false arg ds pre a (args ++ args'))
    as [arg1 H1]; [done..|lia|lia|done|].
  rewrite H1. destruct (run_param f p a (Z.of_nat k + 1)) as [[b [d| |]]| |]; try (by exists None).
  destruct (IH (S k) arg1 (ds ++ [d]) (pre ++ [a]) args) as [arg2 H2].
  { by rewrite <- app_assoc. } { rewrite length_app. simpl. lia. } { lia. } { lia. } { done. } { done. }
  exists arg2. rewrite H2. replace (Z.of_nat (S k) + 1) with (Z.of_nat k + 1 + 1) by lia.
  destruct (judge f (Z.of_nat k + 1 + 1) ps args); simpl; try done.
  rewrite <- app_assoc. by replace (k + S (length ps))%nat with (S k + length ps)%nat by lia.
Qed.

Lemma run_optional f mn mx ps k arg ds pre args :
  f_args f = pre ++ args → length pre = k → (length args ≤ length ps)%nat →
  mn <= Z.of_nat k → mx = Z.of_nat (k + length ps) → mx < 2 ^ 32 → Forall reports_refusal ps →
  finish (run_lines f mn mx (One <$> ps) (at_arg k true arg) ds)
    = settle (prepend ds (judge f (Z.of_nat k + 1) ps args)).
Proof.
  revert k arg ds pre args. induction ps as [|p ps IH]; intros k arg ds pre args Hf Hk Hl Hn Hx Hb Hps.
  { destruct args; [|simpl in *; lia]. cbn -[u32]. rewrite Nat.add_0_r in Hx.
    rewrite (proj2 (Z.eqb_eq (Z.of_nat k) mx)) by done. simpl. by rewrite app_nil_r. }
  apply Forall_cons_1 in Hps as [Hp Hps]. destruct args as [|a args].
  - rewrite app_nil_r in Hf. cbn [fmap list_fmap run_lines]. unfold run_line, EX_NUM_ARGS.
    cbn [zi z_optional z_error_code z_expected z_arg]. simpl in Hx. rewrite u32_small by lia.
    rewrite Hf, Hk, (proj2 (Z.ltb_lt _ _)), !orb_true_r by lia. simpl.
    rewrite (proj2 (Z.ltb_lt _ _)) by lia. simpl. by rewrite app_nil_r.
  - simpl in Hl, Hx. destruct (run_one f mn mx p (One <$> ps) k true arg ds pre a args) as [arg1 H1];
      [done..|lia|done|done|].
    change (One <$> p :: ps) with (One p :: (One <$> ps)). rewrite H1. cbn [judge].
    destruct (run_param f p a (Z.of_nat k + 1)) as [[b [d| |]]| |]; try done.
    rewrite (IH (S k) arg1 (ds ++ [d]) (pre ++ [a]) args); try done.
    + rewrite prepend_app. by replace (Z.of_nat (S k) + 1) with (Z.of_nat k + 1 + 1) by lia.
    + by rewrite <- app_assoc.
    + rewrite length_app. simpl. lia.
    + lia.
    + lia.
    + lia.
Qed.

Lemma judge_app f i rs os args args' :
  length args = length rs →
  judge f i (rs ++ os) (args ++ args') =
  match judge f i rs args with
  | VOk ds => prepend ds (judge f (i + Z.of_nat (length rs)) os args')
  | v => v
  end.
Proof.
  revert i args. induction rs as [|r rs IH]; intros i [|a args] Hl; try done.
  { simpl. rewrite Z.add_0_r. by destruct (judge f i os args'). }
  simpl in *. destruct (run_param f r a i) as [[b [d| |]]| |]; try done.
  rewrite IH by lia. replace (i + 1 + Z.of_nat (length rs)) with (i + Z.of_nat (S (length rs))) by lia.
  destruct (judge f (i + 1) rs args); try done. by rewrite prepend_app.
Qed.

(** C25: A ZEND_PARSE_PARAMETERS block with required and optional parameters
    reports a wrong number of arguments, and otherwise stores what the parameters
    accept in order up to the first refusal, which it reports with its position,
    expected type and argument. *)
Theorem parse_parameters_judges rs os f :
  Forall reports_refusal (rs ++ os) → Z.of_nat (length rs + length os) < 2 ^ 32 →
  let mn := Z.of_nat (length rs) in
  let mx := Z.of_nat (length rs + length os) in
  ZEND_PARSE_PARAMETERS_EX 0 mn mx (lines_of rs os) f =
  if (EX_NUM_ARGS f <? mn) || (mx <? EX_NUM_ARGS f)
  then Some (Failed ZPP_ERROR_FAILURE
               [CountError mn mx; ParameterError ZPP_ERROR_FAILURE 0 Z_EXPECTED_LONG None])
  else settle (judge f 1 (rs ++ os) (f_args f)).
Proof.
  intros Hr Hb mn mx. unfold ZEND_PARSE_PARAMETERS_EX. simpl negb.
  destruct (_ || _) eqn:Hn; [done|]. unfold EX_NUM_ARGS in Hn.
  apply orb_false_iff in Hn as [Hlo%Z.ltb_ge Hhi%Z.ltb_ge]. apply Forall_app in Hr as [Hrs Hos].
  transitivity (finish (run_lines f mn mx (lines_of rs os) zpp0 [])).
  { destruct (run_lines f mn mx (lines_of rs os) zpp0 []) as [[st ds]|]; done. }
  set (a := take (length rs) (f_args f)). set (b := drop (length rs) (f_args f)).
  assert (Ha : length a = length rs) by (unfold a; rewrite length_take; lia).
  assert (Hf : f_args f = a ++ b) by (symmetry; apply take_drop).
  rewrite Hf, judge_app by done. unfold lines_of.
  destruct (run_required f mn mx rs (match os with [] => [] | _ => Z_PARAM_OPTIONAL :: (One <$> os) end)
              0 None [] [] a b) as [arg' H]; [done..|lia|lia|done|].
  change (at_arg 0 false None) with zpp0 in H. rewrite H. change (Z.of_nat 0 + 1) with 1.
  destruct (judge f 1 rs a) as [ds| |]; try done. simpl app.
  assert (Hb' : length b = (length (f_args f) - length rs)%nat) by (unfold b; apply length_drop).
  destruct os as [|o os].
  - assert (b = []) as -> by (apply nil_length_inv; simpl in *; lia). cbn -[u32].
    rewrite (proj2 (Z.eqb_eq _ _)) by (unfold mx; simpl; lia). simpl. by rewrite app_nil_r.
  - change (run_lines f mn mx (Z_PARAM_OPTIONAL :: ?ls) (at_arg ?k false ?x) ?d)
      with (run_lines f mn mx ls (at_arg k true x) (d ++ [])).
    rewrite app_nil_r, Z.add_comm. apply (run_optional f mn mx (o :: os) (length rs) arg' ds a b); try done; lia.
Qed.

End blocks.

(** *** Which arguments a parameter takes without conversion *)
Section fast.
Import Zpp TypeHint.
Context {slow : Slow}.

(** The member of the union a type says was written. *)
Definition zval_ok (z : zval) : Prop :=
  (zval_get_type z = IS_LONG → is_Some (Z_LVAL z)) ∧
  (zval_get_type z = IS_DOUBLE → is_Some (Z_DVAL z)) ∧
  (zval_get_type z = IS_STRING ∨ zval_get_type z = IS_ARRAY ∨ zval_get_type z = IS_OBJECT
   ∨ zval_get_type z = IS_RESOURCE → is_Some (Z_COUNTED z)).

Inductive kind : Type :=
| KBool | KLong | KDouble | KNumber | KNumberOrStr | KStr | KArray | KObject | KResource
| KStrOrLong | KArrayOrStr | KArrayOrLong.

Definition param_of (k : kind) (null : bool) : param :=
  match k with
  | KBool => Z_PARAM_BOOL_EX null false
  | KLong => Z_PARAM_LONG_EX null false
  | KDouble => Z_PARAM_DOUBLE_EX null false
  | KNumber => Z_PARAM_NUMBER_EX null
  | KNumberOrStr => Z_PARAM_NUMBER_OR_STR_EX null
  | KStr => Z_PARAM_STR_EX null false
  | KArray => Z_PARAM_ARRAY null
  | KObject => Z_PARAM_OBJECT_EX null false
  | KResource => Z_PARAM_RESOURCE_EX null false
  | KStrOrLong => Z_PARAM_STR_OR_LONG_EX null
  | KArrayOrStr => Z_PARAM_ARRAY_HT_OR_STR_EX null
  | KArrayOrLong => Z_PARAM_ARRAY_HT_OR_LONG_EX null
  end.

(** The type a user would declare for the parameter. *)
Definition codes_of (k : kind) : list Z :=
  match k with
  | KBool => [IS_FALSE; IS_TRUE] | KLong => [IS_LONG] | KDouble => [IS_DOUBLE]
  | KNumber => [IS_LONG; IS_DOUBLE] | KNumberOrStr => [IS_LONG; IS_DOUBLE; IS_STRING]
  | KStr => [IS_STRING] | KArray => [IS_ARRAY] | KObject => [IS_OBJECT] | KResource => [IS_RESOURCE]
  | KStrOrLong => [IS_STRING; IS_LONG] | KArrayOrStr => [IS_ARRAY; IS_STRING]
  | KArrayOrLong => [IS_ARRAY; IS_LONG]
  end.
Definition type_of (k : kind) (null : bool) : zend_type :=
  ZEND_TYPE_INIT_MASK (Z.lor (foldr (λ c m, Z.lor (Z.shiftl 1 c) m) 0 (codes_of k)) (nullable null)).

(** The conversion a parameter falls back to; arrays, objects and resources have
    none. *)
Definition converted (k : kind) (null : bool) (z : zval) (i : Z) : option dest :=
  match k with
  | KBool => (λ b, DBool b (is_null0 null)) <$> zend_parse_arg_bool_slow z i
  | KLong => (λ l, DLong l (is_null0 null)) <$> zend_parse_arg_long_slow z i
  | KDouble => (λ d, DDouble d (is_null0 null)) <$> zend_parse_arg_double_slow z i
  | KNumber => (λ v, DZval (Some v)) <$> zend_parse_arg_number_slow z i
  | KNumberOrStr => (λ v, DZval (Some v)) <$> zend_parse_arg_number_or_str_slow z i
  | KStr => (λ s, DPtr (Some s)) <$> zend_parse_arg_str_slow z i
  | KArray | KObject | KResource => None
  | KStrOrLong => (λ r, match r with inl s => DPtrLong (Some s) None (is_null0 null)
                                | inr l => DPtrLong None (Some l) (is_null0 null) end)
                    <$> zend_parse_arg_str_or_long_slow z i
  | KArrayOrStr => (λ s, DPtrs None (Some s)) <$> zend_parse_arg_str_slow z i
  | KArrayOrLong => (λ l, DPtrLong None (Some l) (is_null0 null)) <$> zend_parse_arg_long_slow z i
  end.

(** The destination holds the argument's own value; null leaves the flag or a
    null pointer. *)
Definition holds (d : dest) (z : zval) : Prop :=
  if zval_get_type z =? IS_NULL then
    match d with
    | DBool b n => b = false ∧ n = Some true
    | DLong l n | DDouble l n => l = 0 ∧ n = Some true
    | DZval v => v = None
    | DPtr p => p = None
    | DPtrLong p _ n => p = None ∧ n = Some true
    | DPtrs p q => p = None ∧ q = None
    | DChars _ _ | DArgs _ => False
    end
  else
    match d with
    | DBool b n => zval_get_type z = (if b then IS_TRUE else IS_FALSE) ∧ n ≠ Some true
    | DLong l n => Z_LVAL z = Some l ∧ n ≠ Some true
    | DDouble x n => Z_DVAL z = Some x ∧ n ≠ Some true
    | DZval v => v = Some z
    | DPtr p => p = Z_COUNTED z
    | DPtrLong p l n => n ≠ Some true ∧ (if zval_get_type z =? IS_LONG then p = None ∧ l = Z_LVAL z else p = Z_COUNTED z)
    | DPtrs p q => (if zval_get_type z =? IS_ARRAY then p = Z_COUNTED z ∧ q = None else p = None ∧ q = Z_COUNTED z)
    | DChars _ _ | DArgs _ => False
    end.

Lemma testbit_code c t : 0 <= c → 0 <= t → Z.testbit (Z.shiftl 1 c) t = (t =? c).
Proof.
  intros. rewrite Z.shiftl_spec by done. change 1 with (Z.ones 1).
  destruct (Z.eqb_spec t c) as [->|]; [by rewrite Z.sub_diag|].
  destruct (Z.lt_ge_cases t c); [apply Z.testbit_neg_r; lia|apply Z.ones_spec_high; lia].
Qed.

Lemma contains_testbit m c : 0 <= c → ZEND_TYPE_CONTAINS_CODE (ZEND_TYPE_INIT_MASK m) c = Z.testbit m c.
Proof.
  intros Hc. unfold ZEND_TYPE_CONTAINS_CODE, has_bit. simpl.
  destruct (Z.testbit m c) eqn:E.
  - apply negb_true_iff, Z.eqb_neq. intros H0. apply (f_equal (λ x, Z.testbit x c)) in H0.
    by rewrite Z.land_spec, testbit_code, Z.eqb_refl, E, Z.testbit_0_l in H0.
  - apply negb_false_iff, Z.eqb_eq, Z.bits_inj'. intros i Hi.
    rewrite Z.land_spec, testbit_code, Z.testbit_0_l by done.
    destruct (Z.eqb_spec i c) as [->|]; [by rewrite E|apply andb_false_r].
Qed.

Lemma type_of_contains k null t :
  0 <= t → ZEND_TYPE_CONTAINS_CODE (type_of k null) t
           = existsb (Z.eqb t) (codes_of k) || (null && (t =? IS_NULL)).
Proof.
  intros Ht. unfold type_of. rewrite contains_testbit, Z.lor_spec by done. f_equal.
  - assert (Hc : Forall (Z.le 0) (codes_of k)) by (destruct k; repeat (apply Forall_cons_2; [done|]); apply Forall_nil_2).
    induction Hc as [|c cs Hc _ IH]; simpl; [apply Z.testbit_0_l|].
    by rewrite Z.lor_spec, testbit_code, IH.
  - destruct null; simpl; [|apply Z.testbit_0_l].
    change NULLABLE_BIT with (Z.shiftl 1 IS_NULL). by apply testbit_code.
Qed.

(** A type code is one of the nine the parsers look at, or none of them. *)
Lemma type_cases t : t ∈ [1; 2; 3; 4; 5; 6; 7; 8; 9] ∨ Forall (λ c, (t =? c) = false) [1; 2; 3; 4; 5; 6; 7; 8; 9].
Proof.
  destruct (decide (t ∈ [1; 2; 3; 4; 5; 6; 7; 8; 9])) as [H|H]; [by left|right].
  apply Forall_forall. intros c Hc. apply Z.eqb_neq. intros ->. by apply H, list_elem_of_In.
Qed.

Ltac param_unfold :=
  unfold param_of, converted, Z_PARAM_BOOL_EX, Z_PARAM_LONG_EX, Z_PARAM_DOUBLE_EX, Z_PARAM_NUMBER_EX,
    Z_PARAM_NUMBER_OR_STR_EX, Z_PARAM_STR_EX, Z_PARAM_ARRAY, Z_PARAM_OBJECT_EX, Z_PARAM_RESOURCE_EX,
    Z_PARAM_STR_OR_LONG_EX, Z_PARAM_ARRAY_HT_OR_STR_EX, Z_PARAM_ARRAY_HT_OR_LONG_EX, wrong_arg; cbn [p_parse];
  unfold zend_parse_arg_bool, zend_parse_arg_bool_ex, zend_parse_arg_long, zend_parse_arg_long_ex,
    zend_parse_arg_double, zend_parse_arg_number, zend_parse_arg_number_or_str, zend_parse_arg_str,
    zend_parse_arg_str_ex, zend_parse_arg_array, zend_parse_arg_object, of_class, zend_parse_arg_resource,
    zend_parse_arg_str_or_long, zend_parse_arg_array_ht_or_str, zend_parse_arg_array_ht_or_long, is_type.

Ltac slow_cases :=
  match goal with
  | |- context [zend_parse_arg_str_or_long_slow ?z ?i] => destruct (zend_parse_arg_str_or_long_slow z i) as [[]|]
  | |- context [pbind (told ?x)] => destruct x
  end.

(** Each Z_PARAM macro takes an argument of the type it declares (null
    included when it may be) without conversion and stores that argument's own
    value; every other argument goes to the conversion of that type, or is refused
    when there is none. *)
Theorem fast_path_types k null z i h :
  zval_ok z →
  (ZEND_TYPE_CONTAINS_CODE (type_of k null) (zval_get_type z) = true →
     ∃ d, p_parse (param_of k null) z i h = Accepted d ∧ holds d z) ∧
  (ZEND_TYPE_CONTAINS_CODE (type_of k null) (zval_get_type z) = false →
     p_parse (param_of k null) z i h = told (converted k null z i)).
Proof.
  intros (Hl&Hd&Hc). rewrite type_of_contains by (apply Z.land_nonneg; lia).
  destruct (type_cases (zval_get_type z)) as [Ht|Ht].
  - repeat (apply elem_of_cons in Ht as [Ht|Ht]); [..|by apply elem_of_nil in Ht].
    all: rewrite Ht in Hl, Hd, Hc |- *.
    all: destruct k, null; (split; intros Hin; [try done|try done]).
    all: param_unfold; rewrite ?Ht; simpl.
    all: try (destruct (Hl eq_refl) as [x Hx]; rewrite Hx; simpl).
    all: try (destruct (Hd eq_refl) as [x Hx]; rewrite Hx; simpl).
    all: try (destruct Hc as [x Hx]; [by auto|rewrite Hx; simpl]).
    all: try (eexists; split; [done|]; unfold holds; rewrite Ht; simpl; rewrite ?Hx; done).
    all: first [done|by slow_cases].
  - repeat (apply Forall_cons_1 in Ht as [? Ht]).
    destruct k, null; (split; intros Hin; [exfalso; revert Hin|clear Hin]).
    all: param_unfold; unfold codes_of, IS_NULL, IS_FALSE, IS_TRUE, IS_LONG, IS_DOUBLE, IS_STRING, IS_ARRAY, IS_OBJECT,
      IS_RESOURCE; simpl.
    all: repeat match goal with H : (zval_get_type _ =? _) = false |- _ => rewrite H; clear H end; simpl.
    all: first [done|by slow_cases].
Qed.

(** *** Paths *)

Lemma strlen_bytes bs rest :
  ∃ n, strlen ((Some <$> bs) ++ Some NUL :: rest) = Some n ∧
       (n = Z.of_nat (length bs) ↔ NUL ∉ bs) ∧ n <= Z.of_nat (length bs).
Proof.
  induction bs as [|b bs (n&Hn&Hi&Hb)].
  { exists 0. simpl. split_and!; [done| |done]. split; [intros _; apply not_elem_of_nil|done]. }
  rewrite fmap_cons. cbn [app strlen]. case_decide as Hd.
  - exists 0. split_and!; [done| |lia]. split; [simpl; lia|]. intros H. destruct H. subst. by left.
  - rewrite Hn. exists (n + 1). split_and!; [done| |simpl; lia]. rewrite not_elem_of_cons.
    split; [intros; split; [by apply not_eq_sym|apply Hi; simpl in *; lia]|intros [_ ?%Hi]; simpl; lia].
Qed.

(** A path parameter is refused when the string contains a NUL byte; one that
    is accepted is read by C as the whole string. *)
Theorem path_without_nul z s o bs null i h :
  zval_get_type z = IS_STRING → Z_COUNTED z = Some s → h !! s = Some o → zstr_ok bs o →
  (NUL ∈ bs → zend_parse_arg_path_str z null i h = Refused ∧ zend_parse_arg_path z null i h = Refused) ∧
  (NUL ∉ bs → zend_parse_arg_path_str z null i h = Accepted (Some s) ∧
     ∃ val, zend_parse_arg_path z null i h = Accepted (Some val, Z.of_nat (length bs)) ∧
            strlen val = Some (Z.of_nat (length bs)) ∧ read_bytes (length bs) val = Some bs).
Proof.
  intros Ht Hs Ho Hok. apply zstr_ok_val in Hok as (hh&rest&Hb).
  destruct (strlen_bytes bs rest) as (n&Hn&Hi&Hle).
  set (val := (Some <$> bs) ++ Some NUL :: rest) in *.
  assert (Hc : str_chars s h = Accepted (val, Z.of_nat (length bs))).
  { unfold str_chars, as_string. rewrite Ho. simpl. by rewrite Hb. }
  assert (Hp : zend_parse_arg_path_str z null i h
               = if Z.of_nat (length bs) =? n then Accepted (Some s) else Refused).
  { unfold zend_parse_arg_path_str, zend_parse_arg_str, zend_parse_arg_str_ex, is_type.
    rewrite Ht, Hs. simpl. unfold zend_str_has_nul_byte. rewrite Hc. simpl. rewrite Hn. simpl.
    by destruct (_ =? _). }
  unfold zend_parse_arg_path. rewrite Hp. split; intros Hin.
  - rewrite (proj2 (Z.eqb_neq _ _)); [done|]. intros E. symmetry in E. by apply Hi in E.
  - apply Hi in Hin as ->. rewrite Z.eqb_refl. split; [done|]. exists val. simpl. rewrite Hc.
    split_and!; [done..|]. by apply read_bytes_ok.
Qed.

End fast.
