(* ===== verification/ZendBitset.v ===== *)
(** * Bit sets (Zend/zend_bitset.h)

    Sets of small integers as arrays of 64-bit words: the word operations with
    their portable bit counts, the set operations, the searches and the iteration
    macros, against membership in the set of numbers an array stands for. *)

From Stdlib Require Import Sorted.
From S2P Require Import Prelude.

(** ** Operations *)
Module Bitset.

(** [ZEND_BITSET_ELM_SIZE] is eight bytes. *)
Abbreviation zend_bitset := (list Z).

Definition ZEND_BITSET_ELM_NUM (n : Z) : Z := Z.shiftr n 6.
Definition ZEND_BITSET_BIT_NUM (n : Z) : Z := Z.land n 0x3f.

(** [~x] on a [zend_ulong]. *)
Definition ulong_not (x : Z) : Z := u64 (Z.lnot x).

(** One test of the portable [zend_ulong_ntz]: when the low [k] bits are clear,
    count and drop them. *)
Definition ntz_step (k : Z) (s : Z * Z) : Z * Z :=
  let '(n, num) := s in
  if Z.land num (Z.ones k) =? 0 then (n + k, Z.shiftr num k) else (n, num).
Definition zend_ulong_ntz (num : Z) : Z :=
  if num =? 0 then 64
  else
    let '(n, num) := ntz_step 2 (ntz_step 4 (ntz_step 8 (ntz_step 16 (ntz_step 32 (1, num))))) in
    n - Z.land num 1.

(** One test of the portable [zend_ulong_nlz]. *)
Definition nlz_step (k : Z) (s : Z * Z) : Z * Z :=
  let '(n, num) := s in
  let x := Z.shiftr num k in
  if negb (x =? 0) then (n - k, x) else (n, num).
Definition zend_ulong_nlz (num : Z) : Z :=
  let '(n, num) := nlz_step 2 (nlz_step 4 (nlz_step 8 (nlz_step 16 (nlz_step 32 (64, num))))) in
  if negb (Z.shiftr num 1 =? 0) then n - 2 else n - num.

(** The sum is computed in [size_t]. *)
Definition zend_bitset_len (n : Z) : Z := u32 ((n + (8 * 8 - 1)) / (8 * 8)).

Definition word (set : zend_bitset) (i : Z) : option Z := set !! Z.to_nat i.
Definition set_word (set : zend_bitset) (i : Z) (w : Z) : option zend_bitset :=
  if decide (Z.to_nat i < length set)%nat then Some (<[Z.to_nat i := w]> set) else None.

(** [ZEND_BIT_TEST] (Zend/zend_portability.h) on words of eight bytes. *)
Definition ZEND_BIT_TEST (bits : zend_bitset) (bit : Z) : option bool :=
  w ← word bits (bit / (8 * 8));
  Some (negb (Z.land (Z.shiftr w (Z.land bit (8 * 8 - 1))) 1 =? 0)).

Definition zend_bitset_in (set : zend_bitset) (n : Z) : option bool := ZEND_BIT_TEST set n.
Definition zend_bitset_incl (set : zend_bitset) (n : Z) : option zend_bitset :=
  w ← word set (ZEND_BITSET_ELM_NUM n);
  set_word set (ZEND_BITSET_ELM_NUM n) (Z.lor w (Z.shiftl 1 (ZEND_BITSET_BIT_NUM n))).
Definition zend_bitset_excl (set : zend_bitset) (n : Z) : option zend_bitset :=
  w ← word set (ZEND_BITSET_ELM_NUM n);
  set_word set (ZEND_BITSET_ELM_NUM n) (Z.land w (ulong_not (Z.shiftl 1 (ZEND_BITSET_BIT_NUM n)))).

(** [memset], [memcpy] and [memcmp] on the first [len] words. *)
Definition fill_words (set : zend_bitset) (len : nat) (w : Z) : option zend_bitset :=
  if decide (len ≤ length set)%nat then Some (replicate len w ++ drop len set) else None.
Definition zend_bitset_clear (set : zend_bitset) (len : nat) : option zend_bitset := fill_words set len 0.
Definition zend_bitset_fill (set : zend_bitset) (len : nat) : option zend_bitset :=
  fill_words set len 0xffffffffffffffff.
Definition zend_bitset_equal (set1 set2 : zend_bitset) (len : nat) : option bool :=
  if decide (len ≤ length set1 ∧ len ≤ length set2)%nat
  then Some (bool_decide (take len set1 = take len set2)) else None.
Definition zend_bitset_copy (set1 set2 : zend_bitset) (len : nat) : option zend_bitset :=
  if decide (len ≤ length set1 ∧ len ≤ length set2)%nat
  then Some (take len set2 ++ drop len set1) else None.

(** [for (i...) if (...) return 0; return 1;] from [i] on, [n] turns left. *)
Fixpoint all_words (f : nat → option bool) (i n : nat) : option bool :=
  match n with
  | O => Some true
  | S n => b ← f i; if (b : bool) then all_words f (S i) n else Some false
  end.
Definition zend_bitset_empty (set : zend_bitset) (len : nat) : option bool :=
  all_words (λ i, w ← set !! i; Some (w =? 0)) 0 len.
Definition zend_bitset_subset (set1 set2 : zend_bitset) (len : nat) : option bool :=
  all_words (λ i, a ← set1 !! i; b ← set2 !! i; Some (Z.land a (ulong_not b) =? 0)) 0 len.

(** [for (i...) set1[i] = ...;] from [i] on, [n] turns left. *)
Fixpoint map_words (f : nat → Z → option Z) (i n : nat) (set1 : zend_bitset) : option zend_bitset :=
  match n with
  | O => Some set1
  | S n => a ← set1 !! i; w ← f i a; map_words f (S i) n (<[i := w]> set1)
  end.
Definition zend_bitset_intersection (set1 set2 : zend_bitset) (len : nat) : option zend_bitset :=
  map_words (λ i a, b ← set2 !! i; Some (Z.land a b)) 0 len set1.
Definition zend_bitset_union (set1 set2 : zend_bitset) (len : nat) : option zend_bitset :=
  map_words (λ i a, b ← set2 !! i; Some (Z.lor a b)) 0 len set1.
Definition zend_bitset_difference (set1 set2 : zend_bitset) (len : nat) : option zend_bitset :=
  map_words (λ i a, b ← set2 !! i; Some (Z.land a (ulong_not b))) 0 len set1.
Definition zend_bitset_union_with_intersection (set1 set2 set3 set4 : zend_bitset) (len : nat)
    : option zend_bitset :=
  map_words (λ i _, b ← set2 !! i; c ← set3 !! i; d ← set4 !! i; Some (Z.lor b (Z.land c d))) 0 len set1.
Definition zend_bitset_union_with_difference (set1 set2 set3 set4 : zend_bitset) (len : nat)
    : option zend_bitset :=
  map_words (λ i _, b ← set2 !! i; c ← set3 !! i; d ← set4 !! i; Some (Z.lor b (Z.land c (ulong_not d)))) 0 len set1.

(** Searches; the results are [int]. *)
Fixpoint first_loop (set : zend_bitset) (i n : nat) : option Z :=
  match n with
  | O => Some (-1)
  | S n => w ← set !! i;
           if negb (w =? 0) then Some (s32 (u64 (8 * 8 * Z.of_nat i + zend_ulong_ntz w)))
           else first_loop set (S i) n
  end.
Definition zend_bitset_first (set : zend_bitset) (len : nat) : option Z := first_loop set 0 len.

(** [while (x != 0) { x = x >> 1; j++; }]; a word is empty after 64 turns. *)
Fixpoint shift_out (fuel : nat) (x j : Z) : option Z :=
  if x =? 0 then Some j
  else match fuel with O => None | S fuel => shift_out fuel (Z.shiftr x 1) (j + 1) end.
Fixpoint last_loop (set : zend_bitset) (i : nat) : option Z :=
  match i with
  | O => Some (-1)
  | S i => w ← set !! i;
           if negb (w =? 0) then shift_out 64 w (s32 (u64 (8 * 8 * Z.of_nat i - 1)))
           else last_loop set i
  end.
Definition zend_bitset_last (set : zend_bitset) (len : nat) : option Z := last_loop set len.

Definition zend_bitset_pop_first (set : zend_bitset) (len : nat) : option (Z * zend_bitset) :=
  i ← zend_bitset_first set len;
  if 0 <=? i then set' ← zend_bitset_excl set i; Some (i, set') else Some (i, set).

(** The numbers [ZEND_BITSET_FOREACH] runs its body for, in order; a word is empty
    after 64 turns of the inner loop. *)
Fixpoint bits_up (fuel : nat) (x bit : Z) : option (list Z) :=
  if x =? 0 then Some []
  else match fuel with
  | O => None
  | S fuel => r ← bits_up fuel (Z.shiftr x 1) (bit + 1);
              Some (if Z.land x 1 =? 0 then r else bit :: r)
  end.
Fixpoint foreach_loop (set : zend_bitset) (i n : nat) : option (list Z) :=
  match n with
  | O => Some []
  | S n => x ← set !! i;
           l ← (if negb (x =? 0) then bits_up 64 x (8 * 8 * Z.of_nat i) else Some []);
           r ← foreach_loop set (S i) n; Some (l ++ r)
  end.
Definition ZEND_BITSET_FOREACH (set : zend_bitset) (len : nat) : option (list Z) := foreach_loop set 0 len.

Fixpoint bits_down (fuel : nat) (x bit : Z) : option (list Z) :=
  if x =? 0 then Some []
  else match fuel with
  | O => None
  | S fuel => r ← bits_down fuel (u64 (Z.shiftl x 1)) (bit - 1);
              Some (if Z.land x (Z.shiftl 1 63) =? 0 then r else bit :: r)
  end.
Fixpoint reverse_foreach_loop (set : zend_bitset) (i : nat) : option (list Z) :=
  match i with
  | O => Some []
  | S i => x ← set !! i;
           l ← (if negb (x =? 0) then bits_down 64 x (8 * 8 * (Z.of_nat i + 1) - 1) else Some []);
           r ← reverse_foreach_loop set i; Some (l ++ r)
  end.
Definition ZEND_BITSET_REVERSE_FOREACH (set : zend_bitset) (len : nat) : option (list Z) :=
  reverse_foreach_loop set len.

End Bitset.
Import Bitset.

(** ** Theorems *)

(** *** Counting zeros *)

(** [t] is the lowest bit set. *)
Definition lowest (num t : Z) : Prop :=
  0 <= t ∧ Z.testbit num t = true ∧ ∀ i, 0 <= i < t → Z.testbit num i = false.

Lemma low_bits_clear num t k : lowest num t → 0 <= k → (Z.land num (Z.ones k) =? 0) = (k <=? t).
Proof.
  intros (Ht&Hb&Hl) Hk. destruct (Z.leb_spec k t).
  - apply Z.eqb_eq, Z.bits_inj'. intros i Hi. rewrite Z.land_spec, testbit_ones_if, Z.testbit_0_l by lia.
    destruct (Z.ltb_spec i k); [|by rewrite andb_false_r]. by rewrite Hl by lia.
  - apply Z.eqb_neq. intros H0. apply (f_equal (λ x, Z.testbit x t)) in H0.
    rewrite Z.land_spec, testbit_ones_if, Hb, Z.testbit_0_l in H0 by lia.
    by rewrite (proj2 (Z.ltb_lt t k)) in H0 by lia.
Qed.

Lemma ntz_step_lowest k n num t :
  0 < k → lowest num t → t < 2 * k →
  ∃ n' num' t', ntz_step k (n, num) = (n', num') ∧ lowest num' t' ∧ t' < k ∧ n' + t' = n + t.
Proof.
  intros Hk Hl Ht. pose proof Hl as (H0&Hb&Hlow). unfold ntz_step.
  rewrite (low_bits_clear num t k Hl) by lia. destruct (Z.leb_spec k t).
  - exists (n + k), (Z.shiftr num k), (t - k). split; [done|]. split; [|lia]. split; [lia|].
    rewrite Z.shiftr_spec by lia. split; [by rewrite Z.sub_add|].
    intros i Hi. rewrite Z.shiftr_spec by lia. apply Hlow. lia.
  - exists n, num, t. split; [done|]. split; [done|lia].
Qed.

Lemma lowest_exists (n : nat) num : 0 < num < 2 ^ Z.of_nat n → ∃ t, lowest num t ∧ t < Z.of_nat n.
Proof.
  revert num. induction n as [|n IH]; intros num Hn; [simpl in Hn; lia|].
  destruct (Z.testbit num 0) eqn:H0.
  { exists 0. split; [|lia]. split; [lia|]. split; [done|]. intros i Hi. lia. }
  rewrite Nat2Z.inj_succ, Z.pow_succ_r in Hn by lia.
  rewrite Z.bit0_odd, <- Z.negb_even in H0. apply negb_false_iff, Z.even_spec in H0 as [m ->].
  destruct (IH m) as (t&(Ht&Hb&Hl)&Hlt); [lia|]. exists (t + 1). split; [|lia]. split; [lia|].
  split.
  - by rewrite Z.add_1_r, Z.double_bits_succ.
  - intros i Hi. destruct (decide (i = 0)) as [->|]; [apply Z.testbit_even_0|].
    replace i with (Z.succ (i - 1)) by lia. rewrite Z.double_bits_succ. apply Hl. lia.
Qed.

Lemma zend_ulong_ntz_lowest num : 0 < num < 2 ^ 64 → lowest num (zend_ulong_ntz num) ∧ zend_ulong_ntz num < 64.
Proof.
  intros Hn. destruct (lowest_exists 64 num Hn) as (t&Hl&Ht). unfold zend_ulong_ntz.
  rewrite (proj2 (Z.eqb_neq num 0)) by lia.
  destruct (ntz_step_lowest 32 1 num t) as (n1&m1&t1&->&Hl1&Ht1&He1); [lia|done|lia|].
  destruct (ntz_step_lowest 16 n1 m1 t1) as (n2&m2&t2&->&Hl2&Ht2&He2); [lia|done|lia|].
  destruct (ntz_step_lowest 8 n2 m2 t2) as (n3&m3&t3&->&Hl3&Ht3&He3); [lia|done|lia|].
  destruct (ntz_step_lowest 4 n3 m3 t3) as (n4&m4&t4&->&Hl4&Ht4&He4); [lia|done|lia|].
  destruct (ntz_step_lowest 2 n4 m4 t4) as (n5&m5&t5&->&Hl5&Ht5&He5); [lia|done|lia|].
  assert (Hlast : Z.land m5 1 = 1 - t5).
  { change 1 with (Z.ones 1) at 1. rewrite Z.land_ones, <- Z.bit0_mod by lia. destruct Hl5 as (H0&Hb&Hlow).
    destruct (decide (t5 = 0)) as [->|]; [by rewrite Hb|]. rewrite Hlow by lia. simpl. lia. }
  rewrite Hlast. replace (n5 - (1 - t5)) with t by lia. done.
Qed.

Lemma nlz_step_log2 k n num :
  0 < k → 0 < num < 2 ^ (2 * k) →
  ∃ n' num', nlz_step k (n, num) = (n', num') ∧ 0 < num' < 2 ^ k ∧ n' - Z.log2 num' = n - Z.log2 num.
Proof.
  intros Hk Hn. unfold nlz_step. rewrite Z.shiftr_div_pow2 by lia.
  assert (Hp : 2 ^ (2 * k) = 2 ^ k * 2 ^ k) by (rewrite <- Z.pow_add_r by lia; f_equal; lia).
  assert (0 < 2 ^ k) by (apply Z.pow_pos_nonneg; lia).
  destruct (Z.eqb_spec (num / 2 ^ k) 0) as [H0|H0]; simpl.
  - exists n, num. split; [done|]. split; [|done]. apply Z.div_small_iff in H0; [lia|lia].
  - exists (n - k), (num / 2 ^ k). split; [done|]. pose proof (Z.div_pos num (2 ^ k)).
    split; [split; [lia|apply Z.div_lt_upper_bound; lia]|].
    rewrite <- Z.shiftr_div_pow2, Z.log2_shiftr by lia.
    assert (k <= Z.log2 num); [|lia]. apply Z.log2_le_pow2; [lia|].
    destruct (Z.le_gt_cases (2 ^ k) num); [done|]. by rewrite Z.div_small in H0 by lia.
Qed.

Lemma zend_ulong_nlz_log2 num : 0 < num < 2 ^ 64 → zend_ulong_nlz num = 63 - Z.log2 num.
Proof.
  intros Hn. unfold zend_ulong_nlz.
  destruct (nlz_step_log2 32 64 num) as (n1&m1&->&H1&E1); [lia|done|].
  destruct (nlz_step_log2 16 n1 m1) as (n2&m2&->&H2&E2); [lia|done|].
  destruct (nlz_step_log2 8 n2 m2) as (n3&m3&->&H3&E3); [lia|done|].
  destruct (nlz_step_log2 4 n3 m3) as (n4&m4&->&H4&E4); [lia|done|].
  destruct (nlz_step_log2 2 n4 m4) as (n5&m5&->&H5&E5); [lia|done|].
  assert (m5 = 1 ∨ m5 = 2 ∨ m5 = 3) as [-> | [-> | ->]] by lia; simpl in *; lia.
Qed.

(** *** The numbers an array stands for *)

Definition wf_set (set : zend_bitset) : Prop := Forall in_u64 set.
Definition member (set : zend_bitset) (n : Z) : bool :=
  Z.testbit (default 0 (set !! Z.to_nat (n / 64))) (n mod 64).

Lemma bit_num n : ZEND_BITSET_BIT_NUM n = n mod 64.
Proof. unfold ZEND_BITSET_BIT_NUM. change 0x3f with (Z.ones 6). by rewrite Z.land_ones. Qed.
Lemma elm_num n : ZEND_BITSET_ELM_NUM n = n / 64.
Proof. unfold ZEND_BITSET_ELM_NUM. by rewrite Z.shiftr_div_pow2. Qed.

Lemma index_split n : 0 <= n → 0 <= n / 64 ∧ 0 <= n mod 64 < 64 ∧ n = 64 * (n / 64) + n mod 64.
Proof.
  intros. pose proof (Z.div_pos n 64). pose proof (Z.mod_pos_bound n 64). pose proof (Z.div_mod n 64). lia.
Qed.

Lemma word_of (set : zend_bitset) n :
  wf_set set → 0 <= n < 64 * Z.of_nat (length set) → ∃ w, set !! Z.to_nat (n / 64) = Some w ∧ in_u64 w.
Proof.
  intros Hw Hn. destruct (index_split n) as (H1&H2&H3); [lia|].
  destruct (lookup_lt_is_Some_2 set (Z.to_nat (n / 64))) as [w Hl]; [lia|]. exists w. split; [done|].
  by eapply Forall_lookup_1 in Hw.
Qed.

Lemma land_in_u64 a b : in_u64 a → 0 <= b → in_u64 (Z.land a b).
Proof.
  unfold in_u64. intros Ha Hb. rewrite Z.land_comm. pose proof (land_le_r b a).
  assert (0 <= Z.land b a) by (apply Z.land_nonneg; lia). lia.
Qed.
Lemma lor_in_u64 a b : in_u64 a → in_u64 b → in_u64 (Z.lor a b).
Proof. intros. by apply (lor_lt_pow2 64). Qed.
Lemma ulong_not_in_u64 b : in_u64 (ulong_not b).
Proof. apply u64_range. Qed.
Lemma ulong_not_bit b i : 0 <= i < 64 → Z.testbit (ulong_not b) i = negb (Z.testbit b i).
Proof. intros. unfold ulong_not, u64. by rewrite Z.mod_pow2_bits_low, Z.lnot_spec by lia. Qed.
Lemma bit_in_u64 k : 0 <= k < 64 → in_u64 (Z.shiftl 1 k).
Proof.
  intros. rewrite Z.shiftl_1_l. split; [apply Z.pow_nonneg; lia|apply Z.pow_lt_mono_r; lia].
Qed.
Lemma one_bit k i : 0 <= k → 0 <= i → Z.testbit (Z.shiftl 1 k) i = (i =? k).
Proof.
  intros. rewrite Z.shiftl_1_l. destruct (Z.eqb_spec i k) as [->|]; [by apply Z.pow2_bits_true|].
  apply Z.pow2_bits_false. lia.
Qed.

(** Writing one word changes the members it stands for. *)
Lemma member_insert set n w m :
  0 <= n < 64 * Z.of_nat (length set) → 0 <= m →
  member (<[Z.to_nat (n / 64) := w]> set) m
  = if m / 64 =? n / 64 then Z.testbit w (m mod 64) else member set m.
Proof.
  intros Hn Hm. unfold member. destruct (index_split n) as (H1&H2&H3); [lia|].
  destruct (index_split m) as (H4&H5&H6); [lia|]. destruct (Z.eqb_spec (m / 64) (n / 64)) as [He|He].
  - rewrite He, list_lookup_insert_eq by lia. done.
  - rewrite list_lookup_insert_ne by lia. done.
Qed.

Lemma same_number m n : 0 <= m → 0 <= n → (m / 64 =? n / 64) && (m mod 64 =? n mod 64) = (m =? n).
Proof.
  intros Hm Hn. destruct (index_split m) as (?&?&E1); [lia|]. destruct (index_split n) as (?&?&E2); [lia|].
  destruct (Z.eqb_spec m n) as [->|Hne]; [by rewrite !Z.eqb_refl|].
  apply andb_false_iff. destruct (Z.eqb_spec (m / 64) (n / 64)) as [He|]; [right|by left].
  apply Z.eqb_neq. intros Hx. apply Hne. rewrite E1, E2, He, Hx. done.
Qed.

(** The element operations on the set. *)
Definition updated (set s : zend_bitset) (p : Z → bool) : Prop :=
  wf_set s ∧ length s = length set ∧ ∀ m, 0 <= m → member s m = p m.

Lemma bitset_elements set n :
  wf_set set → 0 <= n < 64 * Z.of_nat (length set) →
  zend_bitset_in set n = Some (member set n) ∧
  (∃ s, zend_bitset_incl set n = Some s ∧ updated set s (λ m, (m =? n) || member set m)) ∧
  (∃ s, zend_bitset_excl set n = Some s ∧ updated set s (λ m, negb (m =? n) && member set m)).
Proof.
  intros Hw Hn. destruct (word_of set n Hw Hn) as (w&Hl&Hb). destruct (index_split n) as (H1&H2&H3); [lia|].
  assert (Hset : ∀ v, set_word set (n / 64) v = Some (<[Z.to_nat (n / 64) := v]> set)).
  { intros v. unfold set_word. rewrite decide_True; [done|]. by apply lookup_lt_Some in Hl. }
  assert (Hup : ∀ v p, in_u64 v → (∀ m, 0 <= m → (if m / 64 =? n / 64 then Z.testbit v (m mod 64) else member set m) = p m) →
    updated set (<[Z.to_nat (n / 64) := v]> set) p).
  { intros v p Hv Hp. split; [by apply Forall_insert|]. split; [by rewrite length_insert|].
    intros m Hm. rewrite member_insert by lia. by apply Hp. }
  assert (Hword : ∀ m, m / 64 = n / 64 → member set m = Z.testbit w (m mod 64)).
  { intros m Hm. unfold member. by rewrite Hm, Hl. }
  split_and!.
  - unfold zend_bitset_in, ZEND_BIT_TEST, word. change (8 * 8) with 64. rewrite Hl. simpl. f_equal.
    change (64 - 1) with (Z.ones 6). change 1 with (Z.ones 1) at 1.
    rewrite !Z.land_ones by lia. change (2 ^ 6) with 64. change (2 ^ 1) with 2.
    rewrite Hword, Z.testbit_odd, <- Z.bit0_odd by done.
    rewrite <- Z.bit0_mod. by destruct (Z.testbit _ 0).
  - unfold zend_bitset_incl, word. rewrite elm_num, bit_num, Hl. simpl. rewrite Hset. eexists. split; [done|].
    apply Hup; [apply lor_in_u64; [done|by apply bit_in_u64]|]. intros m Hm.
    destruct (index_split m) as (?&?&?); [lia|]. rewrite <- (same_number m n) by lia.
    destruct (Z.eqb_spec (m / 64) (n / 64)) as [He|]; [|done].
    rewrite Z.lor_spec, one_bit, (Hword m He) by lia. simpl. apply orb_comm.
  - unfold zend_bitset_excl, word. rewrite elm_num, bit_num, Hl. simpl. rewrite Hset. eexists. split; [done|].
    apply Hup; [apply land_in_u64; [done|apply ulong_not_in_u64]|]. intros m Hm.
    destruct (index_split m) as (?&?&?); [lia|]. rewrite <- (same_number m n) by lia.
    destruct (Z.eqb_spec (m / 64) (n / 64)) as [He|]; [|done].
    rewrite Z.land_spec, ulong_not_bit, one_bit, (Hword m He) by lia. simpl. apply andb_comm.
Qed.

(** *** Set algebra *)

Lemma map_words_spec f i n set :
  (∀ j, (i ≤ j < i + n)%nat → ∃ a w, set !! j = Some a ∧ f j a = Some w) →
  ∃ r, map_words f i n set = Some r ∧ length r = length set ∧
    ∀ j, r !! j = if decide (i ≤ j < i + n)%nat then set !! j ≫= f j else set !! j.
Proof.
  revert i set. induction n as [|n IH]; intros i set Hf; simpl.
  { exists set. split; [done|]. split; [done|]. intros j. by rewrite decide_False by lia. }
  destruct (Hf i) as (a&w&Ha&Hw); [lia|]. rewrite Ha. simpl. rewrite Hw. simpl.
  destruct (IH (S i) (<[i := w]> set)) as (r&Hr&Hlen&Hlk).
  { intros j Hj. rewrite list_lookup_insert_ne by lia. apply Hf. lia. }
  exists r. split; [done|]. split; [by rewrite Hlen, length_insert|]. intros j. rewrite Hlk.
  destruct (decide (j = i)) as [->|].
  - rewrite decide_False, decide_True by lia. rewrite list_lookup_insert_eq by by apply lookup_lt_Some in Ha.
    by rewrite Ha.
  - rewrite list_lookup_insert_ne by done.
    destruct (decide (S i ≤ j < S i + n)%nat); [rewrite decide_True by lia|rewrite decide_False by lia]; done.
Qed.

(** The first [len] words are those of an operation on sets, the others are kept. *)
Definition combined (len : nat) (set s : zend_bitset) (p : Z → bool) : Prop :=
  updated set s (λ m, if m <? 64 * Z.of_nat len then p m else member set m).

Lemma combined_words len set s (p : Z → bool) (g : nat → Z) :
  wf_set set → length s = length set → (len ≤ length set)%nat →
  (∀ j, s !! j = if decide (j < len)%nat then Some (g j) else set !! j) →
  (∀ j, (j < len)%nat → in_u64 (g j) ∧ ∀ b, 0 <= b < 64 → Z.testbit (g j) b = p (64 * Z.of_nat j + b)) →
  combined len set s p.
Proof.
  intros Hw Hlen Hle Hs Hg. split; [|split; [done|]].
  - apply Forall_lookup_2. intros j w Hj. rewrite Hs in Hj. case_decide as Hd.
    + simplify_eq. by apply Hg.
    + by eapply Forall_lookup_1 in Hj.
  - intros m Hm. destruct (index_split m) as (H1&H2&H3); [lia|]. unfold member. rewrite Hs.
    destruct (Z.ltb_spec m (64 * Z.of_nat len)).
    + rewrite decide_True by lia. simpl. destruct (Hg (Z.to_nat (m / 64))) as [_ Hb]; [lia|].
      rewrite Hb by lia. f_equal. lia.
    + by rewrite decide_False by lia.
Qed.

Lemma word_at (set : zend_bitset) len j :
  wf_set set → (len ≤ length set)%nat → (j < len)%nat →
  ∃ w, set !! j = Some w ∧ in_u64 w ∧ ∀ b, 0 <= b < 64 → Z.testbit w b = member set (64 * Z.of_nat j + b).
Proof.
  intros Hw Hl Hj. destruct (lookup_lt_is_Some_2 set j) as [w Hlk]; [lia|]. exists w. split; [done|].
  split; [by eapply Forall_lookup_1 in Hw|]. intros b Hb. unfold member.
  rewrite (Z.add_comm (64 * _)), (Z.mul_comm 64), Z.div_add, Z.div_small, Z.mod_add, Z.mod_small by lia.
  by rewrite Z.add_0_l, Nat2Z.id, Hlk.
Qed.

(** Loops that write [g] of the words at an index. *)
Lemma map_words_combined len set1 (f : nat → Z → option Z) p :
  wf_set set1 → (len ≤ length set1)%nat →
  (∀ j a, (j < len)%nat → in_u64 a → (∀ b, 0 <= b < 64 → Z.testbit a b = member set1 (64 * Z.of_nat j + b)) →
     ∃ w, f j a = Some w ∧ in_u64 w ∧ ∀ b, 0 <= b < 64 → Z.testbit w b = p (64 * Z.of_nat j + b)) →
  ∃ s, map_words f 0 len set1 = Some s ∧ combined len set1 s p.
Proof.
  intros Hw Hl Hf.
  assert (Hall : ∀ j, (j < len)%nat → ∃ a w, set1 !! j = Some a ∧ f j a = Some w ∧ in_u64 w ∧
     ∀ b, 0 <= b < 64 → Z.testbit w b = p (64 * Z.of_nat j + b)).
  { intros j Hj. destruct (word_at set1 len j) as (a&Ha&Hua&Hba); [done..|].
    destruct (Hf j a Hj Hua Hba) as (w&?&?&?). eauto 7. }
  destruct (map_words_spec f 0 len set1) as (s&Hs&Hlen&Hlk).
  { intros j Hj. destruct (Hall j) as (a&w&?&?&_); [lia|]. eauto. }
  exists s. split; [done|].
  apply (combined_words len set1 s p (λ j, default 0 (set1 !! j ≫= f j))); [done..| |].
  - intros j. rewrite Hlk. case_decide; [rewrite decide_True by lia|by rewrite decide_False by lia].
    destruct (Hall j) as (a&w&Ha&Hfw&_); [lia|]. rewrite Ha. simpl. by rewrite Hfw.
  - intros j Hj. destruct (Hall j Hj) as (a&w&Ha&Hfw&?&?). rewrite Ha. simpl. by rewrite Hfw.
Qed.

Lemma fill_words_combined len set w (v : bool) :
  wf_set set → (len ≤ length set)%nat → in_u64 w → (∀ b, 0 <= b < 64 → Z.testbit w b = v) →
  ∃ s, fill_words set len w = Some s ∧ combined len set s (λ _, v).
Proof.
  intros Hw Hl Hu Hb. unfold fill_words. rewrite decide_True by done. eexists. split; [done|].
  apply (combined_words len set _ _ (λ _, w)); [done| |done| |by intros].
  - rewrite length_app, length_replicate, length_drop. lia.
  - intros j. case_decide.
    + by rewrite lookup_app_l, lookup_replicate_2 by (rewrite ?length_replicate; lia).
    + rewrite lookup_app_r, length_replicate, lookup_drop by (rewrite length_replicate; lia). f_equal. lia.
Qed.

(** On bit sets as sets of numbers, clear, fill, copy, intersection, union,
    difference and the two combined operations compute the set operation on the
    first len words, keep the others, and stay in bounds. *)
Theorem bitset_algebra set1 set2 set3 set4 (len : nat) :
  wf_set set1 → wf_set set2 → wf_set set3 → wf_set set4 →
  (len ≤ length set1 ∧ len ≤ length set2 ∧ len ≤ length set3 ∧ len ≤ length set4)%nat →
  Forall (λ '(result, p), ∃ s, result = Some s ∧ combined len set1 s p)
    [(zend_bitset_clear set1 len, λ _, false);
     (zend_bitset_fill set1 len, λ _, true);
     (zend_bitset_copy set1 set2 len, member set2);
     (zend_bitset_intersection set1 set2 len, λ m, member set1 m && member set2 m);
     (zend_bitset_union set1 set2 len, λ m, member set1 m || member set2 m);
     (zend_bitset_difference set1 set2 len, λ m, member set1 m && negb (member set2 m));
     (zend_bitset_union_with_intersection set1 set2 set3 set4 len,
        λ m, member set2 m || member set3 m && member set4 m);
     (zend_bitset_union_with_difference set1 set2 set3 set4 len,
        λ m, member set2 m || member set3 m && negb (member set4 m))].
Proof.
  intros H1 H2 H3 H4 (L1&L2&L3&L4).
  repeat apply Forall_cons_2; [..|apply Forall_nil_2]; cbn beta.
  - apply fill_words_combined; [done..|]. intros. apply Z.testbit_0_l.
  - apply fill_words_combined; [done..|]. intros. change 0xffffffffffffffff with (Z.ones 64).
    rewrite testbit_ones_if by lia. lia.
  - unfold zend_bitset_copy. rewrite decide_True by done. eexists. split; [done|].
    apply (combined_words len set1 _ _ (λ j, default 0 (set2 !! j))); [done| |done|..].
    + rewrite length_app, length_take, length_drop. lia.
    + intros j. case_decide.
      * rewrite lookup_app_l, lookup_take_lt by (rewrite ?length_take; lia).
        by destruct (word_at set2 len j) as (w&->&_).
      * rewrite lookup_app_r, length_take, lookup_drop by (rewrite length_take; lia). f_equal. lia.
    + intros j Hj. by destruct (word_at set2 len j) as (w&->&?&?).
  - apply map_words_combined; [done..|]. intros j a Hj Ha Hba.
    destruct (word_at set2 len j) as (b&->&Hb&Hbb); [done..|]. eexists. split; [done|].
    split; [apply land_in_u64; [done|apply Hb]|]. intros. by rewrite Z.land_spec, Hba, Hbb.
  - apply map_words_combined; [done..|]. intros j a Hj Ha Hba.
    destruct (word_at set2 len j) as (b&->&Hb&Hbb); [done..|]. eexists. split; [done|].
    split; [by apply lor_in_u64|]. intros. by rewrite Z.lor_spec, Hba, Hbb.
  - apply map_words_combined; [done..|]. intros j a Hj Ha Hba.
    destruct (word_at set2 len j) as (b&->&Hb&Hbb); [done..|]. eexists. split; [done|].
    split; [apply land_in_u64; [done|apply ulong_not_in_u64]|].
    intros. by rewrite Z.land_spec, ulong_not_bit, Hba, Hbb.
  - apply map_words_combined; [done..|]. intros j a Hj _ _.
    destruct (word_at set2 len j) as (b&->&Hb&Hbb); [done..|]. simpl.
    destruct (word_at set3 len j) as (c&->&Hc&Hbc); [done..|]. simpl.
    destruct (word_at set4 len j) as (d&->&Hd&Hbd); [done..|]. eexists. split; [done|].
    split; [apply lor_in_u64; [done|]; apply land_in_u64; [done|apply Hd]|].
    intros. by rewrite Z.lor_spec, Z.land_spec, Hbb, Hbc, Hbd.
  - apply map_words_combined; [done..|]. intros j a Hj _ _.
    destruct (word_at set2 len j) as (b&->&Hb&Hbb); [done..|]. simpl.
    destruct (word_at set3 len j) as (c&->&Hc&Hbc); [done..|]. simpl.
    destruct (word_at set4 len j) as (d&->&Hd&Hbd); [done..|]. eexists. split; [done|].
    split; [apply lor_in_u64; [done|]; apply land_in_u64; [done|apply ulong_not_in_u64]|].
    intros. by rewrite Z.lor_spec, Z.land_spec, ulong_not_bit, Hbb, Hbc, Hbd.
Qed.

(** *** Tests *)

Lemma all_words_spec f i n :
  (∀ j, (i ≤ j < i + n)%nat → is_Some (f j)) →
  ∃ b, all_words f i n = Some b ∧ (b = true ↔ ∀ j, (i ≤ j < i + n)%nat → f j = Some true).
Proof.
  revert i. induction n as [|n IH]; intros i Hf; simpl.
  { exists true. split; [done|]. split; [intros _ j Hj; lia|done]. }
  destruct (Hf i) as [[|] Hb]; [lia| |]; rewrite Hb; simpl.
  - destruct (IH (S i)) as (b&Hr&Hi); [intros j Hj; apply Hf; lia|]. exists b. split; [done|]. rewrite Hi.
    split; intros H j Hj; [|apply H; lia]. destruct (decide (j = i)) as [->|]; [done|]. apply H. lia.
  - exists false. split; [done|]. split; [done|]. intros H. rewrite H in Hb by lia. done.
Qed.

(** Words below [len] agree on a property of their bits exactly when all members
    below [64 * len] do. *)
Lemma words_members (len : nat) (P : Z → Prop) (f : nat → option bool) :
  (∀ j, (j < len)%nat → ∃ b, f j = Some b ∧ (b = true ↔ ∀ k, 0 <= k < 64 → P (64 * Z.of_nat j + k))) →
  ∃ b, all_words f 0 len = Some b ∧ (b = true ↔ ∀ m, 0 <= m < 64 * Z.of_nat len → P m).
Proof.
  intros Hf. destruct (all_words_spec f 0 len) as (b&Hb&Hi).
  { intros j Hj. destruct (Hf j) as (c&->&_); [lia|done]. }
  exists b. split; [done|]. rewrite Hi. split.
  - intros H m Hm. destruct (index_split m) as (?&?&Hs); [lia|].
    destruct (Hf (Z.to_nat (m / 64))) as (c&Hc&Hk); [lia|]. rewrite H in Hc by lia. simplify_eq.
    rewrite Hs. replace (m / 64) with (Z.of_nat (Z.to_nat (m / 64))) by lia. by apply Hk.
  - intros H j Hj. destruct (Hf j) as (c&Hc&Hk); [lia|]. rewrite Hc. f_equal. apply Hk.
    intros k Hk'. apply H. lia.
Qed.

Lemma word_zero w : in_u64 w → (w =? 0) = true ↔ ∀ b, 0 <= b < 64 → Z.testbit w b = false.
Proof.
  intros Hw. rewrite Z.eqb_eq. split; [intros -> b _; apply Z.testbit_0_l|]. intros H.
  apply Z.bits_inj'. intros i Hi. rewrite Z.testbit_0_l. destruct (Z.lt_ge_cases i 64); [apply H; lia|].
  apply (testbit_above 64); [done|lia].
Qed.

Lemma bitset_tests set1 set2 (len : nat) :
  wf_set set1 → wf_set set2 → (len ≤ length set1 ∧ len ≤ length set2)%nat →
  (∃ b, zend_bitset_empty set1 len = Some b ∧
        (b = true ↔ ∀ m, 0 <= m < 64 * Z.of_nat len → member set1 m = false)) ∧
  (∃ b, zend_bitset_subset set1 set2 len = Some b ∧
        (b = true ↔ ∀ m, 0 <= m < 64 * Z.of_nat len → member set1 m = true → member set2 m = true)) ∧
  (∃ b, zend_bitset_equal set1 set2 len = Some b ∧
        (b = true ↔ ∀ m, 0 <= m < 64 * Z.of_nat len → member set1 m = member set2 m)).
Proof.
  intros H1 H2 [L1 L2]. split_and!.
  - apply words_members. intros j Hj. destruct (word_at set1 len j) as (w&->&Hw&Hb); [done..|].
    eexists. split; [done|]. rewrite word_zero by done. split; intros H k Hk; [rewrite <- Hb|rewrite Hb]; auto.
  - apply words_members. intros j Hj. destruct (word_at set1 len j) as (a&->&Ha&Hba); [done..|]. simpl.
    destruct (word_at set2 len j) as (b&->&Hb&Hbb); [done..|]. eexists. split; [done|].
    rewrite word_zero by (apply land_in_u64; [done|apply ulong_not_in_u64]).
    split; intros H k Hk; specialize (H k Hk); rewrite Z.land_spec, ulong_not_bit, Hba, Hbb in * by done.
    + intros Hm. rewrite Hm in H. by apply negb_false_iff in H.
    + destruct (member set1 _); [|done]. by rewrite H.
  - unfold zend_bitset_equal. rewrite decide_True by done. eexists. split; [done|]. rewrite bool_decide_eq_true.
    split.
    + intros He m Hm. destruct (index_split m) as (?&?&?); [lia|]. unfold member.
      assert (Hj : set1 !! Z.to_nat (m / 64) = set2 !! Z.to_nat (m / 64)); [|by rewrite Hj].
      rewrite <- (lookup_take_lt set1 len), <- (lookup_take_lt set2 len), He by lia. done.
    + intros H. apply list_eq. intros j. destruct (decide (j < len)%nat) as [Hj|].
      2: { by rewrite !lookup_take_ge by lia. }
      rewrite !lookup_take_lt by done. destruct (word_at set1 len j) as (a&->&Ha&Hba); [done..|].
      destruct (word_at set2 len j) as (b&->&Hb&Hbb); [done..|]. f_equal. apply Z.bits_inj'. intros k Hk.
      destruct (Z.lt_ge_cases k 64); [rewrite Hba, Hbb by lia; apply H; lia|].
      by rewrite !(testbit_above 64) by (done || lia).
Qed.

(** *** Searches *)

Lemma int_small z : - 2 ^ 31 <= z < 2 ^ 31 → s32 (u64 z) = z.
Proof.
  intros Hz. unfold s32, sint, u64. change (32 - 1) with 31.
  cbv zeta. rewrite !Z.mod_mod_divide by (exists (2 ^ 32); lia). destruct (Z.lt_ge_cases z 0).
  - rewrite <- (Z_mod_plus_full z 1), Z.mod_small by lia. destruct (Z.ltb_spec (z + 1 * 2 ^ 32) (2 ^ 31)); lia.
  - rewrite Z.mod_small by lia. destruct (Z.ltb_spec z (2 ^ 31)); lia.
Qed.

Lemma first_loop_spec set len i n :
  wf_set set → (i + n ≤ len)%nat → (len ≤ length set)%nat → 64 * Z.of_nat len < 2 ^ 31 →
  ∃ r, first_loop set i n = Some r ∧
    ((r = -1 ∧ ∀ m, 64 * Z.of_nat i <= m < 64 * Z.of_nat (i + n) → member set m = false) ∨
     (64 * Z.of_nat i <= r < 64 * Z.of_nat (i + n) ∧ member set r = true ∧
      ∀ m, 64 * Z.of_nat i <= m < r → member set m = false)).
Proof.
  intros Hw Hi Hl Hb. revert i Hi. induction n as [|n IH]; intros i Hi; simpl.
  { exists (-1). split; [done|]. left. split; [done|]. intros m Hm. lia. }
  destruct (word_at set len i) as (w&->&Hu&Hbit); [done|done|lia|]. simpl.
  assert (Hm : ∀ m, 64 * Z.of_nat i <= m < 64 * Z.of_nat i + 64 → member set m = Z.testbit w (m - 64 * Z.of_nat i)).
  { intros m Hm. rewrite Hbit by lia. f_equal. lia. }
  destruct (Z.eqb_spec w 0) as [->|H0]; simpl.
  - destruct (IH (S i)) as (r&Hr&H); [lia|]. exists r. split; [done|].
    assert (Hlow : ∀ m, 64 * Z.of_nat i <= m < 64 * Z.of_nat (S i) → member set m = false).
    { intros m Hmm. rewrite Hm by lia. apply Z.testbit_0_l. }
    destruct H as [[-> H]|(Hr1&Hr2&Hr3)]; [left|right].
    + split; [done|]. intros m Hmm. destruct (Z.lt_ge_cases m (64 * Z.of_nat (S i))); [apply Hlow|apply H]; lia.
    + split; [lia|]. split; [done|]. intros m Hmm.
      destruct (Z.lt_ge_cases m (64 * Z.of_nat (S i))); [apply Hlow|apply Hr3]; lia.
  - destruct (zend_ulong_ntz_lowest w) as [(Hz&Hz1&Hz2) Hz3]; [unfold in_u64 in Hu; lia|].
    rewrite int_small by lia. eexists. split; [done|]. right. split; [lia|]. split.
    + rewrite Hm by lia. by replace (8 * 8 * Z.of_nat i + zend_ulong_ntz w - 64 * Z.of_nat i) with (zend_ulong_ntz w) by lia.
    + intros m Hmm. rewrite Hm by lia. apply Hz2. lia.
Qed.

Lemma shift_out_spec fuel x j :
  0 <= x < 2 ^ Z.of_nat fuel → shift_out fuel x j = Some (if x =? 0 then j else j + Z.log2 x + 1).
Proof.
  revert x j. induction fuel as [|fuel IH]; intros x j Hx.
  { replace x with 0 by (simpl in Hx; lia). done. }
  cbn [shift_out]. destruct (Z.eqb_spec x 0) as [->|H0]; [done|].
  rewrite Nat2Z.inj_succ, Z.pow_succ_r in Hx by lia.
  assert (Hs : Z.shiftr x 1 = x / 2) by (by rewrite Z.shiftr_div_pow2).
  pose proof (Z.div_mod x 2). pose proof (Z.mod_pos_bound x 2).
  rewrite IH by (rewrite Hs; lia). destruct (Z.eqb_spec (Z.shiftr x 1) 0) as [Hz|Hz].
  - assert (x = 1) as -> by lia. f_equal. simpl. lia.
  - rewrite Z.log2_shiftr by lia. f_equal.
    assert (1 <= Z.log2 x) by (apply Z.log2_le_pow2; lia). lia.
Qed.

Lemma last_loop_spec set len i :
  wf_set set → (i ≤ len)%nat → (len ≤ length set)%nat → 64 * Z.of_nat len < 2 ^ 31 →
  ∃ r, last_loop set i = Some r ∧
    ((r = -1 ∧ ∀ m, 0 <= m < 64 * Z.of_nat i → member set m = false) ∨
     (0 <= r < 64 * Z.of_nat i ∧ member set r = true ∧
      ∀ m, r < m < 64 * Z.of_nat i → member set m = false)).
Proof.
  intros Hw Hi Hl Hb. induction i as [|i IH]; cbn [last_loop].
  { exists (-1). split; [done|]. left. split; [done|]. intros m Hm. lia. }
  destruct (word_at set len i) as (w&->&Hu&Hbit); [done|done|lia|]. cbn [mbind option_bind].
  assert (Hm : ∀ m, 64 * Z.of_nat i <= m < 64 * Z.of_nat i + 64 → member set m = Z.testbit w (m - 64 * Z.of_nat i)).
  { intros m Hm. rewrite Hbit by lia. f_equal. lia. }
  destruct (Z.eqb_spec w 0) as [->|H0]; cbn [negb].
  - destruct IH as (r&Hr&H); [lia|]. exists r. split; [done|].
    assert (Hhigh : ∀ m, 64 * Z.of_nat i <= m < 64 * Z.of_nat (S i) → member set m = false).
    { intros m Hmm. rewrite Hm by lia. apply Z.testbit_0_l. }
    destruct H as [[-> H]|(Hr1&Hr2&Hr3)]; [left|right].
    + split; [done|]. intros m Hmm. destruct (Z.lt_ge_cases m (64 * Z.of_nat i)); [apply H|apply Hhigh]; lia.
    + split; [lia|]. split; [done|]. intros m Hmm.
      destruct (Z.lt_ge_cases m (64 * Z.of_nat i)); [apply Hr3|apply Hhigh]; lia.
  - unfold in_u64 in Hu. rewrite int_small, shift_out_spec by (change (2 ^ Z.of_nat 64) with (2 ^ 64); lia).
    rewrite (proj2 (Z.eqb_neq w 0)) by done. pose proof (Z.log2_nonneg w).
    assert (Z.log2 w < 64) by (apply Z.log2_lt_pow2; lia).
    eexists. split; [done|]. right. split; [lia|]. split.
    + rewrite Hm by lia. replace (8 * 8 * Z.of_nat i - 1 + Z.log2 w + 1 - 64 * Z.of_nat i) with (Z.log2 w) by lia.
      apply Z.bit_log2. lia.
    + intros m Hmm. rewrite Hm by lia. apply Z.bits_above_log2; lia.
Qed.

(** Zend_bitset_first and zend_bitset_last find the least and the greatest
    member, or -1 in an empty set, with the portable bit count, and
    zend_bitset_pop_first removes exactly the least. *)
Theorem bitset_search set (len : nat) :
  wf_set set → (len ≤ length set)%nat → 64 * Z.of_nat len < 2 ^ 31 →
  ∃ f l, zend_bitset_first set len = Some f ∧ zend_bitset_last set len = Some l ∧
    ((f = -1 ∧ l = -1 ∧ (∀ m, 0 <= m < 64 * Z.of_nat len → member set m = false) ∧
      zend_bitset_pop_first set len = Some (-1, set)) ∨
     (0 <= f <= l ∧ l < 64 * Z.of_nat len ∧ member set f = true ∧ member set l = true ∧
      (∀ m, 0 <= m < 64 * Z.of_nat len → member set m = true → f <= m <= l) ∧
      ∃ s, zend_bitset_pop_first set len = Some (f, s) ∧ updated set s (λ m, negb (m =? f) && member set m))).
Proof.
  intros Hw Hl Hb. destruct (first_loop_spec set len 0 len) as (f&Hf&Hfs); [done|lia|done|done|].
  destruct (last_loop_spec set len len) as (l&Hll&Hls); [done|lia|done|done|].
  exists f, l. split; [done|]. split; [done|]. unfold zend_bitset_pop_first, zend_bitset_first. rewrite Hf.
  simpl (0 + len)%nat in Hfs. destruct Hfs as [[-> Hnone]|(Hf1&Hf2&Hf3)]; [left|right].
  - destruct Hls as [[-> _]|(Hl1&Hl2&_)]; [done|]. rewrite Hnone in Hl2; [done|lia].
  - destruct Hls as [[-> Hnone]|(Hl1&Hl2&Hl3)]; [rewrite Hnone in Hf2; [done|lia]|].
    assert (Hle : f <= l).
    { destruct (Z.le_gt_cases f l); [done|]. rewrite Hl3 in Hf2; [done|lia]. }
    split_and!; try done; try lia.
    + intros m Hm Hmem. split.
      * destruct (Z.le_gt_cases f m); [done|]. rewrite Hf3 in Hmem; [done|lia].
      * destruct (Z.le_gt_cases m l); [done|]. rewrite Hl3 in Hmem; [done|lia].
    + simpl. rewrite (proj2 (Z.leb_le 0 f)) by lia.
      destruct (bitset_elements set f) as (_&_&s&Hs&Hup); [done|lia|]. rewrite Hs. by exists s.
Qed.

(** *** Iteration *)

Lemma sorted_app (R : Z → Z → Prop) l1 l2 :
  StronglySorted R l1 → StronglySorted R l2 → (∀ a b, a ∈ l1 → b ∈ l2 → R a b) → StronglySorted R (l1 ++ l2).
Proof.
  intros H1 H2 Hr. induction H1 as [|a l1 H1 IH Ha]; simpl; [done|]. constructor.
  - apply IH. intros x y Hx Hy. apply Hr; [by right|done].
  - apply Forall_app. split; [done|]. apply list.Forall_forall. intros b Hb. apply Hr; [by left|done].
Qed.

(** The list names exactly the members in the interval, in the order [R]. *)
Definition lists (R : Z → Z → Prop) (set : zend_bitset) (lo hi : Z) (l : list Z) : Prop :=
  StronglySorted R l ∧ ∀ m, m ∈ l ↔ lo <= m < hi ∧ member set m = true.

Lemma low_bit x : (Z.land x 1 =? 0) = negb (Z.testbit x 0).
Proof.
  change 1 with (Z.ones 1). rewrite Z.land_ones, <- Z.bit0_mod by lia. by destruct (Z.testbit x 0).
Qed.

Lemma bits_up_spec fuel x bit :
  0 <= x < 2 ^ Z.of_nat fuel →
  ∃ l, bits_up fuel x bit = Some l ∧ StronglySorted Z.lt l ∧
    ∀ m, m ∈ l ↔ bit <= m ∧ Z.testbit x (m - bit) = true.
Proof.
  revert x bit. induction fuel as [|fuel IH]; intros x bit Hx; cbn [bits_up].
  { replace x with 0 by (simpl in Hx; lia). exists []. split; [done|]. split; [constructor|].
    intros m. rewrite Z.testbit_0_l. split; [by intros ?%not_elem_of_nil|by intros [_ ?]]. }
  destruct (Z.eqb_spec x 0) as [->|H0].
  { exists []. split; [done|]. split; [constructor|].
    intros m. rewrite Z.testbit_0_l. split; [by intros ?%not_elem_of_nil|by intros [_ ?]]. }
  rewrite Nat2Z.inj_succ, Z.pow_succ_r in Hx by lia.
  destruct (IH (Z.shiftr x 1) (bit + 1)) as (r&Hr&Hs&Hm).
  { rewrite Z.shiftr_div_pow2 by lia. change (2 ^ 1) with 2. pose proof (Z.div_mod x 2).
    pose proof (Z.mod_pos_bound x 2). lia. }
  rewrite Hr. cbn [mbind option_bind]. rewrite low_bit.
  assert (Hin : ∀ m, m ∈ r ↔ bit < m ∧ Z.testbit x (m - bit) = true).
  { intros m. rewrite Hm. split; intros [H1 H2]; (split; [lia|]); rewrite Z.shiftr_spec in * by lia;
      by replace (m - (bit + 1) + 1) with (m - bit) in * by lia. }
  destruct (Z.testbit x 0) eqn:Hb; simpl; eexists; (split; [done|]).
  - split.
    + constructor; [done|]. apply list.Forall_forall. intros m ?%Hin. lia.
    + intros m. rewrite elem_of_cons, Hin. destruct (decide (m = bit)) as [->|].
      * rewrite Z.sub_diag. split; [|by left]. by split.
      * split; [intros [?|[? ?]]; [done|split; [lia|done]]|intros [? ?]; right; split; [lia|done]].
  - split; [done|]. intros m. rewrite Hin. split; [intros [? ?]; split; [lia|done]|].
    intros [H1 H2]. split; [|done]. destruct (decide (m = bit)) as [->|]; [|lia].
    by rewrite Z.sub_diag, Hb in H2.
Qed.

Lemma high_bit x : (Z.land x (Z.shiftl 1 63) =? 0) = negb (Z.testbit x 63).
Proof.
  destruct (Z.testbit x 63) eqn:Hb; simpl.
  - apply Z.eqb_neq. intros H. apply (f_equal (λ z, Z.testbit z 63)) in H.
    by rewrite Z.land_spec, Hb, one_bit, Z.testbit_0_l in H by lia.
  - apply Z.eqb_eq, Z.bits_inj'. intros i Hi. rewrite Z.land_spec, one_bit, Z.testbit_0_l by lia.
    destruct (Z.eqb_spec i 63) as [->|]; [by rewrite Hb|apply andb_false_r].
Qed.

(** Only the top [fuel] bits can be set. *)
Lemma bits_down_spec fuel x bit :
  in_u64 x → (∀ i, 0 <= i < 64 - Z.of_nat fuel → Z.testbit x i = false) → (fuel ≤ 64)%nat →
  ∃ l, bits_down fuel x bit = Some l ∧ StronglySorted Z.gt l ∧
    ∀ m, m ∈ l ↔ bit - 64 < m <= bit ∧ Z.testbit x (63 - (bit - m)) = true.
Proof.
  revert x bit. induction fuel as [|fuel IH]; intros x bit Hu Hx Hf; cbn [bits_down].
  { assert (x = 0) as ->. { apply Z.eqb_eq, word_zero; [done|]. intros b Hb. apply Hx. lia. }
    exists []. split; [done|]. split; [constructor|].
    intros m. rewrite Z.testbit_0_l. split; [by intros ?%not_elem_of_nil|by intros [_ ?]]. }
  destruct (Z.eqb_spec x 0) as [->|H0].
  { exists []. split; [done|]. split; [constructor|].
    intros m. rewrite Z.testbit_0_l. split; [by intros ?%not_elem_of_nil|by intros [_ ?]]. }
  assert (Hsh : ∀ i, 0 <= i < 64 → Z.testbit (u64 (Z.shiftl x 1)) i = (0 <? i) && Z.testbit x (i - 1)).
  { intros i Hi. unfold u64. rewrite Z.mod_pow2_bits_low, Z.shiftl_spec by lia.
    destruct (Z.ltb_spec 0 i); [done|]. apply Z.testbit_neg_r. lia. }
  destruct (IH (u64 (Z.shiftl x 1)) (bit - 1)) as (r&Hr&Hs&Hm); [apply u64_range| |lia|].
  { intros i Hi. rewrite Hsh by lia. destruct (Z.ltb_spec 0 i); [|done]. apply Hx. lia. }
  rewrite Hr. cbn [mbind option_bind]. rewrite high_bit.
  assert (Hin : ∀ m, m ∈ r ↔ bit - 64 < m < bit ∧ Z.testbit x (63 - (bit - m)) = true).
  { intros m. rewrite Hm. split.
    - intros [H1 H2]. rewrite Hsh in H2 by lia. destruct (Z.ltb_spec 0 (63 - (bit - 1 - m))); [|done].
      split; [lia|]. by replace (63 - (bit - m)) with (63 - (bit - 1 - m) - 1) by lia.
    - intros [H1 H2]. split; [lia|]. rewrite Hsh, (proj2 (Z.ltb_lt _ _)) by lia. simpl.
      by replace (63 - (bit - 1 - m) - 1) with (63 - (bit - m)) by lia. }
  destruct (Z.testbit x 63) eqn:Hb; simpl; eexists; (split; [done|]).
  - split.
    + constructor; [done|]. apply list.Forall_forall. intros m ?%Hin. lia.
    + intros m. rewrite elem_of_cons, Hin. destruct (decide (m = bit)) as [->|].
      * rewrite Z.sub_diag. split; [|by left]. intros _. split; [lia|done].
      * split; [intros [?|[? ?]]; [done|split; [lia|done]]|intros [? ?]; right; split; [lia|done]].
  - split; [done|]. intros m. rewrite Hin. split; [intros [? ?]; split; [lia|done]|].
    intros [H1 H2]. split; [|done]. destruct (decide (m = bit)) as [->|]; [|lia].
    by rewrite Z.sub_diag, Z.sub_0_r, Hb in H2.
Qed.

(** The members of one word. *)
Lemma word_lists R set (i : nat) l :
  StronglySorted R l →
  (∀ m, m ∈ l ↔ 64 * Z.of_nat i <= m < 64 * Z.of_nat i + 64 ∧ member set m = true) →
  lists R set (64 * Z.of_nat i) (64 * Z.of_nat (S i)) l.
Proof. intros Hs Hm. split; [done|]. intros m. rewrite Hm. split; intros [? ?]; (split; [lia|done]). Qed.

Lemma empty_word_lists R set (i : nat) :
  (∀ m, 64 * Z.of_nat i <= m < 64 * Z.of_nat i + 64 → member set m = false) →
  lists R set (64 * Z.of_nat i) (64 * Z.of_nat (S i)) [].
Proof.
  intros H. apply word_lists; [constructor|]. intros m. split; [by intros ?%not_elem_of_nil|].
  intros [Hm Hb]. by rewrite H in Hb.
Qed.

Lemma lists_app_up set a b c l r :
  a <= b <= c → lists Z.lt set a b l → lists Z.lt set b c r → lists Z.lt set a c (l ++ r).
Proof.
  intros Habc [Hl Hml] [Hr Hmr]. split.
  - apply sorted_app; [done..|]. intros x y [? _]%Hml [? _]%Hmr. lia.
  - intros m. rewrite elem_of_app, Hml, Hmr. destruct (Z.lt_ge_cases m b); intuition lia.
Qed.
Lemma lists_app_down set a b c l r :
  a <= b <= c → lists Z.gt set b c l → lists Z.gt set a b r → lists Z.gt set a c (l ++ r).
Proof.
  intros Habc [Hl Hml] [Hr Hmr]. split.
  - apply sorted_app; [done..|]. intros x y [? _]%Hml [? _]%Hmr. lia.
  - intros m. rewrite elem_of_app, Hml, Hmr. destruct (Z.lt_ge_cases m b); intuition lia.
Qed.

Lemma foreach_loop_spec set len i n :
  wf_set set → (i + n ≤ len)%nat → (len ≤ length set)%nat →
  ∃ l, foreach_loop set i n = Some l ∧ lists Z.lt set (64 * Z.of_nat i) (64 * Z.of_nat (i + n)) l.
Proof.
  intros Hw Hi Hl. revert i Hi. induction n as [|n IH]; intros i Hi; cbn [foreach_loop].
  { exists []. split; [done|]. split; [constructor|]. intros m.
    split; [by intros ?%not_elem_of_nil|intros [? _]; lia]. }
  destruct (word_at set len i) as (w&->&Hu&Hbit); [done|done|lia|]. cbn [mbind option_bind].
  destruct (IH (S i)) as (r&Hr&Hlr); [lia|].
  assert (∃ l, (if negb (w =? 0) then bits_up 64 w (8 * 8 * Z.of_nat i) else Some []) = Some l ∧
    lists Z.lt set (64 * Z.of_nat i) (64 * Z.of_nat (S i)) l) as (l&->&Hll).
  { destruct (Z.eqb_spec w 0) as [->|H0]; cbn [negb].
    - exists []. split; [done|]. apply empty_word_lists. intros m Hm.
      replace m with (64 * Z.of_nat i + (m - 64 * Z.of_nat i)) by lia. rewrite <- Hbit by lia. apply Z.testbit_0_l.
    - destruct (bits_up_spec 64 w (8 * 8 * Z.of_nat i) Hu) as (l&->&Hs&Hm). exists l. split; [done|].
      apply word_lists; [done|]. intros m. rewrite Hm. split.
      + intros [H1 H2]. assert (m - 8 * 8 * Z.of_nat i < 64).
        { destruct (Z.lt_ge_cases (m - 8 * 8 * Z.of_nat i) 64); [done|].
          rewrite (testbit_above 64) in H2; [done|done|lia]. }
        split; [lia|]. rewrite Hbit in H2 by lia. rewrite <- H2. f_equal. lia.
      + intros [H1 H2]. split; [lia|]. rewrite Hbit by lia. rewrite <- H2. f_equal. lia. }
  cbn [mbind option_bind]. rewrite Hr. eexists. split; [done|].
  replace (i + S n)%nat with (S i + n)%nat by lia. by apply (lists_app_up _ _ (64 * Z.of_nat (S i))); [lia|..].
Qed.

Lemma reverse_foreach_loop_spec set len i :
  wf_set set → (i ≤ len)%nat → (len ≤ length set)%nat →
  ∃ l, reverse_foreach_loop set i = Some l ∧ lists Z.gt set 0 (64 * Z.of_nat i) l.
Proof.
  intros Hw Hi Hl. induction i as [|i IH]; cbn [reverse_foreach_loop].
  { exists []. split; [done|]. split; [constructor|]. intros m.
    split; [by intros ?%not_elem_of_nil|intros [? _]; lia]. }
  destruct (word_at set len i) as (w&->&Hu&Hbit); [done|done|lia|]. cbn [mbind option_bind].
  destruct IH as (r&Hr&Hlr); [lia|].
  assert (∃ l, (if negb (w =? 0) then bits_down 64 w (8 * 8 * (Z.of_nat i + 1) - 1) else Some []) = Some l ∧
    lists Z.gt set (64 * Z.of_nat i) (64 * Z.of_nat (S i)) l) as (l&->&Hll).
  { destruct (Z.eqb_spec w 0) as [->|H0]; cbn [negb].
    - exists []. split; [done|]. apply empty_word_lists. intros m Hm.
      replace m with (64 * Z.of_nat i + (m - 64 * Z.of_nat i)) by lia. rewrite <- Hbit by lia. apply Z.testbit_0_l.
    - destruct (bits_down_spec 64 w (8 * 8 * (Z.of_nat i + 1) - 1) Hu) as (l&->&Hs&Hm); [lia|lia|]. exists l.
      split; [done|]. apply word_lists; [done|]. intros m. rewrite Hm.
      split; intros [H1 H2]; (split; [lia|]).
      + rewrite Hbit in H2 by lia. rewrite <- H2. f_equal. lia.
      + rewrite Hbit by lia. rewrite <- H2. f_equal. lia. }
  cbn [mbind option_bind]. rewrite Hr. eexists. split; [done|].
  by apply (lists_app_down _ _ (64 * Z.of_nat i)); [lia|..].
Qed.

(** ZEND_BITSET_FOREACH and ZEND_BITSET_REVERSE_FOREACH terminate and run
    their body once for each member below 64 * len, in ascending and in descending
    order. *)
Theorem bitset_iteration set (len : nat) :
  wf_set set → (len ≤ length set)%nat →
  (∃ l, ZEND_BITSET_FOREACH set len = Some l ∧ lists Z.lt set 0 (64 * Z.of_nat len) l) ∧
  (∃ l, ZEND_BITSET_REVERSE_FOREACH set len = Some l ∧ lists Z.gt set 0 (64 * Z.of_nat len) l).
Proof.
  intros Hw Hl. split; [by apply (foreach_loop_spec set len 0 len)|].
  by apply (reverse_foreach_loop_spec set len len).
Qed.

(** The words a set of [n] numbers needs. *)
Lemma bitset_len_fits n : in_u32 n → n <= 64 * zend_bitset_len n < n + 64.
Proof.
  unfold in_u32, zend_bitset_len. intros Hn. change (8 * 8) with 64.
  pose proof (Z.div_mod (n + (64 - 1)) 64). pose proof (Z.mod_pos_bound (n + (64 - 1)) 64).
  rewrite u32_small by lia. lia.
Qed.
