(* ===== verification/ZendOperators.v ===== *)
(** * Operators on text (Zend/zend_operators.h)

    The search for the first and the last occurrence of a byte string, and the
    decimal text of an integer written from the end of a buffer. *)

From S2P Require Import Prelude.

(** ** Bytes at an offset *)

(** A read of one byte and of [n] bytes; outside the block it is undefined. *)
Definition byte_at (m : bytes) (i : Z) : option byte := if 0 <=? i then m !! Z.to_nat i else None.
Definition segment (m : bytes) (i n : Z) : option bytes :=
  if (0 <=? i) && (0 <=? n) && (i + n <=? Z.of_nat (length m)) then Some (take (Z.to_nat n) (drop (Z.to_nat i) m))
  else None.
(** A write of one byte. *)
Definition put_byte (m : bytes) (i : Z) (b : byte) : option bytes :=
  if (0 <=? i) && (i <? Z.of_nat (length m)) then Some (<[Z.to_nat i := b]> m) else None.

Module TextSearch.

Fixpoint find_byte (c : byte) (l : bytes) : option nat :=
  match l with
  | [] => None
  | b :: l => if decide (b = c) then Some O else S <$> find_byte c l
  end.

(** [memchr], [memrchr] and the equality of [memcmp], of the C library. *)
Definition memchr (m : bytes) (p : Z) (c : byte) (n : Z) : option (option Z) :=
  s ← segment m p n; Some ((λ k, p + Z.of_nat k) <$> find_byte c s).
Definition memrchr (m : bytes) (p : Z) (c : byte) (n : Z) : option (option Z) :=
  s ← segment m p n; Some ((λ k, p + n - 1 - Z.of_nat k) <$> find_byte c (reverse s)).
Definition memcmp_eq (m : bytes) (i : Z) (m' : bytes) (j n : Z) : option bool :=
  a ← segment m i n; b ← segment m' j n; Some (bool_decide (a = b)).

(** [ne == p[needle_len-1] && !memcmp(needle+1, p+1, needle_len-2)]. *)
Definition matches (haystack needle : bytes) (needle_len : Z) (p : Z) : option bool :=
  ne ← byte_at needle (needle_len - 1);
  b ← byte_at haystack (p + needle_len - 1);
  if decide (ne = b) then memcmp_eq needle 1 haystack (p + 1) (needle_len - 2) else Some false.

(** The haystack is the bytes up to [end]; pointers are offsets in it. *)
Fixpoint memnstr_loop (fuel : nat) (haystack needle : bytes) (needle_len p end_ : Z) : option (option Z) :=
  match fuel with
  | O => None
  | S fuel =>
      if p <=? end_ then
        c ← byte_at needle 0;
        r ← memchr haystack p c (end_ - p + 1);
        match r with
        | Some p =>
            hit ← matches haystack needle needle_len p;
            if hit : bool then Some (Some p) else memnstr_loop fuel haystack needle needle_len (p + 1) end_
        | None => Some None
        end
      else Some None
  end.

Definition zend_memnstr (zend_memnstr_ex : bytes → bytes → option (option Z)) (haystack needle : bytes)
    : option (option Z) :=
  let needle_len := Z.of_nat (length needle) in
  let off_s := Z.of_nat (length haystack) in
  if needle_len =? 1 then c ← byte_at needle 0; memchr haystack 0 c off_s
  else if needle_len =? 0 then Some (Some 0)
  else if off_s <? needle_len then Some None
  else if (off_s <? 1024) || (needle_len <? 9) then
    memnstr_loop (S (length haystack)) haystack needle needle_len 0 (off_s - needle_len)
  else zend_memnstr_ex haystack needle.

(** [zend_memrchr] without the library function: from the last byte down. *)
Fixpoint memrchr_loop (m : bytes) (c : byte) (e : nat) : option (option Z) :=
  match e with
  | O => Some None
  | S e => b ← m !! e; if decide (b = c) then Some (Some (Z.of_nat e)) else memrchr_loop m c e
  end.
Definition zend_memrchr (m : bytes) (c : byte) (n : Z) : option (option Z) :=
  if n <? 0 then None else if n =? 0 then Some None else memrchr_loop m c (Z.to_nat n).

Fixpoint memnrstr_loop (fuel : nat) (haystack needle : bytes) (needle_len p : Z) : option (option Z) :=
  match fuel with
  | O => None
  | S fuel =>
      c ← byte_at needle 0;
      r ← zend_memrchr haystack c (p + 1);
      match r with
      | None => Some None
      | Some p =>
          hit ← matches haystack needle needle_len p;
          if hit : bool then Some (Some p)
          else if 0 <=? p then memnrstr_loop fuel haystack needle needle_len (p - 1) else Some None
      end
  end.

Definition zend_memnrstr (zend_memnrstr_ex : bytes → bytes → option (option Z)) (haystack needle : bytes)
    : option (option Z) :=
  let needle_len := Z.of_nat (length needle) in
  let off_s := Z.of_nat (length haystack) in
  if needle_len =? 0 then Some (Some off_s)
  else if needle_len =? 1 then c ← byte_at needle 0; zend_memrchr haystack c off_s
  else if off_s <? needle_len then Some None
  else if (off_s <? 1024) || (needle_len <? 3) then
    memnrstr_loop (S (S (length haystack))) haystack needle needle_len (off_s - needle_len)
  else zend_memnrstr_ex haystack needle.
End TextSearch.
Export TextSearch.

(** ** What a search finds *)
Section search.
Implicit Types (m h needle s : bytes).

Definition occurs h needle (i : Z) : Prop := segment h i (Z.of_nat (length needle)) = Some needle.
Definition first_occurrence h needle (r : option Z) : Prop :=
  match r with
  | Some i => occurs h needle i ∧ ∀ j, j < i → ¬ occurs h needle j
  | None => ∀ j, ¬ occurs h needle j
  end.
Definition last_occurrence h needle (r : option Z) : Prop :=
  match r with
  | Some i => occurs h needle i ∧ ∀ j, i < j → ¬ occurs h needle j
  | None => ∀ j, ¬ occurs h needle j
  end.

Lemma segment_iff m i n s :
  segment m i n = Some s ↔ ∃ l1 l2, m = l1 ++ s ++ l2 ∧ i = Z.of_nat (length l1) ∧ n = Z.of_nat (length s).
Proof.
  unfold segment. split.
  - destruct (Z.leb_spec 0 i), (Z.leb_spec 0 n), (Z.leb_spec (i + n) (Z.of_nat (length m))); try done. simpl.
    intros [= <-]. exists (take (Z.to_nat i) m), (drop (Z.to_nat n) (drop (Z.to_nat i) m)).
    rewrite take_drop, take_drop, !length_take, length_drop. split; [done|lia].
  - intros (l1&l2&->&->&->). rewrite !(proj2 (Z.leb_le _ _)) by (rewrite ?length_app; lia). simpl.
    by rewrite !Nat2Z.id, drop_app_length, take_app_length.
Qed.

Lemma byte_at_iff m i b : byte_at m i = Some b ↔ segment m i 1 = Some [b].
Proof.
  rewrite segment_iff. unfold byte_at. split.
  - destruct (Z.leb_spec 0 i); [|done]. intros Hb. exists (take (Z.to_nat i) m), (drop (S (Z.to_nat i)) m).
    pose proof (lookup_lt_Some _ _ _ Hb). simpl.
    rewrite take_drop_middle by done. rewrite length_take. split; [done|]. lia.
  - intros (l1&l2&->&->&_). rewrite (proj2 (Z.leb_le _ _)), Nat2Z.id by lia.
    rewrite lookup_app_r, Nat.sub_diag by lia. done.
Qed.

Lemma segment_app m i s1 s2 :
  segment m i (Z.of_nat (length (s1 ++ s2))) = Some (s1 ++ s2) ↔
  segment m i (Z.of_nat (length s1)) = Some s1 ∧
  segment m (i + Z.of_nat (length s1)) (Z.of_nat (length s2)) = Some s2.
Proof.
  rewrite !segment_iff. split.
  - intros (l1&l2&->&->&_). split.
    + exists l1, (s2 ++ l2). by rewrite <- app_assoc.
    + exists (l1 ++ s1), l2. rewrite length_app, <- !app_assoc. split_and!; [done|lia|done].
  - intros [(l1&l2&->&->&_) (l1'&l2'&Hm&Hi&_)]. exists l1, l2'. split_and!; [|done|done].
    rewrite (app_assoc l1 s1 l2) in Hm. apply app_inj_1 in Hm as [<- ->]; [by rewrite <- !app_assoc|]. rewrite length_app. lia.
Qed.

Lemma occurs_bounds h needle i : occurs h needle i → 0 <= i /\ i + Z.of_nat (length needle) <= Z.of_nat (length h).
Proof. intros (l1&l2&->&->&_)%segment_iff. rewrite !length_app. lia. Qed.

Lemma segment_some m i n : 0 <= i → 0 <= n → i + n <= Z.of_nat (length m) → is_Some (segment m i n).
Proof. intros. unfold segment. rewrite !(proj2 (Z.leb_le _ _)) by lia. by eexists. Qed.

Lemma segment_length m i n s : segment m i n = Some s → Z.of_nat (length s) = n.
Proof. by intros (l1&l2&->&->&->)%segment_iff. Qed.

(** The test on the last byte and the middle decides an occurrence that starts with
    the right byte. *)
Lemma matches_ok h needle p :
  (2 ≤ length needle)%nat → 0 <= p → p + Z.of_nat (length needle) <= Z.of_nat (length h) →
  (∀ c, byte_at needle 0 = Some c → byte_at h p = Some c) →
  ∃ hit, matches h needle (Z.of_nat (length needle)) p = Some hit ∧ (hit = true ↔ occurs h needle p).
Proof.
  intros Hlen Hp Hend Hfirst. destruct needle as [|a l]; [simpl in Hlen; lia|].
  destruct l as [|z mid _] using rev_ind; [simpl in Hlen; lia|].
  specialize (Hfirst a eq_refl). apply byte_at_iff in Hfirst.
  set (n := Z.of_nat (length mid)). assert (Hnl : Z.of_nat (length (a :: mid ++ [z])) = n + 2).
  { simpl. rewrite length_app. simpl. lia. }
  unfold matches. rewrite Hnl in *.
  assert (Hne : byte_at (a :: mid ++ [z]) (n + 2 - 1) = Some z).
  { apply byte_at_iff, segment_iff. exists (a :: mid), []. simpl. subst n.
    split_and!; [done|lia|done]. }
  assert (Hmid : segment (a :: mid ++ [z]) 1 (n + 2 - 2) = Some mid).
  { apply segment_iff. exists [a], [z]. split_and!; [done|done|lia]. }
  rewrite Hne. cbn [mbind option_bind].
  destruct (segment_some h (p + 1) (n + 2 - 2)) as [s Hs]; [lia..|].
  destruct (segment_some h (p + (n + 2) - 1) 1) as [b1 Hb1]; [lia..|].
  destruct b1 as [|b [|? ?]]; [by apply segment_length in Hb1| |apply segment_length in Hb1; simpl in Hb1; lia].
  rewrite (proj2 (byte_at_iff _ _ _) Hb1). cbn [mbind option_bind].
  assert (Hocc : occurs h (a :: mid ++ [z]) p ↔ s = mid ∧ b = z).
  { unfold occurs. change (a :: mid ++ [z]) with ([a] ++ (mid ++ [z])). rewrite !segment_app. simpl.
    change (Z.of_nat 1) with 1.
    replace (p + 1 + Z.of_nat (length mid)) with (p + (n + 2) - 1) by (subst n; lia).
    replace (Z.of_nat (length mid)) with (n + 2 - 2) by (subst n; lia). rewrite Hfirst, Hs, Hb1. naive_solver. }
  unfold memcmp_eq. rewrite Hmid, Hs. cbn [mbind option_bind].
  destruct (decide (z = b)) as [->|Hzb]; eexists; (split; [done|]); rewrite Hocc.
  - rewrite bool_decide_eq_true. naive_solver.
  - naive_solver.
Qed.

Lemma find_byte_spec c s :
  match find_byte c s with
  | Some k => s !! k = Some c ∧ ∀ j, (j < k)%nat → s !! j ≠ Some c
  | None => ∀ j, s !! j ≠ Some c
  end.
Proof.
  induction s as [|b s IH]; simpl; [done|]. destruct (decide (b = c)) as [->|Hne]; [split; [done|lia]|].
  destruct (find_byte c s) as [k|]; simpl.
  - destruct IH as [Hk Hj]. split; [done|]. intros [|j] Hlt; simpl; [congruence|]. apply Hj. lia.
  - intros [|j]; simpl; [congruence|apply IH].
Qed.

Lemma byte_at_segment m p n s j :
  segment m p n = Some s → p <= j < p + n → byte_at m j = s !! Z.to_nat (j - p).
Proof.
  intros (l1&l2&->&->&->)%segment_iff Hj. unfold byte_at. rewrite (proj2 (Z.leb_le _ _)) by lia.
  rewrite lookup_app_r by lia. rewrite lookup_app_l by lia. f_equal. lia.
Qed.

(** The first byte [c] in [n] bytes from [p]. *)
Lemma memchr_spec m p c n :
  0 <= p → 0 <= n → p + n <= Z.of_nat (length m) →
  ∃ r, memchr m p c n = Some r ∧
    match r with
    | Some i => p <= i < p + n ∧ byte_at m i = Some c ∧ ∀ j, p <= j < i → byte_at m j ≠ Some c
    | None => ∀ j, p <= j < p + n → byte_at m j ≠ Some c
    end.
Proof.
  intros Hp Hn Hend. destruct (segment_some m p n Hp Hn Hend) as [s Hs]. unfold memchr. rewrite Hs.
  cbn [mbind option_bind]. eexists. split; [done|]. pose proof (find_byte_spec c s) as Hf.
  pose proof (segment_length _ _ _ _ Hs) as Hlen. destruct (find_byte c s) as [k|]; simpl.
  - destruct Hf as [Hk Hj]. pose proof (lookup_lt_Some _ _ _ Hk). split; [lia|]. split.
    + rewrite (byte_at_segment m p n s) by (done || lia). by replace (Z.to_nat (p + Z.of_nat k - p)) with k by lia.
    + intros j Hjp. rewrite (byte_at_segment m p n s) by (done || lia). apply Hj. lia.
  - intros j Hjp. by rewrite (byte_at_segment m p n s) by (done || lia).
Qed.

Lemma memrchr_loop_spec m c (e : nat) :
  (e ≤ length m)%nat →
  ∃ r, memrchr_loop m c e = Some r ∧
    match r with
    | Some i => 0 <= i < Z.of_nat e ∧ byte_at m i = Some c ∧ ∀ j, i < j < Z.of_nat e → byte_at m j ≠ Some c
    | None => ∀ j, 0 <= j < Z.of_nat e → byte_at m j ≠ Some c
    end.
Proof.
  induction e as [|e IH]; intros He; cbn [memrchr_loop]; [eexists; split; [done|]; simpl; lia|].
  destruct (lookup_lt_is_Some_2 m e He) as [b Hb]. rewrite Hb. cbn [mbind option_bind].
  assert (Hat : byte_at m (Z.of_nat e) = Some b).
  { unfold byte_at. by rewrite (proj2 (Z.leb_le _ _)), Nat2Z.id by lia. }
  destruct (decide (b = c)) as [->|Hne].
  - eexists. split; [done|]. split_and!; [lia|lia|done|lia].
  - destruct IH as (r&->&Hr); [lia|]. exists r. split; [done|]. 
    assert (Hout : ∀ j, j = Z.of_nat e → byte_at m j ≠ Some c) by (intros j ->; congruence).
    destruct r as [i|].
    + destruct Hr as (Hi&Hc&Hj). split_and!; [lia|lia|done|]. intros j Hlt.
      destruct (decide (j = Z.of_nat e)); [by apply Hout|]. apply Hj. lia.
    + intros j Hlt. destruct (decide (j = Z.of_nat e)); [by apply Hout|]. apply Hr. lia.
Qed.

Lemma zend_memrchr_spec m c n :
  0 <= n <= Z.of_nat (length m) →
  ∃ r, zend_memrchr m c n = Some r ∧
    match r with
    | Some i => 0 <= i < n ∧ byte_at m i = Some c ∧ ∀ j, i < j < n → byte_at m j ≠ Some c
    | None => ∀ j, 0 <= j < n → byte_at m j ≠ Some c
    end.
Proof.
  intros Hn. unfold zend_memrchr. rewrite (proj2 (Z.ltb_ge _ _)) by lia. destruct (Z.eqb_spec n 0) as [->|].
  - eexists. split; [done|]. simpl. lia.
  - destruct (memrchr_loop_spec m c (Z.to_nat n)) as (r&Hr&H); [lia|]. exists r. rewrite Z2Nat.id in H by lia. done.
Qed.

(** The loop is the library function. *)
Lemma zend_memrchr_library m c n : 0 <= n <= Z.of_nat (length m) → zend_memrchr m c n = memrchr m 0 c n.
Proof.
  intros Hn. destruct (zend_memrchr_spec m c n Hn) as (r&->&Hr). unfold memrchr.
  destruct (segment_some m 0 n) as [s Hs]; [lia..|]. rewrite Hs. cbn [mbind option_bind]. f_equal.
  pose proof (segment_length _ _ _ _ Hs) as Hlen. pose proof (find_byte_spec c (reverse s)) as Hf.
  assert (Hrev : ∀ i, 0 <= i < n → reverse s !! Z.to_nat (n - 1 - i) = byte_at m i).
  { intros i Hi. rewrite (byte_at_segment m 0 n s) by (done || lia). rewrite reverse_lookup by lia. f_equal. lia. }
  destruct (find_byte c (reverse s)) as [k|]; simpl.
  - destruct Hf as [Hk Hj]. pose proof (lookup_lt_Some _ _ _ Hk) as Hkl. rewrite length_reverse in Hkl.
    assert (Hck : byte_at m (n - 1 - Z.of_nat k) = Some c) by (rewrite <- Hrev, <- Hk by lia; f_equal; lia).
    destruct r as [i|]; [|by destruct (Hr (n - 1 - Z.of_nat k)); [lia|]]. destruct Hr as (Hi&Hc&Hafter). f_equal.
    destruct (Z.lt_trichotomy i (n - 1 - Z.of_nat k)) as [Hlt|[->|Hgt]]; [|done|].
    + destruct (Hafter (n - 1 - Z.of_nat k)); [lia|done].
    + destruct (Hj (Z.to_nat (n - 1 - i))); [lia|]. by rewrite Hrev by lia.
  - destruct r as [i|]; [|done]. destruct Hr as (Hi&Hc&_). destruct (Hf (Z.to_nat (n - 1 - i))). by rewrite Hrev by lia.
Qed.

Lemma needle_head needle : (1 ≤ length needle)%nat → ∃ c, byte_at needle 0 = Some c.
Proof. destruct needle as [|c s]; simpl; [lia|]. by exists c. Qed.

Lemma occurs_head h needle c j : byte_at needle 0 = Some c → occurs h needle j → byte_at h j = Some c.
Proof.
  intros Hc Ho. destruct needle as [|c' s]; [done|]. simpl in Hc. injection Hc as ->. apply byte_at_iff.
  change (c :: s) with ([c] ++ s) in Ho. by apply segment_app in Ho as [Ho _].
Qed.

Lemma occurs_single h c j : occurs h [c] j ↔ byte_at h j = Some c.
Proof. by rewrite byte_at_iff. Qed.

Lemma byte_at_range m j c : byte_at m j = Some c → 0 <= j < Z.of_nat (length m).
Proof. intros H. apply byte_at_iff, (occurs_bounds m [c]) in H. simpl in H. lia. Qed.

Lemma memnstr_loop_ok h needle fuel : ∀ p,
  let len := Z.of_nat (length needle) in let end_ := Z.of_nat (length h) - len in
  2 <= len → 0 <= p <= end_ + 1 → end_ - p + 2 <= Z.of_nat fuel → (∀ j, j < p → ¬ occurs h needle j) →
  ∃ r, memnstr_loop fuel h needle len p end_ = Some r ∧ first_occurrence h needle r.
Proof.
  cbv zeta. induction fuel as [|fuel IH]; intros p Hlen Hp Hf Hno; [simpl in Hf; lia|]. cbn [memnstr_loop].
  destruct (Z.leb_spec p (Z.of_nat (length h) - Z.of_nat (length needle))) as [Hle|Hgt].
  2:{ exists None. split; [done|]. intros j Hj. pose proof (occurs_bounds _ _ _ Hj). apply (Hno j); [lia|done]. }
  destruct (needle_head needle) as [c Hc]; [lia|]. rewrite Hc. cbn [mbind option_bind].
  destruct (memchr_spec h p c (Z.of_nat (length h) - Z.of_nat (length needle) - p + 1)) as (r&->&Hr); [lia..|].
  cbn [mbind option_bind]. destruct r as [i|].
  - destruct Hr as (Hi&Hci&Hbefore).
    destruct (matches_ok h needle i) as (hit&->&Hhit); [lia|lia|lia|naive_solver|]. cbn [mbind option_bind].
    assert (Hni : ∀ j, j < i → ¬ occurs h needle j).
    { intros j Hj Ho. destruct (Z.lt_ge_cases j p); [by apply (Hno j)|].
      apply (Hbefore j); [lia|]. by apply (occurs_head h needle). }
    destruct hit.
    + exists (Some i). split; [done|]. split; [by apply Hhit|done].
    + apply IH; [done|lia|lia|]. intros j Hj. destruct (decide (j = i)) as [->|]; [naive_solver|]. apply Hni. lia.
  - exists None. split; [done|]. intros j Hj. pose proof (occurs_bounds _ _ _ Hj).
    destruct (Z.lt_ge_cases j p); [by apply (Hno j)|]. apply (Hr j); [lia|]. by apply (occurs_head h needle).
Qed.

Lemma memnrstr_loop_ok h needle fuel : ∀ p,
  let len := Z.of_nat (length needle) in
  2 <= len → -1 <= p <= Z.of_nat (length h) - len → p + 2 <= Z.of_nat fuel →
  (∀ j, p < j → ¬ occurs h needle j) →
  ∃ r, memnrstr_loop fuel h needle len p = Some r ∧ last_occurrence h needle r.
Proof.
  cbv zeta. induction fuel as [|fuel IH]; intros p Hlen Hp Hf Hno; [simpl in Hf; lia|]. cbn [memnrstr_loop].
  destruct (needle_head needle) as [c Hc]; [lia|]. rewrite Hc. cbn [mbind option_bind].
  destruct (zend_memrchr_spec h c (p + 1)) as (r&->&Hr); [lia|]. cbn [mbind option_bind]. destruct r as [i|].
  - destruct Hr as (Hi&Hci&Hafter).
    destruct (matches_ok h needle i) as (hit&->&Hhit); [lia|lia|lia|naive_solver|]. cbn [mbind option_bind].
    assert (Hni : ∀ j, i < j → ¬ occurs h needle j).
    { intros j Hj Ho. destruct (Z.lt_ge_cases p j); [by apply (Hno j)|].
      apply (Hafter j); [lia|]. by apply (occurs_head h needle). }
    destruct hit.
    + exists (Some i). split; [done|]. split; [by apply Hhit|done].
    + rewrite (proj2 (Z.leb_le _ _)) by lia. apply IH; [done|lia|lia|].
      intros j Hj. destruct (decide (j = i)) as [->|]; [naive_solver|]. apply Hni. lia.
  - exists None. split; [done|]. intros j Hj. pose proof (occurs_bounds _ _ _ Hj).
    destruct (Z.lt_ge_cases p j); [by apply (Hno j)|]. apply (Hr j); [lia|]. by apply (occurs_head h needle).
Qed.

(** The empty byte string occurs everywhere. *)
Lemma occurs_empty h i : occurs h [] i ↔ 0 <= i <= Z.of_nat (length h).
Proof.
  unfold occurs, segment. cbn [length]. change (Z.of_nat 0) with 0. split.
  - destruct (Z.leb_spec 0 i), (Z.leb_spec (i + 0) (Z.of_nat (length h))); intros; (done || lia).
  - intros ?. by rewrite !(proj2 (Z.leb_le _ _)) by lia.
Qed.

(** The inline substring searches return, read nothing outside the haystack
    and the needle, and find the first (zend_memnstr) and the last (zend_memnrstr)
    occurrence or none when there is none: for the empty needle, a single byte, a
    needle longer than the haystack, and every haystack and needle short enough
    for the inline loop; the loop of zend_memrchr is the library's memrchr. *)
Theorem memnstr_finds ex exr h needle :
  ((length h < 1024)%nat ∨ (length needle < 9)%nat →
     ∃ r, zend_memnstr ex h needle = Some r ∧ first_occurrence h needle r) ∧
  ((length h < 1024)%nat ∨ (length needle < 3)%nat →
     ∃ r, zend_memnrstr exr h needle = Some r ∧ last_occurrence h needle r) ∧
  (∀ c n, 0 <= n <= Z.of_nat (length h) → zend_memrchr h c n = memrchr h 0 c n).
Proof.
  rewrite (assoc (∧)). split; [|intros c n; apply zend_memrchr_library].
  unfold zend_memnstr, zend_memnrstr. destruct needle as [|a [|b l]].
  - simpl. split; intros _; (eexists; split; [done|]); split.
    + apply occurs_empty. lia.
    + intros j Hj ?%occurs_empty. lia.
    + apply occurs_empty. lia.
    + intros j Hj ?%occurs_empty. lia.
  - simpl. split; intros _.
    + destruct (memchr_spec h 0 a (Z.of_nat (length h))) as (r&->&Hr); [lia..|]. exists r. split; [done|].
      destruct r as [i|]; simpl; setoid_rewrite occurs_single.
      * destruct Hr as (Hi&Hc&Hj). split; [done|]. intros j Hlt Ha. pose proof (byte_at_range _ _ _ Ha).
        apply (Hj j); [lia|done].
      * intros j Ha. pose proof (byte_at_range _ _ _ Ha). apply (Hr j); [lia|done].
    + destruct (zend_memrchr_spec h a (Z.of_nat (length h))) as (r&->&Hr); [lia..|]. exists r. split; [done|].
      destruct r as [i|]; simpl; setoid_rewrite occurs_single.
      * destruct Hr as (Hi&Hc&Hj). split; [done|]. intros j Hlt Ha. pose proof (byte_at_range _ _ _ Ha).
        apply (Hj j); [lia|done].
      * intros j Ha. pose proof (byte_at_range _ _ _ Ha). apply (Hr j); [lia|done].
  - set (needle := a :: b :: l). assert (Hlen : 2 <= Z.of_nat (length needle)) by (simpl; lia).
    rewrite !(proj2 (Z.eqb_neq _ _)) by lia. destruct (Z.ltb_spec (Z.of_nat (length h)) (Z.of_nat (length needle))).
    + split; intros _; (exists None; split; [done|]); intros j ?%occurs_bounds; lia.
    + split; intros Hin.
      * replace ((Z.of_nat (length h) <? 1024) || (Z.of_nat (length needle) <? 9)) with true by lia.
        apply memnstr_loop_ok; [done|lia|lia|]. intros j Hj ?%occurs_bounds. lia.
      * replace ((Z.of_nat (length h) <? 1024) || (Z.of_nat (length needle) <? 3)) with true by lia.
        apply memnrstr_loop_ok; [done|lia|lia|]. intros j Hj ?%occurs_bounds. lia.
Qed.
End search.

(** ** Decimal text *)
Module DecimalText.

Definition ch_0 : Z := 48.
Definition ch_9 : Z := 57.
Definition ch_minus : Z := 45.
Definition ZEND_IS_DIGIT (c : Z) : bool := (ch_0 <=? c) && (c <=? ch_9).

(** The conversion of an [int] to a [char]. *)
Definition char_of (z : Z) : byte := default NUL (Byte.of_N (Z.to_N (z mod 256))).

(** [do { *--buf = (char) (num % 10) + '0'; num /= 10; } while (num > 0)]; a word
    has at most twenty digits. *)
Fixpoint print_ulong_loop (fuel : nat) (m : bytes) (buf num : Z) : option (bytes * Z) :=
  match fuel with
  | O => None
  | S fuel =>
      let buf := buf - 1 in
      m ← put_byte m buf (char_of (num mod 10 + ch_0));
      let num := num / 10 in
      if 0 <? num then print_ulong_loop fuel m buf num else Some (m, buf)
  end.
Definition zend_print_ulong_to_buf (m : bytes) (buf num : Z) : option (bytes * Z) :=
  m ← put_byte m buf NUL; print_ulong_loop 20 m buf num.
Definition zend_print_long_to_buf (m : bytes) (buf num : Z) : option (bytes * Z) :=
  if num <? 0 then
    '(m, result) ← zend_print_ulong_to_buf m buf (u64 (u64 (Z.lnot (u64 num)) + 1));
    let result := result - 1 in
    m ← put_byte m result (char_of ch_minus);
    Some (m, result)
  else zend_print_ulong_to_buf m buf num.
End DecimalText.
Export DecimalText.

Section print.
Implicit Types (m ds : bytes).

Definition digit (b : byte) : bool := ZEND_IS_DIGIT (uchar b).
Definition dec_value ds : Z := fold_left (λ n b, 10 * n + (uchar b - ch_0)) ds 0.
(** Digits without a leading zero. *)
Definition canonical ds : bool :=
  forallb digit ds && match ds with [] => false | [_] => true | d :: _ => negb (uchar d =? ch_0) end.
(** The decimal text of an integer. *)
Definition decimal (num : Z) (t : bytes) : Prop :=
  if num <? 0 then ∃ ds, t = char_of ch_minus :: ds ∧ canonical ds = true ∧ dec_value ds = - num
  else canonical t = true ∧ dec_value t = num.

(** The text [t] stored before [buf], with the terminator at [buf]. *)
Definition text_before m (buf : Z) (t : bytes) : bytes :=
  take (Z.to_nat buf - length t) m ++ t ++ [NUL] ++ drop (S (Z.to_nat buf)) m.

Lemma uchar_char_of z : 0 <= z < 256 → uchar (char_of z) = z.
Proof.
  intros Hz. unfold uchar, char_of. rewrite Z.mod_small by lia.
  destruct (Byte.of_N (Z.to_N z)) as [b|] eqn:Hb.
  - apply Byte.to_of_N in Hb. simpl. lia.
  - apply Byte.of_N_None_iff in Hb. lia.
Qed.

Lemma digit_char_of d : 0 <= d < 10 → digit (char_of (d + ch_0)) = true ∧ uchar (char_of (d + ch_0)) - ch_0 = d.
Proof.
  intros Hd. unfold digit, ZEND_IS_DIGIT, ch_0, ch_9. rewrite uchar_char_of by lia. split; lia.
Qed.

Lemma dec_value_snoc ds b : dec_value (ds ++ [b]) = 10 * dec_value ds + (uchar b - ch_0).
Proof. unfold dec_value. by rewrite fold_left_app. Qed.

(** A digit more after a number that is not zero. *)
Lemma canonical_snoc ds b : canonical ds = true → 0 < dec_value ds → digit b = true → canonical (ds ++ [b]) = true.
Proof.
  unfold canonical. rewrite forallb_app, !andb_true_iff. intros [Hd Hc] Hpos Hb.
  split; [split; [done|by simpl; rewrite Hb]|]. destruct ds as [|d [|d' ds]]; [done| |done]. simpl in *.
  unfold dec_value in Hpos. simpl in Hpos. destruct (Z.eqb_spec (uchar d) ch_0); [lia|done].
Qed.

Lemma put_byte_ok m (i : nat) b : (i < length m)%nat → put_byte m (Z.of_nat i) b = Some (<[i := b]> m).
Proof.
  intros Hi. unfold put_byte. by rewrite (proj2 (Z.leb_le _ _)), (proj2 (Z.ltb_lt _ _)), Nat2Z.id by lia.
Qed.

Lemma print_loop_ok fuel : ∀ m (buf : nat) num,
  0 <= num < 10 ^ Z.of_nat fuel → (0 < fuel ≤ buf)%nat → (buf ≤ length m)%nat →
  ∃ ds, canonical ds = true ∧ dec_value ds = num ∧ (length ds ≤ fuel)%nat ∧
    print_ulong_loop fuel m (Z.of_nat buf) num
    = Some (take (buf - length ds) m ++ ds ++ drop buf m, Z.of_nat (buf - length ds)).
Proof.
  induction fuel as [|fuel IH]; intros m buf num Hnum Hbuf Hm; [lia|]. cbn [print_ulong_loop].
  destruct buf as [|buf]; [lia|]. replace (Z.of_nat (S buf) - 1) with (Z.of_nat buf) by lia.
  rewrite put_byte_ok by lia. cbn [mbind option_bind].
  destruct (digit_char_of (num mod 10)) as [Hd Hv]; [apply Z.mod_pos_bound; lia|].
  set (c := char_of (num mod 10 + ch_0)) in *. pose proof (Z.div_mod num 10 ltac:(lia)) as Hdm.
  assert (Hdrop : drop buf (<[buf:=c]> m) = c :: drop (S buf) m).
  { rewrite insert_take_drop by lia. apply drop_app_length'. rewrite length_take. lia. }
  destruct (Z.ltb_spec 0 (num / 10)) as [Hpos|Hzero].
  - assert (Hfuel : (0 < fuel)%nat) by (destruct fuel; [rewrite Z.div_small in Hpos; simpl in *; lia|lia]).
    destruct (IH (<[buf:=c]> m) buf (num / 10)) as (ds&Hc&Hval&Hlen&->); [|lia|rewrite length_insert; lia|].
    { rewrite Nat2Z.inj_succ, Z.pow_succ_r in Hnum by lia. split; [lia|]. apply Z.div_lt_upper_bound; lia. }
    exists (ds ++ [c]). rewrite dec_value_snoc, length_app. simpl. rewrite Hdrop, take_insert_ge by lia.
    split_and!; [apply canonical_snoc; [done|lia|done]|lia|lia|].
    replace (S buf - (length ds + 1))%nat with (buf - length ds)%nat by lia. by rewrite <- app_assoc.
  - pose proof (Z.div_pos num 10). assert (Hz : num / 10 = 0) by lia.
    exists [c]. unfold canonical, dec_value. simpl. rewrite Hd, Nat.sub_0_r.
    split_and!; [done|lia|lia|]. rewrite <- (take_drop buf (<[buf:=c]> m)) at 1. by rewrite Hdrop, take_insert_ge by lia.
Qed.

Lemma print_loop_more fuel : ∀ m buf num r,
  print_ulong_loop fuel m buf num = Some r → print_ulong_loop (S fuel) m buf num = Some r.
Proof.
  induction fuel as [|fuel IH]; intros m buf num r H; [done|]. cbn [print_ulong_loop] in H.
  remember (S fuel) as f. cbn [print_ulong_loop]. destruct (put_byte _ _ _); [|done]. cbn [mbind option_bind] in *.
  destruct (0 <? num / 10); [|done]. subst f. by apply IH.
Qed.

Lemma print_ulong_ok (k : nat) m (buf : nat) num :
  0 <= num < 10 ^ Z.of_nat k → (0 < k ≤ 20)%nat → (k ≤ buf < length m)%nat →
  ∃ ds, canonical ds = true ∧ dec_value ds = num ∧ (length ds ≤ k)%nat ∧
    zend_print_ulong_to_buf m (Z.of_nat buf) num
    = Some (text_before m (Z.of_nat buf) ds, Z.of_nat buf - Z.of_nat (length ds)).
Proof.
  intros Hnum Hk Hbuf. destruct (print_loop_ok k (<[buf := NUL]> m) buf num) as (ds&Hc&Hv&Hlen&Hrun);
    [done|lia|rewrite length_insert; lia|].
  exists ds. split_and!; [done..|]. unfold zend_print_ulong_to_buf. rewrite put_byte_ok by lia. cbn [mbind option_bind].
  assert (Hrun' : ∀ n, print_ulong_loop (n + k) (<[buf:=NUL]> m) (Z.of_nat buf) num
            = Some (take (buf - length ds) (<[buf:=NUL]> m) ++ ds ++ drop buf (<[buf:=NUL]> m),
                    Z.of_nat (buf - length ds))).
  { induction n as [|n IHn]; [done|]. by apply print_loop_more. }
  specialize (Hrun' (20 - k)%nat). replace (20 - k + k)%nat with 20%nat in Hrun' by lia.
  rewrite Hrun'. unfold text_before. rewrite Nat2Z.id, take_insert_ge by lia. f_equal. f_equal; [|lia].
  do 2 f_equal. rewrite insert_take_drop by lia. apply drop_app_length'. rewrite length_take. lia.
Qed.

Lemma print_spec m (buf : nat) num :
  (20 ≤ buf < length m)%nat →
  (in_u64 num → ∃ t, decimal num t ∧ (length t ≤ 20)%nat ∧
     zend_print_ulong_to_buf m (Z.of_nat buf) num
     = Some (text_before m (Z.of_nat buf) t, Z.of_nat buf - Z.of_nat (length t))) ∧
  (- 2 ^ 63 <= num < 2 ^ 63 → ∃ t, decimal num t ∧ (length t ≤ 20)%nat ∧
     zend_print_long_to_buf m (Z.of_nat buf) num
     = Some (text_before m (Z.of_nat buf) t, Z.of_nat buf - Z.of_nat (length t))).
Proof.
  intros Hbuf. split; intros Hnum.
  - destruct (print_ulong_ok 20 m buf num) as (ds&?&?&?&?); [unfold in_u64 in *; lia|lia|lia|].
    exists ds. unfold decimal. rewrite (proj2 (Z.ltb_ge _ _)) by (apply Hnum). by split_and!.
  - unfold decimal, zend_print_long_to_buf. destruct (Z.ltb_spec num 0) as [Hneg|Hpos].
    + assert (Habs : u64 (u64 (Z.lnot (u64 num)) + 1) = - num).
      { unfold Z.lnot. rewrite <- (u64_small (- num)) by lia. unfold u64.
        rewrite <- Z.sub_1_r, Zplus_mod_idemp_l. replace (- (num mod 2 ^ 64) - 1 + 1) with (0 - num mod 2 ^ 64) by lia.
        by rewrite Zminus_mod_idemp_r. }
      rewrite Habs. destruct (print_ulong_ok 19 m buf (- num)) as (ds&Hc&Hv&Hlen&->); [lia|lia|lia|].
      cbn [mbind option_bind]. exists (char_of ch_minus :: ds). split; [by exists ds|]. split; [simpl; lia|].
      replace (Z.of_nat buf - Z.of_nat (length ds) - 1) with (Z.of_nat (buf - length ds - 1)) by lia.
      unfold text_before. rewrite Nat2Z.id.
      rewrite put_byte_ok by (rewrite length_app, length_take; lia). cbn [mbind option_bind length].
      f_equal. f_equal; [|lia]. rewrite insert_app_l by (rewrite length_take; lia).
      replace (buf - length ds)%nat with (S (buf - length ds - 1)) at 1 by lia.
      rewrite insert_take_drop by (rewrite length_take; lia).
      rewrite take_take, drop_ge by (rewrite length_take; lia). rewrite Nat.min_l by lia.
      rewrite <- app_assoc. simpl. do 2 f_equal. lia.
    + destruct (print_ulong_ok 20 m buf num) as (ds&?&?&?&?); [lia..|]. exists ds. by split_and!.
Qed.

(** The decimal printers write the canonical decimal text of the number, at
    most twenty bytes with the sign even for the smallest long, right before the
    end pointer with a terminator after it, change nothing else in the buffer and
    return a pointer to the first byte of the text. *)
Theorem print_decimal m (buf : nat) num :
  (20 ≤ buf < length m)%nat →
  (in_u64 num → ∃ t, decimal num t ∧ (length t ≤ 20)%nat ∧
     zend_print_ulong_to_buf m (Z.of_nat buf) num
     = Some (text_before m (Z.of_nat buf) t, Z.of_nat buf - Z.of_nat (length t))) ∧
  (- 2 ^ 63 <= num < 2 ^ 63 → ∃ t, decimal num t ∧ (length t ≤ 20)%nat ∧
     zend_print_long_to_buf m (Z.of_nat buf) num
     = Some (text_before m (Z.of_nat buf) t, Z.of_nat buf - Z.of_nat (length t))).
Proof. apply print_spec. Qed.
End print.
