(* ===== verification/ZendCase.v ===== *)
(** * Text without regard to case (Zend/zend_operators.h)

    The search for a byte string whatever the case of its letters, the comparison
    it is built on, and the length of a bounded C string. The tables
    [zend_tolower_map] and [zend_toupper_map] are data of the engine library. *)

From S2P Require Import Prelude ZendOperators.

(** The two tables of 256 bytes. *)
Class CaseMaps : Type := {
  zend_tolower_map : byte → byte;
  zend_toupper_map : byte → byte }.

(** What they hold: the letters of ASCII change their case, other bytes stay. *)
Class CaseLaws `{CaseMaps} : Prop := {
  tolower_ascii b : uchar (zend_tolower_map b) = if (65 <=? uchar b) && (uchar b <=? 90) then uchar b + 32 else uchar b;
  toupper_ascii b : uchar (zend_toupper_map b) = if (97 <=? uchar b) && (uchar b <=? 122) then uchar b - 32 else uchar b }.

Module CaseSearch.
Section defs.
Context `{CaseMaps}.

Definition zend_tolower_ascii (c : byte) : byte := zend_tolower_map c.
Definition zend_toupper_ascii (c : byte) : byte := zend_toupper_map c.

(** [num] bytes at [ptr1] and at [ptr2], one pair after the other. *)
Fixpoint strnieq_loop (m1 : bytes) (ptr1 : Z) (m2 : bytes) (ptr2 : Z) (num : nat) : option bool :=
  match num with
  | O => Some true
  | S num =>
      a ← byte_at m1 ptr1;
      b ← byte_at m2 ptr2;
      if decide (zend_tolower_ascii a = zend_tolower_ascii b)
      then strnieq_loop m1 (ptr1 + 1) m2 (ptr2 + 1) num else Some false
  end.
Definition zend_strnieq (m1 : bytes) (ptr1 : Z) (m2 : bytes) (ptr2 num : Z) : option bool :=
  strnieq_loop m1 ptr1 m2 ptr2 (Z.to_nat num).

(** [!p_upper || (p_lower && p_lower < p_upper) ? p_lower : p_upper]. *)
Definition pick (p_lower p_upper : option Z) : option Z :=
  match p_upper, p_lower with
  | None, _ => p_lower
  | Some u, Some l => if l <? u then p_lower else p_upper
  | Some _, None => p_upper
  end.

(** [if (p_c == p) p_c = memchr(p_c + 1, c, end - p_c);]. *)
Definition advance (haystack : bytes) (c : byte) (p_c : option Z) (p end_ : Z) : option (option Z) :=
  if bool_decide (p_c = Some p) then memchr haystack (p + 1) c (end_ - p) else Some p_c.

Fixpoint memnistr_loop (fuel : nat) (haystack needle : bytes) (needle_len : Z) (first_lower first_upper : byte)
    (needle_end_lower needle_end_upper : byte) (p_lower p_upper : option Z) (end_ : Z) : option (option Z) :=
  match fuel with
  | O => None
  | S fuel =>
      match pick p_lower p_upper with
      | None => Some None
      | Some p =>
          if p <=? end_ then
            last ← byte_at haystack (p + needle_len - 1);
            hit ← (if bool_decide (needle_end_lower = last) || bool_decide (needle_end_upper = last)
                   then zend_strnieq needle 1 haystack (p + 1) (needle_len - 2) else Some false);
            if hit : bool then Some (Some p)
            else
              p_lower ← advance haystack first_lower p_lower p end_;
              p_upper ← advance haystack first_upper p_upper p end_;
              memnistr_loop fuel haystack needle needle_len first_lower first_upper
                needle_end_lower needle_end_upper p_lower p_upper end_
          else Some None
      end
  end.

(** The haystack is the bytes up to [end]; pointers are offsets in it. *)
Definition zend_memnistr (haystack needle : bytes) : option (option Z) :=
  let needle_len := Z.of_nat (length needle) in
  let off_e := Z.of_nat (length haystack) in
  if needle_len =? 0 then Some (Some 0)
  else if off_e <? needle_len then Some None
  else
    n0 ← byte_at needle 0;
    let first_lower := zend_tolower_ascii n0 in
    let first_upper := zend_toupper_ascii n0 in
    p_lower ← memchr haystack 0 first_lower off_e;
    p_upper ← (if bool_decide (first_lower ≠ first_upper) then
                 let upper_search_length :=
                   match p_lower with Some l => if needle_len =? 1 then l else off_e | None => off_e end in
                 memchr haystack 0 first_upper upper_search_length
               else Some None);
    if needle_len =? 1 then Some (pick p_lower p_upper)
    else
      ne ← byte_at needle (needle_len - 1);
      memnistr_loop (S (length haystack)) haystack needle needle_len first_lower first_upper
        (zend_tolower_ascii ne) (zend_toupper_ascii ne) p_lower p_upper (off_e - needle_len).

(** Without [strnlen]: [memchr(s, '\0', maxlen)], or [maxlen]. *)
Definition zend_strnlen (m : bytes) (s maxlen : Z) : option Z :=
  r ← memchr m s NUL maxlen; Some (match r with Some p => p - s | None => maxlen end).
End defs.
End CaseSearch.
Export CaseSearch.

(** ** Equality of bytes and texts up to case *)
Section fold.
Context {maps : CaseMaps} {laws : CaseLaws}.
Implicit Types (b c : byte) (h needle : bytes).

Definition fold_case (s : bytes) : bytes := zend_tolower_map <$> s.

Lemma uchar_inj b c : uchar b = uchar c → b = c.
Proof.
  unfold uchar. intros E. assert (E' : Byte.to_N b = Byte.to_N c) by lia.
  apply (f_equal Byte.of_N) in E'. rewrite !Byte.of_to_N in E'. congruence.
Qed.

(** A byte equals another up to case when it is its lower or its upper form. *)
Lemma tolower_eq b c : zend_tolower_map b = zend_tolower_map c ↔ b = zend_tolower_map c ∨ b = zend_toupper_map c.
Proof using laws.
  assert (Hu : ∀ x y : byte, x = y ↔ uchar x = uchar y) by (intros; split; [congruence|apply uchar_inj]).
  rewrite !Hu, !tolower_ascii, toupper_ascii. pose proof (uchar_range b). pose proof (uchar_range c).
  repeat match goal with |- context [?x <=? ?y] => destruct (Z.leb_spec x y) end; simpl; lia.
Qed.

(** An occurrence up to case, and the first one. *)
Definition occurs_ci h needle (i : Z) : Prop := occurs (fold_case h) (fold_case needle) i.
Definition first_occurrence_ci h needle (r : option Z) : Prop := first_occurrence (fold_case h) (fold_case needle) r.

Lemma fold_case_length s : length (fold_case s) = length s.
Proof. apply length_fmap. Qed.

Lemma byte_at_fold h i : byte_at (fold_case h) i = zend_tolower_map <$> byte_at h i.
Proof. unfold byte_at, fold_case. destruct (0 <=? i); [|done]. by rewrite list_lookup_fmap. Qed.

Lemma segment_fold h i n : segment (fold_case h) i n = fold_case <$> segment h i n.
Proof.
  unfold segment. rewrite fold_case_length. destruct (_ && _); [|done]. simpl. f_equal. unfold fold_case.
  by rewrite <- fmap_drop, <- fmap_take.
Qed.

Lemma occurs_ci_bounds h needle i :
  occurs_ci h needle i → 0 <= i ∧ i + Z.of_nat (length needle) <= Z.of_nat (length h).
Proof. intros Ho%occurs_bounds. by rewrite !fold_case_length in Ho. Qed.

(** An occurrence starts with the lower or the upper form of the first byte. *)
Lemma occurs_ci_head h needle c j :
  byte_at needle 0 = Some c → occurs_ci h needle j →
  ∃ b, byte_at h j = Some b ∧ (b = zend_tolower_map c ∨ b = zend_toupper_map c).
Proof using laws.
  intros Hc Ho. apply (occurs_head _ _ (zend_tolower_map c)) in Ho; [|by rewrite byte_at_fold, Hc].
  rewrite byte_at_fold in Ho. destruct (byte_at h j) as [b|]; [|done]. exists b. split; [done|].
  apply tolower_eq. by injection Ho.
Qed.

(** The comparison decides equality up to case of the two stretches. *)
Lemma strnieq_loop_spec m1 p1 m2 p2 n s1 s2 :
  segment m1 p1 (Z.of_nat n) = Some s1 → segment m2 p2 (Z.of_nat n) = Some s2 →
  strnieq_loop m1 p1 m2 p2 n = Some (bool_decide (fold_case s1 = fold_case s2)).
Proof.
  revert p1 p2 s1 s2. induction n as [|n IH]; intros p1 p2 s1 s2 H1 H2.
  - apply segment_length in H1, H2. destruct s1, s2; try (simpl in *; lia). done.
  - destruct s1 as [|a s1]; [by apply segment_length in H1|]. destruct s2 as [|b s2]; [by apply segment_length in H2|].
    pose proof (segment_length _ _ _ _ H1) as L1. pose proof (segment_length _ _ _ _ H2) as L2.
    rewrite <- L1 in H1. rewrite <- L2 in H2.
    apply (segment_app m1 p1 [a] s1) in H1 as [Ha H1]. apply (segment_app m2 p2 [b] s2) in H2 as [Hb H2].
    cbn [strnieq_loop]. rewrite (proj2 (byte_at_iff _ _ _) Ha), (proj2 (byte_at_iff _ _ _) Hb). cbn [mbind option_bind].
    unfold zend_tolower_ascii. destruct (decide _) as [E|E].
    + simpl in L1, L2. replace (Z.of_nat (length s1)) with (Z.of_nat n) in H1 by lia.
      replace (Z.of_nat (length s2)) with (Z.of_nat n) in H2 by lia. rewrite (IH (p1 + 1) (p2 + 1) s1 s2 H1 H2).
      f_equal. apply bool_decide_ext. unfold fold_case. rewrite !fmap_cons, E. naive_solver congruence.
    + f_equal. symmetry. apply bool_decide_eq_false. unfold fold_case. rewrite !fmap_cons. congruence.
Qed.
End fold.

(** ** The search *)
Section memnistr.
Context {maps : CaseMaps} {laws : CaseLaws}.
Implicit Types (h needle : bytes) (c : byte).

(** The next byte [c] from [q] on, as far as [e] is concerned. *)
Definition next_at h c (q e : Z) (r : option Z) : Prop :=
  match r with
  | Some l => q <= l ∧ byte_at h l = Some c ∧ ∀ j, q <= j < l → byte_at h j ≠ Some c
  | None => ∀ j, q <= j <= e → byte_at h j ≠ Some c
  end.

(** The test of the loop is the test of the exact search on the folded texts. *)
Lemma ci_test h needle p last ne :
  (2 ≤ length needle)%nat → 0 <= p → p + Z.of_nat (length needle) <= Z.of_nat (length h) →
  byte_at h (p + Z.of_nat (length needle) - 1) = Some last →
  byte_at needle (Z.of_nat (length needle) - 1) = Some ne →
  (if bool_decide (zend_tolower_ascii ne = last) || bool_decide (zend_toupper_ascii ne = last)
   then zend_strnieq needle 1 h (p + 1) (Z.of_nat (length needle) - 2) else Some false)
  = matches (fold_case h) (fold_case needle) (Z.of_nat (length needle)) p.
Proof using laws.
  intros Hlen Hp Hend Hlast Hne. unfold matches. rewrite !byte_at_fold, Hlast, Hne. cbn [fmap option_fmap option_map mbind option_bind].
  assert (Htest : bool_decide (zend_tolower_ascii ne = last) || bool_decide (zend_toupper_ascii ne = last) =
    bool_decide (zend_tolower_map ne = zend_tolower_map last)).
  { unfold zend_tolower_ascii, zend_toupper_ascii. rewrite <- bool_decide_or. apply bool_decide_ext.
    transitivity (zend_tolower_map last = zend_tolower_map ne); [rewrite tolower_eq|]; naive_solver. }
  rewrite Htest. destruct (decide (zend_tolower_map ne = zend_tolower_map last)) as [E|E];
    [rewrite bool_decide_true by done|by rewrite bool_decide_false].
  destruct (segment_some needle 1 (Z.of_nat (length needle) - 2)) as [s1 Hs1]; [lia..|].
  destruct (segment_some h (p + 1) (Z.of_nat (length needle) - 2)) as [s2 Hs2]; [lia..|].
  unfold memcmp_eq. rewrite !segment_fold, Hs1, Hs2. cbn [fmap option_fmap option_map mbind option_bind].
  unfold zend_strnieq. apply strnieq_loop_spec; by rewrite Z2Nat.id by lia.
Qed.

Lemma pick_least r1 r2 p :
  pick r1 r2 = Some p → (∀ l, r1 = Some l → p <= l) ∧ (∀ u, r2 = Some u → p <= u) ∧ (r1 = Some p ∨ r2 = Some p).
Proof.
  unfold pick. destruct r1 as [l|], r2 as [u|]; try destruct (Z.ltb_spec l u); intros [= <-];
    split_and!; intros; simplify_eq; (lia || auto).
Qed.

(** The earlier of the two pointers is the next byte of either form. *)
Lemma pick_next h c1 c2 q e r1 r2 :
  next_at h c1 q e r1 → next_at h c2 q e r2 ∨ (c1 = c2 ∧ r2 = None) →
  match pick r1 r2 with
  | Some p => q <= p ∧ (byte_at h p = Some c1 ∨ byte_at h p = Some c2) ∧
              ∀ j, q <= j < p → j <= e → byte_at h j ≠ Some c1 ∧ byte_at h j ≠ Some c2
  | None => ∀ j, q <= j <= e → byte_at h j ≠ Some c1 ∧ byte_at h j ≠ Some c2
  end.
Proof.
  intros H1 [H2|[<- ->]].
  - destruct r1 as [l|], r2 as [u|]; cbn [pick next_at] in *; [destruct (Z.ltb_spec l u)|..|].
    5: intros j Hj; split; [apply H1|apply H2]; lia.
    all: split; [lia|split; [tauto|]]; intros j Hj Hje; split; [apply H1|apply H2]; lia.
  - simpl. destruct r1 as [l|]; simpl in H1; naive_solver.
Qed.

Lemma advance_next h c q p e r :
  next_at h c q e r → 0 <= q <= p → p <= e → e < Z.of_nat (length h) → (∀ l, r = Some l → p <= l) →
  ∃ r', advance h c r p e = Some r' ∧ next_at h c (p + 1) e r'.
Proof.
  intros Hr Hq He Hlen Hp. unfold advance. case_bool_decide as E.
  - destruct (memchr_spec h (p + 1) c (e - p)) as (r'&->&Hr'); [lia..|]. exists r'. split; [done|].
    destruct r' as [l|]; simpl in *; [|intros j Hj; apply Hr'; lia]. destruct Hr' as (?&?&?). split_and!; [lia|done|done].
  - exists r. split; [done|]. destruct r as [l|]; simpl in *; [|intros j Hj; apply Hr; lia].
    assert (p ≠ l) by congruence. specialize (Hp l eq_refl). destruct Hr as (?&?&Hj). split_and!; [lia|done|].
    intros j Hjl. apply Hj. lia.
Qed.

Lemma memnistr_loop_ok h needle c ne fuel : ∀ q r1 r2,
  let len := Z.of_nat (length needle) in let end_ := Z.of_nat (length h) - len in
  let lo := zend_tolower_map c in let up := zend_toupper_map c in
  2 <= len → 0 <= q → 0 <= end_ → end_ - q + 2 <= Z.of_nat fuel → (1 ≤ fuel)%nat →
  byte_at needle 0 = Some c → byte_at needle (len - 1) = Some ne →
  (∀ j, j < q → ¬ occurs_ci h needle j) →
  next_at h lo q end_ r1 → next_at h up q end_ r2 ∨ (lo = up ∧ r2 = None) →
  ∃ r, memnistr_loop fuel h needle len lo up (zend_tolower_ascii ne) (zend_toupper_ascii ne) r1 r2 end_ = Some r ∧
    first_occurrence_ci h needle r.
Proof using laws.
  cbv zeta. induction fuel as [|fuel IH]; intros q r1 r2 Hlen Hq Hend Hf Hf1 Hc Hne Hno H1 H2; [lia|].
  cbn [memnistr_loop]. pose proof (pick_next h _ _ q _ r1 r2 H1 H2) as Hpick.
  set (end_ := Z.of_nat (length h) - Z.of_nat (length needle)) in *.
  assert (Hskip : ∀ j p, q <= j < p → j <= end_ → (∀ j, q <= j < p → j <= end_ →
     byte_at h j ≠ Some (zend_tolower_map c) ∧ byte_at h j ≠ Some (zend_toupper_map c)) → ¬ occurs_ci h needle j).
  { intros j p Hj Hje Hall Ho. destruct (occurs_ci_head h needle c j Hc Ho) as (b&Hb&Heq).
    destruct (Hall j Hj Hje) as [Ha1 Ha2]. destruct Heq as [->| ->]; congruence. }
  assert (Hnone : (∀ j, q <= j <= end_ → byte_at h j ≠ Some (zend_tolower_map c) ∧ byte_at h j ≠ Some (zend_toupper_map c)) →
     first_occurrence_ci h needle None).
  { intros Hall j Ho. pose proof (occurs_ci_bounds _ _ _ Ho). destruct (Z.lt_ge_cases j q); [by apply (Hno j)|].
    apply (Hskip j (end_ + 1)); [lia|lia| |done]. intros k Hk Hke. apply Hall. lia. }
  destruct (pick r1 r2) as [p|] eqn:Hpk; [|exists None; split; [done|by apply Hnone]].
  destruct Hpick as (Hqp&Hbp&Hbefore). destruct (Z.leb_spec p end_) as [Hpe|Hpe].
  2:{ exists None. split; [done|]. apply Hnone. intros j Hj. apply Hbefore; lia. }
  destruct (segment_some h (p + Z.of_nat (length needle) - 1) 1) as [s Hs]; [lia..|].
  destruct s as [|last [|? ?]]; [by apply segment_length in Hs| |apply segment_length in Hs; simpl in Hs; lia].
  apply byte_at_iff in Hs. rewrite Hs. cbn [mbind option_bind].
  rewrite (ci_test h needle p last ne) by (done || lia).
  destruct (matches_ok (fold_case h) (fold_case needle) p) as (hit&Hm&Hhit); rewrite ?fold_case_length; [lia..| |].
  { intros b. rewrite !byte_at_fold, Hc. intros [= <-]. assert (Hp : ∃ b, byte_at h p = Some b ∧
      (b = zend_tolower_map c ∨ b = zend_toupper_map c)) by naive_solver.
    destruct Hp as (b&->&Hb). simpl. f_equal. by apply tolower_eq. }
  rewrite fold_case_length in Hm. rewrite Hm. cbn [mbind option_bind].
  assert (Hni : ∀ j, j < p → ¬ occurs_ci h needle j).
  { intros j Hj. destruct (Z.lt_ge_cases j q); [by apply Hno|]. by apply (Hskip j p); [lia|lia|]. }
  destruct hit; [exists (Some p); split; [done|split; [by apply Hhit|done]]|].
  destruct (pick_least r1 r2 p Hpk) as (Hl&Hu&_).
  destruct (advance_next h _ q p end_ r1 H1) as (r1'&->&H1'); [lia..|done|]. cbn [mbind option_bind].
  assert (Hadv : ∃ r2', advance h (zend_toupper_map c) r2 p end_ = Some r2' ∧
    (next_at h (zend_toupper_map c) (p + 1) end_ r2' ∨ (zend_tolower_map c = zend_toupper_map c ∧ r2' = None))).
  { destruct H2 as [H2|[E ->]]; [|exists None; split; [done|by right]].
    destruct (advance_next h _ q p end_ r2 H2) as (r2'&?&?); [lia..|done|]. exists r2'. auto. }
  destruct Hadv as (r2'&->&H2'). cbn [mbind option_bind]. apply (IH (p + 1)); try done; try lia.
  intros j Hj. destruct (decide (j = p)) as [->|]; [|apply Hni; lia]. intros Ho. by apply Hhit in Ho.
Qed.

Lemma next_at_memchr h c n e :
  0 <= n <= Z.of_nat (length h) → (e < n ∨ n = Z.of_nat (length h)) →
  ∃ r, memchr h 0 c n = Some r ∧ next_at h c 0 e r ∧ (∀ l, r = Some l → l < n).
Proof.
  intros Hn He. destruct (memchr_spec h 0 c n) as (r&->&Hr); [lia..|]. exists r. split; [done|].
  destruct r as [l|]; simpl in *; [destruct Hr as (?&?&?); split; [by repeat split; try lia|intros ? [= <-]; lia]|].
  split; [|done]. intros j Hj Hb. pose proof (byte_at_range _ _ _ Hb). apply (Hr j); [lia|done].
Qed.

Lemma occurs_ci_single h c j :
  occurs_ci h [c] j ↔ byte_at h j = Some (zend_tolower_map c) ∨ byte_at h j = Some (zend_toupper_map c).
Proof using laws.
  unfold occurs_ci. change (fold_case [c]) with [zend_tolower_map c]. rewrite occurs_single, byte_at_fold.
  destruct (byte_at h j) as [b|]; simpl.
  - rewrite !(inj_iff Some). apply tolower_eq.
  - split; [done|by intros [|]].
Qed.

(** A needle of one byte: the second scan stops where the first has found one. *)
Lemma memnistr_single h c :
  (1 ≤ length h)%nat → ∃ r, zend_memnistr h [c] = Some r ∧ first_occurrence_ci h [c] r.
Proof using laws.
  intros Hh. unfold zend_memnistr. change (Z.of_nat (length [c])) with 1. cbn [Z.eqb].
  rewrite (proj2 (Z.ltb_ge _ _)) by lia. change (byte_at [c] 0) with (Some c). cbn [mbind option_bind].
  set (lo := zend_tolower_ascii c). set (up := zend_toupper_ascii c). set (n := Z.of_nat (length h)).
  destruct (next_at_memchr h lo n n) as (r1&->&H1&Hb1); [lia|auto|]. cbn [mbind option_bind Pos.eqb].
  assert (Hfirst : ∀ r, match r with
     | Some p => 0 <= p ∧ (byte_at h p = Some lo ∨ byte_at h p = Some up) ∧
                 ∀ j, 0 <= j < p → j <= n → byte_at h j ≠ Some lo ∧ byte_at h j ≠ Some up
     | None => ∀ j, 0 <= j <= n → byte_at h j ≠ Some lo ∧ byte_at h j ≠ Some up
     end → first_occurrence_ci h [c] r).
  { intros [p|]; [intros (Hp&Hhit&Hbefore)|intros Hall].
    - split; [by apply occurs_ci_single|]. intros j Hj Ho. pose proof (occurs_ci_bounds _ _ _ Ho) as Hr. simpl in Hr.
      apply occurs_ci_single in Ho. destruct (Hbefore j) as [? ?]; [lia|lia|]. by destruct Ho.
    - intros j Ho. pose proof (occurs_ci_bounds _ _ _ Ho) as Hr. simpl in Hr. apply occurs_ci_single in Ho.
      destruct (Hall j) as [? ?]; [lia|]. by destruct Ho. }
  case_bool_decide as E; cbn [mbind option_bind].
  - destruct r1 as [l|].
    + destruct (next_at_memchr h up l (l - 1)) as (r2&->&H2&Hb2); [specialize (Hb1 l eq_refl); simpl in H1; lia|lia|].
      cbn [mbind option_bind]. eexists. split; [done|]. apply Hfirst. destruct H1 as (Hl&Hlo&Hbl).
      destruct r2 as [u|]; cbn [pick next_at] in *.
      * specialize (Hb2 u eq_refl). rewrite (proj2 (Z.ltb_ge _ _)) by lia. destruct H2 as (Hu&Hup&Hbu).
        split; [lia|]. split; [by right|]. intros j Hj _. split; [apply Hbl|apply Hbu]; lia.
      * split; [lia|]. split; [by left|]. intros j Hj _. split; [apply Hbl|apply H2]; lia.
    + destruct (next_at_memchr h up n n) as (r2&->&H2&_); [lia|auto|]. cbn [mbind option_bind]. eexists.
      split; [done|]. apply Hfirst. by apply (pick_next h lo up 0 n None r2); [|left].
  - eexists. split; [done|]. apply Hfirst. apply (pick_next h lo up 0 n r1 None); [done|]. right. split; [|done].
    destruct (decide (lo = up)); [done|]. by destruct E.
Qed.

(** C40: The search for a text up to case returns, reads nothing outside the
    haystack and the needle, and finds the first place where the needle occurs
    when the case of letters is ignored, or none when there is none: for every
    needle and haystack, the empty ones and a needle longer than the haystack
    included. It walks two pointers, one per case of the first letter, and never
    skips or repeats a place. *)
Theorem memnistr_finds h needle :
  ∃ r, zend_memnistr h needle = Some r ∧ first_occurrence_ci h needle r.
Proof using laws.
  destruct (decide (length needle = 0%nat)) as [H0|H0].
  { apply nil_length_inv in H0 as ->. exists (Some 0). split; [done|]. split; [apply occurs_empty; lia|].
    intros j Hj ?%occurs_empty. lia. }
  destruct (decide (length h < length needle)%nat) as [Hs|Hs].
  { exists None. split; [|intros j ?%occurs_ci_bounds; lia]. unfold zend_memnistr.
    by rewrite (proj2 (Z.eqb_neq _ _)), (proj2 (Z.ltb_lt _ _)) by lia. }
  destruct (decide (length needle = 1%nat)) as [H1|H1].
  { destruct needle as [|c [|? ?]]; [done| |done]. apply memnistr_single. simpl in *. lia. }
  unfold zend_memnistr. rewrite !(proj2 (Z.eqb_neq _ _)), (proj2 (Z.ltb_ge _ _)) by lia.
  destruct (needle_head needle) as [c Hc]; [lia|]. rewrite Hc. cbn [mbind option_bind].
  destruct (segment_some needle (Z.of_nat (length needle) - 1) 1) as [s Hne]; [lia..|].
  destruct s as [|ne [|? ?]]; [by apply segment_length in Hne| |apply segment_length in Hne; simpl in Hne; lia].
  apply byte_at_iff in Hne. set (n := Z.of_nat (length h)).
  destruct (next_at_memchr h (zend_tolower_ascii c) n (n - Z.of_nat (length needle))) as (r1&->&Hr1&_); [lia..|].
  destruct (next_at_memchr h (zend_toupper_ascii c) n (n - Z.of_nat (length needle))) as (r2&Hm2&Hr2&_); [lia..|].
  cbn [mbind option_bind].
  assert (Hup : ∃ r2', (if bool_decide (zend_tolower_ascii c ≠ zend_toupper_ascii c)
      then memchr h 0 (zend_toupper_ascii c) match r1 with Some l => n | None => n end else Some None) = Some r2' ∧
    (next_at h (zend_toupper_ascii c) 0 (n - Z.of_nat (length needle)) r2' ∨
     (zend_tolower_ascii c = zend_toupper_ascii c ∧ r2' = None))).
  { case_bool_decide as E; [exists r2|exists None]; (split; [by destruct r1|]); [by left|right; split; [|done]].
    destruct (decide (zend_tolower_ascii c = zend_toupper_ascii c)); [done|]. by destruct E. }
  destruct Hup as (r2'&->&Hr2'). cbn [mbind option_bind]. rewrite Hne. cbn [mbind option_bind].
  apply (memnistr_loop_ok h needle c ne _ 0); try done; try lia. intros j Hj ?%occurs_ci_bounds. lia.
Qed.

(** The bounded length: the bytes before the first NUL, or all of them. *)
Theorem strnlen_counts m s maxlen :
  0 <= s → 0 <= maxlen → s + maxlen <= Z.of_nat (length m) →
  ∃ n, zend_strnlen m s maxlen = Some n ∧ 0 <= n <= maxlen ∧
    (∀ j, s <= j < s + n → byte_at m j ≠ Some NUL) ∧ (n < maxlen → byte_at m (s + n) = Some NUL).
Proof.
  intros Hs Hm Hend. unfold zend_strnlen. destruct (memchr_spec m s NUL maxlen) as (r&->&Hr); [done..|].
  cbn [mbind option_bind]. eexists. split; [done|]. destruct r as [p|].
  - destruct Hr as (Hp&Hb&Hj). split; [lia|]. split; [intros j ?; apply Hj; lia|].
    intros _. by replace (s + (p - s)) with p by lia.
  - split; [lia|]. split; [done|lia].
Qed.
End memnistr.
