(* ===== verification/ZendBuffers.v ===== *)
(** * Growing strings (Zend/zend_smart_str.h)

    A [smart_str] is a string under construction: a [zend_string] with one owner
    and the number of characters its allocation has room for. The functions that
    make room are compiled into the engine library and are parameters; what they
    promise is stated as a class. *)

From S2P Require Import Prelude ZendTypes ZendString ZendOperators.

Record smart_str : Type := SmartStr { ss_s : option loc; ss_a : Z }.

(** [smart_str_erealloc] and [smart_str_realloc]: make room for [len] characters. *)
Class SmartStrAlloc : Type := {
  smart_str_erealloc : Z → smart_str → zheap → option (smart_str * zheap);
  smart_str_realloc : Z → smart_str → zheap → option (smart_str * zheap);
  zend_empty_string : loc }.

Module Smart.
Section smart.
Context {alloc : SmartStrAlloc}.
Implicit Types (str dest : smart_str) (heap : zheap) (persistent : bool).

(** [ZSTR_LEN(s) = len]. *)
Definition set_ZSTR_LEN (s : loc) (len : Z) heap : option zheap :=
  o ← heap !! s; '(h, _, val) ← as_string o; Some (<[s := with_string o h len val]> heap).

Definition do_smart_str_realloc str (len : Z) persistent heap : option (smart_str * zheap) :=
  if persistent then smart_str_realloc len str heap else smart_str_erealloc len str heap.

Definition smart_str_alloc str (len : Z) persistent heap : option (Z * smart_str * zheap) :=
  match ss_s str with
  | None => '(str, heap) ← do_smart_str_realloc str len persistent heap; Some (len, str, heap)
  | Some s =>
      o ← heap !! s; slen ← ZSTR_LEN o;
      let len := u64 (len + slen) in
      if ss_a str <=? len then
        '(str, heap) ← do_smart_str_realloc str len persistent heap; Some (len, str, heap)
      else Some (len, str, heap)
  end.

(** The pointer returned is an offset into the characters. *)
Definition smart_str_extend_ex dest (len : Z) persistent heap : option (Z * smart_str * zheap) :=
  '(new_len, dest, heap) ← smart_str_alloc dest len persistent heap;
  s ← ss_s dest; o ← heap !! s; ret ← ZSTR_LEN o;
  heap ← set_ZSTR_LEN s new_len heap;
  Some (ret, dest, heap).
Definition smart_str_extend dest (length : Z) heap : option (Z * smart_str * zheap) :=
  smart_str_extend_ex dest length false heap.

Definition smart_str_free_ex str persistent heap : option (smart_str * zheap) :=
  match ss_s str with
  | Some s => heap ← zend_string_release_ex s persistent heap; Some (SmartStr None 0, heap)
  | None => Some (SmartStr None 0, heap)
  end.
Definition smart_str_free str heap : option (smart_str * zheap) := smart_str_free_ex str false heap.

Definition smart_str_0 str heap : option zheap :=
  match ss_s str with
  | Some s => o ← heap !! s; len ← ZSTR_LEN o; zstr_write s (Z.to_nat len) [Some NUL] heap
  | None => Some heap
  end.

Definition smart_str_get_len str heap : option Z :=
  match ss_s str with Some s => o ← heap !! s; ZSTR_LEN o | None => Some 0 end.

Definition smart_str_trim_to_size_ex str persistent heap : option (smart_str * zheap) :=
  match ss_s str with
  | Some s =>
      o ← heap !! s; len ← ZSTR_LEN o;
      if len <? ss_a str then
        '(s, heap) ← zend_string_realloc s len persistent heap;
        o ← heap !! s; len ← ZSTR_LEN o;
        Some (SmartStr (Some s) len, heap)
      else Some (str, heap)
  | None => Some (str, heap)
  end.
Definition smart_str_trim_to_size dest heap : option (smart_str * zheap) := smart_str_trim_to_size_ex dest false heap.

Definition smart_str_extract_ex str persistent heap : option (loc * smart_str * zheap) :=
  match ss_s str with
  | Some _ =>
      heap ← smart_str_0 str heap;
      '(str, heap) ← smart_str_trim_to_size_ex str persistent heap;
      res ← ss_s str;
      Some (res, SmartStr None (ss_a str), heap)
  | None => Some (zend_empty_string, str, heap)
  end.
Definition smart_str_extract dest heap : option (loc * smart_str * zheap) := smart_str_extract_ex dest false heap.

Definition smart_str_appendc_ex dest (ch : byte) persistent heap : option (smart_str * zheap) :=
  '(new_len, dest, heap) ← smart_str_alloc dest 1 persistent heap;
  s ← ss_s dest;
  heap ← zstr_write s (Z.to_nat (new_len - 1)) [Some ch] heap;
  heap ← set_ZSTR_LEN s new_len heap;
  Some (dest, heap).

(** [memcpy] reads the source when room has been made. *)
Definition append_from (src : zheap → option bytes) dest (len : Z) persistent heap : option (smart_str * zheap) :=
  '(new_len, dest, heap) ← smart_str_alloc dest len persistent heap;
  s ← ss_s dest; o ← heap !! s; slen ← ZSTR_LEN o;
  bs ← src heap;
  heap ← zstr_write s (Z.to_nat slen) (Some <$> bs) heap;
  heap ← set_ZSTR_LEN s new_len heap;
  Some (dest, heap).
(** The [len] bytes at [str], that lie outside the heap of strings. *)
Definition smart_str_appendl_ex dest (str : bytes) persistent heap : option (smart_str * zheap) :=
  append_from (λ _, Some str) dest (Z.of_nat (length str)) persistent heap.
Definition smart_str_append_ex dest (src : loc) persistent heap : option (smart_str * zheap) :=
  o ← heap !! src; len ← ZSTR_LEN o;
  append_from (λ heap, o ← heap !! src; '(_, _, val) ← as_string o; read_bytes (Z.to_nat len) val)
    dest len persistent heap.
Definition smart_str_append_smart_str_ex dest (src : smart_str) persistent heap : option (smart_str * zheap) :=
  match ss_s src with
  | Some s =>
      o ← heap !! s; len ← ZSTR_LEN o;
      if negb (len =? 0) then smart_str_append_ex dest s persistent heap else Some (dest, heap)
  | None => Some (dest, heap)
  end.

(** [buf] is the array of 32 characters, with whatever it holds at first. *)
Definition append_text (buf : bytes) (printed : option (bytes * Z)) dest persistent heap : option (smart_str * zheap) :=
  '(m, result) ← printed;
  t ← segment m result (Z.of_nat (length buf) - 1 - result);
  smart_str_appendl_ex dest t persistent heap.
Definition smart_str_append_long_ex (buf : bytes) dest (num : Z) persistent heap : option (smart_str * zheap) :=
  append_text buf (zend_print_long_to_buf buf (Z.of_nat (length buf) - 1) num) dest persistent heap.
Definition smart_str_append_unsigned_ex (buf : bytes) dest (num : Z) persistent heap : option (smart_str * zheap) :=
  append_text buf (zend_print_ulong_to_buf buf (Z.of_nat (length buf) - 1) num) dest persistent heap.

Definition smart_str_append_long buf dest num heap := smart_str_append_long_ex buf dest num false heap.
Definition smart_str_append_unsigned buf dest num heap := smart_str_append_unsigned_ex buf dest num false heap.
Definition smart_str_appendl dest (src : bytes) heap := smart_str_appendl_ex dest src false heap.
(** A C string stands for its bytes up to the terminator: [strlen] counts them. *)
Definition smart_str_appends_ex dest (src : bytes) persistent heap := smart_str_appendl_ex dest src persistent heap.
Definition smart_str_appends dest (src : bytes) heap := smart_str_appendl_ex dest src false heap.
Definition smart_str_append dest (src : loc) heap := smart_str_append_ex dest src false heap.
Definition smart_str_appendc dest (ch : byte) heap := smart_str_appendc_ex dest ch false heap.
Definition smart_str_append_smart_str dest src heap := smart_str_append_smart_str_ex dest src false heap.

Definition smart_str_setl dest (src : bytes) heap : option (smart_str * zheap) :=
  '(dest, heap) ← smart_str_free dest heap; smart_str_appendl dest src heap.
Definition smart_str_sets dest (src : bytes) heap : option (smart_str * zheap) := smart_str_setl dest src heap.
End smart.
End Smart.
Export Smart.

(** ** What a smart string stands for *)

(** The largest length the engine makes room for here. *)
Definition max_text : Z := 2 ^ 62.

(** The object is a string of one owner with contents [bs] and room for [a]
    characters and a terminator. *)
Definition text_object (persistent : bool) (bs : bytes) (a : Z) (o : zend_refcounted) : Prop :=
  ∃ h val, gc_body o = BString h (Z.of_nat (length bs)) val ∧ gc_refcount o = 1 ∧ ZSTR_IS_INTERNED o = false ∧
    has_flag o IS_STR_PERSISTENT = persistent ∧
    Z.of_nat (length bs) <= a < Z.of_nat (length val) ∧ take (length bs) val = Some <$> bs.
Definition holds_text (persistent : bool) (bs : bytes) (str : smart_str) (heap : zheap) : Prop :=
  match ss_s str with
  | None => bs = []
  | Some s => ∃ o, heap !! s = Some o ∧ text_object persistent bs (ss_a str) o
  end.

(** Only the string under construction changes; when it moves, it moves to memory
    that was free. *)
Definition only_text (str str' : smart_str) (heap heap' : zheap) : Prop :=
  (∀ l, ss_s str ≠ Some l → ss_s str' ≠ Some l → heap' !! l = heap !! l) ∧
  (∀ l, ss_s str' = Some l → ss_s str ≠ Some l → heap !! l = None) ∧
  (∀ l, ss_s str = Some l → ss_s str' ≠ Some l → heap' !! l = None).

Class SmartStrLaws {alloc : SmartStrAlloc} : Prop := {
  (** The contents are kept and there is room for [len] characters. *)
  smart_str_realloc_law persistent bs (str : smart_str) len heap :
    holds_text persistent bs str heap → Z.of_nat (length bs) <= len <= max_text →
    ∃ str' heap', (if persistent then smart_str_realloc len str heap else smart_str_erealloc len str heap)
                  = Some (str', heap') ∧
      is_Some (ss_s str') ∧ holds_text persistent bs str' heap' ∧ len <= ss_a str' <= ZSTR_MAX_LEN ∧
      only_text str str' heap heap' }.

Section smart_str.
Context {alloc : SmartStrAlloc} {laws : SmartStrLaws}.
Implicit Types (str dest : smart_str) (heap : zheap) (bs t : bytes) (p : bool).

Lemma text_len p bs a o : text_object p bs a o → ZSTR_LEN o = Some (Z.of_nat (length bs)).
Proof using Type. intros (h&val&Hb&_). unfold ZSTR_LEN, as_string. by rewrite Hb. Qed.

Lemma only_text_refl str heap : only_text str str heap heap.
Proof using Type. split_and!; intros; congruence. Qed.

Lemma only_text_insert str str' heap heap' s o :
  only_text str str' heap heap' → ss_s str' = Some s → only_text str str' heap (<[s := o]> heap').
Proof using Type.
  intros (H1&H2&H3) Hs. split_and!; [|done|].
  - intros l Hl Hl'. rewrite lookup_insert_ne by congruence. by apply H1.
  - intros l Hl Hl'. rewrite lookup_insert_ne by congruence. by apply H3.
Qed.

(** The steps compose: the text moves through free memory only. *)
Lemma only_text_trans str1 str2 str3 h1 h2 h3 :
  only_text str1 str2 h1 h2 → only_text str2 str3 h2 h3 → only_text str1 str3 h1 h3.
Proof using Type.
  intros (A1&A2&A3) (B1&B2&B3). split_and!.
  - intros l Hl Hl3. destruct (decide (ss_s str2 = Some l)) as [Hl2|Hl2].
    + by rewrite (B3 l Hl2 Hl3), (A2 l Hl2 Hl).
    + by rewrite (B1 l Hl2 Hl3), (A1 l Hl Hl2).
  - intros l Hl3 Hl. destruct (decide (ss_s str2 = Some l)) as [Hl2|Hl2]; [by apply A2|].
    by rewrite <- (A1 l Hl Hl2), (B2 l Hl3 Hl2).
  - intros l Hl Hl3. destruct (decide (ss_s str2 = Some l)) as [Hl2|Hl2]; [by apply B3|].
    by rewrite (B1 l Hl2 Hl3), (A3 l Hl Hl2).
Qed.

(** Room is there after [smart_str_alloc], and the length to come is returned. *)
Lemma alloc_ok p bs str n heap :
  holds_text p bs str heap → 0 <= n → Z.of_nat (length bs) + n <= max_text →
  ∃ str' heap' s o, smart_str_alloc str n p heap = Some (Z.of_nat (length bs) + n, str', heap') ∧
    ss_s str' = Some s ∧ heap' !! s = Some o ∧ text_object p bs (ss_a str') o ∧
    Z.of_nat (length bs) + n <= ss_a str' ∧ only_text str str' heap heap'.
Proof using laws.
  intros Ht Hn Hmax. unfold smart_str_alloc, do_smart_str_realloc.
  pose proof (smart_str_realloc_law p bs str (Z.of_nat (length bs) + n) heap Ht) as Hre.
  destruct Hre as (str'&heap'&Hre&[s Hs]&Ht'&Ha&Hm); [lia|]. unfold holds_text in Ht, Ht'. rewrite Hs in Ht'.
  destruct Ht' as (o'&Ho'&Hobj'). destruct (ss_s str) as [s0|] eqn:Hs0.
  - destruct Ht as (o&Ho&Hobj). rewrite Ho. cbn [mbind option_bind]. rewrite (text_len _ _ _ _ Hobj).
    cbn [mbind option_bind]. unfold max_text in Hmax. rewrite u64_small by lia. rewrite (Z.add_comm n).
    destruct (Z.leb_spec (ss_a str) (Z.of_nat (length bs) + n)).
    + rewrite Hre. cbn [mbind option_bind]. exists str', heap', s, o'. split_and!; try done; lia.
    + exists str, heap, s0, o. split_and!; try done; try lia; apply only_text_refl.
  - subst bs. cbn [length] in *. change (Z.of_nat 0 + n) with n in *. rewrite Hre. cbn [mbind option_bind]. exists str', heap', s, o'. split_and!; try done; lia.
Qed.

(** Characters written behind the text, and the length brought up. *)
Lemma write_ok p bs t a o s heap :
  heap !! s = Some o → text_object p bs a o → Z.of_nat (length bs) + Z.of_nat (length t) <= a →
  ∃ heap1 o', zstr_write s (length bs) (Some <$> t) heap = Some heap1 ∧
    set_ZSTR_LEN s (Z.of_nat (length bs) + Z.of_nat (length t)) heap1 = Some (<[s := o']> heap) ∧
    text_object p (bs ++ t) a o'.
Proof using Type.
  intros Ho (h&val&Hb&Hrc&Hi&Hp&Ha&Hv) Hroom. unfold zstr_write, set_ZSTR_LEN, as_string. rewrite Ho.
  cbn [mbind option_bind]. rewrite Hb. cbn [mbind option_bind].
  rewrite blk_write_fits by (rewrite length_fmap; lia). cbn [mbind option_bind]. eexists _, _. split; [done|].
  rewrite lookup_insert_eq. cbn [mbind option_bind gc_body with_string]. split; [by rewrite insert_insert_eq|].
  eexists _, _. split; [cbn; by rewrite length_app, Nat2Z.inj_add|]. split_and!; try done.
  - rewrite length_app. lia.
  - rewrite !length_app, length_take, length_drop, length_fmap. lia.
  - rewrite Hv, fmap_app, app_assoc. apply take_app_length'. by rewrite !length_app, !length_fmap.
Qed.

(** What an append does. *)
Definition appends p bs t str heap (r : option (smart_str * zheap)) : Prop :=
  ∃ str' heap', r = Some (str', heap') ∧ holds_text p (bs ++ t) str' heap' ∧ only_text str str' heap heap'.

Lemma append_from_ok p bs t str heap src :
  holds_text p bs str heap → Z.of_nat (length bs) + Z.of_nat (length t) <= max_text →
  (∀ heap', (∀ l, is_Some (heap !! l) → ss_s str ≠ Some l → heap' !! l = heap !! l) → src heap' = Some t) →
  appends p bs t str heap (append_from src str (Z.of_nat (length t)) p heap).
Proof using laws.
  intros Ht Hmax Hsrc. destruct (alloc_ok p bs str (Z.of_nat (length t)) heap) as (str'&heap'&s&o&Hrun&Hs&Ho&Hobj&Ha&Hm);
    [done|lia|done|]. unfold append_from. rewrite Hrun. cbn [mbind option_bind]. rewrite Hs. cbn [mbind option_bind].
  rewrite Ho. cbn [mbind option_bind]. rewrite (text_len _ _ _ _ Hobj). cbn [mbind option_bind].
  rewrite Hsrc. 2:{ destruct Hm as (Hm1&Hm2&_). intros l [x Hx] Hl. destruct (decide (ss_s str' = Some l)) as [Hl'|Hl'].
    - apply Hm2 in Hl'; [congruence|done].
    - by apply Hm1. }
  cbn [mbind option_bind]. rewrite Nat2Z.id.
  destruct (write_ok p bs t (ss_a str') o s heap' Ho Hobj Ha) as (heap1&o'&->&Hset&Hobj').
  cbn [mbind option_bind]. rewrite Hset. cbn [mbind option_bind]. eexists _, _. split; [done|]. split.
  - unfold holds_text. rewrite Hs. exists o'. by rewrite lookup_insert_eq.
  - by apply only_text_insert.
Qed.

Lemma appendl_ok p bs t str heap :
  holds_text p bs str heap → Z.of_nat (length bs) + Z.of_nat (length t) <= max_text →
  appends p bs t str heap (smart_str_appendl_ex str t p heap).
Proof using laws. intros Ht Hmax. by apply append_from_ok. Qed.

Lemma appendc_ok p bs c str heap :
  holds_text p bs str heap → Z.of_nat (length bs) + 1 <= max_text →
  appends p bs [c] str heap (smart_str_appendc_ex str c p heap).
Proof using laws.
  intros Ht Hmax. destruct (alloc_ok p bs str 1 heap) as (str'&heap'&s&o&Hrun&Hs&Ho&Hobj&Ha&Hm); [done|lia|done|].
  unfold smart_str_appendc_ex. rewrite Hrun. cbn [mbind option_bind]. rewrite Hs. cbn [mbind option_bind].
  replace (Z.to_nat (Z.of_nat (length bs) + 1 - 1)) with (length bs) by lia.
  destruct (write_ok p bs [c] (ss_a str') o s heap' Ho Hobj) as (heap1&o'&Hw&Hset&Hobj'); [simpl; lia|].
  change [Some c] with (Some <$> [c]). rewrite Hw. cbn [mbind option_bind length] in *.
  change (Z.of_nat 1) with 1 in Hset. rewrite Hset. cbn [mbind option_bind].
  eexists _, _. split; [done|]. split.
  - unfold holds_text. rewrite Hs. exists o'. by rewrite lookup_insert_eq.
  - by apply only_text_insert.
Qed.

(** Another string, well formed or itself under construction. *)
Lemma append_ok p bs t str src o heap :
  holds_text p bs str heap → Z.of_nat (length bs) + Z.of_nat (length t) <= max_text →
  heap !! src = Some o → ss_s str ≠ Some src →
  ZSTR_LEN o = Some (Z.of_nat (length t)) → zstr_bytes o = Some t →
  appends p bs t str heap (smart_str_append_ex str src p heap).
Proof using laws.
  intros Ht Hmax Ho Hne Hlen Hbs. unfold smart_str_append_ex. rewrite Ho. cbn [mbind option_bind]. rewrite Hlen.
  cbn [mbind option_bind]. apply append_from_ok; [done|done|]. intros heap' Hsame.
  rewrite Hsame, Ho by (by rewrite ?Ho). cbn [mbind option_bind]. unfold zstr_bytes, ZSTR_LEN in *.
  destruct (as_string o) as [[[h len] val]|]; [|done]. simpl in *. injection Hlen as ->. done.
Qed.

Lemma text_segment (m t : bytes) (buf : nat) :
  (length t ≤ buf < length m)%nat →
  segment (text_before m (Z.of_nat buf) t) (Z.of_nat buf - Z.of_nat (length t)) (Z.of_nat (length t)) = Some t.
Proof using Type.
  intros Hb. apply segment_iff. unfold text_before. rewrite Nat2Z.id. eexists _, _. split; [done|].
  rewrite length_take. split; [lia|done].
Qed.

Lemma append_text_ok p bs t buf str heap :
  holds_text p bs str heap → Z.of_nat (length bs) + 20 <= max_text → (20 < length buf)%nat → (length t ≤ 20)%nat →
  appends p bs t str heap
    (append_text buf (Some (text_before buf (Z.of_nat (length buf - 1)) t, Z.of_nat (length buf - 1) - Z.of_nat (length t)))
       str p heap).
Proof using laws.
  intros Ht Hmax Hbuf Hlen. unfold append_text. cbn [mbind option_bind].
  replace (Z.of_nat (length buf) - 1 - (Z.of_nat (length buf - 1) - Z.of_nat (length t))) with (Z.of_nat (length t)) by lia.
  rewrite text_segment by lia. cbn [mbind option_bind]. apply appendl_ok; [done|lia].
Qed.

(** *** Extraction and release *)

Lemma forget_hash_flags o o' :
  forget_hash o = Some o' →
  ZSTR_IS_INTERNED o' = ZSTR_IS_INTERNED o ∧ has_flag o' IS_STR_PERSISTENT = has_flag o IS_STR_PERSISTENT.
Proof using Type.
  unfold forget_hash. destruct (as_string o) as [[[h len] val]|]; [|done]. intros [= <-].
  unfold ZSTR_IS_INTERNED, has_flag, GC_FLAGS, zval_gc_flags, gc_del_flags, GC_FLAGS_SHIFT. simpl.
  rewrite !Z.shiftr_0_r. by rewrite <- !Z.land_assoc.
Qed.

(** The only owner shrinks the allocation to the length. *)
Lemma realloc_same s o bs p heap :
  heap !! s = Some o → zstr_ok bs o → gc_refcount o = 1 → ZSTR_IS_INTERNED o = false →
  Z.of_nat (length bs) <= max_text →
  ∃ s' o', zend_string_realloc s (Z.of_nat (length bs)) p heap = Some (s', <[s' := o']> (delete s heap)) ∧
    delete s heap !! s' = None ∧ zstr_ok bs o' ∧ gc_refcount o' = 1 ∧ ZSTR_IS_INTERNED o' = false ∧
    has_flag o' IS_STR_PERSISTENT = has_flag o IS_STR_PERSISTENT.
Proof using Type.
  intros Ho Hok Hrc Hi Hmax. unfold zend_string_realloc. rewrite Ho. cbn [mbind option_bind].
  rewrite (zstr_ok_len _ _ Hok). cbn [mbind option_bind]. rewrite Hi, Hrc. cbn [negb andb Z.eqb Pos.eqb].
  pose proof (zstr_ok_capacity _ _ Hok) as (h&val&Hb&Hv&Ht).
  assert (Hlen : 0 <= Z.of_nat (length bs) <= ZSTR_MAX_LEN).
  { unfold max_text in Hmax. split; [lia|]. trans (2 ^ 62); [done|by vm_compute]. }
  pose proof (zstr_alloc_size_ge _ Hlen) as Ha. unfold zstr_realloc, as_string. rewrite Ho. cbn [mbind option_bind].
  rewrite Hb. cbn [mbind option_bind]. rewrite (proj2 (Z.leb_le _ _)) by lia. cbv zeta.
  set (cap := Z.to_nat (zstr_alloc_size (Z.of_nat (length bs)) - ZSTR_HEADER_SIZE)).
  set (val' := take cap val ++ replicate (cap - length val) None).
  destruct (forget_hash (with_string o h (Z.of_nat (length bs)) val')) as [o'|] eqn:Hf; [|done].
  cbn [mbind option_bind]. destruct (forget_hash_flags _ _ Hf) as [Hi' Hp'].
  unfold forget_hash, as_string in Hf. simpl in Hf. injection Hf as <-.
  unfold halloc. eexists _, _. split; [done|]. split; [apply not_elem_of_dom, is_fresh|].
  split_and!; [|done|by rewrite Hi'|by rewrite Hp']. eexists _, val'. split; [done|]. subst val'.
  rewrite take_app_le by (rewrite length_take; lia). by rewrite take_take, Nat.min_l by lia.
Qed.

Lemma smart_0_ok p bs a o s heap :
  heap !! s = Some o → text_object p bs a o →
  ∃ o', zstr_write s (length bs) [Some NUL] heap = Some (<[s := o']> heap) ∧ zstr_ok bs o' ∧ text_object p bs a o'.
Proof using Type.
  intros Ho (h&val&Hb&Hrc&Hi&Hp&Ha&Hv). unfold zstr_write, as_string. rewrite Ho. cbn [mbind option_bind]. rewrite Hb.
  cbn [mbind option_bind]. rewrite blk_write_fits by (simpl; lia). cbn [mbind option_bind length].
  eexists. split; [done|]. rewrite Hv. split.
  - eexists _, _. split; [done|]. rewrite app_assoc. apply take_app_length'.
    rewrite length_app, length_fmap. simpl. lia.
  - eexists _, _. split; [done|]. split_and!; try done; [lia| |by apply take_app_length'; rewrite length_fmap].
    rewrite !length_app, length_fmap, length_drop. simpl. lia.
Qed.

(** The string handed out: well formed, with one owner. *)
Definition extracted p bs str heap (r : option (loc * smart_str * zheap)) : Prop :=
  ∃ res str' heap' o, r = Some (res, str', heap') ∧ ss_s str' = None ∧ heap' !! res = Some o ∧ zstr_ok bs o ∧
    gc_refcount o = 1 ∧ ZSTR_IS_INTERNED o = false ∧ has_flag o IS_STR_PERSISTENT = p ∧
    only_text str (SmartStr (Some res) 0) heap heap'.

Lemma extract_ok p bs str s heap :
  holds_text p bs str heap → ss_s str = Some s → Z.of_nat (length bs) <= max_text →
  extracted p bs str heap (smart_str_extract_ex str p heap).
Proof using Type.
  intros Ht Hs Hmax. unfold holds_text in Ht. rewrite Hs in Ht. destruct Ht as (o&Ho&Hobj).
  unfold smart_str_extract_ex, smart_str_0, smart_str_trim_to_size_ex. rewrite Hs, Ho. cbn [mbind option_bind].
  rewrite (text_len _ _ _ _ Hobj). cbn [mbind option_bind]. rewrite Nat2Z.id.
  destruct (smart_0_ok p bs (ss_a str) o s heap Ho Hobj) as (o1&->&Hok&Hobj1). cbn [mbind option_bind].
  rewrite lookup_insert_eq. cbn [mbind option_bind]. rewrite (text_len _ _ _ _ Hobj1). cbn [mbind option_bind].
  pose proof Hobj1 as (h1&val1&Hb1&Hrc1&Hi1&Hp1&_).
  destruct (Z.ltb_spec (Z.of_nat (length bs)) (ss_a str)).
  - destruct (realloc_same s o1 bs p (<[s := o1]> heap)) as (s'&o'&->&Hn&Hok'&Hrc'&Hi'&Hp');
      [by rewrite lookup_insert_eq|done..|]. cbn [mbind option_bind].
    rewrite lookup_insert_eq. cbn [mbind option_bind]. rewrite (zstr_ok_len _ _ Hok'). cbn [mbind option_bind ss_s].
    eexists _, _, _, o'. split; [done|]. rewrite delete_insert_eq in *. split_and!; try done; [by rewrite lookup_insert_eq|congruence|].
    split_and!; simpl.
    + intros l Hl Hl'. rewrite lookup_insert_ne, lookup_delete_ne by congruence. done.
    + intros l [= <-] Hl. by rewrite lookup_delete_ne in Hn by congruence.
    + intros l Hl Hl'. rewrite lookup_insert_ne by congruence. simplify_eq. by rewrite lookup_delete_eq.
  - cbn [mbind option_bind]. rewrite Hs. cbn [mbind option_bind]. eexists _, _, _, o1. split; [done|].
    rewrite lookup_insert_eq. split_and!; try done. split_and!; simpl.
    + intros l Hl Hl'. by rewrite lookup_insert_ne by congruence.
    + congruence.
    + congruence.
Qed.

Lemma free_ok p bs str heap :
  holds_text p bs str heap →
  ∃ heap', smart_str_free_ex str p heap = Some (SmartStr None 0, heap') ∧
    only_text str (SmartStr None 0) heap heap'.
Proof using Type.
  unfold holds_text, smart_str_free_ex. intros Ht. destruct (ss_s str) as [s|] eqn:Hs.
  - destruct Ht as (o&Ho&h&val&Hb&Hrc&Hi&Hp&_). exists (delete s heap). unfold zend_string_release_ex. rewrite Ho.
    cbn [mbind option_bind]. rewrite Hi, (GC_DELREF_lookup s heap o Ho) by lia. cbn [mbind option_bind].
    rewrite Hrc, Hp, Bool.eqb_reflx. simpl. rewrite delete_insert_eq. split; [done|]. split_and!; simpl.
    + intros l Hl _. by rewrite lookup_delete_ne by congruence.
    + done.
    + intros l Hl _. simplify_eq. by rewrite lookup_delete_eq.
  - exists heap. split; [done|]. split_and!; simpl; [done..|]. congruence.
Qed.

(** *** Numbers *)

Lemma append_unsigned_ok p bs buf num str heap :
  holds_text p bs str heap → Z.of_nat (length bs) + 20 <= max_text → length buf = 32%nat → in_u64 num →
  ∃ t, decimal num t ∧ (length t ≤ 20)%nat ∧ appends p bs t str heap (smart_str_append_unsigned_ex buf str num p heap).
Proof using laws.
  intros Ht Hmax Hbuf Hnum. destruct (proj1 (print_spec buf (length buf - 1) num ltac:(lia)) Hnum) as (t&Hd&Hlen&Hp).
  exists t. split_and!; [done..|]. unfold smart_str_append_unsigned_ex.
  replace (Z.of_nat (length buf) - 1) with (Z.of_nat (length buf - 1)) by lia. rewrite Hp.
  by apply append_text_ok; [..|lia|].
Qed.

Lemma append_long_ok p bs buf num str heap :
  holds_text p bs str heap → Z.of_nat (length bs) + 20 <= max_text → length buf = 32%nat → - 2 ^ 63 <= num < 2 ^ 63 →
  ∃ t, decimal num t ∧ (length t ≤ 20)%nat ∧ appends p bs t str heap (smart_str_append_long_ex buf str num p heap).
Proof using laws.
  intros Ht Hmax Hbuf Hnum. destruct (proj2 (print_spec buf (length buf - 1) num ltac:(lia)) Hnum) as (t&Hd&Hlen&Hp).
  exists t. split_and!; [done..|]. unfold smart_str_append_long_ex.
  replace (Z.of_nat (length buf) - 1) with (Z.of_nat (length buf - 1)) by lia. rewrite Hp.
  by apply append_text_ok; [..|lia|].
Qed.

(** The contents of a smart string, as a source. *)
Lemma append_smart_str_ok p bs q t str src heap :
  holds_text p bs str heap → holds_text q t src heap → Z.of_nat (length bs) + Z.of_nat (length t) <= max_text →
  (∀ l, ss_s src = Some l → ss_s str ≠ Some l) →
  appends p bs t str heap (smart_str_append_smart_str_ex str src p heap).
Proof using laws.
  intros Ht Hsrc Hmax Hne. unfold smart_str_append_smart_str_ex. unfold holds_text in Hsrc.
  assert (Hskip : t = [] → appends p bs t str heap (Some (str, heap))).
  { intros ->. exists str, heap. rewrite app_nil_r. split_and!; [done..|apply only_text_refl]. }
  destruct (ss_s src) as [s|] eqn:Hs; [|by apply Hskip]. destruct Hsrc as (o&Ho&Hobj). rewrite Ho.
  cbn [mbind option_bind]. rewrite (text_len _ _ _ _ Hobj). cbn [mbind option_bind].
  destruct (Z.eqb_spec (Z.of_nat (length t)) 0) as [H0|H0]; simpl.
  - apply Hskip, length_zero_iff_nil. lia.
  - apply (append_ok p bs t str s o); [done|done|done|by apply Hne|by apply (text_len q _ (ss_a src))|].
    destruct Hobj as (h&val&Hb&_&_&_&Hlen&Hv). unfold zstr_bytes, as_string, read_bytes. rewrite Hb.
    cbn [mbind option_bind]. rewrite decide_True, Nat2Z.id, Hv by lia. apply mapM_id_Some.
Qed.

(** The text replaced. *)
Lemma setl_ok bs t str heap :
  holds_text false bs str heap → Z.of_nat (length t) <= max_text →
  ∃ str' heap', smart_str_setl str t heap = Some (str', heap') ∧ holds_text false t str' heap' ∧
    only_text str str' heap heap'.
Proof using laws.
  intros Ht Hmax. destruct (free_ok false bs str heap Ht) as (heap1&Hf&Hm). unfold smart_str_setl, smart_str_free.
  rewrite Hf. cbn [mbind option_bind].
  destruct (appendl_ok false [] t (SmartStr None 0) heap1) as (str'&heap'&Ha&Ht'&Hm'); [done|done|].
  exists str', heap'. split_and!; [done|done|]. by eapply only_text_trans.
Qed.

(** Characters reserved for the caller to write. *)
Lemma extend_ok p bs n str heap :
  holds_text p bs str heap → 0 <= n → Z.of_nat (length bs) + n <= max_text →
  ∃ str' heap' s o h val, smart_str_extend_ex str n p heap = Some (Z.of_nat (length bs), str', heap') ∧
    ss_s str' = Some s ∧ heap' !! s = Some o ∧ gc_body o = BString h (Z.of_nat (length bs) + n) val ∧
    Z.of_nat (length bs) + n <= ss_a str' < Z.of_nat (length val) ∧ take (length bs) val = Some <$> bs ∧
    only_text str str' heap heap'.
Proof using laws.
  intros Ht Hn Hmax. destruct (alloc_ok p bs str n heap) as (str'&heap'&s&o&Hrun&Hs&Ho&Hobj&Ha&Hm); [done..|].
  unfold smart_str_extend_ex. rewrite Hrun. cbn [mbind option_bind]. rewrite Hs. cbn [mbind option_bind]. rewrite Ho.
  cbn [mbind option_bind]. rewrite (text_len _ _ _ _ Hobj). cbn [mbind option_bind].
  destruct Hobj as (h&val&Hb&_&_&_&Hlen&Hv). unfold set_ZSTR_LEN, as_string. rewrite Ho. cbn [mbind option_bind].
  rewrite Hb. cbn [mbind option_bind]. eexists str', _, s, _, h, val. split; [done|]. split; [done|].
  rewrite lookup_insert_eq. split_and!; try done; [lia|by apply only_text_insert].
Qed.

(** *** Claims *)

(** Every append to a smart string adds exactly its bytes to the text: a
    byte string, a character, another string or smart string, a long or an unsigned
    number in decimal; the string keeps its one owner, its room and its allocator,
    moves only to free memory, and no other object of the heap changes. Setting the
    text replaces it, and extending it reserves characters behind it. *)
Theorem smart_str_appends_text p bs str heap :
  holds_text p bs str heap → Z.of_nat (length bs) <= max_text →
  let room t := Z.of_nat (length bs) + Z.of_nat (length t) <= max_text in
  smart_str_get_len str heap = Some (Z.of_nat (length bs)) ∧
  (∀ t, room t → appends p bs t str heap (smart_str_appendl_ex str t p heap)) ∧
  (∀ c, room [c] → appends p bs [c] str heap (smart_str_appendc_ex str c p heap)) ∧
  (∀ src o t, heap !! src = Some o → zstr_ok t o → ss_s str ≠ Some src → room t →
     appends p bs t str heap (smart_str_append_ex str src p heap)) ∧
  (∀ src q t, holds_text q t src heap → (∀ l, ss_s src = Some l → ss_s str ≠ Some l) → room t →
     appends p bs t str heap (smart_str_append_smart_str_ex str src p heap)) ∧
  (∀ buf num, length buf = 32%nat → Z.of_nat (length bs) + 20 <= max_text →
     (in_u64 num → ∃ t, decimal num t ∧ appends p bs t str heap (smart_str_append_unsigned_ex buf str num p heap)) ∧
     (- 2 ^ 63 <= num < 2 ^ 63 →
      ∃ t, decimal num t ∧ appends p bs t str heap (smart_str_append_long_ex buf str num p heap))) ∧
  (∀ t, p = false → Z.of_nat (length t) <= max_text →
     ∃ str' heap', smart_str_setl str t heap = Some (str', heap') ∧ holds_text false t str' heap' ∧
       only_text str str' heap heap') ∧
  (∀ n, 0 <= n → Z.of_nat (length bs) + n <= max_text →
     ∃ str' heap' s o h val, smart_str_extend_ex str n p heap = Some (Z.of_nat (length bs), str', heap') ∧
       ss_s str' = Some s ∧ heap' !! s = Some o ∧ gc_body o = BString h (Z.of_nat (length bs) + n) val ∧
       Z.of_nat (length bs) + n <= ss_a str' < Z.of_nat (length val) ∧ take (length bs) val = Some <$> bs ∧
       only_text str str' heap heap').
Proof using laws.
  intros Ht Hmax. cbv zeta. split_and!.
  - unfold smart_str_get_len. unfold holds_text in Ht. destruct (ss_s str); [|by subst].
    destruct Ht as (o&->&Hobj). simpl. by apply (text_len p _ (ss_a str)).
  - intros t Hroom. by apply appendl_ok.
  - intros c Hroom. by apply appendc_ok.
  - intros src o t Ho Hok Hne Hroom. apply (append_ok p bs t str src o); auto using zstr_ok_len, zstr_ok_bytes.
  - intros src q t Hsrc Hne Hroom. by apply (append_smart_str_ok p bs q).
  - intros buf num Hbuf Hroom. split; intros Hnum.
    + destruct (append_unsigned_ok p bs buf num str heap) as (t&?&_&?); eauto.
    + destruct (append_long_ok p bs buf num str heap) as (t&?&_&?); eauto.
  - intros t -> Hroom. by apply (setl_ok bs).
  - intros n Hn Hroom. by apply extend_ok.
Qed.

(** One append, and the text it stands for. *)
Inductive piece : Type :=
| PBytes (t : bytes)
| PChar (c : byte)
| PLong (num : Z)
| PUnsigned (num : Z).
Definition add_piece (buf : bytes) p (x : piece) str heap : option (smart_str * zheap) :=
  match x with
  | PBytes t => smart_str_appendl_ex str t p heap
  | PChar c => smart_str_appendc_ex str c p heap
  | PLong num => smart_str_append_long_ex buf str num p heap
  | PUnsigned num => smart_str_append_unsigned_ex buf str num p heap
  end.
Fixpoint add_pieces (buf : bytes) p (xs : list piece) str heap : option (smart_str * zheap) :=
  match xs with
  | [] => Some (str, heap)
  | x :: xs => '(str, heap) ← add_piece buf p x str heap; add_pieces buf p xs str heap
  end.
Definition piece_text (x : piece) (t : bytes) : Prop :=
  match x with
  | PBytes t' => t = t'
  | PChar c => t = [c]
  | PLong num => decimal num t
  | PUnsigned num => decimal num t
  end.
Definition piece_ok (x : piece) : Prop :=
  match x with PLong num => - 2 ^ 63 <= num < 2 ^ 63 | PUnsigned num => in_u64 num | _ => True end.
(** The room a piece can take. *)
Definition piece_room (x : piece) : Z :=
  match x with PBytes t => Z.of_nat (length t) | PChar _ => 1 | _ => 20 end.

Lemma add_piece_ok buf p bs x str heap :
  holds_text p bs str heap → length buf = 32%nat → piece_ok x → Z.of_nat (length bs) + piece_room x <= max_text →
  ∃ t, piece_text x t ∧ Z.of_nat (length t) <= piece_room x ∧ appends p bs t str heap (add_piece buf p x str heap).
Proof using laws.
  intros Ht Hbuf Hok Hroom. destruct x as [t|c|num|num]; simpl in *.
  - exists t. split_and!; [done|lia|by apply appendl_ok].
  - exists [c]. split_and!; [done|simpl; lia|by apply appendc_ok].
  - destruct (append_long_ok p bs buf num str heap) as (t&?&?&?); [done..|]. exists t. split_and!; [done|lia|done].
  - destruct (append_unsigned_ok p bs buf num str heap) as (t&?&?&?); [done..|]. exists t. split_and!; [done|lia|done].
Qed.

Definition total_room (xs : list piece) : Z := foldr (λ x n, piece_room x + n) 0 xs.

Lemma add_pieces_ok buf p xs : ∀ bs str heap,
  holds_text p bs str heap → length buf = 32%nat → Forall piece_ok xs →
  Z.of_nat (length bs) + total_room xs <= max_text →
  ∃ ts, Forall2 piece_text xs ts ∧ appends p bs (concat ts) str heap (add_pieces buf p xs str heap) ∧
    Z.of_nat (length (concat ts)) <= total_room xs.
Proof using laws.
  assert (Hpos : ∀ ys, 0 <= total_room ys).
  { induction ys as [|y ys IHys]; [done|]. destruct y; simpl; lia. }
  induction xs as [|x xs IH]; intros bs str heap Ht Hbuf Hok Hroom.
  - exists []. split; [constructor|]. split; [|done]. exists str, heap. rewrite app_nil_r.
    split_and!; [done|done|apply only_text_refl].
  - inversion Hok as [|?? Hx Hxs]; subst. simpl in Hroom. pose proof (Hpos xs) as Hxs0.
    destruct (add_piece_ok buf p bs x str heap) as (t&Htx&Hlt&str1&heap1&Hr&Ht1&Hm1); [done..|lia|].
    destruct (IH (bs ++ t) str1 heap1) as (ts&Hts&(str2&heap2&Hr2&Ht2&Hm2)&Hlen); [done..|rewrite length_app; lia|].
    exists (t :: ts). split; [by constructor|]. split; [|simpl; rewrite length_app; lia].
    exists str2, heap2. simpl. rewrite Hr. cbn [mbind option_bind]. split_and!; [done|by rewrite app_assoc|].
    by eapply only_text_trans.
Qed.

(** From nothing, the text of the heap is the heap with one new object. *)
Lemma only_text_new a res heap heap' :
  only_text (SmartStr None a) (SmartStr (Some res) 0) heap heap' →
  heap !! res = None ∧ ∀ o, heap' !! res = Some o → heap' = <[res := o]> heap.
Proof using Type.
  intros (H1&H2&_). split; [by apply H2|]. intros o Ho. apply map_eq. intros l.
  destruct (decide (l = res)) as [->|]; [by rewrite lookup_insert_eq|].
  rewrite lookup_insert_ne by done. apply H1; simpl; congruence.
Qed.

Lemma only_text_none a b heap heap' : only_text (SmartStr None a) (SmartStr None b) heap heap' → heap' = heap.
Proof using Type. intros (H1&_). apply map_eq. intros l. by apply H1. Qed.

(** C36: A string built from any sequence of appends and then extracted is a new
    well-formed, terminated string of one owner with the texts of the appends in
    order, everything else in the heap being as before (the empty string of the
    engine when nothing was allocated); freed instead, the heap is exactly as
    before. *)
Theorem smart_str_builds buf p xs a heap :
  length buf = 32%nat → Forall piece_ok xs → total_room xs <= max_text →
  ∃ ts str1 heap1 res str2 heap2,
    Forall2 piece_text xs ts ∧ add_pieces buf p xs (SmartStr None a) heap = Some (str1, heap1) ∧
    smart_str_extract_ex str1 p heap1 = Some (res, str2, heap2) ∧ ss_s str2 = None ∧
    smart_str_free_ex str1 p heap1 = Some (SmartStr None 0, heap) ∧
    ((res = zend_empty_string ∧ concat ts = [] ∧ heap2 = heap) ∨
     ∃ o, heap !! res = None ∧ heap2 = <[res := o]> heap ∧ zstr_ok (concat ts) o ∧ gc_refcount o = 1 ∧
          ZSTR_IS_INTERNED o = false ∧ has_flag o IS_STR_PERSISTENT = p).
Proof using laws.
  intros Hbuf Hok Hroom.
  destruct (add_pieces_ok buf p xs [] (SmartStr None a) heap) as (ts&Hts&(str1&heap1&Hrun&Ht&Hm)&Hlen); [done..|].
  simpl in Ht. destruct (free_ok p _ str1 heap1 Ht) as (heapf&Hfree&Hmf).
  pose proof (only_text_none _ _ _ _ (only_text_trans _ _ _ _ _ _ Hm Hmf)) as ->.
  destruct (ss_s str1) as [s|] eqn:Hs.
  - destruct (extract_ok p (concat ts) str1 s heap1) as (res&str2&heap2&o&Hex&Hn&Ho&Hzok&Hrc&Hi&Hp&Hm2); [done|done|lia|].
    destruct (only_text_new a res heap heap2 (only_text_trans _ _ _ _ _ _ Hm Hm2)) as [Hfresh Heq].
    exists ts, str1, heap1, res, str2, heap2. split_and!; [done..|]. right. exists o. split_and!; [done|by apply Heq|done..].
  - exists ts, str1, heap1, zend_empty_string, str1, heap1. split_and!; [done|done| |done|done|].
    + unfold smart_str_extract_ex. by rewrite Hs.
    + left. split; [done|]. unfold holds_text in Ht. rewrite Hs in Ht. split; [done|].
      destruct str1 as [s1 a1]. simpl in Hs. subst. by apply (only_text_none a a1).
Qed.
End smart_str.
