(* ===== verification/ZendArena.v ===== *)
(** * Arenas and pointer stacks (Zend/zend_arena.h, Zend/zend_ptr_stack.h)

    An arena hands out memory from a chain of blocks and takes it back up to a
    checkpoint. Addresses are integers, since a release compares addresses of
    different blocks; the allocator of the engine is a parameter, and a request it
    cannot serve ends the request ([zend_out_of_memory] does not return). The stack
    of pointers grows by blocks of 64. *)

From S2P Require Import Prelude ZendArith ZendString.

(** A block of memory: its address and its size. *)
Record mblock : Type := Block { m_addr : Z; m_size : Z }.
Definition m_end (b : mblock) : Z := m_addr b + m_size b.
Definition disjoint_blocks (a b : mblock) : Prop := m_end a <= m_addr b ∨ m_end b <= m_addr a.

(** ** Arenas *)
Module Arena.

(** [struct _zend_arena] and the address it lies at; the chain of [prev] pointers
    is the list, the current arena first. *)
Record zend_arena : Type := MkArena { a_base : Z; a_ptr : Z; a_end : Z }.
Definition sizeof_zend_arena : Z := 24.
Definition arena_header : Z := ZEND_MM_ALIGNED_SIZE sizeof_zend_arena.
Definition arena_block (a : zend_arena) : mblock := Block (a_base a) (a_end a - a_base a).

Section arena.
(** [emalloc] of a size, beside the blocks that are in use; [None] when there is no
    memory. *)
Context (emalloc : list mblock → Z → option Z).
Implicit Types (arenas : list zend_arena) (others : list mblock).

Definition zend_arena_create others (size : Z) : option (list zend_arena) :=
  arena ← emalloc others size; Some [MkArena arena (arena + arena_header) (arena + size)].

(** The blocks given back, in order. *)
Fixpoint zend_arena_destroy arenas : list mblock :=
  match arenas with
  | [] => []
  | arena :: prev => arena_block arena :: zend_arena_destroy prev
  end.

(** [Some None] ends the request: there is no memory. *)
Definition zend_arena_alloc others arenas (size : Z) : option (option (Z * list zend_arena)) :=
  match arenas with
  | [] => None
  | arena :: prev =>
      let ptr := a_ptr arena in
      let size := ZEND_MM_ALIGNED_SIZE size in
      if size <=? u64 (a_end arena - ptr) then
        Some (Some (ptr, MkArena (a_base arena) (ptr + size) (a_end arena) :: prev))
      else
        let arena_size :=
          if u64 (a_end arena - a_base arena) <? u64 (size + arena_header) then u64 (size + arena_header)
          else u64 (a_end arena - a_base arena) in
        Some (new_arena ← emalloc ((arena_block <$> arenas) ++ others) arena_size;
              let ptr := new_arena + arena_header in
              Some (ptr, MkArena new_arena (new_arena + arena_header + size) (new_arena + arena_size) :: arenas))
  end.

(** The bytes [memset] clears are returned with the pointer; an overflow raises
    [E_ERROR], which does not return. *)
Definition zend_arena_calloc others arenas (count unit_size : Z) : option (option (mblock * list zend_arena)) :=
  let '(size, overflow) := SafeAddress.zend_safe_address_aarch64 unit_size count 0 in
  if overflow then Some None
  else r ← zend_arena_alloc others arenas size; Some ('(ret, arenas) ← r; Some (Block ret size, arenas)).

Definition zend_arena_checkpoint arenas : option Z :=
  match arenas with [] => None | arena :: _ => Some (a_ptr arena) end.

(** The blocks given back, and the arenas left. *)
Fixpoint zend_arena_release arenas (checkpoint : Z) : option (list mblock * list zend_arena) :=
  match arenas with
  | [] => None
  | arena :: prev =>
      if (a_end arena <? checkpoint) || (checkpoint <=? a_base arena) then
        '(freed, rest) ← zend_arena_release prev checkpoint; Some (arena_block arena :: freed, rest)
      else Some ([], MkArena (a_base arena) checkpoint (a_end arena) :: prev)
  end.

Fixpoint zend_arena_contains arenas (ptr : Z) : bool :=
  match arenas with
  | [] => false
  | arena :: prev =>
      if (a_base arena <? ptr) && (ptr <=? a_ptr arena) then true else zend_arena_contains prev ptr
  end.
End arena.
End Arena.
Export Arena.

(** ** Specification *)

(** The allocator gives room that nobody uses, at an aligned address below the end
    of the address space. *)
Definition allocates (emalloc : list mblock → Z → option Z) : Prop :=
  ∀ used size addr, 0 < size → emalloc used size = Some addr →
    0 < addr ∧ addr + size < 2 ^ 63 ∧ (8 | addr) ∧ Forall (disjoint_blocks (Block addr size)) used.

Section arenas.
Implicit Types (a : zend_arena) (arenas : list zend_arena) (others : list mblock).

Definition arena_ok a : Prop :=
  0 < a_base a ∧ a_base a + arena_header <= a_ptr a <= a_end a ∧ a_end a < 2 ^ 63 ∧ (8 | a_ptr a) ∧
  a_end a - a_base a <= 2 ^ 62.
(** The arenas of a chain and the other blocks do not overlap. *)
Fixpoint chain_ok others arenas : Prop :=
  match arenas with
  | [] => True
  | a :: prev => arena_ok a ∧ Forall (disjoint_blocks (arena_block a)) ((arena_block <$> prev) ++ others) ∧
                 chain_ok others prev
  end.

(** What has been handed out: the part of each block before its pointer. *)
Definition handed_out a : mblock := Block (a_base a) (a_ptr a - a_base a).

Lemma arena_header_eq : arena_header = 24.
Proof. done. Qed.

Lemma aligned_le size : 0 <= size <= 2 ^ 61 →
  size <= ZEND_MM_ALIGNED_SIZE size <= size + 7 ∧ (8 | ZEND_MM_ALIGNED_SIZE size).
Proof.
  intros Hs. rewrite aligned_size_eq by lia. pose proof (Z.div_mod (size + 7) 8). pose proof (Z.mod_pos_bound (size + 7) 8).
  split; [lia|apply Z.divide_factor_l].
Qed.

(** A block inside the unused part of an arena meets nothing that was handed out. *)
Lemma disjoint_inside (outer b x : mblock) :
  m_addr outer <= m_addr b → m_end b <= m_end outer → disjoint_blocks outer x → disjoint_blocks b x.
Proof. unfold disjoint_blocks. intros ?? [?|?]; [left|right]; lia. Qed.

Lemma disjoint_used a x : arena_ok a → disjoint_blocks x (arena_block a) → disjoint_blocks x (handed_out a).
Proof.
  intros (_&Hp&_) H. unfold disjoint_blocks, handed_out, arena_block, m_end in *. simpl in *. lia.
Qed.

Lemma chain_ok_all others arenas : chain_ok others arenas → Forall arena_ok arenas.
Proof. induction arenas as [|a prev IH]; [by constructor|]. intros (?&_&?). constructor; auto. Qed.

(** The region handed out by an allocation of [size] bytes. *)
Definition region others arenas (size p : Z) arenas' : Prop :=
  chain_ok others arenas' ∧ (8 | p) ∧
  Forall (disjoint_blocks (Block p size)) ((handed_out <$> arenas) ++ others) ∧
  (∃ a, head arenas' = Some a ∧ a_base a < p ∧ p + size <= a_ptr a) ∧
  zend_arena_contains arenas' p = true.
(** The allocation returns with a region, unless the arena is full and there is no
    memory for another. *)
Definition allocation (emalloc : list mblock → Z → option Z) others arenas (size : Z)
    (r : option (option (Z * list zend_arena))) : Prop :=
  (∃ p arenas', r = Some (Some (p, arenas')) ∧ region others arenas size p arenas') ∨
  (r = Some None ∧ (∃ n, emalloc ((arena_block <$> arenas) ++ others) n = None) ∧
   ∃ a, head arenas = Some a ∧ a_end a - a_ptr a < ZEND_MM_ALIGNED_SIZE size).

(** A block inside one that meets no arena and no other block. *)
Lemma inside_disjoint others prev (outer b : mblock) :
  Forall arena_ok prev → Forall (disjoint_blocks outer) ((arena_block <$> prev) ++ others) →
  m_addr outer <= m_addr b → m_end b <= m_end outer →
  Forall (disjoint_blocks b) ((handed_out <$> prev) ++ others).
Proof.
  rewrite !list.Forall_forall. intros Hok Hd Hlo Hhi x Hx. apply elem_of_app in Hx as [Hx|Hx].
  - apply list_elem_of_fmap in Hx as (a&->&Ha). apply disjoint_used; [by apply Hok|].
    apply (disjoint_inside outer); [done..|]. apply Hd, elem_of_app. left. by apply list_elem_of_fmap_2.
  - apply (disjoint_inside outer); [done..|]. apply Hd, elem_of_app. by right.
Qed.

Lemma alloc_room emalloc others a prev size :
  chain_ok others (a :: prev) → 0 <= size <= 2 ^ 61 → ZEND_MM_ALIGNED_SIZE size <= a_end a - a_ptr a →
  allocation emalloc others (a :: prev) size (zend_arena_alloc emalloc others (a :: prev) size).
Proof.
  intros ((Hb&Hp&He&Hal&Hsz)&Hd&Hprev) Hs Hfit. destruct (aligned_le size Hs) as [Hge Hdiv].
  rewrite arena_header_eq in *. unfold allocation, zend_arena_alloc. rewrite u64_small by lia.
  rewrite (proj2 (Z.leb_le _ _)) by lia. left. eexists _, _. split; [done|]. split_and!; simpl.
  - split_and!; [|done|done]. unfold arena_ok. rewrite arena_header_eq. simpl.
    split_and!; try lia. by apply Z.divide_add_r.
  - done.
  - constructor; [right; unfold m_end; simpl; lia|].
    apply (inside_disjoint others prev (arena_block a)); [by eapply chain_ok_all|done|..]; unfold m_end; simpl; lia.
  - eexists. split; [done|]. simpl. lia.
  - rewrite (proj2 (Z.ltb_lt _ _)), (proj2 (Z.leb_le _ _)) by lia. done.
Qed.

Lemma alloc_new emalloc others a prev size :
  allocates emalloc → chain_ok others (a :: prev) → 0 <= size <= 2 ^ 61 →
  a_end a - a_ptr a < ZEND_MM_ALIGNED_SIZE size →
  allocation emalloc others (a :: prev) size (zend_arena_alloc emalloc others (a :: prev) size).
Proof.
  intros Hem Hok Hs Hfit. pose proof Hok as ((Hb&Hp&He&Hal&Hsz)&Hd&Hprev).
  destruct (aligned_le size Hs) as [Hge Hdiv]. unfold allocation, zend_arena_alloc.
  rewrite arena_header_eq in *. rewrite !u64_small by lia. rewrite (proj2 (Z.leb_gt _ _)) by lia.
  set (n := if _ <? _ then _ else _).
  assert (Hn : ZEND_MM_ALIGNED_SIZE size + 24 <= n <= 2 ^ 62).
  { subst n. destruct (Z.ltb_spec (a_end a - a_base a) (ZEND_MM_ALIGNED_SIZE size + 24)); lia. }
  destruct (emalloc ((arena_block <$> a :: prev) ++ others) n) as [new|] eqn:Hnew0.
  2:{ right. split; [done|]. split; [by exists n|]. by exists a. }
  destruct (Hem ((arena_block <$> a :: prev) ++ others) n new) as (Hpos&Hend&Hdiva&Hfresh); [lia|done|].
  left. eexists _, _. split; [done|].
  assert (Hnew : Forall (disjoint_blocks (arena_block (MkArena new (new + 24 + ZEND_MM_ALIGNED_SIZE size) (new + n))))
                   ((arena_block <$> a :: prev) ++ others)).
  { unfold arena_block at 1. simpl. by replace (new + n - new) with n by lia. }
  split_and!.
  - split_and!; [|done|apply Hok]. unfold arena_ok. rewrite arena_header_eq. simpl. split_and!; try lia.
    apply Z.divide_add_r; [apply Z.divide_add_r; [done|by exists 3]|done].
  - apply Z.divide_add_r; [done|by exists 3].
  - apply (inside_disjoint others (a :: prev) (arena_block (MkArena new (new + 24 + ZEND_MM_ALIGNED_SIZE size) (new + n))));
      [by eapply chain_ok_all|done|..]; unfold m_end; simpl; lia.
  - eexists. split; [done|]. simpl. lia.
  - simpl. rewrite (proj2 (Z.ltb_lt _ _)), (proj2 (Z.leb_le _ _)) by lia. done.
Qed.

Lemma alloc_spec emalloc others arenas size :
  allocates emalloc → chain_ok others arenas → arenas ≠ [] → 0 <= size <= 2 ^ 61 →
  allocation emalloc others arenas size (zend_arena_alloc emalloc others arenas size).
Proof.
  intros Hem Hok Hne Hs. destruct arenas as [|a prev]; [done|].
  destruct (Z.le_gt_cases (ZEND_MM_ALIGNED_SIZE size) (a_end a - a_ptr a)); [by apply alloc_room|by apply alloc_new].
Qed.

(** *** Checkpoints *)

(** Some allocations one after the other. *)
Fixpoint alloc_all emalloc others (sizes : list Z) arenas : option (option (list zend_arena)) :=
  match sizes with
  | [] => Some (Some arenas)
  | size :: sizes =>
      r ← zend_arena_alloc emalloc others arenas size;
      match r with
      | Some (_, arenas) => alloc_all emalloc others sizes arenas
      | None => Some None
      end
  end.

(** [arenas'] is [arenas] with more handed out in the current arena and with newer
    arenas [newer] before it. *)
Definition extends a prev (newer : list zend_arena) arenas' : Prop :=
  ∃ ptr, a_ptr a <= ptr ∧ arenas' = newer ++ MkArena (a_base a) ptr (a_end a) :: prev.

Lemma alloc_extends emalloc others a prev newer arenas size p arenas' :
  chain_ok others arenas → 0 <= size <= 2 ^ 61 →
  extends a prev newer arenas → zend_arena_alloc emalloc others arenas size = Some (Some (p, arenas')) →
  ∃ newer', extends a prev newer' arenas'.
Proof.
  intros Hok Hs (ptr&Hp&->) Hrun. destruct (aligned_le size Hs) as [Hge _].
  unfold zend_arena_alloc in Hrun. destruct newer as [|b newer]; simpl in Hrun;
    match type of Hrun with context [if ?c then Some (Some _) else _] => destruct c end;
    try (destruct (emalloc _ _); [|done]); injection Hrun as <- <-.
  - exists [], (ptr + ZEND_MM_ALIGNED_SIZE size). split; [lia|done].
  - eexists [_], ptr. split; [done|]. simpl. done.
  - eexists (_ :: newer), ptr. split; [done|]. simpl. done.
  - eexists (_ :: b :: newer), ptr. split; [done|]. simpl. done.
Qed.

Lemma alloc_all_extends emalloc others a prev sizes : ∀ newer arenas,
  allocates emalloc → chain_ok others arenas → Forall (λ n, 0 <= n <= 2 ^ 61) sizes → extends a prev newer arenas →
  alloc_all emalloc others sizes arenas = Some None ∨
  ∃ newer' arenas', alloc_all emalloc others sizes arenas = Some (Some arenas') ∧ extends a prev newer' arenas' ∧
    chain_ok others arenas'.
Proof.
  induction sizes as [|size sizes IH]; intros newer arenas Hem Hok Hs Hex; simpl; [by right; exists newer, arenas|].
  inversion Hs; subst. assert (Hne : arenas ≠ []).
  { destruct Hex as (ptr&_&->). by destruct newer. }
  destruct (alloc_spec emalloc others arenas size) as [(p&arenas1&Hrun&Hok1&_)|(Hrun&_)]; [done..| |by rewrite Hrun; left].
  rewrite Hrun.
  destruct (alloc_extends emalloc others a prev newer arenas size p arenas1) as (newer1&Hex1); [done..|].
  cbn [mbind option_bind]. by apply (IH newer1).
Qed.

(** Newer arenas are given back, the one of the checkpoint is kept. *)
Lemma release_newer others a prev newer ptr cp :
  chain_ok others (newer ++ MkArena (a_base a) ptr (a_end a) :: prev) → a_base a < cp <= a_end a →
  zend_arena_release (newer ++ MkArena (a_base a) ptr (a_end a) :: prev) cp
  = Some (arena_block <$> newer, MkArena (a_base a) cp (a_end a) :: prev).
Proof.
  induction newer as [|b newer IH]; simpl; intros Hok Hcp.
  - by rewrite (proj2 (Z.ltb_ge _ _)), (proj2 (Z.leb_gt _ _)) by lia.
  - destruct Hok as (_&Hd&Hok). rewrite IH by done.
    assert (Hdis : disjoint_blocks (arena_block b) (Block (a_base a) (a_end a - a_base a))).
    { rewrite list.Forall_forall in Hd. apply Hd, elem_of_app. left. rewrite fmap_app. apply elem_of_app. right. left. }
    replace ((a_end b <? cp) || (cp <=? a_base b)) with true; [done|]. symmetry. apply orb_true_iff.
    unfold disjoint_blocks, m_end in Hdis. simpl in Hdis.
    destruct Hdis; [left; apply Z.ltb_lt; lia|right; apply Z.leb_le; lia].
Qed.

Lemma create_ok emalloc others size arenas :
  allocates emalloc → arena_header <= size <= 2 ^ 62 → zend_arena_create emalloc others size = Some arenas →
  chain_ok others arenas.
Proof.
  intros Hem Hs Hrun. unfold zend_arena_create in Hrun. destruct (emalloc others size) as [addr|] eqn:He; [|done].
  injection Hrun as <-. rewrite arena_header_eq in *. destruct (Hem others size addr) as (Hpos&Hend&Hal&Hd); [lia|done|].
  split_and!; [|simpl|done].
  - unfold arena_ok. rewrite arena_header_eq. simpl. split_and!; try lia. apply Z.divide_add_r; [done|by exists 3].
  - unfold arena_block. simpl. by replace (addr + size - addr) with size by lia.
Qed.

Lemma calloc_spec emalloc others arenas count unit_size :
  in_u64 count → in_u64 unit_size →
  zend_arena_calloc emalloc others arenas count unit_size
  = if unit_size * count <? 2 ^ 64 then
      r ← zend_arena_alloc emalloc others arenas (unit_size * count);
      Some ('(ret, arenas) ← r; Some (Block ret (unit_size * count), arenas))
    else Some None.
Proof.
  intros Hc Hu. unfold zend_arena_calloc. rewrite safe_address_aarch64_exact by (done || by split).
  unfold SafeAddress.safe_address. rewrite Z.add_0_r. by destruct (unit_size * count <? 2 ^ 64).
Qed.

(** A new arena is well formed. An arena allocation gives an aligned region
    of at least the size asked for, inside its arena, that meets nothing handed
    out before and no other block, in a new arena when the current one is full,
    and keeps the chain well formed; the pointer is one the arena says it
    contains. It fails only when the arena is full and there is no memory for
    another. The clearing variant is the allocation of the product and ends the
    request when the product overflows. *)
Theorem arena_alloc_fresh emalloc others arenas :
  allocates emalloc → chain_ok others arenas → arenas ≠ [] →
  (∀ size new, arena_header <= size <= 2 ^ 62 → zend_arena_create emalloc others size = Some new →
     chain_ok others new) ∧
  (∀ size, 0 <= size <= 2 ^ 61 →
     allocation emalloc others arenas size (zend_arena_alloc emalloc others arenas size)) ∧
  (∀ count unit_size, in_u64 count → in_u64 unit_size →
     zend_arena_calloc emalloc others arenas count unit_size
     = if unit_size * count <? 2 ^ 64 then
         r ← zend_arena_alloc emalloc others arenas (unit_size * count);
         Some ('(ret, arenas) ← r; Some (Block ret (unit_size * count), arenas))
       else Some None).
Proof.
  intros Hem Hok Hne. split_and!; intros; [by eapply create_ok|by apply alloc_spec|by apply calloc_spec].
Qed.

(** C37: Releasing an arena to a checkpoint after any allocations gives back
    exactly the arenas made since and leaves the chain as it was at the
    checkpoint; destroying it gives back every arena once. Only the end of memory
    keeps the allocations from returning. *)
Theorem arena_release_restores emalloc others arenas sizes cp :
  allocates emalloc → chain_ok others arenas → Forall (λ n, 0 <= n <= 2 ^ 61) sizes →
  zend_arena_checkpoint arenas = Some cp →
  alloc_all emalloc others sizes arenas = Some None ∨
  ∃ arenas' newer, alloc_all emalloc others sizes arenas = Some (Some arenas') ∧
    zend_arena_release arenas' cp = Some (arena_block <$> newer, arenas) ∧
    zend_arena_destroy arenas' = (arena_block <$> newer) ++ zend_arena_destroy arenas.
Proof.
  intros Hem Hok Hs Hcp. destruct arenas as [|a prev]; [done|]. injection Hcp as <-.
  destruct (alloc_all_extends emalloc others a prev sizes [] (a :: prev)) as [Hrun|(newer&arenas'&Hrun&(ptr&Hp&->)&Hok')];
    [done..|by exists (a_ptr a); destruct a|by left|right]. exists (newer ++ MkArena (a_base a) ptr (a_end a) :: prev), newer.
  destruct Hok as ((Hb&Hptr&He&_)&_). rewrite arena_header_eq in Hptr. split; [done|]. split.
  - rewrite (release_newer others) by (done || lia). by destruct a.
  - clear. induction newer as [|b newer IH]; simpl; [|by rewrite IH]. by destruct a.
Qed.
End arenas.

(** ** Tracked arenas

    The variant for memory checkers: each allocation is a block of its own, and an
    arena records the addresses. *)
Module TrackedArena.

Definition ZEND_TRACKED_ARENA_SIZE : nat := 1000.

(** [ptrs] up to [ptr], the latest first. *)
Record tracked : Type := Tracked { t_base : Z; t_ptrs : list Z }.
(** The address [ptr] holds. *)
Definition t_ptr (t : tracked) : Z := t_base t + 24 + 8 * Z.of_nat (length (t_ptrs t)).

Definition tracked_arena_create (arena : Z) : list tracked := [Tracked arena []].

(** Addresses given back. *)
Fixpoint tracked_arena_destroy (arenas : list tracked) : list Z :=
  match arenas with
  | [] => []
  | t :: prev => reverse (t_ptrs t) ++ t_base t :: tracked_arena_destroy prev
  end.

(** [arena] and [mem] are what [emalloc] gives, for a new arena and for the block. *)
Definition tracked_arena_alloc (arena mem : Z) (arenas : list tracked) : option (Z * list tracked) :=
  match arenas with
  | [] => None
  | t :: prev =>
      if (length (t_ptrs t) =? ZEND_TRACKED_ARENA_SIZE)%nat then Some (mem, Tracked arena [mem] :: arenas)
      else Some (mem, Tracked (t_base t) (mem :: t_ptrs t) :: prev)
  end.

Definition tracked_arena_checkpoint (arenas : list tracked) : option Z :=
  match arenas with [] => None | t :: _ => Some (t_ptr t) end.

(** The inner loop: pointers are freed from the latest until the checkpoint, or to
    the start of the arena. *)
Fixpoint release_ptrs (base : Z) (ptrs : list Z) (checkpoint : Z) : list Z * option (list Z) :=
  if t_ptr (Tracked base ptrs) =? checkpoint then ([], Some ptrs)
  else
    match ptrs with
    | [] => ([], None)
    | p :: ptrs => let '(freed, r) := release_ptrs base ptrs checkpoint in (p :: freed, r)
    end.
Fixpoint tracked_arena_release (arenas : list tracked) (checkpoint : Z) : option (list Z * list tracked) :=
  match arenas with
  | [] => None
  | t :: prev =>
      match release_ptrs (t_base t) (t_ptrs t) checkpoint with
      | (freed, Some ptrs) => Some (freed, Tracked (t_base t) ptrs :: prev)
      | (freed, None) => '(more, rest) ← tracked_arena_release prev checkpoint; Some (freed ++ t_base t :: more, rest)
      end
  end.
End TrackedArena.

Section tracked.
Import TrackedArena.
Implicit Types (t : tracked) (arenas : list tracked).

(** A run of allocations, each with the addresses the allocator gives. *)
Fixpoint track_all (mems : list (Z * Z)) arenas : option (list tracked) :=
  match mems with
  | [] => Some arenas
  | (arena, mem) :: mems => '(_, arenas) ← tracked_arena_alloc arena mem arenas; track_all mems arenas
  end.

(** The arrays of pointers of two arenas do not overlap. *)
Definition apart (a b : Z) : Prop := a + 24 + 8 * 1000 < b ∨ b + 24 + 8 * 1000 < a.

Lemma t_ptr_range base ptrs : (length ptrs ≤ 1000)%nat → base + 24 <= t_ptr (Tracked base ptrs) <= base + 24 + 8 * 1000.
Proof. unfold t_ptr. simpl. lia. Qed.

Lemma release_ptrs_to base more ptrs :
  release_ptrs base (more ++ ptrs) (t_ptr (Tracked base ptrs)) = (more, Some ptrs).
Proof.
  induction more as [|p more IH]; simpl.
  - destruct ptrs; simpl; by rewrite Z.eqb_refl.
  - rewrite IH, (proj2 (Z.eqb_neq _ _)); [done|]. unfold t_ptr. simpl. rewrite length_app. lia.
Qed.

Lemma release_ptrs_past base ptrs cp :
  (∀ k : nat, (k ≤ length ptrs)%nat → base + 24 + 8 * Z.of_nat k ≠ cp) → release_ptrs base ptrs cp = (ptrs, None).
Proof.
  induction ptrs as [|p ptrs IH]; intros H; simpl.
  - rewrite (proj2 (Z.eqb_neq _ _)); [done|]. apply (H 0%nat). simpl. lia.
  - rewrite (proj2 (Z.eqb_neq _ _)); [|by apply (H (S (length ptrs)))]. rewrite IH; [done|].
    intros k Hk. apply H. simpl. lia.
Qed.

(** [arenas'] has more pointers in the current arena and newer arenas before it. *)
Definition tracks base ptrs prev (newer : list tracked) (more : list Z) arenas' : Prop :=
  arenas' = newer ++ Tracked base (more ++ ptrs) :: prev ∧ (length (more ++ ptrs) ≤ 1000)%nat ∧
  Forall (λ t, apart base (t_base t) ∧ (length (t_ptrs t) ≤ 1000)%nat) newer.

Lemma track_all_ok base ptrs prev mems : ∀ newer more arenas,
  Forall (λ m, apart base m.1) mems → tracks base ptrs prev newer more arenas →
  ∃ newer' more' arenas', track_all mems arenas = Some arenas' ∧ tracks base ptrs prev newer' more' arenas'.
Proof.
  induction mems as [|[arena mem] mems IH]; intros newer more arenas Hm Ht; simpl; [by exists newer, more, arenas|].
  inversion Hm as [|?? Ha Hms]; subst. destruct Ht as (->&Hlen&Hnew). destruct newer as [|b newer]; simpl.
  - destruct (Nat.eqb_spec (length (more ++ ptrs)) ZEND_TRACKED_ARENA_SIZE) as [He|He].
    + apply (IH [Tracked arena [mem]] more); [done|]. split; [done|]. split; [done|]. constructor; [|done]. simpl.
      split; [done|lia].
    + apply (IH [] (mem :: more)); [done|]. unfold ZEND_TRACKED_ARENA_SIZE in He. split_and!; [done| |done]. simpl. lia.
  - inversion Hnew as [|?? [Hb Hbl] Hnew']; subst.
    destruct (Nat.eqb_spec (length (t_ptrs b)) ZEND_TRACKED_ARENA_SIZE) as [He|He].
    + apply (IH (Tracked arena [mem] :: b :: newer) more); [done|]. split_and!; [done|done|].
      constructor; [simpl; split; [done|lia]|by constructor].
    + apply (IH (Tracked (t_base b) (mem :: t_ptrs b) :: newer) more); [done|]. split_and!; [done|done|].
      unfold ZEND_TRACKED_ARENA_SIZE in He. constructor; [split; [done|simpl; lia]|done].
Qed.

(** Releasing a tracked arena to a checkpoint after any allocations frees
    exactly the blocks allocated since, the latest first, and the arenas made for
    them, and leaves the arenas as they were at the checkpoint. *)
Theorem tracked_release_restores base ptrs prev mems :
  (length ptrs ≤ 1000)%nat → Forall (λ m, apart base m.1) mems →
  ∃ arenas' newer more, track_all mems (Tracked base ptrs :: prev) = Some arenas' ∧
    arenas' = newer ++ Tracked base (more ++ ptrs) :: prev ∧
    tracked_arena_release arenas' (t_ptr (Tracked base ptrs))
    = Some (concat ((λ t, t_ptrs t ++ [t_base t]) <$> newer) ++ more, Tracked base ptrs :: prev).
Proof.
  intros Hlen Hm. destruct (track_all_ok base ptrs prev mems [] [] (Tracked base ptrs :: prev))
    as (newer&more&arenas'&Hrun&->&Hlen'&Hnew); [done|by split_and!|].
  eexists _, newer, more. split; [done|]. split; [done|]. clear Hrun Hm.
  induction newer as [|b newer IH]; simpl; [by rewrite release_ptrs_to|].
  inversion Hnew as [|?? [Ha Hb] Hn]; subst. rewrite release_ptrs_past.
  - rewrite IH by done. cbn [mbind option_bind]. by rewrite <- !app_assoc.
  - intros k Hk. pose proof (t_ptr_range base ptrs Hlen). unfold apart in Ha. lia.
Qed.
End tracked.

(** ** Stacks of pointers *)
Module PtrStack.

Definition PTR_STACK_BLOCK_SIZE : Z := 64.
Definition sizeof_ptr : Z := 8.

(** [elements] are the cells of the allocation, [top_element] an index; a cell
    never written holds nothing. *)
Record zend_ptr_stack : Type := PtrStack {
  top : Z; max : Z; elements : list (option Z); top_element : Z }.

(** [do { stack->max += PTR_STACK_BLOCK_SIZE; } while (stack->top+count > stack->max)],
    in [int]s: an overflow is undefined. *)
Fixpoint grow_max (fuel : nat) (need max : Z) : option Z :=
  match fuel with
  | O => None
  | S fuel =>
      let max := max + PTR_STACK_BLOCK_SIZE in
      if 2 ^ 31 <=? max then None else if max <? need then grow_max fuel need max else Some max
  end.

(** [safe_perealloc]: the cells that were there are kept. *)
Definition safe_perealloc (cells : list (option Z)) (nmemb size : Z) : option (list (option Z)) :=
  n ← SafeAddress.zend_safe_address_guarded nmemb size 0;
  let k := Z.to_nat (n / sizeof_ptr) in
  Some (take k cells ++ replicate (k - length cells) None).

Definition ZEND_PTR_STACK_RESIZE_IF_NEEDED (stack : zend_ptr_stack) (count : Z) : option zend_ptr_stack :=
  if max stack <? top stack + count then
    m ← grow_max (S (Z.to_nat count)) (top stack + count) (max stack);
    cells ← safe_perealloc (elements stack) sizeof_ptr m;
    Some (PtrStack (top stack) m cells (top stack))
  else Some stack.

(** [*(stack->top_element++) = p] and [*(--stack->top_element)]. *)
Definition put_top (stack : zend_ptr_stack) (p : Z) : option zend_ptr_stack :=
  if (0 <=? top_element stack) && (top_element stack <? Z.of_nat (length (elements stack))) then
    Some (PtrStack (top stack) (max stack) (<[Z.to_nat (top_element stack) := Some p]> (elements stack))
            (top_element stack + 1))
  else None.
Definition take_top (stack : zend_ptr_stack) : option (Z * zend_ptr_stack) :=
  let i := top_element stack - 1 in
  if 0 <=? i then
    cell ← elements stack !! Z.to_nat i; p ← cell;
    Some (p, PtrStack (top stack) (max stack) (elements stack) i)
  else None.
Definition add_top (n : Z) (stack : zend_ptr_stack) : zend_ptr_stack :=
  PtrStack (top stack + n) (max stack) (elements stack) (top_element stack).

Definition zend_ptr_stack_push (stack : zend_ptr_stack) (ptr : Z) : option zend_ptr_stack :=
  stack ← ZEND_PTR_STACK_RESIZE_IF_NEEDED stack 1;
  put_top (add_top 1 stack) ptr.
Definition zend_ptr_stack_2_push (stack : zend_ptr_stack) (a b : Z) : option zend_ptr_stack :=
  stack ← ZEND_PTR_STACK_RESIZE_IF_NEEDED stack 2;
  stack ← put_top (add_top 2 stack) a; put_top stack b.
Definition zend_ptr_stack_3_push (stack : zend_ptr_stack) (a b c : Z) : option zend_ptr_stack :=
  stack ← ZEND_PTR_STACK_RESIZE_IF_NEEDED stack 3;
  stack ← put_top (add_top 3 stack) a; stack ← put_top stack b; put_top stack c.

Definition zend_ptr_stack_pop (stack : zend_ptr_stack) : option (Z * zend_ptr_stack) := take_top (add_top (-1) stack).
Definition zend_ptr_stack_2_pop (stack : zend_ptr_stack) : option (Z * Z * zend_ptr_stack) :=
  '(a, stack) ← take_top stack; '(b, stack) ← take_top stack; Some (a, b, add_top (-2) stack).
Definition zend_ptr_stack_3_pop (stack : zend_ptr_stack) : option (Z * Z * Z * zend_ptr_stack) :=
  '(a, stack) ← take_top stack; '(b, stack) ← take_top stack; '(c, stack) ← take_top stack;
  Some (a, b, c, add_top (-3) stack).
Definition zend_ptr_stack_top (stack : zend_ptr_stack) : option Z :=
  if 0 <=? top stack - 1 then cell ← elements stack !! Z.to_nat (top stack - 1); cell else None.
End PtrStack.

Section ptr_stack.
Import PtrStack.
Implicit Types (stack : zend_ptr_stack) (xs : list Z).

(** The stack holds [xs], the last pushed last, in an allocation of whole blocks. *)
Definition holds_ptrs stack xs : Prop :=
  top stack = Z.of_nat (length xs) ∧ top_element stack = top stack ∧ top stack <= max stack ∧ max stack < 2 ^ 31 ∧
  Z.of_nat (length (elements stack)) = max stack ∧ take (length xs) (elements stack) = Some <$> xs.

Lemma resize_ok stack xs count :
  holds_ptrs stack xs → 0 < count <= 64 → top stack + count < 2 ^ 31 - 64 →
  ∃ stack', ZEND_PTR_STACK_RESIZE_IF_NEEDED stack count = Some stack' ∧ holds_ptrs stack' xs ∧
    top stack + count <= max stack'.
Proof.
  intros (Ht&Hte&Htm&Hmax&Hlen&Hxs) Hc Hbig. unfold ZEND_PTR_STACK_RESIZE_IF_NEEDED.
  destruct (Z.ltb_spec (max stack) (top stack + count)) as [Hfull|Hroom].
  - cbn [grow_max]. unfold PTR_STACK_BLOCK_SIZE. rewrite (proj2 (Z.leb_gt _ _)), (proj2 (Z.ltb_ge _ _)) by lia.
    cbn [mbind option_bind]. unfold safe_perealloc, SafeAddress.zend_safe_address_guarded.
    rewrite safe_address_aarch64_exact by (unfold in_u64, sizeof_ptr; lia). unfold SafeAddress.safe_address.
    rewrite (proj2 (Z.ltb_lt _ _)) by (unfold sizeof_ptr; lia). cbn [mbind option_bind].
    replace ((sizeof_ptr * (max stack + 64) + 0) / sizeof_ptr) with (max stack + 64)
      by (unfold sizeof_ptr; apply Z.div_unique_exact; lia).
    eexists. split; [done|]. simpl. split; [|lia]. split_and!; simpl; try done; try lia.
    + rewrite length_app, length_take, length_replicate. lia.
    + rewrite take_app_le, take_take, Nat.min_l by (rewrite ?length_take; lia). done.
  - exists stack. by split.
Qed.

(** One store at the top, between the count and the index. *)
Lemma put_top_ok stack xs p :
  top_element stack = Z.of_nat (length xs) → top_element stack < max stack → max stack < 2 ^ 31 →
  Z.of_nat (length (elements stack)) = max stack → take (length xs) (elements stack) = Some <$> xs →
  ∃ stack', put_top stack p = Some stack' ∧ top stack' = top stack ∧ max stack' = max stack ∧
    top_element stack' = Z.of_nat (length (xs ++ [p])) ∧ Z.of_nat (length (elements stack')) = max stack ∧
    take (length (xs ++ [p])) (elements stack') = Some <$> (xs ++ [p]).
Proof.
  intros Hte Hlt Hmax Hlen Hxs. unfold put_top. rewrite (proj2 (Z.leb_le _ _)), (proj2 (Z.ltb_lt _ _)) by lia.
  eexists. split; [done|]. simpl. rewrite length_insert, length_app. cbn [length]. split_and!; try done; [lia|].
  rewrite Hte, Nat2Z.id, Nat.add_1_r, (take_S_r _ _ (Some p)) by (apply list_lookup_insert_eq; lia).
  by rewrite take_insert_ge, Hxs, fmap_app.
Qed.

Lemma take_top_ok stack xs p :
  top_element stack = Z.of_nat (length (xs ++ [p])) → take (length (xs ++ [p])) (elements stack) = Some <$> (xs ++ [p]) →
  take_top stack = Some (p, PtrStack (top stack) (max stack) (elements stack) (Z.of_nat (length xs))) ∧
  take (length xs) (elements stack) = Some <$> xs.
Proof.
  intros Hte Hxs. rewrite length_app in *. cbn [length] in *. unfold take_top.
  rewrite Hte, (proj2 (Z.leb_le _ _)) by lia. replace (Z.of_nat (length xs + 1) - 1) with (Z.of_nat (length xs)) by lia.
  rewrite Nat2Z.id. assert (Hl : elements stack !! length xs = Some (Some p)).
  { rewrite <- (lookup_take_lt _ (length xs + 1)) by lia. rewrite Hxs, fmap_app, lookup_app_r by (rewrite length_fmap; lia).
    by rewrite length_fmap, Nat.sub_diag. }
  rewrite Hl. split; [done|]. apply (f_equal (take (length xs))) in Hxs.
  rewrite take_take, Nat.min_l, fmap_app, take_app_length' in Hxs by (rewrite ?length_fmap; lia). done.
Qed.

(** *** Several pointers at once *)

Fixpoint put_tops stack (ps : list Z) : option zend_ptr_stack :=
  match ps with
  | [] => Some stack
  | p :: ps => stack ← put_top stack p; put_tops stack ps
  end.
Definition push_n stack (ps : list Z) : option zend_ptr_stack :=
  let n := Z.of_nat (length ps) in
  stack ← ZEND_PTR_STACK_RESIZE_IF_NEEDED stack n; put_tops (add_top n stack) ps.

Lemma pushes_n stack a b c :
  zend_ptr_stack_push stack a = push_n stack [a] ∧ zend_ptr_stack_2_push stack a b = push_n stack [a; b] ∧
  zend_ptr_stack_3_push stack a b c = push_n stack [a; b; c].
Proof.
  unfold zend_ptr_stack_push, zend_ptr_stack_2_push, zend_ptr_stack_3_push, push_n. simpl.
  split_and!; (destruct (ZEND_PTR_STACK_RESIZE_IF_NEEDED _ _) as [s|]; [simpl|done]);
    repeat (destruct (put_top _ _); [simpl|done]); done.
Qed.

Lemma put_tops_ok ps : ∀ stack xs,
  top_element stack = Z.of_nat (length xs) → top_element stack + Z.of_nat (length ps) <= max stack → max stack < 2 ^ 31 →
  Z.of_nat (length (elements stack)) = max stack → take (length xs) (elements stack) = Some <$> xs →
  ∃ stack', put_tops stack ps = Some stack' ∧ top stack' = top stack ∧ max stack' = max stack ∧
    top_element stack' = Z.of_nat (length (xs ++ ps)) ∧ Z.of_nat (length (elements stack')) = max stack ∧
    take (length (xs ++ ps)) (elements stack') = Some <$> (xs ++ ps).
Proof.
  induction ps as [|p ps IH]; intros stack xs Hte Hroom Hmax Hlen Hxs; cbn [put_tops length] in *.
  - exists stack. rewrite app_nil_r. by split_and!.
  - destruct (put_top_ok stack xs p) as (s1&->&T1&M1&E1&L1&X1); [done|lia|done..|]. cbn [mbind option_bind].
    destruct (IH s1 (xs ++ [p])) as (s2&->&T2&M2&E2&L2&X2); [done| |lia|lia|done|].
    { rewrite E1, length_app. cbn [length]. lia. }
    exists s2. rewrite <- app_assoc in *. split_and!; try done; congruence.
Qed.

Lemma push_n_ok stack xs ps :
  holds_ptrs stack xs → (0 < length ps ≤ 64)%nat → top stack + Z.of_nat (length ps) < 2 ^ 31 - 64 →
  ∃ stack', push_n stack ps = Some stack' ∧ holds_ptrs stack' (xs ++ ps).
Proof.
  intros H Hps Hbig. destruct (resize_ok stack xs (Z.of_nat (length ps)) H) as (s&Hr&Hs&Hroom); [lia|lia|].
  unfold push_n. rewrite Hr. cbn [mbind option_bind]. destruct H as (Ht0&_). destruct Hs as (Ht&Hte&Htm&Hmax&Hlen&Hxs).
  destruct (put_tops_ok ps (add_top (Z.of_nat (length ps)) s) xs) as (s1&->&T1&M1&E1&L1&X1); simpl; [lia|lia|done..|].
  exists s1. split; [done|]. simpl in *. rewrite length_app in *.
  split_and!; [rewrite length_app; lia|lia|lia|lia|lia|by rewrite length_app].
Qed.

Fixpoint take_tops stack (n : nat) : option (list Z * zend_ptr_stack) :=
  match n with
  | O => Some ([], stack)
  | S n => '(p, stack) ← take_top stack; '(ps, stack) ← take_tops stack n; Some (p :: ps, stack)
  end.

Lemma take_tops_ok ps : ∀ stack xs,
  top_element stack = Z.of_nat (length (xs ++ ps)) → take (length (xs ++ ps)) (elements stack) = Some <$> (xs ++ ps) →
  take_tops stack (length ps)
  = Some (reverse ps, PtrStack (top stack) (max stack) (elements stack) (Z.of_nat (length xs))) ∧
  take (length xs) (elements stack) = Some <$> xs.
Proof.
  induction ps as [|p ps IH] using rev_ind; intros stack xs Hte Hxs.
  - rewrite app_nil_r in *. split; [|done]. simpl. rewrite <- Hte. by destruct stack.
  - rewrite (app_assoc xs ps [p]) in *. destruct (take_top_ok stack (xs ++ ps) p) as [Hp Hx]; [done..|].
    rewrite length_app, Nat.add_1_r. cbn [take_tops]. rewrite Hp. cbn [mbind option_bind].
    destruct (IH (PtrStack (top stack) (max stack) (elements stack) (Z.of_nat (length (xs ++ ps)))) xs) as [-> Hx']; [done..|].
    cbn [mbind option_bind]. by rewrite reverse_app.
Qed.

(** The count brought down again. *)
Lemma pop_n_ok stack xs ps :
  holds_ptrs stack (xs ++ ps) →
  ∃ s, take_tops stack (length ps) = Some (reverse ps, s) ∧ holds_ptrs (add_top (- Z.of_nat (length ps)) s) xs.
Proof.
  intros (Ht&Hte&Htm&Hmax&Hlen&Hxs). destruct (take_tops_ok ps stack xs) as [Hr Hx]; [lia|done|].
  eexists. split; [done|]. rewrite length_app in Ht. split_and!; simpl; try done; lia.
Qed.

Lemma pops_n stack xs a b c s :
  (take_tops stack 1 = Some ([a], s) → zend_ptr_stack_pop stack = Some (a, add_top (-1) s)) ∧
  (take_tops stack 2 = Some ([b; a], s) → zend_ptr_stack_2_pop stack = Some (b, a, add_top (-2) s)) ∧
  (take_tops stack 3 = Some ([c; b; a], s) → zend_ptr_stack_3_pop stack = Some (c, b, a, add_top (-3) s)) ∧
  (take_tops stack 1 = Some ([a], s) → holds_ptrs stack (xs ++ [a]) → zend_ptr_stack_top stack = Some a).
Proof.
  unfold zend_ptr_stack_pop, zend_ptr_stack_2_pop, zend_ptr_stack_3_pop. simpl. split_and!.
  - unfold take_top. simpl. destruct (0 <=? top_element stack - 1); [|done].
    destruct (elements stack !! _) as [[?|]|]; simpl; intros; by simplify_eq/=.
  - intros H. destruct (take_top stack) as [[x s1]|]; simpl in *; [|done].
    destruct (take_top s1) as [[y s2]|]; simpl in *; by simplify_eq/=.
  - intros H. destruct (take_top stack) as [[x s1]|]; simpl in *; [|done].
    destruct (take_top s1) as [[y s2]|]; simpl in *; [|done].
    destruct (take_top s2) as [[z s3]|]; simpl in *; by simplify_eq/=.
  - unfold take_top, zend_ptr_stack_top. intros H (Ht&Hte&_). rewrite <- Hte.
    destruct (0 <=? top_element stack - 1); [|done]. destruct (elements stack !! _) as [[?|]|]; by simplify_eq/=.
Qed.

(** The stack of pointers is a list under pushes and pops: a push of one, two
    or three pointers adds them at the end, growing the allocation when it is
    full, a pop takes the last ones back in reverse order and undoes the push, the
    top is the last, and no access is outside the allocation. *)
Theorem ptr_stack_lifo stack xs a b c :
  holds_ptrs stack xs → top stack + 3 < 2 ^ 31 - 64 →
  (∃ s1 s2, zend_ptr_stack_push stack a = Some s1 ∧ holds_ptrs s1 (xs ++ [a]) ∧ zend_ptr_stack_top s1 = Some a ∧
     zend_ptr_stack_pop s1 = Some (a, s2) ∧ holds_ptrs s2 xs) ∧
  (∃ s1 s2, zend_ptr_stack_2_push stack a b = Some s1 ∧ holds_ptrs s1 (xs ++ [a; b]) ∧
     zend_ptr_stack_2_pop s1 = Some (b, a, s2) ∧ holds_ptrs s2 xs) ∧
  (∃ s1 s2, zend_ptr_stack_3_push stack a b c = Some s1 ∧ holds_ptrs s1 (xs ++ [a; b; c]) ∧
     zend_ptr_stack_3_pop s1 = Some (c, b, a, s2) ∧ holds_ptrs s2 xs).
Proof.
  intros H Hbig. destruct (pushes_n stack a b c) as (->&->&->).
  assert (Hrun : ∀ ps, (0 < length ps ≤ 3)%nat → ∃ s1 s, push_n stack ps = Some s1 ∧ holds_ptrs s1 (xs ++ ps) ∧
            take_tops s1 (length ps) = Some (reverse ps, s) ∧ holds_ptrs (add_top (- Z.of_nat (length ps)) s) xs).
  { intros ps Hps. destruct (push_n_ok stack xs ps H) as (s1&Hp&Hs); [lia|lia|].
    destruct (pop_n_ok s1 xs ps Hs) as (s&Ht&Hx). by exists s1, s. }
  split_and!.
  - destruct (Hrun [a]) as (s1&s&Hp&Hs&Ht&Hx); [simpl; lia|]. exists s1, (add_top (-1) s).
    destruct (pops_n s1 xs a b c s) as (H1&_&_&H4). split_and!; [done|done|by apply H4|by apply H1|done].
  - destruct (Hrun [a; b]) as (s1&s&Hp&Hs&Ht&Hx); [simpl; lia|]. exists s1, (add_top (-2) s).
    destruct (pops_n s1 xs a b c s) as (_&H2&_). split_and!; [done|done|by apply H2|done].
  - destruct (Hrun [a; b; c]) as (s1&s&Hp&Hs&Ht&Hx); [simpl; lia|]. exists s1, (add_top (-3) s).
    destruct (pops_n s1 xs a b c s) as (_&_&H3&_). split_and!; [done|done|by apply H3|done].
Qed.
End ptr_stack.
