(* ===== verification/ZendWorklist.v ===== *)
(** * Worklists of the optimiser (Zend/Optimizer/zend_worklist.h)

    A stack of numbers below a bound, and a worklist: such a stack with a bit set of
    the numbers that were ever put on it. A number is taken on at most once, so the
    stack, which has one cell per number, never overflows. The memory of both comes
    from an arena, or from one block on the machine stack. *)

From S2P Require Import Prelude ZendString ZendBitset ZendArena.
Import Bitset.

Module Worklist.

(** [buf] is the memory at the pointer; [len] and [capacity] are ints. *)
Record zend_worklist_stack : Type := MkStack { buf : list Z; len : Z; capacity : Z }.
Definition sizeof_int : Z := 4.
Definition sizeof_zend_ulong : Z := 8.

Definition zend_worklist_stack_push (stack : zend_worklist_stack) (i : Z) : option zend_worklist_stack :=
  if len stack <? capacity stack then
    if decide (0 <= len stack < Z.of_nat (length (buf stack)))
    then Some (MkStack (<[Z.to_nat (len stack) := i]> (buf stack)) (len stack + 1) (capacity stack)) else None
  else None.

(** [ZEND_ASSERT(stack->len)]. *)
Definition zend_worklist_stack_peek (stack : zend_worklist_stack) : option Z :=
  if len stack =? 0 then None
  else if decide (1 <= len stack) then buf stack !! Z.to_nat (len stack - 1) else None.
Definition zend_worklist_stack_pop (stack : zend_worklist_stack) : option (Z * zend_worklist_stack) :=
  if len stack =? 0 then None
  else if decide (1 <= len stack)
  then i ← buf stack !! Z.to_nat (len stack - 1); Some (i, MkStack (buf stack) (len stack - 1) (capacity stack)) else None.

Record zend_worklist : Type := MkWorklist { visited : zend_bitset; stack : zend_worklist_stack }.

Definition zend_worklist_len (worklist : zend_worklist) : Z := len (stack worklist).
Definition zend_worklist_push (worklist : zend_worklist) (i : Z) : option (bool * zend_worklist) :=
  if decide (0 <= i < capacity (stack worklist)) then
    seen ← zend_bitset_in (visited worklist) i;
    if seen : bool then Some (false, worklist)
    else
      visited' ← zend_bitset_incl (visited worklist) i;
      stack' ← zend_worklist_stack_push (stack worklist) i;
      Some (true, MkWorklist visited' stack')
  else None.
Definition zend_worklist_peek (worklist : zend_worklist) : option Z := zend_worklist_stack_peek (stack worklist).
Definition zend_worklist_pop (worklist : zend_worklist) : option (Z * zend_worklist) :=
  '(i, stack') ← zend_worklist_stack_pop (stack worklist); Some (i, MkWorklist (visited worklist) stack').

(** The memory that [zend_arena_calloc] clears is zero; the block is returned with the
    stack. [Some None] ends the request. *)
Definition zend_worklist_stack_prepare (emalloc : list mblock → Z → option Z) (others : list mblock)
    (arena : list zend_arena) (n : Z) : option (option (zend_worklist_stack * mblock * list zend_arena)) :=
  if 0 <=? n then
    r ← zend_arena_calloc emalloc others arena sizeof_int n;
    Some ('(b, arena) ← r; Some (MkStack (replicate (Z.to_nat n) 0) 0 n, b, arena))
  else None.
Definition zend_worklist_prepare (emalloc : list mblock → Z → option Z) (others : list mblock)
    (arena : list zend_arena) (n : Z) : option (option (zend_worklist * mblock * mblock * list zend_arena)) :=
  if 0 <=? n then
    r ← zend_arena_calloc emalloc others arena sizeof_zend_ulong (zend_bitset_len n);
    match r with
    | None => Some None
    | Some (bits, arena) =>
        r ← zend_worklist_stack_prepare emalloc others arena n;
        Some ('(stack, cells, arena) ← r;
              Some (MkWorklist (replicate (Z.to_nat (zend_bitset_len n)) 0) stack, bits, cells, arena))
    end
  else None.

(** One block on the machine stack, of the size asked for: what the cells held before
    is left there, the bit set behind them is cleared. *)
Definition ZEND_WORKLIST_ALLOCA_size (n : Z) : Z :=
  u64 (ZEND_MM_ALIGNED_SIZE (sizeof_int * n) + sizeof_zend_ulong * zend_bitset_len n).
Definition ZEND_WORKLIST_ALLOCA (block : mblock) (garbage : list Z) (n : Z) : zend_worklist * mblock * mblock :=
  (MkWorklist (replicate (Z.to_nat (zend_bitset_len n)) 0) (MkStack garbage 0 n),
   Block (m_addr block + ZEND_MM_ALIGNED_SIZE (sizeof_int * n)) (sizeof_zend_ulong * zend_bitset_len n),
   Block (m_addr block) (sizeof_int * n)).
Definition ZEND_WORKLIST_STACK_ALLOCA (garbage : list Z) (n : Z) : zend_worklist_stack := MkStack garbage 0 n.
End Worklist.
Export Worklist.

(** ** What a worklist stands for *)

(** The numbers ever taken on, and those still on the stack, newest first. *)
Record todo_list : Type := Todo { seen : gset Z; pending : list Z }.

Definition stack_holds (s : zend_worklist_stack) (n : Z) (l : list Z) : Prop :=
  capacity s = n ∧ length (buf s) = Z.to_nat n ∧ len s = Z.of_nat (length l) ∧ take (length l) (buf s) = reverse l.
Definition worklist_holds (w : zend_worklist) (n : Z) (t : todo_list) : Prop :=
  stack_holds (stack w) n (pending t) ∧ wf_set (visited w) ∧ n <= 64 * Z.of_nat (length (visited w)) ∧
  (∀ i, 0 <= i < n → member (visited w) i = bool_decide (i ∈ seen t)) ∧
  (∀ i, i ∈ seen t → 0 <= i < n) ∧ NoDup (pending t) ∧ (∀ i, i ∈ pending t → i ∈ seen t).

Inductive work : Type := Push (i : Z) | Pop | Peek.
Inductive outcome : Type := Pushed (new : bool) | Popped (i : Z) | Peeked (i : Z).

Definition do_work (a : work) (w : zend_worklist) : option (outcome * zend_worklist) :=
  match a with
  | Push i => '(b, w) ← zend_worklist_push w i; Some (Pushed b, w)
  | Pop => '(i, w) ← zend_worklist_pop w; Some (Popped i, w)
  | Peek => i ← zend_worklist_peek w; Some (Peeked i, w)
  end.
(** The abstract list: a number is taken on once, the newest comes off first, and
    nothing comes off an empty list. *)
Definition spec_work (a : work) (t : todo_list) : option (outcome * todo_list) :=
  match a, pending t with
  | Push i, l => Some (if decide (i ∈ seen t) then (Pushed false, t) else (Pushed true, Todo ({[i]} ∪ seen t) (i :: l)))
  | Pop, i :: l => Some (Popped i, Todo (seen t) l)
  | Peek, i :: l => Some (Peeked i, t)
  | _, [] => None
  end.
Fixpoint works {S} (step : work → S → option (outcome * S)) (ops : list work) (s : S) : option (list outcome * S) :=
  match ops with
  | [] => Some ([], s)
  | a :: ops => '(o, s) ← step a s; '(os, s) ← works step ops s; Some (o :: os, s)
  end.
Definition popped (os : list outcome) : list Z := omap (λ o, match o with Popped i => Some i | _ => None end) os.
Definition below (n : Z) (a : work) : Prop := match a with Push i => 0 <= i < n | _ => True end.

Section worklists.
Implicit Types (w : zend_worklist) (s : zend_worklist_stack) (t : todo_list) (n i : Z) (l : list Z).

(** *** The stack *)
Lemma stack_push_spec s n l i :
  stack_holds s n l → Z.of_nat (length l) < n →
  ∃ s', zend_worklist_stack_push s i = Some s' ∧ stack_holds s' n (i :: l).
Proof.
  intros (Hc&Hb&Hl&Ht) Hlt. unfold zend_worklist_stack_push. rewrite Hl, Hc.
  rewrite (proj2 (Z.ltb_lt _ _)), decide_True by lia. rewrite Nat2Z.id. eexists. split; [done|].
  split_and!; simpl; [done|by rewrite length_insert|lia|].
  rewrite reverse_cons, (take_S_r _ _ i), take_insert_ge, Ht; [done|lia|].
  apply list_lookup_insert_eq. lia.
Qed.
Lemma stack_pop_spec s n i l :
  stack_holds s n (i :: l) →
  zend_worklist_stack_peek s = Some i ∧ ∃ s', zend_worklist_stack_pop s = Some (i, s') ∧ stack_holds s' n l.
Proof.
  intros (Hc&Hb&Hl&Ht). simpl in Hl. unfold zend_worklist_stack_peek, zend_worklist_stack_pop.
  assert (Hi : buf s !! Z.to_nat (len s - 1) = Some i).
  { replace (Z.to_nat (len s - 1)) with (length l) by lia.
    rewrite <- (lookup_take_lt (buf s) (length (i :: l)) (length l)) by (simpl; lia). rewrite Ht, reverse_cons.
    rewrite lookup_app_r by (rewrite length_reverse; lia). by rewrite length_reverse, Nat.sub_diag. }
  rewrite !(proj2 (Z.eqb_neq (len s) 0)), !decide_True, !Hi by lia. split; [done|]. eexists. split; [reflexivity|].
  split_and!; simpl; [done|done|lia|]. apply (f_equal (take (length l))) in Ht.
  rewrite take_take, reverse_cons, take_app_le, Nat.min_l in Ht by (rewrite ?length_reverse; simpl; lia).
  rewrite Ht. apply take_ge. by rewrite length_reverse.
Qed.

(** *** The worklist *)

(** The numbers below [n] are [n]. *)
Lemma pending_room w n t i :
  worklist_holds w n t → 0 <= i < n → i ∉ seen t → Z.of_nat (length (pending t)) < n.
Proof.
  intros (_&_&_&_&Hseen&Hnd&Hp) Hi Hn.
  assert (Hsub : (i :: pending t) ⊆+ seqZ 0 n).
  { apply NoDup_submseteq; [apply list.NoDup_cons; auto|]. intros j Hj. apply elem_of_seqZ.
    apply elem_of_cons in Hj as [->|Hj]; [lia|]. specialize (Hseen j (Hp j Hj)). lia. }
  apply submseteq_length in Hsub. rewrite length_seqZ in Hsub. simpl in Hsub. lia.
Qed.

Lemma push_spec w n t i :
  worklist_holds w n t → 0 <= i < n →
  ∃ o w' t', do_work (Push i) w = Some (o, w') ∧ spec_work (Push i) t = Some (o, t') ∧ worklist_holds w' n t'.
Proof.
  intros Hw Hi. pose proof Hw as (Hs&Hwf&Hn&Hm&Hr&Hnd&Hp). cbn [do_work spec_work]. unfold zend_worklist_push.
  pose proof Hs as (Hc&_). rewrite Hc, decide_True by lia.
  destruct (bitset_elements (visited w) i Hwf) as (->&(v&Hv&Hwf'&Hlen&Hmem)&_); [lia|]. cbn [mbind option_bind].
  rewrite (Hm i Hi). destruct (decide (i ∈ seen t)) as [Hin|Hin].
  - rewrite bool_decide_true by done. eexists _, _, _. split_and!; done.
  - rewrite bool_decide_false, Hv by done. cbn [mbind option_bind].
    destruct (stack_push_spec (stack w) n (pending t) i Hs) as (s'&->&Hs'); [by eapply pending_room|].
    cbn [mbind option_bind]. eexists _, _, _. split_and!; [done|done|]. split_and!; simpl; [done|done|by rewrite Hlen|..].
    + intros j Hj. rewrite Hmem, Hm by lia. destruct (Z.eqb_spec j i) as [->|Hne]; simpl; symmetry.
      * apply bool_decide_true. set_solver.
      * apply bool_decide_ext. set_solver.
    + intros j. rewrite elem_of_union, elem_of_singleton. intros [->|Hj]; [lia|by apply Hr].
    + apply list.NoDup_cons. split; [|done]. intros Hj. by apply Hin, Hp.
    + intros j. rewrite elem_of_cons. set_solver.
Qed.

Lemma pop_spec w n t i l :
  worklist_holds w n t → pending t = i :: l →
  do_work Peek w = Some (Peeked i, w) ∧
  ∃ w', do_work Pop w = Some (Popped i, w') ∧ worklist_holds w' n (Todo (seen t) l).
Proof.
  intros (Hs&Hwf&Hn&Hm&Hr&Hnd&Hp) Hl. rewrite Hl in Hs, Hnd, Hp. cbn [do_work].
  unfold zend_worklist_peek, zend_worklist_pop.
  destruct (stack_pop_spec _ _ _ _ Hs) as (->&s'&->&Hs'). split; [done|]. eexists. split; [done|].
  apply list.NoDup_cons in Hnd as [_ Hnd]. split_and!; try done. intros j Hj. apply Hp. by right.
Qed.

Lemma work_simulated w n t a o t' :
  worklist_holds w n t → below n a → spec_work a t = Some (o, t') →
  ∃ w', do_work a w = Some (o, w') ∧ worklist_holds w' n t'.
Proof.
  intros Hw Ha Hs. destruct a as [i| |].
  - destruct (push_spec w n t i Hw Ha) as (o1&w'&t1&Hd&Hs1&Hw'). rewrite Hs1 in Hs. injection Hs as <- <-. eauto.
  - unfold spec_work in Hs. destruct (pending t) as [|i l] eqn:Hl; [done|]. injection Hs as <- <-.
    destruct (pop_spec w n t i l Hw Hl) as (_&w'&?&?). eauto.
  - unfold spec_work in Hs. destruct (pending t) as [|i l] eqn:Hl; [done|]. injection Hs as <- <-.
    destruct (pop_spec w n t i l Hw Hl) as (?&_). eauto.
Qed.

(** What came off and what is still on the list are the numbers that were taken on. *)
Definition balanced (out : list Z) t : Prop := NoDup (out ++ pending t) ∧ ∀ i, i ∈ out ++ pending t ↔ i ∈ seen t.

Lemma spec_balanced out a t o t' :
  balanced out t → spec_work a t = Some (o, t') → balanced (out ++ popped [o]) t'.
Proof.
  intros [Hnd Hin] Hs. unfold balanced, spec_work in *. destruct a as [i| |].
  - destruct (decide (i ∈ seen t)) as [Hi|Hi]; injection Hs as <- <-; simpl; rewrite app_nil_r; [done|].
    rewrite <- Hin in Hi. split.
    + rewrite <- Permutation_middle. by apply list.NoDup_cons.
    + intros j. rewrite <- Permutation_middle, elem_of_cons, Hin. set_solver.
  - destruct (pending t) as [|i l]; [done|]. injection Hs as <- <-. simpl. by rewrite <- (assoc_L (++)).
  - destruct (pending t) as [|i l] eqn:Hl; [done|]. injection Hs as <- <-. simpl. by rewrite app_nil_r, Hl.
Qed.

Lemma works_simulated n ops : ∀ w t os t' out,
  worklist_holds w n t → balanced out t → Forall (below n) ops → works spec_work ops t = Some (os, t') →
  ∃ w', works do_work ops w = Some (os, w') ∧ worklist_holds w' n t' ∧ balanced (out ++ popped os) t'.
Proof.
  induction ops as [|a ops IH]; intros w t os t' out Hw Hb Hops Hs; cbn [works] in *.
  - injection Hs as <- <-. exists w. simpl. by rewrite app_nil_r.
  - inversion_clear Hops as [|? ? Ha Hops']. destruct (spec_work a t) as [[o t1]|] eqn:E; [|done]. cbn [mbind option_bind] in Hs.
    destruct (works spec_work ops t1) as [[os1 t2]|] eqn:E2; [|done]. injection Hs as <- <-.
    destruct (work_simulated w n t a o t1 Hw Ha E) as (w1&->&Hw1). cbn [mbind option_bind].
    destruct (IH w1 t1 os1 t2 (out ++ popped [o]) Hw1) as (w'&->&Hw'&Hb'); [by eapply spec_balanced|done|done|].
    cbn [mbind option_bind]. exists w'. split; [done|]. split; [done|].
    rewrite <- (assoc_L (++)) in Hb'. unfold popped in *. by rewrite <- omap_app in Hb'.
Qed.
End worklists.

Section preparing.
Implicit Types (w : zend_worklist) (n : Z).

(** A worklist for the numbers below [n] that nothing was put on. *)
Definition prepared n w : Prop :=
  visited w = replicate (Z.to_nat (zend_bitset_len n)) 0 ∧ ∃ cells, length cells = Z.to_nat n ∧ stack w = MkStack cells 0 n.

Lemma prepared_holds n w : 0 <= n < 2 ^ 31 → prepared n w → worklist_holds w n (Todo ∅ []).
Proof.
  intros Hn (Hv&cells&Hc&Hs). destruct (bitset_len_fits n) as [Hl _]; [unfold in_u32; lia|].
  assert (0 <= zend_bitset_len n) by apply u32_range.
  unfold worklist_holds. rewrite Hv, Hs. split_and!; simpl.
  - by split_and!.
  - apply Forall_replicate. by split.
  - rewrite length_replicate. lia.
  - intros i Hi. rewrite bool_decide_false by set_solver. unfold member.
    destruct (replicate _ _ !! _) eqn:E; [|by rewrite Z.testbit_0_l].
    apply lookup_replicate in E as [-> _]. by rewrite Z.testbit_0_l.
  - set_solver.
  - by constructor.
  - set_solver.
Qed.

Lemma spec_seen ops : ∀ t os t', works spec_work ops t = Some (os, t') → ∀ i, i ∈ seen t' ↔ i ∈ seen t ∨ Push i ∈ ops.
Proof.
  induction ops as [|a ops IH]; intros t os t' Hs i; cbn [works] in Hs; [injection Hs as _ <-; set_solver|].
  destruct (spec_work a t) as [[o t1]|] eqn:E; [|done]. cbn [mbind option_bind] in Hs.
  destruct (works spec_work ops t1) as [[os1 t2]|] eqn:E2; [|done]. injection Hs as <- <-.
  rewrite (IH _ _ _ E2), elem_of_cons.
  assert (Hseen : i ∈ seen t1 ↔ i ∈ seen t ∨ Push i = a); [|naive_solver].
  unfold spec_work in E. destruct a as [j| |]; [|destruct (pending t); [done|injection E as _ <-; naive_solver]..].
  destruct (decide (j ∈ seen t)); injection E as _ <-; simpl; [|set_solver]. split; [auto|]. intros [?|[= ->]]; done.
Qed.


(** The memory of a worklist: from an arena, two cleared regions that meet nothing
    handed out before, nor each other, unless memory ends; on the machine stack, two
    aligned parts of one block. *)
Theorem worklist_memory emalloc others arenas n :
  allocates emalloc → chain_ok others arenas → arenas ≠ [] → 0 <= n < 2 ^ 31 →
  (match zend_worklist_prepare emalloc others arenas n with
   | None => False
   | Some None => ∃ used size, emalloc used size = None
   | Some (Some (w, bits, cells, arenas')) =>
       prepared n w ∧ chain_ok others arenas' ∧ m_size bits = 8 * zend_bitset_len n ∧ m_size cells = 4 * n ∧
       (8 | m_addr bits) ∧ (8 | m_addr cells) ∧ disjoint_blocks bits cells ∧
       Forall (disjoint_blocks bits) ((handed_out <$> arenas) ++ others)
   end) ∧
  (∀ block garbage, (8 | m_addr block) → m_size block = ZEND_WORKLIST_ALLOCA_size n → length garbage = Z.to_nat n →
     let '(w, bits, cells) := ZEND_WORKLIST_ALLOCA block garbage n in
     prepared n w ∧ (8 | m_addr bits) ∧ disjoint_blocks bits cells ∧
     m_addr block <= m_addr cells ∧ m_end cells <= m_addr bits ∧ m_end bits = m_end block).
Proof.
  intros Hem Hok Hne Hn. destruct (bitset_len_fits n) as [Hl1 Hl2]; [unfold in_u32; lia|].
  assert (Hb0 : 0 <= zend_bitset_len n < 2 ^ 32) by apply u32_range. split.
  - unfold zend_worklist_prepare, zend_worklist_stack_prepare, sizeof_int, sizeof_zend_ulong.
    rewrite (proj2 (Z.leb_le 0 n)), calloc_spec by (lia || unfold in_u64; lia).
    rewrite (proj2 (Z.ltb_lt _ _)) by lia.
    destruct (alloc_spec emalloc others arenas (zend_bitset_len n * 8) Hem Hok Hne) as
      [(p&arenas1&->&Hok1&Hal&Hd&(a&Ha&Hlo&Hhi)&_)|(->&(size&Hno)&_)]; [lia| |cbn; eauto].
    cbn [mbind option_bind]. rewrite calloc_spec by (unfold in_u64; lia). rewrite (proj2 (Z.ltb_lt _ _)) by lia.
    destruct (alloc_spec emalloc others arenas1 (n * 4) Hem Hok1) as
      [(q&arenas2&->&Hok2&Hal2&Hd2&_&_)|(->&(size&Hno)&_)]; [by destruct arenas1|lia| |cbn; eauto].
    cbn [mbind option_bind]. split_and!; simpl; [|done|lia|lia|done|done| |done].
    + split; [done|]. eexists. split; [|done]. by rewrite length_replicate.
    + apply Forall_app in Hd2 as [Hd2 _]. rewrite Forall_fmap, list.Forall_forall in Hd2.
      destruct arenas1 as [|a' arenas1]; [done|]. injection Ha as ->. specialize (Hd2 a ltac:(by left)).
      revert Hd2. unfold disjoint_blocks, handed_out, m_end. simpl. lia.
  - intros block garbage Ha Hsz Hg. unfold ZEND_WORKLIST_ALLOCA, ZEND_WORKLIST_ALLOCA_size, sizeof_int, sizeof_zend_ulong in *.
    destruct (aligned_le (4 * n)) as [Hle Hdiv]; [lia|]. rewrite u64_small in Hsz by lia.
    unfold disjoint_blocks, m_end. simpl. split_and!; [|by apply Z.divide_add_r|lia..].
    split; [done|]. eauto.
Qed.
End preparing.
