(* ===== verification/ZendBufferWitnesses.v ===== *)
(** * Text, buffers, arenas and stacks on concrete values

    Small models of the functions of the engine library that make room, and the
    properties of the buffers at concrete inputs. *)

From S2P Require Import Prelude ZendTypes ZendString ZendOperators ZendBuffers ZendArena ZendWorklist.

(** ** Text *)

Lemma memnstr_finds_witness :
  (∃ r, zend_memnstr (λ _ _, None) (lit "abracadabra") (lit "abra") = Some r ∧
     first_occurrence (lit "abracadabra") (lit "abra") r) ∧
  (∃ r, zend_memnrstr (λ _ _, None) (lit "abracadabra") (lit "abra") = Some r ∧
     last_occurrence (lit "abracadabra") (lit "abra") r) ∧
  zend_memnstr (λ _ _, None) (lit "abracadabra") (lit "abra") = Some (Some 0) ∧
  zend_memnrstr (λ _ _, None) (lit "abracadabra") (lit "abra") = Some (Some 7).
Proof.
  destruct (memnstr_finds (λ _ _, None) (λ _ _, None) (lit "abracadabra") (lit "abra")) as (H1&H2&_).
  split; [apply H1; left; simpl; lia|]. split; [apply H2; left; simpl; lia|]. by split; vm_compute.
Defined.

Lemma print_decimal_witness :
  (∃ t, decimal (- 2 ^ 63) t ∧ (length t ≤ 20)%nat ∧
     zend_print_long_to_buf (replicate 32 NUL) (Z.of_nat 31) (- 2 ^ 63)
     = Some (text_before (replicate 32 NUL) (Z.of_nat 31) t, Z.of_nat 31 - Z.of_nat (length t))) ∧
  zend_print_long_to_buf (replicate 32 NUL) 31 (- 2 ^ 63)
  = Some (replicate 11 NUL ++ lit "-9223372036854775808" ++ [NUL], 11).
Proof.
  split; [|by vm_compute]. destruct (print_decimal (replicate 32 NUL) 31 (- 2 ^ 63)) as [_ H]; [simpl; lia|].
  apply H. lia.
Defined.

(** ** Smart strings *)

(** Room made in place, or a new string. *)
Definition model_realloc (persistent : bool) (len : Z) (str : smart_str) (heap : zheap) : option (smart_str * zheap) :=
  let room := Z.to_nat (len + 1) in
  match ss_s str with
  | None =>
      let '(s, heap) := halloc (Counted 1
        (Z.lor GC_STRING (Z.shiftl (if persistent then IS_STR_PERSISTENT else 0) GC_FLAGS_SHIFT))
        (BString 0 0 (replicate room None))) heap in
      Some (SmartStr (Some s) len, heap)
  | Some s =>
      o ← heap !! s; '(h, slen, val) ← as_string o;
      Some (SmartStr (Some s) len,
            <[s := with_string o h slen (take room val ++ replicate (room - length val) None)]> heap)
  end.
#[global] Instance model_alloc : SmartStrAlloc := {
  smart_str_erealloc := model_realloc false;
  smart_str_realloc := model_realloc true;
  zend_empty_string := 1%positive }.

#[global] Instance model_alloc_laws : SmartStrLaws.
Proof.
  split. intros p bs str len heap Ht Hlen.
  replace (if p then smart_str_realloc len str heap else smart_str_erealloc len str heap)
    with (model_realloc p len str heap) by by destruct p.
  assert (Hmax : len <= ZSTR_MAX_LEN).
  { unfold max_text in Hlen. trans (2 ^ 62); [lia|by vm_compute]. }
  unfold model_realloc, holds_text in *. destruct (ss_s str) as [s|] eqn:Hs.
  - destruct Ht as (o&Ho&h&val&Hb&Hrc&Hi&Hp&Ha&Hv). rewrite Ho. cbn [mbind option_bind]. unfold as_string. rewrite Hb.
    cbn [mbind option_bind]. eexists _, _. split; [done|]. simpl. split; [done|]. rewrite lookup_insert_eq. split_and!.
    + eexists. split; [done|]. eexists _, _. split; [done|]. split_and!; try done; [lia| |].
      * rewrite length_app, length_take, length_replicate. lia.
      * rewrite take_app_le, take_take, Nat.min_l by (rewrite ?length_take; lia). done.
    + done.
    + done.
    + split_and!; simpl; intros l Hl Hl'; try congruence. by rewrite lookup_insert_ne by congruence.
  - subst. unfold halloc. eexists _, _. split; [done|]. simpl. split; [done|]. rewrite lookup_insert_eq. split_and!.
    + eexists. split; [done|]. eexists _, _. split; [done|]. simpl in *. rewrite length_replicate.
      split_and!; try done; try lia; by destruct p.
    + done.
    + done.
    + split_and!; simpl; intros l Hl Hl'; try congruence; [by rewrite lookup_insert_ne by congruence|].
      injection Hl as <-. apply not_elem_of_dom, is_fresh.
Qed.

(** A smart string with the text "ab" beside another string. *)
Definition other_string : zend_refcounted := new_string (lit "xyz") false.
Definition text_heap : zheap := {[2%positive := other_string]}.

Lemma smart_str_appends_witness :
  appends false [] (lit "ab") (SmartStr None 0) text_heap (smart_str_appendl_ex (SmartStr None 0) (lit "ab") false text_heap) ∧
  appends false [] (lit "xyz") (SmartStr None 0) text_heap (smart_str_append_ex (SmartStr None 0) 2 false text_heap) ∧
  ∃ t, decimal (-5) t ∧ appends false [] t (SmartStr None 0) text_heap
         (smart_str_append_long_ex (replicate 32 NUL) (SmartStr None 0) (-5) false text_heap).
Proof.
  destruct (smart_str_appends_text false [] (SmartStr None 0) text_heap) as (_&H1&_&H2&_&H3&_); [done|done|].
  split; [by apply H1|]. split.
  - apply (H2 2%positive other_string (lit "xyz")); [done|apply new_string_ok|done|done].
  - apply (H3 (replicate 32 NUL) (-5)); [done|done|lia].
Defined.

Lemma smart_str_builds_witness :
  let xs := [PBytes (lit "n="); PLong (-12); PChar Byte.x3b] in
  ∃ ts str1 heap1, Forall2 piece_text xs ts ∧
    add_pieces (replicate 32 NUL) false xs (SmartStr None 0) text_heap = Some (str1, heap1) ∧
    smart_str_free_ex str1 false heap1 = Some (SmartStr None 0, text_heap).
Proof.
  intros xs. destruct (smart_str_builds (replicate 32 NUL) false xs 0 text_heap) as (ts&str1&heap1&_&_&_&H1&H2&_&_&H3&_).
  - reflexivity.
  - repeat constructor; simpl; lia.
  - by vm_compute.
  - exists ts, str1, heap1. split_and!; [exact H1|exact H2|exact H3].
Defined.

(** ** Arenas *)

(** An allocator that never looks back: the next aligned address above all blocks. *)
Definition top_address (used : list mblock) : Z := foldr (λ b n, Z.max (m_end b) n) 0 used.
Definition bump (used : list mblock) (size : Z) : option Z :=
  let addr := 8 * (top_address used / 8 + 1) in
  if addr + size <? 2 ^ 63 then Some addr else None.

Lemma top_address_nonneg used : 0 <= top_address used.
Proof. induction used; simpl; lia. Qed.
Lemma top_address_above used : Forall (λ b, m_end b <= top_address used) used.
Proof.
  induction used as [|b used IH]; constructor; simpl; [lia|]. rewrite list.Forall_forall in *. intros x Hx.
  specialize (IH x Hx). simpl in IH. lia.
Qed.
Lemma bump_allocates : allocates bump.
Proof.
  intros used size addr Hs. unfold bump. set (a := 8 * (top_address used / 8 + 1)).
  destruct (Z.ltb_spec (a + size) (2 ^ 63)); [|done]. intros [= <-].
  pose proof (top_address_nonneg used). pose proof (Z.div_mod (top_address used) 8). pose proof (Z.mod_pos_bound (top_address used) 8).
  split_and!; [lia|lia|apply Z.divide_factor_l|].
  pose proof (top_address_above used) as Ha. rewrite list.Forall_forall in *. intros b Hb. right.
  specialize (Ha b Hb). simpl in *. lia.
Qed.

(** An arena of 64 bytes beside another block. *)
Definition arena64 : list zend_arena := [MkArena 64 88 128].
Lemma arena64_ok : chain_ok [Block 8 16] arena64.
Proof.
  split_and!; [|simpl|done].
  - unfold arena_ok. change arena_header with 24. simpl. split_and!; try lia. by exists 11.
  - constructor; [|done]. right. by vm_compute.
Qed.

Lemma arena_alloc_witness :
  allocation bump [Block 8 16] arena64 30 (zend_arena_alloc bump [Block 8 16] arena64 30) ∧
  zend_arena_alloc bump [Block 8 16] arena64 30 = Some (Some (88, [MkArena 64 120 128])).
Proof.
  destruct (arena_alloc_fresh bump [Block 8 16] arena64 bump_allocates arena64_ok) as (_&H&_); [done|].
  split; [apply H; lia|by vm_compute].
Defined.

Lemma arena_release_witness :
  ∃ arenas' newer, alloc_all bump [Block 8 16] [30; 16; 100] arena64 = Some (Some arenas') ∧
    zend_arena_release arenas' 88 = Some (arena_block <$> newer, arena64) ∧ length arenas' = 3%nat.
Proof.
  destruct (arena_release_restores bump [Block 8 16] arena64 [30; 16; 100] 88) as [H|(arenas'&newer&H1&H2&_)];
    [exact bump_allocates|exact arena64_ok|repeat constructor; lia|reflexivity|discriminate H|].
  exists arenas', newer. split; [exact H1|]. split; [exact H2|]. vm_compute in H1. by injection H1 as <-.
Defined.

Lemma tracked_release_witness :
  ∃ arenas' newer more,
    track_all [(20000, 7); (30000, 9)] [TrackedArena.Tracked 1000 [5]] = Some arenas' ∧
    arenas' = newer ++ [TrackedArena.Tracked 1000 (more ++ [5])] ∧
    TrackedArena.tracked_arena_release arenas' (TrackedArena.t_ptr (TrackedArena.Tracked 1000 [5]))
    = Some (concat ((λ t, TrackedArena.t_ptrs t ++ [TrackedArena.t_base t]) <$> newer) ++ more,
            [TrackedArena.Tracked 1000 [5]]).
Proof.
  apply (tracked_release_restores 1000 [5] [] [(20000, 7); (30000, 9)]).
  - simpl. lia.
  - repeat constructor; left; by vm_compute.
Defined.

(** ** Pointer stacks *)

Lemma ptr_stack_witness :
  ∃ s1 s2, PtrStack.zend_ptr_stack_3_push (PtrStack.PtrStack 0 0 [] 0) 1 2 3 = Some s1 ∧ holds_ptrs s1 [1; 2; 3] ∧
    PtrStack.zend_ptr_stack_3_pop s1 = Some (3, 2, 1, s2) ∧ holds_ptrs s2 [].
Proof.
  destruct (ptr_stack_lifo (PtrStack.PtrStack 0 0 [] 0) [] 1 2 3) as (_&_&H); [|simpl; lia|exact H].
  split_and!; simpl; (done || lia).
Defined.

(** ** Worklists *)

Definition some_work : list work := [Push 3; Push 70; Push 3; Peek; Pop; Push 70; Pop].

Lemma worklist_memory_witness :
  ∃ w bits cells arenas', zend_worklist_prepare bump [Block 8 16] arena64 100 = Some (Some (w, bits, cells, arenas')) ∧
    prepared 100 w ∧ disjoint_blocks bits cells.
Proof.
  destruct (worklist_memory bump [Block 8 16] arena64 100 bump_allocates arena64_ok) as [H _]; [done|lia|].
  destruct (zend_worklist_prepare bump [Block 8 16] arena64 100) as [[[[[w bits] cells] arenas']|]|] eqn:E;
    [|vm_compute in E; discriminate E..].
  exists w, bits, cells, arenas'. split; [done|]. destruct H as (H1&_&_&_&_&_&H2&_). split; [exact H1|exact H2].
Defined.
