(* ===== verification/ZendHash.v ===== *)
(** * Hash tables (Zend/zend_hash.h)

    The table of a PHP array: its flag word, the buckets or packed values, the
    hash slots with their collision chains. The iteration macros in all their
    forms, the bulk fill of a packed table, the append of a new key, the deletion
    while iterating, and the test for a list. The functions of zend_hash.c that
    they call are parameters. *)

From S2P Require Import Prelude ZendTypes ZendString.
Import HashLayout.

(** ** The table *)

Module Table.

Definition HASH_FLAG_CONSISTENCY : Z := Z.lor (Z.shiftl 1 0) (Z.shiftl 1 1).
Definition HASH_FLAG_PACKED : Z := Z.shiftl 1 2.
Definition HASH_FLAG_UNINITIALIZED : Z := Z.shiftl 1 3.
Definition HASH_FLAG_STATIC_KEYS : Z := Z.shiftl 1 4.
Definition HASH_FLAG_HAS_EMPTY_IND : Z := Z.shiftl 1 5.
Definition HASH_FLAG_ALLOW_COW_VIOLATION : Z := Z.shiftl 1 6.
Definition HASH_FLAG_MASK : Z := 0xff.

(** [Bucket]: a value, its hash or integer key, and the string key. *)
Record Bucket : Type := Bkt { b_val : zval; b_h : Z; b_key : option loc }.

(** The union behind [arData] and [arPacked]: buckets or bare values. *)
Inductive ar : Type :=
| ArData (buckets : list Bucket)
| ArPacked (values : list zval).

(** [struct _zend_array] after its counted header; [arHash] are the hash slots,
    that lie before [arData], in the order of their addresses. [pDestructor] is
    used by zend_hash.c only. *)
Record HashTable : Type := Table {
  HT_FLAGS : Z;
  nTableMask : Z;
  arHash : list Z;
  ht_ar : ar;
  nNumUsed : Z;
  nNumOfElements : Z;
  nTableSize : Z;
  nInternalPointer : Z;
  nNextFreeElement : Z }.

Section setters.
Implicit Type ht : HashTable.
Definition set_flags f ht : HashTable :=
  Table f (nTableMask ht) (arHash ht) (ht_ar ht) (nNumUsed ht) (nNumOfElements ht) (nTableSize ht)
    (nInternalPointer ht) (nNextFreeElement ht).
Definition set_arHash s ht : HashTable :=
  Table (HT_FLAGS ht) (nTableMask ht) s (ht_ar ht) (nNumUsed ht) (nNumOfElements ht) (nTableSize ht)
    (nInternalPointer ht) (nNextFreeElement ht).
Definition set_ar a ht : HashTable :=
  Table (HT_FLAGS ht) (nTableMask ht) (arHash ht) a (nNumUsed ht) (nNumOfElements ht) (nTableSize ht)
    (nInternalPointer ht) (nNextFreeElement ht).
Definition set_used n ht : HashTable :=
  Table (HT_FLAGS ht) (nTableMask ht) (arHash ht) (ht_ar ht) n (nNumOfElements ht) (nTableSize ht)
    (nInternalPointer ht) (nNextFreeElement ht).
Definition set_elements n ht : HashTable :=
  Table (HT_FLAGS ht) (nTableMask ht) (arHash ht) (ht_ar ht) (nNumUsed ht) n (nTableSize ht)
    (nInternalPointer ht) (nNextFreeElement ht).
Definition set_internal_pointer n ht : HashTable :=
  Table (HT_FLAGS ht) (nTableMask ht) (arHash ht) (ht_ar ht) (nNumUsed ht) (nNumOfElements ht) (nTableSize ht)
    n (nNextFreeElement ht).
Definition set_next_free n ht : HashTable :=
  Table (HT_FLAGS ht) (nTableMask ht) (arHash ht) (ht_ar ht) (nNumUsed ht) (nNumOfElements ht) (nTableSize ht)
    (nInternalPointer ht) n.

(** *** The flag word *)
Definition HT_INVALIDATE ht : HashTable := set_flags HASH_FLAG_UNINITIALIZED ht.
Definition HT_IS_INITIALIZED ht : bool := Z.land (HT_FLAGS ht) HASH_FLAG_UNINITIALIZED =? 0.
Definition HT_IS_PACKED ht : bool := negb (Z.land (HT_FLAGS ht) HASH_FLAG_PACKED =? 0).
Definition HT_IS_WITHOUT_HOLES ht : bool := nNumUsed ht =? nNumOfElements ht.
Definition HT_HAS_STATIC_KEYS_ONLY ht : bool :=
  negb (Z.land (HT_FLAGS ht) (Z.lor HASH_FLAG_PACKED HASH_FLAG_STATIC_KEYS) =? 0).

(** [u.v.nIteratorsCount], the third byte of the flag word. *)
Definition HT_ITERATORS_COUNT ht : Z := Z.land (Z.shiftr (HT_FLAGS ht) 16) 0xff.
Definition HT_ITERATORS_OVERFLOW ht : bool := HT_ITERATORS_COUNT ht =? 0xff.
Definition HT_HAS_ITERATORS ht : bool := negb (HT_ITERATORS_COUNT ht =? 0).
Definition HT_SET_ITERATORS_COUNT ht (iters : Z) : HashTable :=
  set_flags (Z.lor (Z.land (HT_FLAGS ht) 0xff00ffff) (Z.shiftl (Z.land iters 0xff) 16)) ht.
Definition HT_INC_ITERATORS_COUNT ht : HashTable := HT_SET_ITERATORS_COUNT ht (HT_ITERATORS_COUNT ht + 1).
Definition HT_DEC_ITERATORS_COUNT ht : HashTable := HT_SET_ITERATORS_COUNT ht (HT_ITERATORS_COUNT ht - 1).

Definition zend_hash_num_elements ht : Z := nNumOfElements ht.
Definition zend_hash_next_free_element ht : Z := nNextFreeElement ht.

(** *** Memory behind [arData] *)

(** The value and the bucket at a byte offset: a [zval] takes 16 bytes, a bucket
    32 with the value first. Other offsets are not addresses of a value. *)
Definition at_offset {A} (l : list A) (size off : Z) : option A :=
  if (0 <=? off) && (off mod size =? 0) then l !! Z.to_nat (off / size) else None.
Definition zval_at ht (off : Z) : option zval :=
  match ht_ar ht with
  | ArPacked zs => at_offset zs sizeof_zval off
  | ArData bs => b_val <$> at_offset bs sizeof_Bucket off
  end.
Definition bucket_at ht (off : Z) : option Bucket :=
  match ht_ar ht with
  | ArPacked _ => None
  | ArData bs => at_offset bs sizeof_Bucket off
  end.
End setters.
End Table.
Export Table.

(** ** Iteration *)
Module Iter.

(** How the body of a loop ends: with the next turn, or out of the loop. *)
Inductive control (S : Type) : Type :=
| Next (s : S)
| Break (s : S).
Arguments Next {S} s.
Arguments Break {S} s.

(** What a turn of a loop gives its body: [__h], [__key] and [_z]. *)
Record entry : Type := Entry { e_h : Z; e_key : option loc; e_val : zval }.

(** [sizeof(zval) + (~HT_FLAGS(ht) & HASH_FLAG_PACKED) * ...], in a [size_t], and
    the plain variant it replaces. *)
Definition ZEND_HASH_ELEMENT_SIZE (ht : HashTable) : Z :=
  u64 (sizeof_zval + Z.land (Z.lxor (HT_FLAGS ht) 0xffffffff) HASH_FLAG_PACKED
                     * ((sizeof_Bucket - sizeof_zval) / HASH_FLAG_PACKED)).
Definition ZEND_HASH_ELEMENT_SIZE_plain (ht : HashTable) : Z :=
  if HT_IS_PACKED ht then sizeof_zval else sizeof_Bucket.

Definition ZEND_HASH_ELEMENT_EX (idx size : Z) : Z := idx * size.
Definition ZEND_HASH_NEXT_ELEMENT (el size : Z) : Z := el + size.
Definition ZEND_HASH_PREV_ELEMENT (el size : Z) : Z := el - size.

Section loops.
Context {S : Type}.
Implicit Types (s : S) (ht : HashTable).

(** [if (Z_TYPE_P(_z) == IS_UNDEF) continue;] and the body of the loop. *)
Definition turn (body : entry → S → control S) (e : entry) (s : S) : control S :=
  if zval_get_type (e_val e) =? IS_UNDEF then Next s else body e s.

(** The rest of the loop after a turn. *)
Definition continue_with (c : control S) (rest : S → option (control S)) : option (control S) :=
  match c with Next s => rest s | Break s => Some (Break s) end.

(** [_ZEND_HASH_FOREACH_VAL]: [_count] turns, the element pointer one size further
    each time. *)
Fixpoint foreach_val_loop ht (body : entry → S → control S) (count : nat) (size z : Z) s
    : option (control S) :=
  match count with
  | O => Some (Next s)
  | Datatypes.S count =>
      v ← zval_at ht z;
      continue_with (turn body (Entry 0 None v) s)
        (foreach_val_loop ht body count size (ZEND_HASH_NEXT_ELEMENT z size))
  end.
Definition ZEND_HASH_FOREACH_VAL ht body s : option (control S) :=
  foreach_val_loop ht body (Z.to_nat (nNumUsed ht)) (ZEND_HASH_ELEMENT_SIZE ht) 0 s.

Fixpoint reverse_foreach_val_loop ht (body : entry → S → control S) (idx : nat) (size z : Z) s
    : option (control S) :=
  match idx with
  | O => Some (Next s)
  | Datatypes.S idx =>
      let z := ZEND_HASH_PREV_ELEMENT z size in
      v ← zval_at ht z;
      continue_with (turn body (Entry 0 None v) s) (reverse_foreach_val_loop ht body idx size z)
  end.
Definition ZEND_HASH_REVERSE_FOREACH_VAL ht body s : option (control S) :=
  let size := ZEND_HASH_ELEMENT_SIZE ht in
  reverse_foreach_val_loop ht body (Z.to_nat (nNumUsed ht)) size
    (ZEND_HASH_ELEMENT_EX (nNumUsed ht) size) s.

(** The value an [IS_INDIRECT] value stands for, in the memory of the slots that
    such values point to. *)
Definition Z_INDIRECT (mem : gmap loc zval) (v : zval) : option zval :=
  match z_value v with VPtr (Some l) => mem !! l | _ => None end.
Definition follow (indirect : bool) (mem : gmap loc zval) (v : zval) : option zval :=
  if indirect && (zval_get_type v =? IS_INDIRECT) then Z_INDIRECT mem v else Some v.

Definition entry_of (b : Bucket) (v : zval) : entry := Entry (b_h b) (b_key b) v.

(** [ZEND_HASH_FOREACH_FROM]: packed and mixed tables in one loop. *)
Fixpoint foreach_loop ht (indirect : bool) mem (body : entry → S → control S) (count : nat) (idx z : Z) s
    : option (control S) :=
  match count with
  | O => Some (Next s)
  | Datatypes.S count =>
      if HT_IS_PACKED ht then
        v ← zval_at ht z;
        continue_with (turn body (Entry idx None v) s)
          (foreach_loop ht indirect mem body count (u32 (idx + 1)) (z + sizeof_zval))
      else
        p ← bucket_at ht z;
        v ← follow indirect mem (b_val p);
        continue_with (turn body (entry_of p v) s)
          (foreach_loop ht indirect mem body count idx (z + sizeof_Bucket))
  end.
Definition ZEND_HASH_FOREACH_FROM ht indirect mem from body s : option (control S) :=
  foreach_loop ht indirect mem body (Z.to_nat (u32 (nNumUsed ht - from))) from
    (ZEND_HASH_ELEMENT_EX from (ZEND_HASH_ELEMENT_SIZE ht)) s.
Definition ZEND_HASH_FOREACH ht indirect mem body s : option (control S) :=
  ZEND_HASH_FOREACH_FROM ht indirect mem 0 body s.

Fixpoint reverse_foreach_loop ht (indirect : bool) mem (body : entry → S → control S) (idx : nat) (z : Z) s
    : option (control S) :=
  match idx with
  | O => Some (Next s)
  | Datatypes.S idx =>
      if HT_IS_PACKED ht then
        let z := z - sizeof_zval in
        v ← zval_at ht z;
        continue_with (turn body (Entry (Z.of_nat idx) None v) s)
          (reverse_foreach_loop ht indirect mem body idx z)
      else
        let z := z - sizeof_Bucket in
        p ← bucket_at ht z;
        v ← follow indirect mem (b_val p);
        continue_with (turn body (entry_of p v) s) (reverse_foreach_loop ht indirect mem body idx z)
  end.
Definition ZEND_HASH_REVERSE_FOREACH ht indirect mem body s : option (control S) :=
  reverse_foreach_loop ht indirect mem body (Z.to_nat (nNumUsed ht))
    (ZEND_HASH_ELEMENT_EX (nNumUsed ht) (ZEND_HASH_ELEMENT_SIZE ht)) s.

(** [ZEND_HASH_MAP_FOREACH_FROM]: a bucket pointer from [arData + from] to
    [arData + nNumUsed]; [fuel] bounds the turns. *)
Fixpoint map_foreach_loop ht (indirect : bool) mem (body : entry → S → control S) (fuel : nat) (p end_ : Z) s
    : option (control S) :=
  match fuel with
  | O => None
  | Datatypes.S fuel =>
      if p =? end_ then Some (Next s)
      else
        b ← bucket_at ht p;
        v ← follow indirect mem (b_val b);
        continue_with (turn body (entry_of b v) s)
          (map_foreach_loop ht indirect mem body fuel (p + sizeof_Bucket) end_)
  end.
Definition ZEND_HASH_MAP_FOREACH_FROM ht indirect mem from body s : option (control S) :=
  if HT_IS_PACKED ht then None
  else map_foreach_loop ht indirect mem body (Datatypes.S (Z.to_nat (nNumUsed ht))) (from * sizeof_Bucket)
         (nNumUsed ht * sizeof_Bucket) s.
Definition ZEND_HASH_MAP_FOREACH ht indirect mem body s : option (control S) :=
  ZEND_HASH_MAP_FOREACH_FROM ht indirect mem 0 body s.

Fixpoint map_reverse_foreach_loop ht (indirect : bool) mem (body : entry → S → control S) (idx : nat) (p : Z) s
    : option (control S) :=
  match idx with
  | O => Some (Next s)
  | Datatypes.S idx =>
      let p := p - sizeof_Bucket in
      b ← bucket_at ht p;
      v ← follow indirect mem (b_val b);
      continue_with (turn body (entry_of b v) s) (map_reverse_foreach_loop ht indirect mem body idx p)
  end.
Definition ZEND_HASH_MAP_REVERSE_FOREACH ht indirect mem body s : option (control S) :=
  if HT_IS_PACKED ht then None
  else map_reverse_foreach_loop ht indirect mem body (Z.to_nat (nNumUsed ht)) (nNumUsed ht * sizeof_Bucket) s.

(** [ZEND_HASH_PACKED_FOREACH_FROM]; [_idx] is a [zend_ulong] here. *)
Fixpoint packed_foreach_loop ht (body : entry → S → control S) (fuel : nat) (z end_ idx : Z) s
    : option (control S) :=
  match fuel with
  | O => None
  | Datatypes.S fuel =>
      if z =? end_ then Some (Next s)
      else
        v ← zval_at ht z;
        continue_with (turn body (Entry idx None v) s)
          (packed_foreach_loop ht body fuel (z + sizeof_zval) end_ (u64 (idx + 1)))
  end.
Definition ZEND_HASH_PACKED_FOREACH_FROM ht from body s : option (control S) :=
  if HT_IS_PACKED ht then
    packed_foreach_loop ht body (Datatypes.S (Z.to_nat (nNumUsed ht))) (from * sizeof_zval)
      (nNumUsed ht * sizeof_zval) from s
  else None.
Definition ZEND_HASH_PACKED_FOREACH ht body s : option (control S) :=
  ZEND_HASH_PACKED_FOREACH_FROM ht 0 body s.

Fixpoint packed_reverse_foreach_loop ht (body : entry → S → control S) (idx : nat) (z : Z) s
    : option (control S) :=
  match idx with
  | O => Some (Next s)
  | Datatypes.S idx =>
      let z := z - sizeof_zval in
      v ← zval_at ht z;
      continue_with (turn body (Entry (Z.of_nat idx) None v) s) (packed_reverse_foreach_loop ht body idx z)
  end.
Definition ZEND_HASH_PACKED_REVERSE_FOREACH ht body s : option (control S) :=
  if HT_IS_PACKED ht then
    packed_reverse_foreach_loop ht body (Z.to_nat (nNumUsed ht)) (nNumUsed ht * sizeof_zval) s
  else None.
End loops.
End Iter.
Export Iter.

(** ** Iteration against a list *)

(** The entries of the used part of a table, in order. *)
Definition used {A} (ht : HashTable) (l : list A) : list A := take (Z.to_nat (nNumUsed ht)) l.
Definition visible (ht : HashTable) (indirect : bool) (mem : gmap loc zval) : list entry :=
  match ht_ar ht with
  | ArPacked zs => imap (λ i v, Entry (Z.of_nat i) None v) (used ht zs)
  | ArData bs => (λ b, entry_of b (default (b_val b) (follow indirect mem (b_val b)))) <$> used ht bs
  end.

Definition live (e : entry) : bool := negb (zval_get_type (e_val e) =? IS_UNDEF).
(** A value macro gives its body the value only. *)
Definition value_only (e : entry) : entry := Entry 0 None (e_val e).

(** The flag says what the memory holds, and the used part lies within it. *)
Definition shape_ok (ht : HashTable) : Prop :=
  match ht_ar ht with
  | ArPacked zs => HT_IS_PACKED ht = true ∧ nNumUsed ht <= Z.of_nat (length zs)
  | ArData bs => HT_IS_PACKED ht = false ∧ nNumUsed ht <= Z.of_nat (length bs)
  end ∧ 0 <= nNumUsed ht < 2 ^ 32.

(** Every indirect value points to a slot. *)
Definition resolvable (ht : HashTable) (indirect : bool) (mem : gmap loc zval) : Prop :=
  match ht_ar ht with
  | ArPacked _ => True
  | ArData bs => Forall (λ b, is_Some (follow indirect mem (b_val b))) bs
  end.

Section iteration.
Context {S : Type}.
Implicit Types (s : S) (ht : HashTable) (body : entry → S → control S).

(** One turn for each element of a list. *)
Fixpoint for_entries body (l : list entry) s : control S :=
  match l with
  | [] => Next s
  | e :: l => match body e s with Next s => for_entries body l s | Break s => Break s end
  end.

Lemma for_entries_live body l s :
  for_entries (turn body) l s = for_entries body (List.filter live l) s.
Proof.
  revert s. induction l as [|e l IH]; intros s; [done|]. simpl. unfold turn at 1, live at 1.
  destruct (zval_get_type (e_val e) =? IS_UNDEF); simpl; [apply IH|]. destruct (body e s); [apply IH|done].
Qed.

Lemma land_bit x n : 0 <= n → Z.land x (2 ^ n) = if Z.testbit x n then 2 ^ n else 0.
Proof.
  intros Hn. apply Z.bits_inj'. intros i Hi. rewrite Z.land_spec.
  destruct (Z.eq_dec i n) as [->|Hd].
  - rewrite Z.pow2_bits_true, andb_true_r by done.
    destruct (Z.testbit x n) eqn:Hx; [by rewrite Z.pow2_bits_true|by rewrite Z.testbit_0_l].
  - rewrite (Z.pow2_bits_false n i), andb_false_r by lia.
    destruct (Z.testbit x n); [by rewrite Z.pow2_bits_false by lia|by rewrite Z.testbit_0_l].
Qed.

Lemma element_size_eq ht : ZEND_HASH_ELEMENT_SIZE ht = ZEND_HASH_ELEMENT_SIZE_plain ht.
Proof.
  unfold ZEND_HASH_ELEMENT_SIZE, ZEND_HASH_ELEMENT_SIZE_plain, HT_IS_PACKED.
  change HASH_FLAG_PACKED with (2 ^ 2). rewrite !land_bit, Z.lxor_spec by done.
  by destruct (Z.testbit (HT_FLAGS ht) 2).
Qed.

Lemma at_offset_index {A} (l : list A) size (i : nat) : 0 < size → at_offset l size (Z.of_nat i * size) = l !! i.
Proof.
  intros Hs. unfold at_offset. rewrite Z.mod_mul, Z.div_mul by lia.
  rewrite (proj2 (Z.leb_le _ _)) by nia. simpl. by rewrite Nat2Z.id.
Qed.

(** The element an index stands for. *)
Lemma packed_entry ht zs (i : nat) ind mem :
  shape_ok ht → ht_ar ht = ArPacked zs → (i < Z.to_nat (nNumUsed ht))%nat →
  ∃ v, zval_at ht (Z.of_nat i * sizeof_zval) = Some v ∧ visible ht ind mem !! i = Some (Entry (Z.of_nat i) None v).
Proof.
  intros [Hs Hn] Ha Hi. unfold zval_at, visible. rewrite Ha in *. destruct Hs as [_ Hlen].
  assert (is_Some (zs !! i)) as [v Hv] by (apply lookup_lt_is_Some; lia).
  exists v. rewrite at_offset_index by done. split; [done|].
  rewrite list_lookup_imap. unfold used. rewrite lookup_take_lt by done. by rewrite Hv.
Qed.

Lemma mixed_entry ht bs (i : nat) ind mem :
  shape_ok ht → resolvable ht ind mem → ht_ar ht = ArData bs → (i < Z.to_nat (nNumUsed ht))%nat →
  ∃ b v, bucket_at ht (Z.of_nat i * sizeof_Bucket) = Some b ∧ follow ind mem (b_val b) = Some v ∧
    visible ht ind mem !! i = Some (entry_of b v).
Proof.
  intros [Hs Hn] Hr Ha Hi. unfold bucket_at, visible, resolvable in *. rewrite Ha in *. destruct Hs as [_ Hlen].
  assert (is_Some (bs !! i)) as [b Hb] by (apply lookup_lt_is_Some; lia).
  destruct (Forall_lookup_1 _ _ _ _ Hr Hb) as [v Hv].
  exists b, v. rewrite at_offset_index by done. split; [done|]. split; [done|].
  rewrite list_lookup_fmap. unfold used. rewrite lookup_take_lt by done. rewrite Hb. simpl. by rewrite Hv.
Qed.

Lemma length_visible ht ind mem : shape_ok ht → length (visible ht ind mem) = Z.to_nat (nNumUsed ht).
Proof.
  intros [Hs Hn]. unfold visible, used. destruct (ht_ar ht); destruct Hs as [_ Hl];
    rewrite ?length_imap, ?length_fmap, length_take; lia.
Qed.

(** A turn and the rest of the list. *)
Lemma continue_step body (i : nat) l e s rest :
  l !! i = Some e → (∀ s', rest s' = Some (for_entries (turn body) (drop (Datatypes.S i) l) s')) →
  continue_with (turn body e s) rest = Some (for_entries (turn body) (drop i l) s).
Proof. intros He Hr. rewrite (drop_S _ _ _ He). simpl. destruct (turn body e s); simpl; [apply Hr|done]. Qed.

Lemma continue_back body (i : nat) l e s rest :
  l !! i = Some e → (∀ s', rest s' = Some (for_entries (turn body) (reverse (take i l)) s')) →
  continue_with (turn body e s) rest = Some (for_entries (turn body) (reverse (take (Datatypes.S i) l)) s).
Proof.
  intros He Hr. rewrite (take_S_r _ _ _ He), reverse_app. simpl. destruct (turn body e s); simpl; [apply Hr|done].
Qed.

Lemma loop_end (l : list entry) (i n : nat) : length l = n → (n ≤ i)%nat → drop i l = [].
Proof. intros. apply drop_ge. lia. Qed.

Lemma next_offset (i : nat) size : Z.of_nat i * size + size = Z.of_nat (Datatypes.S i) * size.
Proof. lia. Qed.
Lemma prev_offset (i : nat) size : Z.of_nat (Datatypes.S i) * size - size = Z.of_nat i * size.
Proof. lia. Qed.

Section packed.
Context ht zs (ok : shape_ok ht) (packed : ht_ar ht = ArPacked zs).

Lemma packed_flag : HT_IS_PACKED ht = true.
Proof using ok packed. destruct ok as [H _]. rewrite packed in H. apply H. Qed.

Lemma foreach_packed ind mem body count : ∀ i s,
  (i + count = Z.to_nat (nNumUsed ht))%nat →
  foreach_loop ht ind mem body count (Z.of_nat i) (Z.of_nat i * sizeof_zval) s
  = Some (for_entries (turn body) (drop i (visible ht ind mem)) s).
Proof using ok packed.
  pose proof (length_visible ht ind mem ok) as Hlen. destruct ok as [_ Hn].
  induction count as [|count IH]; intros i s Hi; cbn [foreach_loop].
  - by rewrite (loop_end _ i _ Hlen) by lia.
  - rewrite packed_flag. destruct (packed_entry ht zs i ind mem ok packed) as (v&Hz&Hv); [lia|].
    rewrite Hz. cbn [mbind option_bind]. apply continue_step; [done|]. intros s'.
    rewrite next_offset, <- IH by lia. f_equal. rewrite u32_small by lia. lia.
Qed.

Lemma reverse_foreach_packed ind mem body i : ∀ s,
  (i ≤ Z.to_nat (nNumUsed ht))%nat →
  reverse_foreach_loop ht ind mem body i (Z.of_nat i * sizeof_zval) s
  = Some (for_entries (turn body) (reverse (take i (visible ht ind mem))) s).
Proof using ok packed.
  induction i as [|i IH]; intros s Hi; [done|]. cbn [reverse_foreach_loop]. rewrite packed_flag, prev_offset.
  destruct (packed_entry ht zs i ind mem ok packed) as (v&Hz&Hv); [lia|].
  cbv zeta. rewrite Hz. cbn [mbind option_bind]. apply continue_back; [done|]. intros s'. apply IH. lia.
Qed.

Lemma packed_foreach_packed ind mem body fuel : ∀ (i : nat) s,
  (Z.to_nat (nNumUsed ht) < i + fuel)%nat → (i ≤ Z.to_nat (nNumUsed ht))%nat →
  packed_foreach_loop ht body fuel (Z.of_nat i * sizeof_zval) (nNumUsed ht * sizeof_zval) (Z.of_nat i) s
  = Some (for_entries (turn body) (drop i (visible ht ind mem)) s).
Proof using ok packed.
  pose proof (length_visible ht ind mem ok) as Hlen. pose proof (proj2 ok) as Hn.
  induction fuel as [|fuel IH]; intros i s Hf Hi; [lia|]. cbn [packed_foreach_loop].
  destruct (Z.eqb_spec (Z.of_nat i * sizeof_zval) (nNumUsed ht * sizeof_zval)) as [He|He].
  - rewrite (loop_end _ i _ Hlen); [done|]. unfold sizeof_zval in He. lia.
  - unfold sizeof_zval in He. destruct (packed_entry ht zs i ind mem ok packed) as (v&Hz&Hv); [lia|].
    rewrite Hz. cbn [mbind option_bind]. apply continue_step; [done|]. intros s'.
    rewrite next_offset, <- IH by lia. f_equal. rewrite u64_small by lia. lia.
Qed.

Lemma packed_reverse_packed ind mem body i : ∀ s,
  (i ≤ Z.to_nat (nNumUsed ht))%nat →
  packed_reverse_foreach_loop ht body i (Z.of_nat i * sizeof_zval) s
  = Some (for_entries (turn body) (reverse (take i (visible ht ind mem))) s).
Proof using ok packed.
  induction i as [|i IH]; intros s Hi; [done|]. cbn [packed_reverse_foreach_loop]. rewrite prev_offset.
  destruct (packed_entry ht zs i ind mem ok packed) as (v&Hz&Hv); [lia|].
  cbv zeta. rewrite Hz. cbn [mbind option_bind]. apply continue_back; [done|]. intros s'. apply IH. lia.
Qed.
End packed.

Section mixed.
Context ht bs (ok : shape_ok ht) (mixed : ht_ar ht = ArData bs) ind mem (res : resolvable ht ind mem).

Lemma mixed_flag : HT_IS_PACKED ht = false.
Proof using ok mixed. destruct ok as [H _]. rewrite mixed in H. apply H. Qed.

Lemma foreach_mixed body count : ∀ i idx s,
  (i + count = Z.to_nat (nNumUsed ht))%nat →
  foreach_loop ht ind mem body count idx (Z.of_nat i * sizeof_Bucket) s
  = Some (for_entries (turn body) (drop i (visible ht ind mem)) s).
Proof using ok mixed res.
  pose proof (length_visible ht ind mem ok) as Hlen.
  induction count as [|count IH]; intros i idx s Hi; cbn [foreach_loop].
  - by rewrite (loop_end _ i _ Hlen) by lia.
  - rewrite mixed_flag. destruct (mixed_entry ht bs i ind mem ok res mixed) as (b&v&Hb&Hf&Hv); [lia|].
    rewrite Hb. cbn [mbind option_bind]. rewrite Hf. cbn [mbind option_bind]. apply continue_step; [done|].
    intros s'. rewrite next_offset. apply IH. lia.
Qed.

Lemma reverse_foreach_mixed body i : ∀ s,
  (i ≤ Z.to_nat (nNumUsed ht))%nat →
  reverse_foreach_loop ht ind mem body i (Z.of_nat i * sizeof_Bucket) s
  = Some (for_entries (turn body) (reverse (take i (visible ht ind mem))) s).
Proof using ok mixed res.
  induction i as [|i IH]; intros s Hi; [done|]. cbn [reverse_foreach_loop]. rewrite mixed_flag, prev_offset.
  destruct (mixed_entry ht bs i ind mem ok res mixed) as (b&v&Hb&Hf&Hv); [lia|].
  cbv zeta. rewrite Hb. cbn [mbind option_bind]. rewrite Hf. cbn [mbind option_bind].
  apply continue_back; [done|]. intros s'. apply IH. lia.
Qed.

Lemma map_foreach_mixed body fuel : ∀ (i : nat) s,
  (Z.to_nat (nNumUsed ht) < i + fuel)%nat → (i ≤ Z.to_nat (nNumUsed ht))%nat →
  map_foreach_loop ht ind mem body fuel (Z.of_nat i * sizeof_Bucket) (nNumUsed ht * sizeof_Bucket) s
  = Some (for_entries (turn body) (drop i (visible ht ind mem)) s).
Proof using ok mixed res.
  pose proof (length_visible ht ind mem ok) as Hlen. pose proof (proj2 ok) as Hn.
  induction fuel as [|fuel IH]; intros i s Hf Hi; [lia|]. cbn [map_foreach_loop].
  destruct (Z.eqb_spec (Z.of_nat i * sizeof_Bucket) (nNumUsed ht * sizeof_Bucket)) as [He|He].
  - rewrite (loop_end _ i _ Hlen); [done|]. unfold sizeof_Bucket in He. lia.
  - unfold sizeof_Bucket in He. destruct (mixed_entry ht bs i ind mem ok res mixed) as (b&v&Hb&Hv&Hx); [lia|].
    rewrite Hb. cbn [mbind option_bind]. rewrite Hv. cbn [mbind option_bind]. apply continue_step; [done|].
    intros s'. rewrite next_offset. apply IH; lia.
Qed.

Lemma map_reverse_mixed body i : ∀ s,
  (i ≤ Z.to_nat (nNumUsed ht))%nat →
  map_reverse_foreach_loop ht ind mem body i (Z.of_nat i * sizeof_Bucket) s
  = Some (for_entries (turn body) (reverse (take i (visible ht ind mem))) s).
Proof using ok mixed res.
  induction i as [|i IH]; intros s Hi; [done|]. cbn [map_reverse_foreach_loop]. rewrite prev_offset.
  destruct (mixed_entry ht bs i ind mem ok res mixed) as (b&v&Hb&Hf&Hv); [lia|].
  cbv zeta. rewrite Hb. cbn [mbind option_bind]. rewrite Hf. cbn [mbind option_bind].
  apply continue_back; [done|]. intros s'. apply IH. lia.
Qed.
End mixed.

(** *** The value loops, over the bytes of the elements *)

Lemma element_at ht (i : nat) :
  shape_ok ht → (i < Z.to_nat (nNumUsed ht))%nat →
  ∃ e, (value_only <$> visible ht false ∅) !! i = Some e ∧
       zval_at ht (Z.of_nat i * ZEND_HASH_ELEMENT_SIZE_plain ht) = Some (e_val e) ∧ e = Entry 0 None (e_val e).
Proof.
  intros Hok Hi. unfold ZEND_HASH_ELEMENT_SIZE_plain. destruct (ht_ar ht) as [bs|zs] eqn:Ha.
  - assert (Hres : resolvable ht false ∅).
    { unfold resolvable. rewrite Ha. apply list.Forall_forall. by eexists. }
    rewrite (mixed_flag ht bs Hok Ha).
    destruct (mixed_entry ht bs i false ∅ Hok Hres Ha Hi) as (b&v&Hb&Hf&Hv). simplify_eq/=.
    eexists. rewrite list_lookup_fmap, Hv. split; [done|]. split; [|done]. simpl.
    unfold zval_at, bucket_at in *. rewrite Ha in *. by rewrite Hb.
  - rewrite (packed_flag ht zs Hok Ha).
    destruct (packed_entry ht zs i false ∅ Hok Ha Hi) as (v&Hz&Hv).
    eexists. rewrite list_lookup_fmap, Hv. split; [done|]. split; [exact Hz|done].
Qed.

Lemma foreach_val_visits ht body count : ∀ i s,
  shape_ok ht → (i + count = Z.to_nat (nNumUsed ht))%nat →
  foreach_val_loop ht body count (ZEND_HASH_ELEMENT_SIZE_plain ht)
    (Z.of_nat i * ZEND_HASH_ELEMENT_SIZE_plain ht) s
  = Some (for_entries (turn body) (drop i (value_only <$> visible ht false ∅)) s).
Proof.
  induction count as [|count IH]; intros i s Hok Hi; cbn [foreach_val_loop].
  - rewrite (loop_end _ i (Z.to_nat (nNumUsed ht))); [done| |lia]. by rewrite length_fmap, length_visible.
  - destruct (element_at ht i Hok) as (e&He&Hz&Hx); [lia|]. rewrite Hz. cbn [mbind option_bind].
    rewrite <- Hx. apply continue_step; [done|]. intros s'. unfold ZEND_HASH_NEXT_ELEMENT.
    rewrite next_offset. apply IH; [done|lia].
Qed.

Lemma reverse_foreach_val_visits ht body i : ∀ s,
  shape_ok ht → (i ≤ Z.to_nat (nNumUsed ht))%nat →
  reverse_foreach_val_loop ht body i (ZEND_HASH_ELEMENT_SIZE_plain ht)
    (Z.of_nat i * ZEND_HASH_ELEMENT_SIZE_plain ht) s
  = Some (for_entries (turn body) (reverse (take i (value_only <$> visible ht false ∅))) s).
Proof.
  induction i as [|i IH]; intros s Hok Hi; [done|]. cbn [reverse_foreach_val_loop].
  unfold ZEND_HASH_PREV_ELEMENT. rewrite prev_offset.
  destruct (element_at ht i Hok) as (e&He&Hz&Hx); [lia|]. cbv zeta. rewrite Hz. cbn [mbind option_bind].
  rewrite <- Hx. apply continue_back; [done|]. intros s'. apply IH; [done|lia].
Qed.

(** The start of the loops, with the number of turns the macros compute. *)
Lemma take_visible ht ind mem : shape_ok ht → take (Z.to_nat (nNumUsed ht)) (visible ht ind mem) = visible ht ind mem.
Proof. intros Hok. apply firstn_all2. by rewrite length_visible. Qed.

Lemma foreach_from_spec ht ind mem from body s :
  shape_ok ht → resolvable ht ind mem → 0 <= from <= nNumUsed ht →
  ZEND_HASH_FOREACH_FROM ht ind mem from body s
  = Some (for_entries (turn body) (drop (Z.to_nat from) (visible ht ind mem)) s).
Proof.
  intros Hok Hres Hfrom. unfold ZEND_HASH_FOREACH_FROM, ZEND_HASH_ELEMENT_EX. rewrite element_size_eq.
  unfold ZEND_HASH_ELEMENT_SIZE_plain. pose proof (proj2 Hok) as Hn. rewrite u32_small by lia.
  rewrite <- (Z2Nat.id from) at 2 3 by lia. destruct (ht_ar ht) as [bs|zs] eqn:Ha.
  - rewrite (mixed_flag ht bs Hok Ha). apply (foreach_mixed ht bs Hok Ha); [done|lia].
  - rewrite (packed_flag ht zs Hok Ha). apply (foreach_packed ht zs Hok Ha). lia.
Qed.

Lemma reverse_foreach_spec ht ind mem body s :
  shape_ok ht → resolvable ht ind mem →
  ZEND_HASH_REVERSE_FOREACH ht ind mem body s
  = Some (for_entries (turn body) (reverse (visible ht ind mem)) s).
Proof.
  intros Hok Hres. unfold ZEND_HASH_REVERSE_FOREACH, ZEND_HASH_ELEMENT_EX. rewrite element_size_eq.
  unfold ZEND_HASH_ELEMENT_SIZE_plain. pose proof (proj2 Hok) as Hn.
  rewrite <- (Z2Nat.id (nNumUsed ht)) at 2 by lia. rewrite <- (take_visible ht ind mem) by done.
  destruct (ht_ar ht) as [bs|zs] eqn:Ha.
  - rewrite (mixed_flag ht bs Hok Ha). by apply (reverse_foreach_mixed ht bs Hok Ha).
  - rewrite (packed_flag ht zs Hok Ha). by apply (reverse_foreach_packed ht zs Hok Ha).
Qed.

Lemma map_foreach_spec ht ind mem from body s :
  shape_ok ht → resolvable ht ind mem → HT_IS_PACKED ht = false → 0 <= from <= nNumUsed ht →
  ZEND_HASH_MAP_FOREACH_FROM ht ind mem from body s
  = Some (for_entries (turn body) (drop (Z.to_nat from) (visible ht ind mem)) s) ∧
  ZEND_HASH_MAP_REVERSE_FOREACH ht ind mem body s
  = Some (for_entries (turn body) (reverse (visible ht ind mem)) s).
Proof.
  intros Hok Hres Hp Hfrom. unfold ZEND_HASH_MAP_FOREACH_FROM, ZEND_HASH_MAP_REVERSE_FOREACH. rewrite Hp.
  destruct (ht_ar ht) as [bs|zs] eqn:Ha; [|by rewrite (packed_flag ht zs Hok Ha) in Hp].
  pose proof (proj2 Hok) as Hn. split.
  - rewrite <- (Z2Nat.id from) at 1 by lia. apply (map_foreach_mixed ht bs Hok Ha); [done|lia|lia].
  - rewrite <- (Z2Nat.id (nNumUsed ht)) at 2 by lia. rewrite <- (take_visible ht ind mem) by done.
    by apply (map_reverse_mixed ht bs Hok Ha).
Qed.

Lemma packed_foreach_spec ht from body s :
  shape_ok ht → HT_IS_PACKED ht = true → 0 <= from <= nNumUsed ht →
  ZEND_HASH_PACKED_FOREACH_FROM ht from body s
  = Some (for_entries (turn body) (drop (Z.to_nat from) (visible ht false ∅)) s) ∧
  ZEND_HASH_PACKED_REVERSE_FOREACH ht body s
  = Some (for_entries (turn body) (reverse (visible ht false ∅)) s).
Proof.
  intros Hok Hp Hfrom. unfold ZEND_HASH_PACKED_FOREACH_FROM, ZEND_HASH_PACKED_REVERSE_FOREACH. rewrite Hp.
  destruct (ht_ar ht) as [bs|zs] eqn:Ha; [by rewrite (mixed_flag ht bs Hok Ha) in Hp|].
  pose proof (proj2 Hok) as Hn. split.
  - rewrite <- (Z2Nat.id from) at 1 2 by lia. apply (packed_foreach_packed ht zs Hok Ha); lia.
  - rewrite <- (Z2Nat.id (nNumUsed ht)) at 2 by lia. rewrite <- (take_visible ht false ∅) by done.
    by apply (packed_reverse_packed ht zs Hok Ha).
Qed.

Lemma foreach_val_spec ht body s :
  shape_ok ht →
  ZEND_HASH_FOREACH_VAL ht body s = Some (for_entries (turn body) (value_only <$> visible ht false ∅) s) ∧
  ZEND_HASH_REVERSE_FOREACH_VAL ht body s
  = Some (for_entries (turn body) (reverse (value_only <$> visible ht false ∅)) s).
Proof.
  intros Hok. unfold ZEND_HASH_FOREACH_VAL, ZEND_HASH_REVERSE_FOREACH_VAL, ZEND_HASH_ELEMENT_EX.
  rewrite element_size_eq. pose proof (proj2 Hok) as Hn. split.
  - rewrite <- (drop_0 (value_only <$> _)). by apply (foreach_val_visits ht body _ 0).
  - rewrite <- (Z2Nat.id (nNumUsed ht)) at 2 by lia.
    rewrite <- (firstn_all2 (n := Z.to_nat (nNumUsed ht)) (value_only <$> visible ht false ∅))
      by (by rewrite length_fmap, length_visible).
    by apply reverse_foreach_val_visits.
Qed.

(** C34: Every iteration macro runs its body once for each element that is not
    IS_UNDEF, in table order or in reverse, with its index or hash, its key and
    its value (the target of an indirect one when asked for), stops when the body
    leaves, and reads no memory outside the used part: the general loop over byte
    offsets, the bucket-pointer loop and the packed loop are the same walk over
    the same list, and the element size computed from the flag bit is the size. *)
Theorem foreach_visits ht ind mem from body s :
  shape_ok ht → resolvable ht ind mem → 0 <= from <= nNumUsed ht →
  let rest := List.filter live (drop (Z.to_nat from) (visible ht ind mem)) in
  let back := List.filter live (reverse (visible ht ind mem)) in
  let values := value_only <$> visible ht false ∅ in
  ZEND_HASH_ELEMENT_SIZE ht = ZEND_HASH_ELEMENT_SIZE_plain ht ∧
  ZEND_HASH_FOREACH_FROM ht ind mem from body s = Some (for_entries body rest s) ∧
  ZEND_HASH_REVERSE_FOREACH ht ind mem body s = Some (for_entries body back s) ∧
  (HT_IS_PACKED ht = false →
     ZEND_HASH_MAP_FOREACH_FROM ht ind mem from body s = Some (for_entries body rest s) ∧
     ZEND_HASH_MAP_REVERSE_FOREACH ht ind mem body s = Some (for_entries body back s)) ∧
  (HT_IS_PACKED ht = true →
     ZEND_HASH_PACKED_FOREACH_FROM ht from body s = Some (for_entries body rest s) ∧
     ZEND_HASH_PACKED_REVERSE_FOREACH ht body s = Some (for_entries body back s)) ∧
  ZEND_HASH_FOREACH_VAL ht body s = Some (for_entries body (List.filter live values) s) ∧
  ZEND_HASH_REVERSE_FOREACH_VAL ht body s = Some (for_entries body (List.filter live (reverse values)) s).
Proof.
  intros Hok Hres Hfrom. cbv zeta. rewrite <- !for_entries_live.
  split; [apply element_size_eq|]. split; [by apply foreach_from_spec|]. split; [by apply reverse_foreach_spec|].
  split; [intros Hp; by apply map_foreach_spec|]. split; [|by apply foreach_val_spec].
  intros Hp. destruct (ht_ar ht) as [bs|zs] eqn:Ha; [by rewrite (mixed_flag ht bs Hok Ha) in Hp|].
  replace (visible ht ind mem) with (visible ht false ∅) by (unfold visible; by rewrite Ha).
  by apply packed_foreach_spec.
Qed.
End iteration.

(** ** Lists *)
Module Lists.

Definition zend_array_is_list (array : HashTable) : option bool :=
  if zend_hash_num_elements array =? 0 then Some true
  else if HT_IS_PACKED array then
    if HT_IS_WITHOUT_HOLES array then Some true
    else
      c ← ZEND_HASH_PACKED_FOREACH array
            (λ e expected_idx,
               if negb (e_h e =? expected_idx) then Break (u64 (expected_idx + 1))
               else Next (u64 (expected_idx + 1))) 0;
      Some (match c with Next _ => true | Break _ => false end)
  else
    c ← ZEND_HASH_MAP_FOREACH array false ∅
          (λ e expected_idx,
             if bool_decide (is_Some (e_key e)) then Break expected_idx
             else if negb (e_h e =? expected_idx) then Break (u64 (expected_idx + 1))
             else Next (u64 (expected_idx + 1))) 0;
    Some (match c with Next _ => true | Break _ => false end).
End Lists.
Export Lists.

(** The number of elements is the number of entries that are not undefined. *)
Definition elements_ok (ht : HashTable) : Prop :=
  nNumOfElements ht = Z.of_nat (length (List.filter live (visible ht false ∅))).

Section lists.
Implicit Type ht : HashTable.

(** The keys are 0, 1, 2, ... in table order. *)
Definition keys_from (n : Z) (l : list entry) : Prop :=
  ∀ i e, l !! i = Some e → e_key e = None ∧ e_h e = n + Z.of_nat i.

Lemma keys_from_nil n : keys_from n [].
Proof. by intros i e. Qed.

Lemma keys_from_cons n e l :
  keys_from n (e :: l) ↔ (e_key e = None ∧ e_h e = n) ∧ keys_from (n + 1) l.
Proof.
  split.
  - intros H. split; [destruct (H 0%nat e eq_refl); split; [done|lia]|].
    intros i e' Hi. destruct (H (S i) e' Hi). split; [done|lia].
  - intros [H0 Hl] [|i] e' Hi; [simplify_eq/=; destruct H0; split; [done|lia]|].
    destruct (Hl i e' Hi). split; [done|lia].
Qed.

(** Both loops of the test, on the list they walk. *)
Lemma is_list_walk (body : entry → Z → control Z) l n :
  (∀ e k, body e k = Next (u64 (k + 1)) ∨ ∃ k', body e k = Break k') →
  (∀ e k, e ∈ l → (body e k = Next (u64 (k + 1)) ↔ e_key e = None ∧ e_h e = k)) →
  0 <= n → n + Z.of_nat (length l) < 2 ^ 64 →
  (∃ k, for_entries body l n = Next k) ↔ keys_from n l.
Proof.
  intros Hb. revert n. induction l as [|e l IH]; intros n Hiff Hn Hlen.
  - split; [intros _; apply keys_from_nil|by exists n].
  - rewrite keys_from_cons, <- Hiff by set_solver. simpl in Hlen |- *.
    destruct (Hb e n) as [->|[k' ->]].
    + rewrite u64_small by lia. rewrite IH by (lia || (intros; apply Hiff; set_solver)). intuition.
    + split; [by intros [k ?]|]. by intros [? _].
Qed.

Lemma visible_small ht : shape_ok ht → Z.of_nat (length (List.filter live (visible ht false ∅))) < 2 ^ 32.
Proof.
  intros Hok. pose proof (filter_length_le live (visible ht false ∅)) as H.
  rewrite length_visible in H by done. pose proof (proj2 Hok). lia.
Qed.

Lemma packed_keys ht zs e : ht_ar ht = ArPacked zs → e ∈ visible ht false ∅ → e_key e = None.
Proof.
  unfold visible. intros -> (i&Hi)%list_elem_of_lookup. rewrite list_lookup_imap in Hi.
  destruct (used ht zs !! i); by simplify_eq/=.
Qed.

(** Without holes nothing is left out. *)
Lemma filter_all (l : list entry) : length (List.filter live l) = length l → List.filter live l = l.
Proof.
  induction l as [|e l IH]; [done|]. simpl. pose proof (filter_length_le live l).
  destruct (live e); simpl; [intros [= H']; by rewrite IH|lia].
Qed.

Lemma result_of_walk {S} (c : control S) (P : Prop) :
  ((∃ k, c = Next k) ↔ P) → (match c with Next _ => true | Break _ => false end) = true ↔ P.
Proof. intros <-. destruct c; split; eauto; [done|by intros [k ?]]. Qed.

(** Zend_array_is_list returns, and says true exactly when the elements, in
    table order, have the integer keys 0, 1, 2, ..., for packed tables with and
    without holes, mixed tables and the empty array. *)
Theorem array_is_list ht :
  shape_ok ht → elements_ok ht →
  ∃ b, zend_array_is_list ht = Some b ∧ (b = true ↔ keys_from 0 (List.filter live (visible ht false ∅))).
Proof.
  intros Hok Hel. pose proof (visible_small ht Hok) as Hsmall. unfold zend_array_is_list, zend_hash_num_elements.
  pose proof (proj2 Hok) as Hn. destruct (Z.eqb_spec (nNumOfElements ht) 0) as [H0|H0].
  { exists true. split; [done|]. rewrite Hel in H0.
    destruct (List.filter live (visible ht false ∅)); [|simpl in H0; lia]. split; [intros _; apply keys_from_nil|done]. }
  destruct (HT_IS_PACKED ht) eqn:Hp.
  - destruct (ht_ar ht) as [bs|zs] eqn:Ha; [by rewrite (mixed_flag ht bs Hok Ha) in Hp|].
    unfold HT_IS_WITHOUT_HOLES. destruct (Z.eqb_spec (nNumUsed ht) (nNumOfElements ht)) as [Hh|Hh].
    + exists true. split; [done|]. split; [intros _|done]. rewrite filter_all.
      * unfold visible. rewrite Ha. intros i e He. rewrite list_lookup_imap in He.
        destruct (used ht zs !! i); by simplify_eq/=.
      * rewrite length_visible by done. unfold elements_ok in Hel. lia.
    + unfold ZEND_HASH_PACKED_FOREACH. destruct (packed_foreach_spec ht 0
        (λ e expected_idx, if negb (e_h e =? expected_idx) then Break (u64 (expected_idx + 1))
               else Next (u64 (expected_idx + 1))) 0 Hok Hp) as [-> _]; [lia|].
      eexists. split; [done|]. rewrite drop_0, for_entries_live. apply result_of_walk, is_list_walk; [| |lia|lia].
      * intros e k. destruct (e_h e =? k); simpl; eauto.
      * intros e k [_ He]%list_elem_of_In%filter_In%and_comm. apply list_elem_of_In in He.
        rewrite (packed_keys ht zs e Ha) by done. destruct (Z.eqb_spec (e_h e) k); simpl; intuition congruence.
  - assert (Hres : resolvable ht false ∅).
    { unfold resolvable. destruct (ht_ar ht); [apply list.Forall_forall; by eexists|done]. }
    unfold ZEND_HASH_MAP_FOREACH. destruct (map_foreach_spec ht false ∅ 0
      (λ e expected_idx, if bool_decide (is_Some (e_key e)) then Break expected_idx
             else if negb (e_h e =? expected_idx) then Break (u64 (expected_idx + 1))
             else Next (u64 (expected_idx + 1))) 0 Hok Hres Hp) as [-> _]; [lia|].
    eexists. split; [done|]. rewrite drop_0, for_entries_live. apply result_of_walk, is_list_walk; [| |lia|lia].
    + intros e k. destruct (bool_decide _); [eauto|]. destruct (e_h e =? k); simpl; eauto.
    + intros e k _. destruct (e_key e); simpl; [by split; [|intros [? _]]|].
      destruct (Z.eqb_spec (e_h e) k); simpl; intuition congruence.
Qed.
End lists.

(** ** Filling a packed table *)
Module Fill.

(** [__fill_ht], [__fill_val] (its offset) and [__fill_idx]. *)
Record filling : Type := Filling { fill_ht : HashTable; fill_val : Z; fill_idx : Z }.

(** A store through the element pointer; outside the table it is undefined. *)
Definition packed_store (ht : HashTable) (off : Z) (f : zval → zval) : option HashTable :=
  match ht_ar ht with
  | ArPacked zs =>
      z ← at_offset zs sizeof_zval off;
      Some (set_ar (ArPacked (<[Z.to_nat (off / sizeof_zval) := f z]> zs)) ht)
  | ArData _ => None
  end.
Definition fill_store (f : filling) (g : zval → zval) : option filling :=
  ht ← packed_store (fill_ht f) (fill_val f) g; Some (Filling ht (fill_val f) (fill_idx f)).

Definition ZEND_HASH_FILL_PACKED (ht : HashTable) : option filling :=
  if HT_IS_PACKED ht then Some (Filling ht (nNumUsed ht * sizeof_zval) (nNumUsed ht)) else None.

Definition ZEND_HASH_FILL_SET (f : filling) (v : zval) : option filling := fill_store f (λ z, ZVAL_COPY_VALUE z v).
Definition ZEND_HASH_FILL_SET_NULL (f : filling) : option filling := fill_store f ZVAL_NULL.
Definition ZEND_HASH_FILL_SET_LONG (f : filling) (l : Z) : option filling := fill_store f (λ z, ZVAL_LONG z l).
Definition ZEND_HASH_FILL_SET_DOUBLE (f : filling) (d : Z) : option filling := fill_store f (λ z, ZVAL_DOUBLE z d).
Definition ZEND_HASH_FILL_SET_INTERNED_STR (f : filling) (s : loc) : option filling :=
  fill_store f (λ z, ZVAL_INTERNED_STR z s).
Definition ZEND_HASH_FILL_SET_STR (f : filling) (s : loc) (heap : zheap) : option filling :=
  v ← ZVAL_STR zval_uninit s heap; fill_store f (λ z, ZVAL_COPY_VALUE z v).
Definition ZEND_HASH_FILL_SET_STR_COPY (f : filling) (s : loc) (heap : zheap) : option (filling * zheap) :=
  '(v, heap') ← ZVAL_STR_COPY zval_uninit s heap;
  f' ← fill_store f (λ z, ZVAL_COPY_VALUE z v); Some (f', heap').

Definition ZEND_HASH_FILL_NEXT (f : filling) : filling :=
  Filling (fill_ht f) (fill_val f + sizeof_zval) (u32 (fill_idx f + 1)).
Definition ZEND_HASH_FILL_ADD (f : filling) (v : zval) : option filling :=
  f ← ZEND_HASH_FILL_SET f v; Some (ZEND_HASH_FILL_NEXT f).

(** The counts brought up to the filling index. *)
Definition fill_counts (f : filling) : HashTable :=
  let ht := fill_ht f in
  set_next_free (fill_idx f)
    (set_used (fill_idx f)
       (set_elements (u32 (nNumOfElements ht + u32 (fill_idx f - nNumUsed ht))) ht)).

(** [zend_hash_packed_grow] of zend_hash.c. *)
Definition ZEND_HASH_FILL_GROW (zend_hash_packed_grow : HashTable → HashTable) (f : filling) : filling :=
  if nTableSize (fill_ht f) <=? fill_idx f then
    Filling (zend_hash_packed_grow (fill_counts f)) (fill_idx f * sizeof_zval) (fill_idx f)
  else f.

Definition ZEND_HASH_FILL_FINISH (f : filling) : HashTable := set_internal_pointer 0 (fill_counts f).

(** The use of the macros: values added one by one, with or without room made. *)
Fixpoint fill_all (f : filling) (vs : list zval) : option filling :=
  match vs with
  | [] => Some f
  | v :: vs => f ← ZEND_HASH_FILL_ADD f v; fill_all f vs
  end.
Fixpoint fill_growing (grow : HashTable → HashTable) (f : filling) (vs : list zval) : option filling :=
  match vs with
  | [] => Some f
  | v :: vs => f ← ZEND_HASH_FILL_ADD (ZEND_HASH_FILL_GROW grow f) v; fill_growing grow f vs
  end.
End Fill.
Export Fill.

(** A packed table with its capacity and counts. *)
Definition packed_ok (ht : HashTable) (zs : list zval) : Prop :=
  shape_ok ht ∧ ht_ar ht = ArPacked zs ∧ nTableSize ht = Z.of_nat (length zs) ∧ nTableSize ht < 2 ^ 31 ∧ elements_ok ht.

(** What [zend_hash_packed_grow] is documented to do: twice the room, the rest of
    the table as it was. *)
Definition grows (grow : HashTable → HashTable) : Prop :=
  ∀ ht zs, packed_ok ht zs → nTableSize ht < 2 ^ 30 → ∃ more, length more = length zs ∧
    grow ht = Table (HT_FLAGS ht) (nTableMask ht) (arHash ht) (ArPacked (zs ++ more)) (nNumUsed ht)
                (nNumOfElements ht) (2 * nTableSize ht) (nInternalPointer ht) (nNextFreeElement ht).

Section filling.
Implicit Type ht : HashTable.

Definition alive (v : zval) : bool := negb (zval_get_type v =? IS_UNDEF).

(** The value and the type word, without [u2], which belongs to the element. *)
Definition payload (v : zval) : zend_value * Z := (z_value v, Z_TYPE_INFO v).
Definition packed_values ht : list (zend_value * Z) := (λ e, payload (e_val e)) <$> visible ht false ∅.

Lemma imap_val (l : list zval) k : e_val <$> imap (λ i v, Entry (Z.of_nat (k + i)) None v) l = l.
Proof.
  revert k. induction l as [|v l IH]; intros k; [done|]. simpl. f_equal. rewrite <- (IH (S k)) at 2.
  f_equal. apply imap_ext. intros i x _. simpl. by rewrite Nat.add_succ_r.
Qed.

Lemma visible_values ht zs : ht_ar ht = ArPacked zs → e_val <$> visible ht false ∅ = used ht zs.
Proof. intros Ha. unfold visible. rewrite Ha. apply (imap_val _ 0). Qed.

Lemma packed_values_eq ht zs : ht_ar ht = ArPacked zs → packed_values ht = payload <$> used ht zs.
Proof. intros Ha. unfold packed_values. by rewrite <- (visible_values ht zs Ha), <- list_fmap_compose. Qed.

Lemma count_live (l : list entry) : length (List.filter live l) = length (List.filter alive (e_val <$> l)).
Proof.
  induction l as [|e l IH]; [done|]. simpl. change (alive (e_val e)) with (live e). 
  destruct (live e); simpl; by rewrite IH.
Qed.

Lemma elements_packed ht zs :
  ht_ar ht = ArPacked zs →
  elements_ok ht ↔ nNumOfElements ht = Z.of_nat (length (List.filter alive (used ht zs))).
Proof. intros Ha. unfold elements_ok. by rewrite count_live, (visible_values ht zs Ha). Qed.

(** A filling that has added [vs] to the table [ht]. *)
Definition filled ht vs (f : filling) : Prop :=
  ∃ zs, ht_ar (fill_ht f) = ArPacked zs ∧ HT_IS_PACKED (fill_ht f) = true ∧
    nTableSize (fill_ht f) = Z.of_nat (length zs) ∧ nTableSize (fill_ht f) < 2 ^ 31 ∧
    fill_val f = fill_idx f * sizeof_zval ∧
    fill_idx f = nNumUsed ht + Z.of_nat (length vs) ∧ fill_idx f <= Z.of_nat (length zs) ∧
    0 <= nNumUsed (fill_ht f) <= fill_idx f ∧ 0 <= nNumUsed ht ∧
    payload <$> take (Z.to_nat (fill_idx f)) zs = packed_values ht ++ (payload <$> vs) ∧
    nNumOfElements (fill_ht f) + fill_idx f - nNumUsed (fill_ht f)
      = Z.of_nat (length (List.filter alive (take (Z.to_nat (fill_idx f)) zs))) ∧
    0 <= nNumOfElements (fill_ht f).

Lemma fill_start ht zs :
  packed_ok ht zs → ∃ f, ZEND_HASH_FILL_PACKED ht = Some f ∧ filled ht [] f ∧ nTableSize (fill_ht f) = nTableSize ht.
Proof.
  intros (Hok&Ha&Hcap&Hmax&Hel). pose proof (proj2 Hok) as Hn. destruct Hok as [Hs _]. rewrite Ha in Hs.
  destruct Hs as [Hp Hlen]. unfold ZEND_HASH_FILL_PACKED. rewrite Hp. eexists. split; [done|]. split; [|done].
  apply (elements_packed ht zs Ha) in Hel.
  exists zs. simpl. split_and!; try done; try lia; [|unfold used in Hel; lia].
  by rewrite (packed_values_eq ht zs Ha), app_nil_r.
Qed.

Lemma fill_add ht vs f v :
  filled ht vs f → alive v = true → fill_idx f < nTableSize (fill_ht f) →
  ∃ f', ZEND_HASH_FILL_ADD f v = Some f' ∧ filled ht (vs ++ [v]) f' ∧ nTableSize (fill_ht f') = nTableSize (fill_ht f).
Proof.
  intros (zs&Ha&Hp&Hcap&Hmax&Hv&Hi&Hle&Hu&H0&Hpl&Hel&Hpos) Hal Hroom.
  assert (Hx : 0 <= fill_idx f) by lia.
  assert (is_Some (zs !! Z.to_nat (fill_idx f))) as [z Hz] by (apply lookup_lt_is_Some; lia).
  unfold ZEND_HASH_FILL_ADD, ZEND_HASH_FILL_SET, fill_store, packed_store. rewrite Ha, Hv.
  assert (Hat : at_offset zs sizeof_zval (fill_idx f * sizeof_zval) = Some z).
  { rewrite <- Hz, <- (Z2Nat.id (fill_idx f)) at 1 by done. by apply at_offset_index. }
  rewrite Hat. cbn [mbind option_bind]. eexists. split; [done|]. split; [|done].
  rewrite Z.div_mul by done. eexists. cbn [fill_ht fill_val fill_idx ZEND_HASH_FILL_NEXT].
  split; [done|]. rewrite length_insert, length_app, u32_small by lia. cbn [length].
  assert (Htk : take (Z.to_nat (fill_idx f + 1)) (<[Z.to_nat (fill_idx f) := ZVAL_COPY_VALUE z v]> zs)
                = take (Z.to_nat (fill_idx f)) zs ++ [ZVAL_COPY_VALUE z v]).
  { replace (Z.to_nat (fill_idx f + 1)) with (S (Z.to_nat (fill_idx f))) by lia.
    rewrite (take_S_r _ _ (ZVAL_COPY_VALUE z v)) by (apply list_lookup_insert_eq; lia).
    by rewrite take_insert_ge. }
  split_and!; try done; try (simpl; lia).
  - rewrite Htk, !fmap_app, Hpl. by rewrite <- app_assoc.
  - rewrite Htk, List.filter_app, length_app. simpl. change (alive (ZVAL_COPY_VALUE z v)) with (alive v).
    rewrite Hal. simpl. lia.
Qed.

(** The table at a filling: what a growth or the end of the filling makes of it. *)
Lemma fill_counts_ok ht vs f zs :
  filled ht vs f → ht_ar (fill_ht f) = ArPacked zs →
  packed_ok (fill_counts f) zs ∧ packed_values (fill_counts f) = packed_values ht ++ (payload <$> vs) ∧
  nNumUsed (fill_counts f) = nNumUsed ht + Z.of_nat (length vs) ∧
  nNextFreeElement (fill_counts f) = nNumUsed ht + Z.of_nat (length vs) ∧
  nTableSize (fill_counts f) = nTableSize (fill_ht f).
Proof.
  intros (zs'&Ha&Hp&Hcap&Hmax&Hv&Hi&Hle&Hu&H0&Hpl&Hel&Hpos) Ha'. rewrite Ha in Ha'. injection Ha' as ->.
  assert (Hc : ht_ar (fill_counts f) = ArPacked zs) by done.
  assert (Hcount : Z.of_nat (length (List.filter alive (take (Z.to_nat (fill_idx f)) zs))) <= fill_idx f).
  { pose proof (filter_length_le alive (take (Z.to_nat (fill_idx f)) zs)) as H. rewrite length_take in H. lia. }
  split_and!; try done.
  - split_and!; try done; simpl; try lia.
    + unfold shape_ok. rewrite Hc. split; [split; [done|simpl; lia]|simpl; lia].
    + apply (elements_packed _ zs Hc). cbn [fill_counts set_next_free set_used set_elements nNumOfElements nNumUsed used].
      unfold used. cbn [nNumUsed]. rewrite (u32_small (fill_idx f - nNumUsed (fill_ht f))) by lia. change (nNumUsed (fill_counts f)) with (fill_idx f). rewrite u32_small by lia. lia.
  - rewrite (packed_values_eq _ zs Hc). exact Hpl.
Qed.

(** Growing makes room and keeps what was filled. *)
Lemma fill_grow grow ht vs f :
  grows grow → filled ht vs f → fill_idx f < 2 ^ 30 → 0 < nTableSize (fill_ht f) →
  let g := ZEND_HASH_FILL_GROW grow f in
  filled ht vs g ∧ fill_idx g < nTableSize (fill_ht g) ∧ 0 < nTableSize (fill_ht g).
Proof.
  intros Hg Hf Hmax Hpos. cbv zeta. unfold ZEND_HASH_FILL_GROW.
  destruct (Z.leb_spec (nTableSize (fill_ht f)) (fill_idx f)) as [Hfull|Hroom]; [|done].
  pose proof Hf as (zs&Ha&Hp&Hcap&_&_&Hi&Hle&Hu&H0&Hpl&_). 
  destruct (fill_counts_ok ht vs f zs Hf Ha) as (Hok&Hvals&Hused&_&Hsz).
  destruct (Hg (fill_counts f) zs Hok) as (more&Hmore&->); [lia|].
  destruct Hok as (Hshape&_&_&_&Hel). apply (elements_packed (fill_counts f) zs Ha) in Hel.
  cbn [fill_idx fill_ht nTableSize]. split; [|lia]. exists (zs ++ more). 
  cbn [fill_ht ht_ar nTableSize fill_val fill_idx nNumUsed nNumOfElements] in *.
  rewrite length_app, Hmore. split_and!; try done; try lia.
  - rewrite take_app_le by lia. exact Hpl.
  - rewrite take_app_le by lia. unfold used in Hel. cbn in Hel |- *. lia.
Qed.

Lemma fill_all_spec ht ws vs f :
  filled ht ws f → Forall (λ v, alive v = true) vs → fill_idx f + Z.of_nat (length vs) <= nTableSize (fill_ht f) →
  ∃ f', fill_all f vs = Some f' ∧ filled ht (ws ++ vs) f'.
Proof.
  revert ws f. induction vs as [|v vs IH]; intros ws f Hf Hal Hroom; cbn [fill_all].
  - exists f. by rewrite app_nil_r.
  - inversion Hal; subst. cbn [length] in Hroom.
    destruct (fill_add ht ws f v Hf) as (f1&->&Hf1&Hsz); [done|lia|]. cbn [mbind option_bind].
    pose proof Hf as (_&_&_&_&_&_&Hi&_). pose proof Hf1 as (_&_&_&_&_&_&Hi1&_).
    rewrite length_app in Hi1. cbn [length] in Hi1.
    destruct (IH (ws ++ [v]) f1 Hf1) as (f'&Hf'&Hfill); [done|lia|]. exists f'.
    by rewrite <- app_assoc in Hfill.
Qed.

Lemma fill_growing_spec grow ht ws vs f :
  grows grow → filled ht ws f → Forall (λ v, alive v = true) vs → 0 < nTableSize (fill_ht f) →
  fill_idx f + Z.of_nat (length vs) <= 2 ^ 30 →
  ∃ f', fill_growing grow f vs = Some f' ∧ filled ht (ws ++ vs) f'.
Proof.
  intros Hg. revert ws f. induction vs as [|v vs IH]; intros ws f Hf Hal Hpos Hmax; cbn [fill_growing].
  - exists f. by rewrite app_nil_r.
  - inversion Hal; subst. cbn [length] in Hmax.
    destruct (fill_grow grow ht ws f Hg Hf) as (Hg1&Hroom&Hpos1); [lia|done|].
    destruct (fill_add ht ws _ v Hg1) as (f1&->&Hf1&Hsz); [done|done|]. cbn [mbind option_bind].
    pose proof Hf as (_&_&_&_&_&_&Hi&_). pose proof Hf1 as (_&_&_&_&_&_&Hi1&_).
    rewrite length_app in Hi1. cbn [length] in Hi1.
    destruct (IH (ws ++ [v]) f1 Hf1) as (f'&Hf'&Hfill); [done|lia|lia|]. exists f'.
    by rewrite <- app_assoc in Hfill.
Qed.

(** What a filling leaves behind: the values appended, the counts and the next
    free index brought up, the table well formed. *)
Definition appended ht vs ht' : Prop :=
  (∃ zs', packed_ok ht' zs') ∧ packed_values ht' = packed_values ht ++ (payload <$> vs) ∧
  nNumUsed ht' = nNumUsed ht + Z.of_nat (length vs) ∧ nNextFreeElement ht' = nNumUsed ht' ∧
  nInternalPointer ht' = 0.

Lemma fill_finish ht vs f : filled ht vs f → appended ht vs (ZEND_HASH_FILL_FINISH f).
Proof.
  intros Hf. pose proof Hf as (zs&Ha&_). destruct (fill_counts_ok ht vs f zs Hf Ha) as (Hok&Hv&Hu&Hx&_).
  split_and!; [by exists zs|exact Hv|exact Hu| |done]. simpl in *. congruence.
Qed.

(** Filling a packed table with values appends exactly these values in order
    and brings the counts and the next free index up to date: without growing when
    there is room for all of them, and with ZEND_HASH_FILL_GROW before each value
    for any number of values up to the largest table, no store ever being outside
    the table. *)
Theorem fill_appends ht zs vs grow :
  packed_ok ht zs → Forall (λ v, alive v = true) vs → grows grow →
  (nNumUsed ht + Z.of_nat (length vs) <= nTableSize ht →
     ∃ f f', ZEND_HASH_FILL_PACKED ht = Some f ∧ fill_all f vs = Some f' ∧
             appended ht vs (ZEND_HASH_FILL_FINISH f')) ∧
  (0 < nTableSize ht → nNumUsed ht + Z.of_nat (length vs) <= 2 ^ 30 →
     ∃ f f', ZEND_HASH_FILL_PACKED ht = Some f ∧ fill_growing grow f vs = Some f' ∧
             appended ht vs (ZEND_HASH_FILL_FINISH f')).
Proof.
  intros Hok Hal Hg. destruct (fill_start ht zs Hok) as (f&Hf&Hfill&Hsz).
  pose proof Hfill as (_&_&_&_&_&_&Hi&_). cbn [length] in Hi. split.
  - intros Hroom. destruct (fill_all_spec ht [] vs f Hfill Hal) as (f'&Hf'&Hfill'); [lia|].
    exists f, f'. split_and!; [done|done|by apply fill_finish].
  - intros Hpos Hmax. destruct (fill_growing_spec grow ht [] vs f Hg Hfill Hal) as (f'&Hf'&Hfill'); [lia|lia|].
    exists f, f'. split_and!; [done|done|by apply fill_finish].
Qed.
End filling.
