(* ===== verification/ZendHashLinks.v ===== *)
(** * Hash tables: collision chains (Zend/zend_hash.h)

    The hash slots and the chains through the buckets: the append of a key known
    to be new, and the deletion of the elements of a table from its end while
    iterating over it. *)

From S2P Require Import Prelude ZendTypes ZendString ZendHash.
Import HashLayout.

Module Links.

(** [Z_NEXT]: the word [u2] of the value of a bucket. *)
Definition Z_NEXT (v : zval) : Z := Z_EXTRA v.
Definition set_next (n : Z) (b : Bucket) : Bucket :=
  Bkt (Zval (z_value (b_val b)) (Z_TYPE_INFO (b_val b)) n) (b_h b) (b_key b).

(** [HT_HASH(ht, idx)]: the slot [(int32_t)idx] places after the end of the slots;
    elsewhere there is no slot. *)
Definition slot_pos (slots : nat) (idx : Z) : option nat :=
  let k := Z.of_nat slots + s32 idx in
  if (0 <=? k) && (k <? Z.of_nat slots) then Some (Z.to_nat k) else None.
Definition HT_HASH (ht : HashTable) (idx : Z) : option Z :=
  k ← slot_pos (length (arHash ht)) idx; arHash ht !! k.
Definition set_HT_HASH (idx v : Z) (ht : HashTable) : option HashTable :=
  k ← slot_pos (length (arHash ht)) idx; Some (set_arHash (<[k := v]> (arHash ht)) ht).

(** [HT_HASH_TO_BUCKET]. *)
Definition HT_HASH_TO_BUCKET (ht : HashTable) (i : Z) : option Bucket :=
  match ht_ar ht with
  | ArData bs => if 0 <=? i then bs !! Z.to_nat i else None
  | ArPacked _ => None
  end.
Definition store_bucket (i : Z) (b : Bucket) (ht : HashTable) : option HashTable :=
  match ht_ar ht with
  | ArData bs => if 0 <=? i then _ ← bs !! Z.to_nat i; Some (set_ar (ArData (<[Z.to_nat i := b]> bs)) ht) else None
  | ArPacked _ => None
  end.

Section append.
Context (zend_string_hash_func : bytes → Z).

(** The key of an append: unless it is interned the table takes a reference and
    can no longer have static keys only, and the hash is computed. *)
Definition append_key (key : loc) (key_guaranteed_interned : bool) (ht : HashTable) (heap : zheap)
    : option (HashTable * zheap) :=
  o ← heap !! key;
  if key_guaranteed_interned && negb (ZSTR_IS_INTERNED o) then None
  else if negb key_guaranteed_interned && negb (ZSTR_IS_INTERNED o) then
    let ht := set_flags (Z.land (HT_FLAGS ht) (Z.lxor HASH_FLAG_STATIC_KEYS 0xffffffff)) ht in
    '(_, heap) ← zend_string_addref key heap;
    '(_, heap) ← zend_string_hash_val zend_string_hash_func key heap;
    Some (ht, heap)
  else Some (ht, heap).

(** The bucket linked in, at the head of its chain. *)
Definition append_link (idx : Z) (v : zval) (key : loc) (heap : zheap) (ht : HashTable) : option HashTable :=
  o ← heap !! key; h ← ZSTR_H o;
  let nIndex := Z.lor (u32 h) (nTableMask ht) in
  next ← HT_HASH ht nIndex;
  ht ← store_bucket idx (set_next next (Bkt v h (Some key))) ht;
  ht ← set_HT_HASH nIndex (HT_IDX_TO_HASH idx) ht;
  Some (set_elements (u32 (nNumOfElements ht + 1)) ht).

(** The value is written into the bucket that was free. *)
Definition append_value (store : zval → zval) (key : loc) (key_guaranteed_interned : bool) (ht : HashTable)
    (heap : zheap) : option (Z * HashTable * zheap) :=
  let idx := nNumUsed ht in
  let ht := set_used (u32 (nNumUsed ht + 1)) ht in
  p ← HT_HASH_TO_BUCKET ht idx;
  let v := store (b_val p) in
  '(ht, heap) ← append_key key key_guaranteed_interned ht heap;
  ht ← append_link idx v key heap ht;
  Some (idx, ht, heap).

Definition _zend_hash_append_ex (ht : HashTable) (key : loc) (zv : zval) (key_guaranteed_interned : bool)
    (heap : zheap) : option (Z * HashTable * zheap) :=
  append_value (λ z, ZVAL_COPY_VALUE z zv) key key_guaranteed_interned ht heap.
Definition _zend_hash_append ht key zv heap : option (Z * HashTable * zheap) :=
  _zend_hash_append_ex ht key zv false heap.
Definition _zend_hash_append_ptr_ex (ht : HashTable) (key : loc) (ptr : option loc)
    (key_guaranteed_interned : bool) (heap : zheap) : option (Z * HashTable * zheap) :=
  append_value (λ z, ZVAL_PTR z ptr) key key_guaranteed_interned ht heap.
Definition _zend_hash_append_ptr ht key ptr heap : option (Z * HashTable * zheap) :=
  _zend_hash_append_ptr_ex ht key ptr false heap.
Definition _zend_hash_append_ind (ht : HashTable) (key : loc) (ptr : option loc) (heap : zheap)
    : option (Z * HashTable * zheap) :=
  append_value (λ z, ZVAL_INDIRECT z ptr) key false ht heap.
End append.

(** *** Deletion while iterating backwards *)

(** [while (Z_NEXT(prev->val) != j)]; the fuel is the number of buckets. *)
Fixpoint find_prev (fuel : nat) (ht : HashTable) (i j : Z) : option (Z * Bucket) :=
  match fuel with
  | O => None
  | S fuel =>
      prev ← HT_HASH_TO_BUCKET ht i;
      if negb (Z_NEXT (b_val prev) =? j) then find_prev fuel ht (Z_NEXT (b_val prev)) j
      else Some (i, prev)
  end.

(** The part of [ZEND_HASH_MAP_FOREACH_END_DEL] in the loop, at [_idx] and [_p]. *)
Definition del_current (idx : Z) (p : Bucket) (ht : HashTable) : option HashTable :=
  let ht := set_elements (u32 (nNumOfElements ht - 1)) ht in
  let j := HT_IDX_TO_HASH (idx - 1) in
  let nIndex := u32 (Z.lor (b_h p) (nTableMask ht)) in
  i ← HT_HASH ht nIndex;
  if negb (j =? i) then
    '(i, prev) ← find_prev (S (Z.to_nat (nTableSize ht))) ht i j;
    store_bucket i (set_next (Z_NEXT (b_val p)) prev) ht
  else set_HT_HASH nIndex (Z_NEXT (b_val p)) ht.

(** [ZEND_HASH_MAP_REVERSE_FOREACH(ht, 0) ... ZEND_HASH_MAP_FOREACH_END_DEL()]. *)
Fixpoint del_loop {S} (body : entry → S → control S) (idx : nat) (ht : HashTable) (s : S)
    : option (HashTable * nat * control S) :=
  match idx with
  | O => Some (ht, O, Next s)
  | Datatypes.S idx' =>
      p ← HT_HASH_TO_BUCKET ht (Z.of_nat idx');
      if zval_get_type (b_val p) =? IS_UNDEF then del_loop body idx' ht s
      else
        match body (entry_of p (b_val p)) s with
        | Break s => Some (ht, idx, Break s)
        | Next s => ht ← del_current (Z.of_nat idx) p ht; del_loop body idx' ht s
        end
  end.
Definition ZEND_HASH_MAP_REVERSE_FOREACH_DEL {S} (body : entry → S → control S) (ht : HashTable) (s : S)
    : option (HashTable * control S) :=
  if HT_IS_PACKED ht then None
  else
    '(ht, idx, c) ← del_loop body (Z.to_nat (nNumUsed ht)) ht s;
    Some (set_used (Z.of_nat idx) ht, c).
End Links.
Export Links.

(** ** Chains *)
Section chains.
Implicit Types (ht : HashTable) (bs : list Bucket).

(** The buckets a chain runs through, from the index in a slot to the end mark. *)
Inductive links bs : Z → list nat → Prop :=
| links_end : links bs HT_INVALID_IDX []
| links_next i b l : bs !! i = Some b → links bs (Z_NEXT (b_val b)) l → links bs (Z.of_nat i) (i :: l).

(** A mixed table: sizes and mask agree, the hash part and the buckets are there. *)
Definition mixed_ok ht bs : Prop :=
  shape_ok ht ∧ ht_ar ht = ArData bs ∧ table_size (nTableSize ht) ∧
  nTableMask ht = HT_SIZE_TO_MASK (nTableSize ht) ∧
  Z.of_nat (length (arHash ht)) = 2 * nTableSize ht ∧ Z.of_nat (length bs) = nTableSize ht.

(** The slot of a hash. *)
Definition home ht (h : Z) : nat :=
  default O (slot_pos (length (arHash ht)) (Z.lor (u32 h) (nTableMask ht))).

Lemma home_slot ht bs h :
  mixed_ok ht bs →
  slot_pos (length (arHash ht)) (Z.lor (u32 h) (nTableMask ht)) = Some (home ht h) ∧
  (home ht h < length (arHash ht))%nat.
Proof.
  intros (_&_&Hsz&Hm&Hlen&_). pose proof (hash_slot_in_bounds _ (u32 h) Hsz (u32_range h)) as H.
  pose proof (table_size_bounds _ Hsz) as [[Hlo Hhi] _]. unfold HT_MAX_SIZE in Hhi.
  rewrite HT_HASH_SIZE_mask in H by lia. unfold HT_HASH_EX_offset, sizeof_uint32 in H. rewrite <- Hm in H.
  unfold home, slot_pos. rewrite (proj2 (Z.leb_le _ _)), (proj2 (Z.ltb_lt _ _)) by lia. simpl. split; [done|lia].
Qed.

Definition member ht bs (k i : nat) : Prop :=
  (i < Z.to_nat (nNumUsed ht))%nat ∧ ∃ b, bs !! i = Some b ∧ alive (b_val b) = true ∧ home ht (b_h b) = k.

(** Each chain runs once through exactly the live buckets of its slot. *)
Definition chains_ok ht bs : Prop :=
  ∀ k v, arHash ht !! k = Some v → ∃ l, links bs v l ∧ NoDup l ∧ ∀ i, i ∈ l ↔ member ht bs k i.

Lemma links_insert bs v l i b : links bs v l → i ∉ l → links (<[i := b]> bs) v l.
Proof.
  induction 1 as [|i' b' l Hi _ IH]; intros Hn; [constructor|].
  apply not_elem_of_cons in Hn as [Hne Hn]. econstructor; [|by apply IH]. by rewrite list_lookup_insert_ne.
Qed.

Lemma hash_to_bucket ht bs (i : nat) : ht_ar ht = ArData bs → HT_HASH_TO_BUCKET ht (Z.of_nat i) = bs !! i.
Proof. intros Ha. unfold HT_HASH_TO_BUCKET. rewrite Ha, (proj2 (Z.leb_le _ _)), Nat2Z.id by lia. done. Qed.

Lemma store_bucket_eq ht bs (i : nat) b :
  ht_ar ht = ArData bs → (i < length bs)%nat →
  store_bucket (Z.of_nat i) b ht = Some (set_ar (ArData (<[i := b]> bs)) ht).
Proof.
  intros Ha Hi. unfold store_bucket. rewrite Ha, (proj2 (Z.leb_le _ _)), Nat2Z.id by lia.
  destruct (lookup_lt_is_Some_2 bs i Hi) as [b' ->]. done.
Qed.

(** *** The append *)

(** The key as the table sees it: its hash is known. *)
Definition keyed (key : loc) (h : Z) (heap : zheap) : Prop :=
  ∃ o, heap !! key = Some o ∧ ZSTR_H o = Some h ∧ in_u64 h.

Lemma append_link_ok (idx : nat) v key h heap ht bs :
  mixed_ok ht bs → keyed key h heap → (idx < length bs)%nat →
  ∃ next, arHash ht !! home ht h = Some next ∧
    append_link (Z.of_nat idx) v key heap ht
    = Some (set_elements (u32 (nNumOfElements ht + 1))
        (set_arHash (<[home ht h := Z.of_nat idx]> (arHash ht))
           (set_ar (ArData (<[idx := set_next next (Bkt v h (Some key))]> bs)) ht))).
Proof.
  intros Hok (o&Ho&Hh&_) Hi. destruct (home_slot ht bs h Hok) as [Hs Hlt].
  destruct (lookup_lt_is_Some_2 _ _ Hlt) as [next Hn]. exists next. split; [done|].
  unfold append_link, HT_HASH, set_HT_HASH. rewrite Ho. cbn [mbind option_bind]. rewrite Hh. cbn [mbind option_bind].
  rewrite Hs. cbn [mbind option_bind]. rewrite Hn. cbn [mbind option_bind].
  rewrite (store_bucket_eq ht bs) by (done || apply Hok). cbn [mbind option_bind arHash set_ar].
  rewrite Hs. done.
Qed.

(** A live bucket at the end of the used part enters the chain of its slot. *)
Lemma chains_append ht bs (idx : nat) next b ht' :
  mixed_ok ht bs → chains_ok ht bs → Z.of_nat idx = nNumUsed ht → (idx < length bs)%nat →
  arHash ht !! home ht (b_h b) = Some next → alive (b_val b) = true →
  nTableMask ht' = nTableMask ht → nNumUsed ht' = nNumUsed ht + 1 →
  arHash ht' = <[home ht (b_h b) := Z.of_nat idx]> (arHash ht) →
  chains_ok ht' (<[idx := set_next next b]> bs).
Proof.
  intros Hok Hch Hidx Hlt Hnext Hal Hm Hu Hsl k v Hv.
  assert (Hhome : ∀ h, home ht' h = home ht h) by (intros h; unfold home; by rewrite Hsl, Hm, length_insert).
  assert (Hout : ∀ k' (l : list nat), (∀ i, i ∈ l ↔ member ht bs k' i) → idx ∉ l).
  { intros k' l Hl Hin. apply Hl in Hin as [Hin _]. lia. }
  assert (Hmem : ∀ k' i, member ht' (<[idx := set_next next b]> bs) k' i ↔
                 member ht bs k' i ∨ (i = idx ∧ home ht (b_h b) = k')).
  { intros k' i. unfold member. rewrite Hu. setoid_rewrite Hhome. destruct (decide (i = idx)) as [->|Hne].
    - rewrite list_lookup_insert_eq by done. split.
      + intros [_ (b'&[= <-]&_&Hb)]. by right.
      + intros [[? _]|[_ Hk]]; [lia|]. split; [lia|]. eexists. by split_and!.
    - rewrite list_lookup_insert_ne by done. split.
      + intros [Hi H]. left. split; [lia|done].
      + intros [[Hi H]|[? _]]; [|done]. split; [lia|done]. }
  rewrite Hsl in Hv. destruct (decide (k = home ht (b_h b))) as [->|Hne].
  - destruct (home_slot ht bs (b_h b) Hok) as [_ Hk]. rewrite list_lookup_insert_eq in Hv by done. simplify_eq.
    destruct (Hch _ _ Hnext) as (l&Hl&Hnd&Hin). exists (idx :: l). pose proof (Hout _ l Hin). split_and!.
    + econstructor; [by apply list_lookup_insert_eq|]. by apply links_insert.
    + by constructor.
    + intros i. rewrite elem_of_cons, Hmem, Hin. naive_solver.
  - rewrite list_lookup_insert_ne in Hv by done. destruct (Hch _ _ Hv) as (l&Hl&Hnd&Hin).
    exists l. pose proof (Hout _ l Hin). split_and!; [by apply links_insert|done|].
    intros i. rewrite Hmem, Hin. naive_solver.
Qed.
End chains.

Section appending.
Context (zend_string_hash_func : bytes → Z) (hash_word : ∀ bs, in_u64 (zend_string_hash_func bs)).
Implicit Types (ht : HashTable) (bs : list Bucket) (heap : zheap).

(** The key of an append: a string, whose hash is known when it is interned. *)
Definition key_ok (key : loc) (interned : bool) (h : Z) heap : Prop :=
  ∃ o k len val, heap !! key = Some o ∧ gc_body o = BString k len val ∧ ZSTR_IS_INTERNED o = interned ∧
    in_u64 k ∧ 0 <= gc_refcount o < 2 ^ 32 - 1 ∧
    if interned then k = h
    else if k =? 0 then ∃ str, zstr_bytes o = Some str ∧ h = zend_string_hash_func str
    else k = h.

(** Afterwards the table holds a reference, unless the string is interned. *)
Definition key_taken (key : loc) (interned : bool) (h : Z) heap heap' : Prop :=
  keyed key h heap' ∧ (∀ l, l ≠ key → heap' !! l = heap !! l) ∧
  if interned then heap' = heap
  else ∃ o o', heap !! key = Some o ∧ heap' !! key = Some o' ∧ gc_refcount o' = gc_refcount o + 1.

Lemma append_key_ok key interned h guaranteed ht heap :
  key_ok key interned h heap → (guaranteed = true → interned = true) →
  ∃ heap', append_key zend_string_hash_func key guaranteed ht heap
           = Some (set_flags (if interned then HT_FLAGS ht
                              else Z.land (HT_FLAGS ht) (Z.lxor HASH_FLAG_STATIC_KEYS 0xffffffff)) ht, heap') ∧
    key_taken key interned h heap heap'.
Proof using hash_word.
  intros (o&k&len&val&Ho&Hb&Hi&Hk&Hrc&Hh) Hg. unfold append_key. rewrite Ho. cbn [mbind option_bind]. rewrite Hi.
  destruct interned; simpl.
  - rewrite !andb_false_r. exists heap. destruct ht. split; [done|]. split_and!; [|done|done].
    exists o. unfold ZSTR_H, as_string. rewrite Hb. simpl. by subst.
  - assert (guaranteed = false) as -> by (destruct guaranteed; [by rewrite Hg|done]). simpl.
    unfold zend_string_addref, GC_ADDREF. rewrite Ho. cbn [mbind option_bind]. rewrite Hi.
    cbn [mbind option_bind]. unfold zend_string_hash_val. rewrite lookup_insert_eq. cbn [mbind option_bind].
    unfold as_string, zend_gc_addref, with_refcount. cbn [gc_body]. rewrite Hb. cbn [mbind option_bind].
    destruct (Z.eqb_spec k 0) as [->|Hk0]; simpl.
    + destruct Hh as (str&Hstr&->). unfold zstr_bytes, as_string in *. cbn [gc_body]. rewrite Hb in *.
      cbn [mbind option_bind] in *. rewrite Hstr. cbn [mbind option_bind].
      eexists. split; [done|]. split_and!.
      * eexists. rewrite lookup_insert_eq. split; [done|]. split; [done|apply hash_word].
      * intros l Hl. by rewrite !lookup_insert_ne by done.
      * eexists _, _. rewrite lookup_insert_eq. split_and!; [done..|]. simpl. rewrite u32_small; lia.
    + eexists. split; [done|]. split_and!.
      * eexists. rewrite lookup_insert_eq. split; [done|]. unfold ZSTR_H, as_string. simpl.
        subst. done.
      * intros l Hl. by rewrite !lookup_insert_ne by done.
      * eexists _, _. rewrite lookup_insert_eq. split_and!; [done..|]. simpl. rewrite u32_small; lia.
Qed.

(** The element with the hash [h], the key and the payload [pl] was added: it comes
    last in the table order and first in its chain. *)
Definition linked_in ht (h : Z) (key : loc) (pl : zend_value * Z) ht' : Prop :=
  ∃ bs', mixed_ok ht' bs' ∧ chains_ok ht' bs' ∧ elements_ok ht' ∧ nNumUsed ht' = nNumUsed ht + 1 ∧
    arHash ht' !! home ht h = Some (nNumUsed ht) ∧
    ∃ e, visible ht' false ∅ = visible ht false ∅ ++ [e] ∧
         e_h e = h ∧ e_key e = Some key ∧ payload (e_val e) = pl.

Lemma packed_flag_cleared f :
  negb (Z.land (Z.land f (Z.lxor HASH_FLAG_STATIC_KEYS 0xffffffff)) HASH_FLAG_PACKED =? 0)
  = negb (Z.land f HASH_FLAG_PACKED =? 0).
Proof using Type. rewrite <- Z.land_assoc. done. Qed.

Lemma alive_payload v v' : payload v = payload v' → alive v = alive v'.
Proof using Type. intros [= _ H]. unfold alive, zval_get_type. by rewrite H. Qed.

Lemma visible_mixed ht bs : ht_ar ht = ArData bs → visible ht false ∅ = (λ b, entry_of b (b_val b)) <$> used ht bs.
Proof using Type. intros Ha. unfold visible. by rewrite Ha. Qed.

Lemma used_snoc ht ht' bs (idx : nat) b :
  Z.of_nat idx = nNumUsed ht → nNumUsed ht' = nNumUsed ht + 1 → (idx < length bs)%nat →
  used ht' (<[idx := b]> bs) = used ht bs ++ [b].
Proof using Type.
  intros Hi Hu Hl. unfold used. replace (Z.to_nat (nNumUsed ht')) with (S idx) by lia.
  replace (Z.to_nat (nNumUsed ht)) with idx by lia.
  rewrite (take_S_r _ _ b) by (by apply list_lookup_insert_eq). by rewrite take_insert_ge.
Qed.

Lemma append_value_ok store pl key interned h guaranteed ht bs heap :
  mixed_ok ht bs → chains_ok ht bs → elements_ok ht → nNumUsed ht < nTableSize ht →
  key_ok key interned h heap → (guaranteed = true → interned = true) →
  (∀ z, payload (store z) = pl ∧ alive (store z) = true) →
  ∃ ht' heap', append_value zend_string_hash_func store key guaranteed ht heap
               = Some (nNumUsed ht, ht', heap') ∧
    linked_in ht h key pl ht' ∧ key_taken key interned h heap heap'.
Proof using hash_word.
  intros Hok Hch Hel Hroom Hkey Hg Hst. pose proof Hok as (Hsh&Ha&Hsz&Hm&Hlen&Hcap).
  pose proof (table_size_bounds _ Hsz) as [[_ Hmax] _]. unfold HT_MAX_SIZE in Hmax.
  pose proof (proj2 Hsh) as Hn. set (idx := Z.to_nat (nNumUsed ht)).
  assert (Hidx : Z.of_nat idx = nNumUsed ht) by lia. assert (Hlt : (idx < length bs)%nat) by lia.
  destruct (lookup_lt_is_Some_2 bs idx Hlt) as [p Hp]. destruct (Hst (b_val p)) as [Hpl Hal].
  unfold append_value. rewrite <- Hidx, (hash_to_bucket _ bs) by done. rewrite Hp. cbn [mbind option_bind].
  set (ht1 := set_used (u32 (Z.of_nat idx + 1)) ht).
  destruct (append_key_ok key interned h guaranteed ht1 heap Hkey Hg) as (heap'&->&Htaken).
  cbn [mbind option_bind]. set (ht2 := set_flags _ ht1).
  assert (Hu2 : nNumUsed ht2 = nNumUsed ht + 1).
  { subst ht2 ht1. cbn [nNumUsed set_flags set_used]. rewrite u32_small; lia. }
  assert (Hpk : HT_IS_PACKED ht2 = HT_IS_PACKED ht).
  { subst ht2 ht1. unfold HT_IS_PACKED. cbn [HT_FLAGS set_flags set_used]. destruct interned; [done|].
    apply packed_flag_cleared. }
  assert (Hok2 : mixed_ok ht2 bs).
  { destruct Hsh as [Hsh _]. rewrite Ha in Hsh. split; [|done]. unfold shape_ok. cbn [ht_ar].
    change (ht_ar ht2) with (ht_ar ht). rewrite Ha, Hpk. split; [split; [apply Hsh|lia]|lia]. }
  destruct (append_link_ok idx (store (b_val p)) key h heap' ht2 bs Hok2 (proj1 Htaken) Hlt) as (next&Hnext&->).
  cbn [mbind option_bind]. eexists _, heap'. split; [done|]. split; [|done].
  change (home ht2 h) with (home ht h) in *. change (arHash ht2) with (arHash ht) in *.
  set (b := Bkt (store (b_val p)) h (Some key)) in *. set (ht' := set_elements _ _).
  assert (Ha' : ht_ar ht' = ArData (<[idx := set_next next b]> bs)) by done.
  assert (Hvis : visible ht' false ∅ = visible ht false ∅ ++ [entry_of b (b_val (set_next next b))]).
  { rewrite (visible_mixed ht' _ Ha'), (visible_mixed ht bs Ha), (used_snoc ht ht' bs idx) by done.
    by rewrite fmap_app. }
  exists (<[idx := set_next next b]> bs). split_and!.
  - destruct Hok2 as (Hsh2&_). destruct Hsh2 as [Hs2 Hn2]. change (ht_ar ht2) with (ht_ar ht) in Hs2. rewrite Ha in Hs2.
    split_and!; try done; [|by simpl; rewrite length_insert|by rewrite length_insert].
    unfold shape_ok. rewrite Ha'. rewrite length_insert. done.
  - by apply (chains_append ht bs idx next b).
  - unfold elements_ok in *. rewrite Hvis, List.filter_app, length_app. cbn [List.filter].
    change (live (entry_of b (b_val (set_next next b)))) with (alive (store (b_val p))). rewrite Hal. simpl.
    pose proof (filter_length_le live (visible ht false ∅)) as Hle. rewrite length_visible in Hle by done.
    rewrite u32_small; lia.
  - done.
  - simpl. rewrite Hidx. apply list_lookup_insert_eq. by apply (home_slot ht bs).
  - eexists. split; [exact Hvis|]. split_and!; [done|done|exact Hpl].
Qed.

(** C32: Appending a new key to a mixed table with a free bucket (as a value, as a
    pointer or as an indirect value) puts the element last in the table order and
    first in the chain of its hash, keeps every chain running once through exactly
    the live buckets of its slot, counts it, and takes a reference to the key
    exactly when it is not interned. *)
Theorem hash_append_links key interned h guaranteed ht bs heap zv ptr :
  mixed_ok ht bs → chains_ok ht bs → elements_ok ht → nNumUsed ht < nTableSize ht →
  key_ok key interned h heap → (guaranteed = true → interned = true) → alive zv = true →
  let done pl r := ∃ ht' heap', r = Some (nNumUsed ht, ht', heap') ∧
                     linked_in ht h key pl ht' ∧ key_taken key interned h heap heap' in
  done (payload zv) (_zend_hash_append_ex zend_string_hash_func ht key zv guaranteed heap) ∧
  done (VPtr ptr, IS_PTR) (_zend_hash_append_ptr_ex zend_string_hash_func ht key ptr guaranteed heap) ∧
  done (VPtr ptr, IS_INDIRECT) (_zend_hash_append_ind zend_string_hash_func ht key ptr heap).
Proof using hash_word.
  intros Hok Hch Hel Hroom Hkey Hg Hal. cbv zeta. split_and!.
  - by apply (append_value_ok _ (payload zv) key interned h guaranteed ht bs heap).
  - by apply (append_value_ok _ (VPtr ptr, IS_PTR) key interned h guaranteed ht bs heap).
  - by apply (append_value_ok _ (VPtr ptr, IS_INDIRECT) key interned h false ht bs heap).
Qed.
End appending.

(** *** The deletion *)
Section deletion.
Implicit Types (ht : HashTable) (bs : list Bucket).

Lemma links_head bs v l i : links bs v (i :: l) → v = Z.of_nat i.
Proof. by inversion 1. Qed.

Lemma links_tail bs v l i b : links bs v (i :: l) → bs !! i = Some b → links bs (Z_NEXT (b_val b)) l.
Proof. intros H Hb. inversion H; subst. by simplify_eq. Qed.

(** The chain walk finds the bucket before [j]. *)
Lemma find_prev_ok ht bs l1 pr (j : nat) l2 : ∀ v fuel,
  ht_ar ht = ArData bs → links bs v (l1 ++ pr :: j :: l2) → NoDup (l1 ++ pr :: j :: l2) → (length l1 < fuel)%nat →
  ∃ b, bs !! pr = Some b ∧ find_prev fuel ht v (Z.of_nat j) = Some (Z.of_nat pr, b).
Proof.
  induction l1 as [|i l1 IH]; intros v [|fuel] Ha Hl Hnd Hf; try (simpl in Hf; lia); simpl in Hl, Hnd.
  - pose proof (links_head _ _ _ _ Hl) as ->. inversion Hl as [|? b ? Hb Hl']; subst.
    apply links_head in Hl'. exists b. split; [done|]. cbn [find_prev].
    rewrite (hash_to_bucket ht bs) by done. rewrite Hb. cbn [mbind option_bind]. by rewrite Hl', Z.eqb_refl.
  - pose proof (links_head _ _ _ _ Hl) as ->. inversion Hl as [|? b ? Hb Hl']; subst.
    apply list.NoDup_cons in Hnd as [Hni Hnd]. cbn [find_prev].
    rewrite (hash_to_bucket ht bs) by done. rewrite Hb. cbn [mbind option_bind].
    assert (Hne : (Z_NEXT (b_val b) =? Z.of_nat j) = false).
    { apply Z.eqb_neq. intros Heq. destruct l1 as [|i' l1]; apply links_head in Hl'; simpl in Hnd.
      - assert (pr = j) as -> by lia. apply list.NoDup_cons in Hnd as [Hx _]. apply Hx. left.
      - assert (i' = j) as -> by lia. apply list.NoDup_cons in Hnd as [Hx _]. apply Hx. set_solver. }
    rewrite Hne. simpl. apply IH; [done|done|done|simpl in Hf; lia].
Qed.

Lemma links_unlink bs l1 pr (j : nat) l2 bj bp : ∀ v,
  links bs v (l1 ++ pr :: j :: l2) → NoDup (l1 ++ pr :: j :: l2) → bs !! j = Some bj → bs !! pr = Some bp →
  links (<[pr := set_next (Z_NEXT (b_val bj)) bp]> bs) v (l1 ++ pr :: l2).
Proof.
  induction l1 as [|i l1 IH]; intros v Hl Hnd Hj Hp; simpl in *; pose proof (links_head _ _ _ _ Hl) as ->.
  - econstructor; [apply list_lookup_insert_eq; by eapply lookup_lt_Some|]. simpl.
    apply links_insert; [|intros Hin; apply list.NoDup_cons in Hnd as [Hx _]; apply Hx; set_solver].
    eapply links_tail; [|done]. by eapply links_tail.
  - inversion Hl as [|? b ? Hb Hl']; subst.
    apply list.NoDup_cons in Hnd as [Hni Hnd]. econstructor; [|by apply IH].
    rewrite list_lookup_insert_ne; [done|]. intros ->. apply Hni. set_solver.
Qed.

(** What a bucket shows, apart from its link. *)
Definition shown (b : Bucket) : (zend_value * Z) * Z * option loc := (payload (b_val b), b_h b, b_key b).

Lemma shown_alive b b' : shown b = shown b' → alive (b_val b) = alive (b_val b') ∧ b_h b = b_h b' ∧ b_key b = b_key b'.
Proof. intros [= Hp1 Hp2 Hh Hk]. split_and!; [|done|done]. unfold alive, zval_get_type. by rewrite Hp2. Qed.

Lemma member_shown ht ht' bs bs' k i :
  shown <$> bs' = shown <$> bs → (∀ h, home ht' h = home ht h) → nNumUsed ht' = nNumUsed ht →
  member ht' bs' k i → member ht bs k i.
Proof.
  intros Hs Hh Hu [Hi (b'&Hb'&Hal&Hk)]. split; [by rewrite <- Hu|].
  assert (H : (shown <$> bs) !! i = Some (shown b')) by (rewrite <- Hs, list_lookup_fmap; by rewrite Hb').
  rewrite list_lookup_fmap in H. destruct (bs !! i) as [b|] eqn:Hb; [|done]. apply (inj Some) in H.
  destruct (shown_alive b b') as (Ha&He&_); [done|]. exists b. rewrite Ha, He, <- Hh. done.
Qed.

Lemma shown_set_next bs i n b : bs !! i = Some b → shown <$> (<[i := set_next n b]> bs) = shown <$> bs.
Proof.
  intros Hb. rewrite list_fmap_insert. apply list_insert_id. rewrite list_lookup_fmap, Hb. done.
Qed.

Lemma index_word h m : 0 <= m < 2 ^ 32 → u32 (Z.lor h m) = Z.lor (u32 h) m.
Proof.
  intros Hm. unfold u32. rewrite <- !Z.land_ones by done. rewrite Z.land_lor_distr_l. f_equal.
  rewrite Z.land_ones by done. by apply Z.mod_small.
Qed.

Lemma mask_word ht bs : mixed_ok ht bs → 0 <= nTableMask ht < 2 ^ 32.
Proof. intros (_&_&_&->&_). apply u32_range. Qed.

(** The table when the loop has come down to [n]. *)
Definition down_to ht bs (n : nat) : Prop :=
  mixed_ok ht bs ∧ chains_ok (set_used (Z.of_nat n) ht) bs ∧
  nNumOfElements ht = Z.of_nat (length (List.filter alive (b_val <$> take n bs))).

Lemma chains_without ht bs ht' bs' (j : nat) :
  shown <$> bs' = shown <$> bs → (∀ h, home ht' h = home ht h) →
  (∀ k v', arHash ht' !! k = Some v' → ∃ l l' : list nat, links bs' v' l' ∧ NoDup l' ∧
     (∀ i, i ∈ l ↔ member (set_used (Z.of_nat (S j)) ht) bs k i) ∧ (∀ i, i ∈ l' ↔ i ∈ l ∧ i ≠ j)) →
  chains_ok (set_used (Z.of_nat j) ht') bs'.
Proof.
  intros Hs Hh Hch k v' Hv'. destruct (Hch k v' Hv') as (l&l'&Hl'&Hnd&Hl&Hin). exists l'. split_and!; [done..|].
  intros i. rewrite Hin, Hl. split.
  - intros [Hm Hne]. apply (member_shown (set_used (Z.of_nat j) ht') (set_used (Z.of_nat j) ht) bs' bs);
      [done|intros h; symmetry; apply Hh|done|].
    destruct Hm as [Hi Hb]. split; [simpl in *; lia|done].
  - intros Hm. apply (member_shown (set_used (Z.of_nat j) ht) (set_used (Z.of_nat j) ht') bs bs') in Hm; [|done..].
    destruct Hm as [Hi Hb]. split; [split; [simpl in *; lia|done]|simpl in *; lia].
Qed.

Lemma chain_length (l : list nat) n : NoDup l → (∀ i, i ∈ l → (i < n)%nat) → (length l ≤ n)%nat.
Proof.
  intros Hnd Hl. rewrite <- (length_seq n 0). apply submseteq_length, NoDup_submseteq; [done|].
  intros i Hi%Hl. apply elem_of_seq. lia.
Qed.

(** A chain other than that of the deleted bucket is left alone. *)
Lemma chain_elsewhere ht bs (j : nat) p k (l : list nat) :
  bs !! j = Some p → k ≠ home ht (b_h p) → (∀ i, i ∈ l ↔ member (set_used (Z.of_nat (S j)) ht) bs k i) →
  ∀ i, i ∈ l ↔ i ∈ l ∧ i ≠ j.
Proof.
  intros Hp Hk Hl i. split; [|by intros [? _]]. intros Hi. split; [done|]. intros ->.
  apply Hl in Hi as [_ (b&Hb&_&Hh)]. by simplify_eq.
Qed.

Lemma count_snoc bs (j : nat) p :
  bs !! j = Some p → alive (b_val p) = true →
  length (List.filter alive (b_val <$> take (S j) bs)) = S (length (List.filter alive (b_val <$> take j bs))).
Proof.
  intros Hp Hal. rewrite (take_S_r _ _ _ Hp), fmap_app, List.filter_app, length_app. simpl. rewrite Hal. simpl. lia.
Qed.

Lemma count_shown bs bs' (n : nat) :
  shown <$> bs' = shown <$> bs →
  length (List.filter alive (b_val <$> take n bs')) = length (List.filter alive (b_val <$> take n bs)).
Proof.
  revert bs bs'. induction n as [|n IH]; intros [|b bs] [|b' bs'] Hs; try done.
  rewrite !fmap_cons in Hs. injection Hs as Hv Ht Hh Hk Hs. cbn [take]. rewrite !fmap_cons. cbn [List.filter].
  assert (alive (b_val b') = alive (b_val b)) as -> by (unfold alive, zval_get_type; by rewrite Ht).
  pose proof (IH bs bs' Hs) as Hn. destruct (alive (b_val b)); cbn [length]; congruence.
Qed.

Lemma count_bound bs n : (length (List.filter alive (b_val <$> take n bs)) ≤ length bs)%nat.
Proof.
  etrans; [apply filter_length_le|]. rewrite length_fmap, length_take. lia.
Qed.

(** The deleted bucket at the head of its chain. *)
Lemma del_head_ok ht bs (j : nat) p l2 :
  mixed_ok ht bs → chains_ok (set_used (Z.of_nat (S j)) ht) bs → bs !! j = Some p →
  arHash ht !! home ht (b_h p) = Some (Z.of_nat j) → links bs (Z.of_nat j) (j :: l2) → NoDup (j :: l2) →
  (∀ i, i ∈ j :: l2 ↔ member (set_used (Z.of_nat (S j)) ht) bs (home ht (b_h p)) i) →
  chains_ok (set_used (Z.of_nat j)
    (set_arHash (<[home ht (b_h p) := Z_NEXT (b_val p)]> (arHash ht)) ht)) bs.
Proof.
  intros Hok Hch Hp Hv Hl Hnd Hin. apply (chains_without ht bs); [done| |].
  { intros h. unfold home. simpl. by rewrite length_insert. }
  intros k v' Hv'. simpl in Hv'. destruct (decide (k = home ht (b_h p))) as [->|Hne].
  - rewrite list_lookup_insert_eq in Hv' by by eapply lookup_lt_Some. simplify_eq. exists (j :: l2), l2.
    apply list.NoDup_cons in Hnd as [Hj Hnd]. split_and!; [by eapply links_tail|done|done|]. set_solver.
  - rewrite list_lookup_insert_ne in Hv' by done. destruct (Hch k v' Hv') as (l&Hl1&Hnd1&Hin1).
    exists l, l. split_and!; [done|done|done|]. by eapply chain_elsewhere.
Qed.

(** The deleted bucket further down its chain. *)
Lemma del_inside_ok ht bs (j : nat) p v l1 pr l2 bp :
  mixed_ok ht bs → chains_ok (set_used (Z.of_nat (S j)) ht) bs → bs !! j = Some p → bs !! pr = Some bp →
  arHash ht !! home ht (b_h p) = Some v → links bs v (l1 ++ pr :: j :: l2) → NoDup (l1 ++ pr :: j :: l2) →
  (∀ i, i ∈ l1 ++ pr :: j :: l2 ↔ member (set_used (Z.of_nat (S j)) ht) bs (home ht (b_h p)) i) →
  chains_ok (set_used (Z.of_nat j) (set_ar (ArData (<[pr := set_next (Z_NEXT (b_val p)) bp]> bs)) ht))
    (<[pr := set_next (Z_NEXT (b_val p)) bp]> bs).
Proof.
  intros Hok Hch Hp Hbp Hv Hl Hnd Hin. apply (chains_without ht bs); [by apply shown_set_next|done|].
  intros k v' Hv'. simpl in Hv'. destruct (decide (k = home ht (b_h p))) as [->|Hne].
  - simplify_eq. exists (l1 ++ pr :: j :: l2), (l1 ++ pr :: l2).
    assert (Hperm : l1 ++ pr :: j :: l2 ≡ₚ j :: l1 ++ pr :: l2) by solve_Permutation.
    assert (Hnd' : NoDup (j :: l1 ++ pr :: l2)) by by rewrite <- Hperm.
    apply list.NoDup_cons in Hnd' as [Hj Hnd']. split_and!; [by eapply links_unlink|done|done|].
    intros i. rewrite Hperm, elem_of_cons. split; [|naive_solver]. intros Hi. split; [by right|]. by intros ->.
  - destruct (Hch k v' Hv') as (l&Hl1&Hnd1&Hin1). exists l, l.
    split_and!; [|done|done|by eapply chain_elsewhere]. apply links_insert; [done|].
    assert (Hpr : member (set_used (Z.of_nat (S j)) ht) bs (home ht (b_h p)) pr) by (apply Hin; set_solver).
    intros [_ (b&Hb&_&Hh)]%Hin1. destruct Hpr as [_ (b2&Hb2&_&Hh2)]. simplify_eq.
Qed.

Lemma mixed_ok_same ht bs ht' bs' :
  mixed_ok ht bs → HT_FLAGS ht' = HT_FLAGS ht → nTableMask ht' = nTableMask ht → nTableSize ht' = nTableSize ht →
  nNumUsed ht' = nNumUsed ht → length (arHash ht') = length (arHash ht) → ht_ar ht' = ArData bs' →
  length bs' = length bs → mixed_ok ht' bs'.
Proof.
  intros ([Hs Hn]&Ha&Hsz&Hm&Hl&Hc) Hf Hm' Hsz' Hu Hl' Ha' Hb. rewrite Ha in Hs.
  split_and!; [|done|by rewrite Hsz'|by rewrite Hm', Hsz'|by rewrite Hl', Hsz'|by rewrite Hb, Hsz'].
  unfold shape_ok, HT_IS_PACKED. rewrite Ha', Hf, Hu, Hb. done.
Qed.

Lemma del_current_ok ht bs (j : nat) p :
  down_to ht bs (S j) → bs !! j = Some p → alive (b_val p) = true →
  ∃ ht' bs', del_current (Z.of_nat (S j)) p ht = Some ht' ∧ down_to ht' bs' j ∧
    shown <$> bs' = shown <$> bs ∧ nNumUsed ht' = nNumUsed ht.
Proof.
  intros (Hok&Hch&Hel) Hp Hal. pose proof Hok as (_&Ha&_&_&_&Hcap). destruct (home_slot ht bs (b_h p) Hok) as [Hs Hlt].
  destruct (lookup_lt_is_Some_2 _ _ Hlt) as [v Hv]. destruct (Hch _ _ Hv) as (l&Hl&Hnd&Hin).
  rewrite (count_snoc bs j p) in Hel by done. pose proof (count_bound bs j) as Hcb.
  pose proof Hok as ((_&Hn)&_&Hsz&_). pose proof (table_size_bounds _ Hsz) as [[_ Hmax] _]. unfold HT_MAX_SIZE in Hmax.
  assert (Hj : j ∈ l). { apply Hin. split; [simpl; lia|]. by exists p. }
  unfold del_current, HT_HASH, set_HT_HASH, HT_IDX_TO_HASH. cbn [nTableMask arHash set_elements nTableSize].
  rewrite (index_word (b_h p)) by (by eapply mask_word). rewrite Hs. cbn [mbind option_bind].
  rewrite Hv. cbn [mbind option_bind]. replace (Z.of_nat (S j) - 1) with (Z.of_nat j) by lia.
  set (ht1 := set_elements _ ht). assert (Hel1 : nNumOfElements ht1 = Z.of_nat (length (List.filter alive (b_val <$> take j bs)))).
  { subst ht1. cbn [nNumOfElements set_elements]. rewrite u32_small; lia. }
  apply list_elem_of_split in Hj as (l0&l2&->). destruct l0 as [|i l0] using rev_ind; [|clear IHl0].
  - simpl in *. pose proof (links_head _ _ _ _ Hl) as ->. rewrite Z.eqb_refl. simpl.
    eexists _, bs. split; [done|]. split; [|done]. split_and!; [|by eapply (del_head_ok ht1 bs j p)|exact Hel1].
    by eapply mixed_ok_same; [exact Hok|..|exact Ha|]; [..|apply length_insert|].
  - rewrite <- app_assoc in *. cbn [app] in *.
    assert (Hne : (Z.of_nat j =? v) = false).
    { apply Z.eqb_neq. intros <-. destruct l0 as [|i' l0]; simpl in *; apply links_head in Hl.
      - assert (i = j) as -> by lia. apply list.NoDup_cons in Hnd as [Hx _]. apply Hx. left.
      - assert (i' = j) as -> by lia. apply list.NoDup_cons in Hnd as [Hx _]. apply Hx. set_solver. }
    rewrite Hne. cbn [negb]. assert (Hlen : (length (l0 ++ i :: j :: l2) ≤ length bs)%nat).
    { apply chain_length; [done|]. intros x [_ (b&Hb&_)]%Hin. by eapply lookup_lt_Some. }
    rewrite length_app in Hlen. cbn [length] in Hlen.
    destruct (find_prev_ok ht1 bs l0 i j l2 v (S (Z.to_nat (nTableSize ht))) Ha Hl Hnd) as (bp&Hbp&->); [lia|].
    cbn [mbind option_bind]. rewrite (store_bucket_eq ht1 bs) by (done || by eapply lookup_lt_Some).
    eexists _, _. split; [done|]. split; [|split; [by apply shown_set_next|done]].
    split_and!; [|by eapply (del_inside_ok ht1 bs j p)|].
    + eapply mixed_ok_same; [exact Hok|..]; try done. apply length_insert.
    + rewrite (count_shown bs) by by apply shown_set_next. exact Hel1.
Qed.

Definition entries bs : list entry := (λ b, entry_of b (b_val b)) <$> bs.

(** A body that does not look at the link of the element. *)
Definition link_blind {S} (body : entry → S → control S) : Prop := ∀ e e' s,
  e_h e = e_h e' → e_key e = e_key e' → payload (e_val e) = payload (e_val e') → body e s = body e' s.

Lemma for_entries_shown {S} (body : entry → S → control S) bs bs' s :
  link_blind body → shown <$> bs' = shown <$> bs →
  for_entries body (List.filter live (entries bs')) s = for_entries body (List.filter live (entries bs)) s.
Proof.
  intros Hb. revert bs' s. induction bs as [|b bs IH]; intros [|b' bs'] s Hs; try done.
  rewrite !fmap_cons in Hs. injection Hs as Hv Ht Hh Hk Hs. unfold entries. rewrite !fmap_cons.
  cbn [List.filter]. change (live (entry_of b' (b_val b'))) with (alive (b_val b')).
  change (live (entry_of b (b_val b))) with (alive (b_val b)).
  assert (alive (b_val b') = alive (b_val b)) as -> by (unfold alive, zval_get_type; by rewrite Ht).
  destruct (alive (b_val b)); [|by apply IH]. cbn [for_entries].
  rewrite (Hb (entry_of b' (b_val b')) (entry_of b (b_val b)) s Hh Hk) by (unfold payload; simpl; congruence).
  destruct (body (entry_of b (b_val b)) s); [|done]. by apply IH.
Qed.

Lemma down_to_skip ht bs (j : nat) p :
  down_to ht bs (S j) → bs !! j = Some p → alive (b_val p) = false → down_to ht bs j.
Proof.
  intros (Hok&Hch&Hel) Hp Hal. split_and!; [done| |].
  - apply (chains_without ht bs); [done|done|]. intros k v Hv. destruct (Hch k v Hv) as (l&Hl&Hnd&Hin).
    exists l, l. split_and!; [done..|]. intros i. split; [|by intros [? _]]. intros Hi. split; [done|].
    intros ->. apply Hin in Hi as [_ (b&Hb&Hab&_)]. simplify_eq. congruence.
  - rewrite Hel, (take_S_r _ _ _ Hp), fmap_app, List.filter_app, length_app. simpl. rewrite Hal. simpl. lia.
Qed.

Lemma del_loop_ok {S} (body : entry → S → control S) n : link_blind body → ∀ ht bs s,
  down_to ht bs n → (n ≤ length bs)%nat →
  ∃ ht' bs' k, del_loop body n ht s
    = Some (ht', k, for_entries body (List.filter live (entries (reverse (take n bs)))) s) ∧
    (k ≤ n)%nat ∧ down_to ht' bs' k ∧ shown <$> bs' = shown <$> bs ∧ nNumUsed ht' = nNumUsed ht ∧
    (∀ s', for_entries body (List.filter live (entries (reverse (take n bs)))) s = Next s' → k = 0%nat).
Proof.
  intros Hb. induction n as [|j IH]; intros ht bs s Hd Hlen.
  - exists ht, bs, 0%nat. done.
  - destruct (lookup_lt_is_Some_2 bs j) as [p Hp]; [lia|]. pose proof Hd as (Hok&_).
    cbn [del_loop]. rewrite (hash_to_bucket ht bs) by apply Hok. rewrite Hp. cbn [mbind option_bind].
    rewrite (take_S_r _ _ _ Hp), reverse_app, reverse_singleton. unfold entries. rewrite fmap_app. cbn [fmap list_fmap app].
    cbn [List.filter]. change (live (entry_of p (b_val p))) with (alive (b_val p)).
    change (alive (b_val p)) with (negb (zval_get_type (b_val p) =? IS_UNDEF)).
    destruct (zval_get_type (b_val p) =? IS_UNDEF) eqn:Hun; cbn [negb].
    + destruct (IH ht bs s) as (ht'&bs'&k&Hrun&Hk&Hrest); [|lia|].
      { eapply down_to_skip; [done..|]. unfold alive. by rewrite Hun. }
      exists ht', bs', k. split; [exact Hrun|]. split; [lia|exact Hrest].
    + cbn [for_entries]. destruct (body (entry_of p (b_val p)) s) as [s1|s1] eqn:Hbody.
      * destruct (del_current_ok ht bs j p Hd Hp) as (ht1&bs1&Hdel&Hd1&Hs1&Hu1); [unfold alive; by rewrite Hun|].
        rewrite Hdel. cbn [mbind option_bind].
        assert (Hrev : shown <$> reverse (take j bs1) = shown <$> reverse (take j bs)).
        { rewrite !fmap_reverse, !fmap_take. by rewrite Hs1. }
        assert (Hl1 : length bs1 = length bs) by (by rewrite <- (length_fmap shown bs1), Hs1, length_fmap).
        destruct (IH ht1 bs1 s1 Hd1) as (ht'&bs'&k&Hrun&Hk&Hd'&Hs'&Hu'&Hnx); [lia|].
        rewrite (for_entries_shown body _ _ s1 Hb Hrev) in Hrun, Hnx.
        exists ht', bs', k. split; [exact Hrun|]. split_and!; [lia|done|congruence|congruence|exact Hnx].
      * exists ht, bs, (Datatypes.S j). split; [done|]. by split_and!.
Qed.

Lemma take_shown bs bs' n : shown <$> bs' = shown <$> bs → shown <$> take n bs' = shown <$> take n bs.
Proof. intros H. by rewrite !fmap_take, H. Qed.

(** C33: Deleting while iterating backwards over a mixed table runs the body on
    the live elements from the last to the first until it leaves the loop, and
    leaves a well-formed table with exactly the elements before that point, their
    chains intact and counted; a loop that comes to its end empties the table and
    all of its chains. *)
Theorem foreach_end_del {S} (body : entry → S → control S) ht bs s :
  mixed_ok ht bs → chains_ok ht bs → elements_ok ht → link_blind body →
  ∃ ht' bs', ZEND_HASH_MAP_REVERSE_FOREACH_DEL body ht s
      = Some (ht', for_entries body (List.filter live (reverse (visible ht false ∅))) s) ∧
    mixed_ok ht' bs' ∧ chains_ok ht' bs' ∧ elements_ok ht' ∧ 0 <= nNumUsed ht' <= nNumUsed ht ∧
    shown <$> used ht' bs' = shown <$> take (Z.to_nat (nNumUsed ht')) bs ∧
    (∀ s', for_entries body (List.filter live (reverse (visible ht false ∅))) s = Next s' →
       nNumUsed ht' = 0 ∧ Forall (λ v, v = HT_INVALID_IDX) (arHash ht')).
Proof.
  intros Hok Hch Hel Hb. pose proof Hok as (Hsh&Ha&_&_&_&Hcap). pose proof (proj2 Hsh) as Hn.
  assert (Hd : down_to ht bs (Z.to_nat (nNumUsed ht))).
  { split_and!; [done| |].
    - replace (set_used (Z.of_nat (Z.to_nat (nNumUsed ht))) ht) with ht; [done|].
      destruct ht. unfold set_used. simpl in *. f_equal. lia.
    - unfold elements_ok in Hel. rewrite Hel, count_live, (visible_mixed ht bs Ha), <- list_fmap_compose. done. }
  assert (Hlen : (Z.to_nat (nNumUsed ht) ≤ length bs)%nat).
  { destruct Hsh as [Hs _]. rewrite Ha in Hs. destruct Hs as [_ Hs]. lia. }
  destruct (del_loop_ok body _ Hb ht bs s Hd Hlen) as (ht'&bs'&k&Hrun&Hk&(Hok'&Hch'&Hel')&Hs'&Hu'&Hnx).
  unfold ZEND_HASH_MAP_REVERSE_FOREACH_DEL. rewrite (mixed_flag ht bs Hsh Ha), Hrun. cbn [mbind option_bind].
  assert (Hvis : entries (reverse (take (Z.to_nat (nNumUsed ht)) bs)) = reverse (visible ht false ∅)).
  { rewrite (visible_mixed ht bs Ha). unfold entries, used. by rewrite fmap_reverse. }
  rewrite Hvis in Hnx |- *. pose proof Hok' as (Hsh'&Ha'&Hrest').
  exists (set_used (Z.of_nat k) ht'), bs'. split; [done|]. cbn [nNumUsed set_used]. split_and!; [|done| |lia|lia| |].
  - destruct Hsh' as [Hs2 Hn2]. split; [|done]. unfold shape_ok. cbn [ht_ar set_used nNumUsed]. rewrite Ha' in *.
    destruct Hs2 as [Hp2 Hl2]. split; [split; [done|lia]|lia].
  - unfold elements_ok. rewrite count_live, (visible_mixed _ bs') by done. rewrite <- list_fmap_compose. unfold used.
    cbn [nNumUsed set_used nNumOfElements]. by rewrite Nat2Z.id.
  - unfold used. cbn [nNumUsed set_used]. by apply take_shown.
  - intros s' Hs''. rewrite (Hnx s' Hs'') in *. split; [done|]. apply list.Forall_lookup. intros i v Hv.
    destruct (Hch' i v Hv) as (l&Hl&_&Hin). destruct l as [|x l]; [by inversion Hl|].
    destruct (proj1 (Hin x)) as [Hx _]; [left|]. simpl in Hx. lia.
Qed.
End deletion.
