(* ===== verification/ZendSymtable.v ===== *)
(** * Symbol tables and typed elements (Zend/zend_hash.h)

    The inline functions over the functions of zend_hash.c: numeric strings as
    integer keys, indirect values, elements that are pointers or copies of a
    block. The functions of zend_hash.c are a class of operations; what they
    promise is stated once, as a map from keys to values. *)

From S2P Require Import Prelude ZendTypes ZendString ZendOperators.

(** An element's key in a table: a string or an integer. *)
Inductive hkey : Type :=
| KStr (key : bytes)
| KInt (h : Z).

#[global] Instance hkey_eq_dec : EqDecision hkey.
Proof. solve_decision. Defined.

(** A [zval *]: the element with a key, or a value elsewhere in memory. *)
Inductive place : Type :=
| PElement (k : hkey)
| PMemory (l : loc).

(** The functions of zend_hash.c, the numeric test, and memory, over the state [W]
    of one table and the memory around it. A key string stands for its bytes. *)
Class HashFunctions (W : Type) : Type := {
  deref : W → place → option zval;
  store : place → zval → W → option W;
  ht_persistent : W → bool;
  zend_hash_find : W → bytes → option place;
  zend_hash_find_known_hash : W → bytes → option place;
  zend_hash_str_find : W → bytes → option place;
  zend_hash_index_find : W → Z → option place;
  zend_hash_add : bytes → zval → W → option place * W;
  zend_hash_add_new : bytes → zval → W → option place * W;
  zend_hash_update : bytes → zval → W → option place * W;
  zend_hash_update_ind : bytes → zval → W → option place * W;
  zend_hash_str_add : bytes → zval → W → option place * W;
  zend_hash_str_add_new : bytes → zval → W → option place * W;
  zend_hash_str_update : bytes → zval → W → option place * W;
  zend_hash_str_update_ind : bytes → zval → W → option place * W;
  zend_hash_index_add : Z → zval → W → option place * W;
  zend_hash_index_add_new : Z → zval → W → option place * W;
  zend_hash_index_update : Z → zval → W → option place * W;
  zend_hash_next_index_insert : zval → W → option place * W;
  zend_hash_del : bytes → W → Z * W;
  zend_hash_del_ind : bytes → W → Z * W;
  zend_hash_str_del : bytes → W → Z * W;
  zend_hash_str_del_ind : bytes → W → Z * W;
  zend_hash_index_del : Z → W → Z * W;
  _zend_handle_numeric_str_ex : bytes → option Z;
  pemalloc : Z → bool → W → loc * W;
  memcpy : loc → bytes → W → option W;
  pefree : loc → bool → W → W }.

Module Symtable.
Section symtable.
Context {W : Type} {funs : HashFunctions W}.
Implicit Types (w : W) (key str : bytes).

(** *** Lookup *)

Definition zend_hash_find_ex w key (known_hash : bool) : option place :=
  if known_hash then zend_hash_find_known_hash w key else zend_hash_find w key.
Definition zend_hash_exists w key : bool := bool_decide (is_Some (zend_hash_find w key)).
Definition zend_hash_str_exists w str : bool := bool_decide (is_Some (zend_hash_str_find w str)).
Definition zend_hash_index_exists w (h : Z) : bool := bool_decide (is_Some (zend_hash_index_find w h)).

(** *** Numeric strings *)

(** The terminator can be read: [key] is a C string of the given length. [cv] is
    the value of a [char]. *)
Definition char_at (cv : byte → Z) key (i : nat) : Z := cv (default NUL (key !! i)).

Definition _zend_handle_numeric_str (cv : byte → Z) key : option Z :=
  if ch_9 <? char_at cv key 0 then None
  else if char_at cv key 0 <? ch_0 then
    if negb (char_at cv key 0 =? ch_minus) then None
    else if (ch_9 <? char_at cv key 1) || (char_at cv key 1 <? ch_0) then None
    else _zend_handle_numeric_str_ex key
  else _zend_handle_numeric_str_ex key.

(** [ZEND_HANDLE_NUMERIC_STR] on the target; [char] is unsigned on arm64. *)
Definition ZEND_HANDLE_NUMERIC_STR key : option Z := _zend_handle_numeric_str uchar key.
Definition ZEND_HANDLE_NUMERIC key : option Z := ZEND_HANDLE_NUMERIC_STR key.

(** *** Indirect values *)

Definition Z_INDIRECT_P (v : zval) : option place :=
  match z_value v with VPtr (Some l) => Some (PMemory l) | _ => None end.

(** [(zv && Z_TYPE_P(zv) == IS_INDIRECT) ? ((Z_TYPE_P(Z_INDIRECT_P(zv)) != IS_UNDEF)
    ? Z_INDIRECT_P(zv) : NULL) : zv]; reading what is not there is undefined. *)
Definition unwrap_ind w (zv : option place) : option (option place) :=
  match zv with
  | None => Some None
  | Some p =>
      v ← deref w p;
      if zval_get_type v =? IS_INDIRECT then
        t ← Z_INDIRECT_P v; tv ← deref w t;
        Some (if negb (zval_get_type tv =? IS_UNDEF) then Some t else None)
      else Some (Some p)
  end.
Definition zend_hash_find_ind w key : option (option place) := unwrap_ind w (zend_hash_find w key).
Definition zend_hash_find_ex_ind w key (known_hash : bool) : option (option place) :=
  unwrap_ind w (zend_hash_find_ex w key known_hash).
Definition zend_hash_str_find_ind w str : option (option place) := unwrap_ind w (zend_hash_str_find w str).

(** [zv && (Z_TYPE_P(zv) != IS_INDIRECT || Z_TYPE_P(Z_INDIRECT_P(zv)) != IS_UNDEF)]. *)
Definition exists_ind w (zv : option place) : option bool :=
  match zv with
  | None => Some false
  | Some p =>
      v ← deref w p;
      if negb (zval_get_type v =? IS_INDIRECT) then Some true
      else t ← Z_INDIRECT_P v; tv ← deref w t; Some (negb (zval_get_type tv =? IS_UNDEF))
  end.
Definition zend_hash_exists_ind w key : option bool := exists_ind w (zend_hash_find w key).
Definition zend_hash_str_exists_ind w str : option bool := exists_ind w (zend_hash_str_find w str).

(** *** Symbol tables *)

Definition zend_symtable_add_new key (pData : zval) w : option place * W :=
  match ZEND_HANDLE_NUMERIC key with
  | Some idx => zend_hash_index_add_new idx pData w
  | None => zend_hash_add_new key pData w
  end.
Definition zend_symtable_update key (pData : zval) w : option place * W :=
  match ZEND_HANDLE_NUMERIC key with
  | Some idx => zend_hash_index_update idx pData w
  | None => zend_hash_update key pData w
  end.
Definition zend_symtable_update_ind key (pData : zval) w : option place * W :=
  match ZEND_HANDLE_NUMERIC key with
  | Some idx => zend_hash_index_update idx pData w
  | None => zend_hash_update_ind key pData w
  end.
Definition zend_symtable_del key w : Z * W :=
  match ZEND_HANDLE_NUMERIC key with
  | Some idx => zend_hash_index_del idx w
  | None => zend_hash_del key w
  end.
Definition zend_symtable_del_ind key w : Z * W :=
  match ZEND_HANDLE_NUMERIC key with
  | Some idx => zend_hash_index_del idx w
  | None => zend_hash_del_ind key w
  end.
Definition zend_symtable_find w key : option place :=
  match ZEND_HANDLE_NUMERIC key with
  | Some idx => zend_hash_index_find w idx
  | None => zend_hash_find w key
  end.
Definition zend_symtable_find_ind w key : option (option place) :=
  match ZEND_HANDLE_NUMERIC key with
  | Some idx => Some (zend_hash_index_find w idx)
  | None => zend_hash_find_ind w key
  end.
Definition zend_symtable_exists w key : bool :=
  match ZEND_HANDLE_NUMERIC key with
  | Some idx => zend_hash_index_exists w idx
  | None => zend_hash_exists w key
  end.
Definition zend_symtable_exists_ind w key : option bool :=
  match ZEND_HANDLE_NUMERIC key with
  | Some idx => Some (zend_hash_index_exists w idx)
  | None => zend_hash_exists_ind w key
  end.
Definition zend_symtable_str_update str (pData : zval) w : option place * W :=
  match ZEND_HANDLE_NUMERIC_STR str with
  | Some idx => zend_hash_index_update idx pData w
  | None => zend_hash_str_update str pData w
  end.
Definition zend_symtable_str_update_ind str (pData : zval) w : option place * W :=
  match ZEND_HANDLE_NUMERIC_STR str with
  | Some idx => zend_hash_index_update idx pData w
  | None => zend_hash_str_update_ind str pData w
  end.
Definition zend_symtable_str_del str w : Z * W :=
  match ZEND_HANDLE_NUMERIC_STR str with
  | Some idx => zend_hash_index_del idx w
  | None => zend_hash_str_del str w
  end.
Definition zend_symtable_str_del_ind str w : Z * W :=
  match ZEND_HANDLE_NUMERIC_STR str with
  | Some idx => zend_hash_index_del idx w
  | None => zend_hash_str_del_ind str w
  end.
Definition zend_symtable_str_find w str : option place :=
  match ZEND_HANDLE_NUMERIC_STR str with
  | Some idx => zend_hash_index_find w idx
  | None => zend_hash_str_find w str
  end.
Definition zend_symtable_str_exists w str : bool :=
  match ZEND_HANDLE_NUMERIC_STR str with
  | Some idx => zend_hash_index_exists w idx
  | None => zend_hash_str_exists w str
  end.
End symtable.
End Symtable.
Export Symtable.

(** ** Elements that are pointers *)
Module Ptrs.
Section ptrs.
Context {W : Type} {funs : HashFunctions W}.
Implicit Types (w : W) (key str data : bytes) (ptr : option loc).

(** [Z_PTR_P(zv)]: the pointer in the value; [Some None] is a null pointer. *)
Definition Z_PTR_P w (p : place) : option (option loc) :=
  v ← deref w p; match z_value v with VPtr q => Some q | _ => None end.
(** The same under [ZEND_ASSERT] or [ZEND_ASSUME]: a null pointer is undefined. *)
Definition Z_PTR_NOT_NULL w (p : place) : option (option loc) :=
  q ← Z_PTR_P w p; match q with Some l => Some (Some l) | None => None end.
Definition ptr_zval ptr : zval := ZVAL_PTR zval_uninit ptr.

(** [if (zv) { ZEND_ASSERT(Z_PTR_P(zv)); return Z_PTR_P(zv); } else return NULL]. *)
Definition ptr_or_null (r : option place * W) : option (option loc * W) :=
  match r with
  | (Some zv, w) => q ← Z_PTR_NOT_NULL w zv; Some (q, w)
  | (None, w) => Some (None, w)
  end.
(** [ZEND_ASSERT(Z_PTR_P(zv)); return Z_PTR_P(zv)]. *)
Definition ptr_of (r : option place * W) : option (option loc * W) :=
  match r with
  | (Some zv, w) => q ← Z_PTR_NOT_NULL w zv; Some (q, w)
  | (None, _) => None
  end.
(** [return zv ? Z_PTR_P(zv) : NULL]. *)
Definition ptr_if (r : option place * W) : option (option loc * W) :=
  match r with
  | (Some zv, w) => q ← Z_PTR_P w zv; Some (q, w)
  | (None, w) => Some (None, w)
  end.

Definition zend_hash_add_ptr key ptr w := ptr_or_null (zend_hash_add key (ptr_zval ptr) w).
Definition zend_hash_add_new_ptr key ptr w := ptr_or_null (zend_hash_add_new key (ptr_zval ptr) w).
Definition zend_hash_str_add_ptr str ptr w := ptr_or_null (zend_hash_str_add str (ptr_zval ptr) w).
Definition zend_hash_str_add_new_ptr str ptr w := ptr_or_null (zend_hash_str_add_new str (ptr_zval ptr) w).
Definition zend_hash_update_ptr key ptr w := ptr_of (zend_hash_update key (ptr_zval ptr) w).
Definition zend_hash_str_update_ptr str ptr w := ptr_of (zend_hash_str_update str (ptr_zval ptr) w).
Definition zend_hash_index_add_ptr (h : Z) ptr w := ptr_if (zend_hash_index_add h (ptr_zval ptr) w).
Definition zend_hash_index_add_new_ptr (h : Z) ptr w := ptr_if (zend_hash_index_add_new h (ptr_zval ptr) w).
Definition zend_hash_index_update_ptr (h : Z) ptr w := ptr_of (zend_hash_index_update h (ptr_zval ptr) w).
Definition zend_hash_next_index_insert_ptr ptr w := ptr_or_null (zend_hash_next_index_insert (ptr_zval ptr) w).

(** *** Elements that point to a copy of a block *)

(** The element is added with a null pointer first, then the block is allocated
    and copied and the pointer stored. *)
Definition fill_mem data (r : option place * W) : option (option loc * W) :=
  match r with
  | (Some zv, w) =>
      let '(p, w) := pemalloc (Z.of_nat (length data)) (ht_persistent w) w in
      v ← deref w zv;
      w ← store zv (Zval (VPtr (Some p)) (Z_TYPE_INFO v) (Z_EXTRA v)) w;
      w ← memcpy p data w;
      Some (Some p, w)
  | (None, w) => Some (None, w)
  end.
Definition zend_hash_add_mem key data w := fill_mem data (zend_hash_add key (ptr_zval None) w).
Definition zend_hash_add_new_mem key data w := fill_mem data (zend_hash_add_new key (ptr_zval None) w).
Definition zend_hash_str_add_mem str data w := fill_mem data (zend_hash_str_add str (ptr_zval None) w).
Definition zend_hash_str_add_new_mem str data w := fill_mem data (zend_hash_str_add_new str (ptr_zval None) w).
Definition zend_hash_index_add_mem (h : Z) data w := fill_mem data (zend_hash_index_add h (ptr_zval None) w).

Definition zend_hash_update_mem key data w : option (option loc * W) :=
  let '(p, w) := pemalloc (Z.of_nat (length data)) (ht_persistent w) w in
  w ← memcpy p data w; zend_hash_update_ptr key (Some p) w.
Definition zend_hash_str_update_mem str data w : option (option loc * W) :=
  let '(p, w) := pemalloc (Z.of_nat (length data)) (ht_persistent w) w in
  w ← memcpy p data w; zend_hash_str_update_ptr str (Some p) w.
Definition zend_hash_index_update_mem (h : Z) data w : option (option loc * W) :=
  let '(p, w) := pemalloc (Z.of_nat (length data)) (ht_persistent w) w in
  w ← memcpy p data w; zend_hash_index_update_ptr h (Some p) w.
Definition zend_hash_next_index_insert_mem data w : option (option loc * W) :=
  let '(p, w) := pemalloc (Z.of_nat (length data)) (ht_persistent w) w in
  w ← memcpy p data w;
  match zend_hash_next_index_insert (ptr_zval (Some p)) w with
  | (None, w) => Some (None, pefree p (ht_persistent w) w)
  | (Some _, w) => Some (Some p, w)
  end.

(** *** Lookup of a pointer *)

Definition find_ptr w (zv : option place) : option (option loc) :=
  match zv with Some p => Z_PTR_NOT_NULL w p | None => Some None end.
Definition zend_hash_find_ptr w key := find_ptr w (zend_hash_find w key).
Definition zend_hash_find_ex_ptr w key (known_hash : bool) := find_ptr w (zend_hash_find_ex w key known_hash).
Definition zend_hash_str_find_ptr w str := find_ptr w (zend_hash_str_find w str).
Definition zend_hash_index_find_ptr w (h : Z) := find_ptr w (zend_hash_index_find w h).
Definition zend_symtable_str_find_ptr w str : option (option loc) :=
  match ZEND_HANDLE_NUMERIC_STR str with
  | Some idx => zend_hash_index_find_ptr w idx
  | None => zend_hash_str_find_ptr w str
  end.

(** [ZVAL_DEREF] of what was found, with the references of the counted heap. *)
Definition find_deref w (heap : zheap) (zv : option place) : option (option zval) :=
  match zv with
  | Some p => v ← deref w p; v ← ZVAL_DEREF v heap; Some (Some v)
  | None => Some None
  end.
Definition zend_hash_find_deref w heap key := find_deref w heap (zend_hash_find w key).
Definition zend_hash_str_find_deref w heap str := find_deref w heap (zend_hash_str_find w str).
Definition zend_hash_index_find_deref w heap (h : Z) := find_deref w heap (zend_hash_index_find w h).
End ptrs.
End Ptrs.
Export Ptrs.

(** ** What the functions of zend_hash.c promise *)

(** A table as a map from keys to values, and the blocks of memory. *)
Class HashView (W : Type) : Type := {
  contents : W → hkey → option zval;
  block_of : W → loc → option bytes }.

Section promises.
Context {W : Type} {funs : HashFunctions W} {view : HashView W}.
Implicit Types (w : W) (r : option place * W).

Definition same_table w w' : Prop := ∀ k, contents w' k = contents w k.
Definition same_blocks w w' : Prop := ∀ l, block_of w' l = block_of w l.

(** The key has the value, everything else is as it was. *)
Definition set_at (k : hkey) (v : zval) w w' : Prop :=
  contents w' k = Some v ∧ (∀ k', k' ≠ k → contents w' k' = contents w k') ∧ same_blocks w w'.
Definition written (k : hkey) (v : zval) w r : Prop := r.1 = Some (PElement k) ∧ set_at k v w r.2.

(** An addition refuses a key that is there. *)
Definition added (k : hkey) (v : zval) w r : Prop :=
  match contents w k with
  | Some _ => r = (None, w)
  | None => written k v w r
  end.
Definition deleted (k : hkey) w (r : Z * W) : Prop :=
  match contents w k with
  | Some _ => r.1 = SUCCESS ∧ contents r.2 k = None ∧ (∀ k', k' ≠ k → contents r.2 k' = contents w k')
              ∧ same_blocks w r.2
  | None => r = (FAILURE, w)
  end.

(** An optional minus sign and at least one digit. *)
Definition looks_numeric (key : bytes) : bool :=
  match key with
  | [] => false
  | c :: rest =>
      if uchar c =? ch_minus then match rest with d :: _ => forallb digit rest | [] => false end
      else forallb digit key
  end.
End promises.

(** The laws are those of a table without a destructor: an overwritten or deleted
    element releases nothing, as in tables of pointers that others own. *)
Class HashLaws (W : Type) {funs : HashFunctions W} {view : HashView W} : Prop := {
  deref_element w k : deref w (PElement k) = contents w k;
  find_law w key : zend_hash_find w key = (λ _, PElement (KStr key)) <$> contents w (KStr key);
  known_hash_law w key : zend_hash_find_known_hash w key = zend_hash_find w key;
  str_find_law w str : zend_hash_str_find w str = zend_hash_find w str;
  index_find_law w h : zend_hash_index_find w h = (λ _, PElement (KInt h)) <$> contents w (KInt h);
  update_law key v w : written (KStr key) v w (zend_hash_update key v w);
  str_update_law str v w : written (KStr str) v w (zend_hash_str_update str v w);
  index_update_law h v w : written (KInt h) v w (zend_hash_index_update h v w);
  add_law key v w : added (KStr key) v w (zend_hash_add key v w);
  str_add_law str v w : added (KStr str) v w (zend_hash_str_add str v w);
  index_add_law h v w : added (KInt h) v w (zend_hash_index_add h v w);
  (** these are called for keys that are not there *)
  add_new_law key v w : contents w (KStr key) = None → written (KStr key) v w (zend_hash_add_new key v w);
  index_add_new_law h v w : contents w (KInt h) = None → written (KInt h) v w (zend_hash_index_add_new h v w);
  del_law key w : deleted (KStr key) w (zend_hash_del key w);
  str_del_law str w : deleted (KStr str) w (zend_hash_str_del str w);
  index_del_law h w : deleted (KInt h) w (zend_hash_index_del h w);
  next_insert_law v w :
    let r := zend_hash_next_index_insert v w in
    r = (None, w) ∨ ∃ h, contents w (KInt h) = None ∧ written (KInt h) v w r;
  numeric_law key idx : _zend_handle_numeric_str_ex key = Some idx → looks_numeric key = true;
  store_law k v v0 w :
    contents w k = Some v0 → ∃ w', store (PElement k) v w = Some w' ∧ set_at k v w w';
  pemalloc_law n b w :
    let '(p, w') := pemalloc n b w in
    block_of w p = None ∧ same_table w w' ∧ (∃ junk, length junk = Z.to_nat n ∧ block_of w' p = Some junk) ∧
    (∀ l, l ≠ p → block_of w' l = block_of w l);
  memcpy_law p data old w :
    block_of w p = Some old → (length data ≤ length old)%nat →
    ∃ w', memcpy p data w = Some w' ∧ same_table w w' ∧
      block_of w' p = Some (data ++ drop (length data) old) ∧ (∀ l, l ≠ p → block_of w' l = block_of w l);
  pefree_law p b old w :
    block_of w p = Some old →
    let w' := pefree p b w in
    same_table w w' ∧ block_of w' p = None ∧ (∀ l, l ≠ p → block_of w' l = block_of w l) }.

(** ** Theorems *)
Section theorems.
Context {W : Type} {funs : HashFunctions W} {view : HashView W} {laws : HashLaws W}.
Implicit Types (w : W) (key str data : bytes).

Lemma digit_uchar b : digit b = true → ch_0 <= uchar b <= ch_9.
Proof. unfold digit, ZEND_IS_DIGIT. intros H. lia. Qed.

(** The first test on the characters, for either kind of [char]. *)
Lemma numeric_prefix (cv : byte → Z) key :
  cv = uchar ∨ cv = schar → looks_numeric key = true →
  char_at cv key 0 <= ch_9 ∧
  (char_at cv key 0 < ch_0 → char_at cv key 0 = ch_minus ∧ ch_0 <= char_at cv key 1 <= ch_9).
Proof.
  intros Hcv. assert (Hsmall : ∀ b, uchar b < 128 → cv b = uchar b).
  { intros b Hb. destruct Hcv as [-> | ->]; [done|]. unfold schar. by rewrite (proj2 (Z.ltb_lt _ _)). }
  destruct key as [|c rest]; [done|]. simpl. unfold char_at. simpl.
  destruct (Z.eqb_spec (uchar c) ch_minus) as [Hc|Hc].
  - destruct rest as [|d rest]; [done|]. intros H. simpl in H |- *. apply andb_prop in H as [Hd%digit_uchar _].
    unfold ch_minus, ch_0, ch_9 in *. rewrite !Hsmall by lia. lia.
  - intros H. apply andb_prop in H as [Hd%digit_uchar _]. unfold ch_minus, ch_0, ch_9 in *.
    rewrite !Hsmall by lia. lia.
Qed.

Lemma numeric_fast_spec cv key :
  cv = uchar ∨ cv = schar → _zend_handle_numeric_str cv key = _zend_handle_numeric_str_ex key.
Proof using laws.
  intros Hcv. destruct (_zend_handle_numeric_str_ex key) as [idx|] eqn:Hex.
  - destruct (numeric_prefix cv key Hcv (numeric_law _ _ Hex)) as [H9 H0].
    unfold _zend_handle_numeric_str. rewrite Hex, (proj2 (Z.ltb_ge _ _)) by lia.
    destruct (Z.ltb_spec (char_at cv key 0) ch_0) as [Hlt|]; [|done].
    destruct (H0 Hlt) as [-> Hd]. rewrite Z.eqb_refl. simpl.
    by rewrite !(proj2 (Z.ltb_ge _ _)) by lia.
  - unfold _zend_handle_numeric_str. rewrite Hex. repeat case_match; done.
Qed.

(** The test of the first characters before a key is parsed as an integer
    rejects no key that the full test accepts, whether [char] is signed or
    unsigned: both targets treat the same strings as integer keys. *)
Theorem numeric_fast_path key :
  _zend_handle_numeric_str uchar key = _zend_handle_numeric_str_ex key ∧
  _zend_handle_numeric_str schar key = _zend_handle_numeric_str_ex key.
Proof using laws. split; apply numeric_fast_spec; auto. Qed.

(** The key PHP code sees: "12" is the integer 12. *)
Definition php_key key : hkey :=
  match _zend_handle_numeric_str_ex key with Some idx => KInt idx | None => KStr key end.

Lemma handle_numeric key : ZEND_HANDLE_NUMERIC key = _zend_handle_numeric_str_ex key.
Proof using laws. apply numeric_fast_spec. by left. Qed.
Lemma handle_numeric_str key : ZEND_HANDLE_NUMERIC_STR key = _zend_handle_numeric_str_ex key.
Proof using laws. apply numeric_fast_spec. by left. Qed.

Lemma exists_fmap (k : hkey) (o : option zval) :
  bool_decide (is_Some ((λ _, PElement k) <$> o)) = bool_decide (is_Some o).
Proof. by destruct o. Qed.

(** C35: The symbol-table functions are the map operations at the normalised key:
    a lookup, a test, an update, an addition of a new key and a deletion of a
    string key act on the integer element exactly when the string is numeric,
    leave every other key alone, and the variants for C strings do the same as
    those for zend_strings. *)
Theorem symtable_refines w key v :
  let k := php_key key in
  zend_symtable_find w key = (λ _, PElement k) <$> contents w k ∧
  zend_symtable_str_find w key = zend_symtable_find w key ∧
  zend_symtable_exists w key = bool_decide (is_Some (contents w k)) ∧
  zend_symtable_str_exists w key = zend_symtable_exists w key ∧
  written k v w (zend_symtable_update key v w) ∧
  written k v w (zend_symtable_str_update key v w) ∧
  (contents w k = None → written k v w (zend_symtable_add_new key v w)) ∧
  deleted k w (zend_symtable_del key w) ∧ deleted k w (zend_symtable_str_del key w).
Proof using laws.
  unfold php_key, zend_symtable_find, zend_symtable_str_find, zend_symtable_exists, zend_symtable_str_exists,
    zend_symtable_update, zend_symtable_str_update, zend_symtable_add_new, zend_symtable_del, zend_symtable_str_del,
    zend_hash_index_exists, zend_hash_exists, zend_hash_str_exists.
  rewrite handle_numeric, handle_numeric_str.
  destruct (_zend_handle_numeric_str_ex key) as [idx|]; cbv zeta;
    rewrite ?str_find_law, ?find_law, ?index_find_law, ?exists_fmap; split_and!; try done;
    auto using update_law, str_update_law, index_update_law, add_new_law, index_add_new_law, del_law, str_del_law,
      index_del_law.
Qed.

(** *** Indirect values *)

Lemma exists_unwrap w zv : exists_ind w zv = (λ r, bool_decide (is_Some r)) <$> unwrap_ind w zv.
Proof.
  destruct zv as [p|]; simpl; [|done]. destruct (deref w p) as [v|]; simpl; [|done].
  destruct (zval_get_type v =? IS_INDIRECT); simpl; [|done].
  destruct (Z_INDIRECT_P v) as [t|]; simpl; [|done]. destruct (deref w t) as [tv|]; simpl; [|done].
  by destruct (zval_get_type tv =? IS_UNDEF).
Qed.

(** The existence tests that look through indirect values agree with the
    lookups that do: true exactly when the lookup gives a place, for zend_string
    and C string keys and in symbol tables; without indirect values they are the
    plain test. *)
Theorem indirect_tests_agree w key :
  let found := fmap (λ r : option place, bool_decide (is_Some r)) in
  zend_hash_exists_ind w key = found (zend_hash_find_ind w key) ∧
  zend_hash_str_exists_ind w key = found (zend_hash_str_find_ind w key) ∧
  zend_symtable_exists_ind w key = found (zend_symtable_find_ind w key) ∧
  (∀ v, contents w (KStr key) = Some v → zval_get_type v ≠ IS_INDIRECT →
     zend_hash_find_ind w key = Some (zend_hash_find w key) ∧
     zend_hash_exists_ind w key = Some (zend_hash_exists w key)).
Proof using laws.
  cbv zeta. split_and!; [apply exists_unwrap..| |].
  - unfold zend_symtable_exists_ind, zend_symtable_find_ind. destruct (ZEND_HANDLE_NUMERIC key); [done|].
    apply exists_unwrap.
  - intros v Hv Ht. unfold zend_hash_exists_ind. rewrite exists_unwrap. unfold zend_hash_find_ind, zend_hash_exists.
    rewrite find_law, Hv. cbn [fmap option_fmap option_map unwrap_ind]. rewrite deref_element, Hv.
    cbn [mbind option_bind]. by rewrite (proj2 (Z.eqb_neq _ _)).
Qed.

(** *** Pointers *)

Lemma written_ptr k p w r :
  written k (ptr_zval (Some p)) w r → ptr_or_null r = Some (Some p, r.2) ∧ ptr_of r = Some (Some p, r.2) ∧
  ptr_if r = Some (Some p, r.2).
Proof using laws.
  destruct r as [o w']. intros [Ho (Hk&_)]. simpl in *. subst.
  unfold Z_PTR_NOT_NULL, Z_PTR_P. rewrite deref_element, Hk. done.
Qed.

(** A pointer is found under a key. *)
Definition points_to w (k : hkey) (p : loc) : Prop := ∃ v, contents w k = Some v ∧ z_value v = VPtr (Some p).

Lemma points_to_find w key p :
  points_to w (KStr key) p →
  zend_hash_find_ptr w key = Some (Some p) ∧ zend_hash_str_find_ptr w key = Some (Some p) ∧
  zend_hash_find_ex_ptr w key true = Some (Some p).
Proof using laws.
  intros (v&Hv&Hp). unfold zend_hash_find_ptr, zend_hash_str_find_ptr, zend_hash_find_ex_ptr, zend_hash_find_ex.
  rewrite known_hash_law, str_find_law, find_law, Hv. unfold find_ptr, Z_PTR_NOT_NULL, Z_PTR_P. simpl.
  rewrite deref_element, Hv. simpl. by rewrite Hp.
Qed.

Lemma points_to_find_index w h p : points_to w (KInt h) p → zend_hash_index_find_ptr w h = Some (Some p).
Proof using laws.
  intros (v&Hv&Hp). unfold zend_hash_index_find_ptr. rewrite index_find_law, Hv.
  unfold find_ptr, Z_PTR_NOT_NULL, Z_PTR_P. simpl. rewrite deref_element, Hv. simpl. by rewrite Hp.
Qed.

Lemma set_points_to k v p w w' : set_at k v w w' → z_value v = VPtr (Some p) → points_to w' k p.
Proof. intros (Hk&_) Hp. by exists v. Qed.

(** A pointer stored with an update is what every lookup of the key gives
    afterwards, other keys are untouched; an addition stores it when the key is new
    and returns NULL without a change when the key is there. *)
Theorem ptr_elements key h p w :
  (∃ w', zend_hash_update_ptr key (Some p) w = Some (Some p, w') ∧ set_at (KStr key) (ptr_zval (Some p)) w w' ∧
     zend_hash_find_ptr w' key = Some (Some p) ∧ zend_hash_str_find_ptr w' key = Some (Some p)) ∧
  (∃ w', zend_hash_index_update_ptr h (Some p) w = Some (Some p, w') ∧ set_at (KInt h) (ptr_zval (Some p)) w w' ∧
     zend_hash_index_find_ptr w' h = Some (Some p)) ∧
  match contents w (KStr key) with
  | Some _ => zend_hash_add_ptr key (Some p) w = Some (None, w)
  | None => ∃ w', zend_hash_add_ptr key (Some p) w = Some (Some p, w') ∧
      set_at (KStr key) (ptr_zval (Some p)) w w' ∧ zend_hash_find_ptr w' key = Some (Some p)
  end.
Proof using laws.
  split_and!.
  - pose proof (update_law key (ptr_zval (Some p)) w) as Hw. exists (zend_hash_update key (ptr_zval (Some p)) w).2.
    destruct (written_ptr _ _ _ _ Hw) as (_&Hptr&_). destruct Hw as [_ Hset].
    destruct (points_to_find _ key p (set_points_to _ _ p _ _ Hset eq_refl)) as (?&?&_). done.
  - pose proof (index_update_law h (ptr_zval (Some p)) w) as Hw.
    exists (zend_hash_index_update h (ptr_zval (Some p)) w).2.
    destruct (written_ptr _ _ _ _ Hw) as (_&Hptr&_). destruct Hw as [_ Hset].
    split_and!; [done..|]. apply points_to_find_index. by eapply set_points_to.
  - pose proof (add_law key (ptr_zval (Some p)) w) as Hw. unfold added, zend_hash_add_ptr in *.
    destruct (contents w (KStr key)); [by rewrite Hw|].
    exists (zend_hash_add key (ptr_zval (Some p)) w).2. destruct (written_ptr _ _ _ _ Hw) as (Hptr&_).
    destruct Hw as [_ Hset]. split_and!; [done..|]. apply points_to_find. by eapply set_points_to.
Qed.

(** *** Copies of a block *)

(** [p] is a new block with the bytes [data], and nothing else was allocated. *)
Definition copied data (p : loc) w w' : Prop :=
  block_of w p = None ∧ block_of w' p = Some data ∧ ∀ l, l ≠ p → block_of w' l = block_of w l.

Lemma alloc_copy b data w :
  ∃ p w1 w2, pemalloc (Z.of_nat (length data)) b w = (p, w1) ∧ memcpy p data w1 = Some w2 ∧
    same_table w w2 ∧ copied data p w w2.
Proof using laws.
  pose proof (pemalloc_law (Z.of_nat (length data)) b w) as Hm.
  destruct (pemalloc (Z.of_nat (length data)) b w) as [p w1]. destruct Hm as (Hn&Ht&(junk&Hj&Hb)&Ho).
  rewrite Nat2Z.id in Hj. destruct (memcpy_law p data junk w1 Hb) as (w2&Hc&Ht2&Hb2&Ho2); [lia|].
  exists p, w1, w2. rewrite <- Hj, drop_all, app_nil_r in Hb2. split_and!; [done|done| |split_and!; [done|done|]].
  - intros k. by rewrite Ht2.
  - intros l Hl. by rewrite Ho2, Ho.
Qed.

Lemma copied_then w w1 w2 data p : copied data p w w1 → same_blocks w1 w2 → copied data p w w2.
Proof. intros (Hn&Hb&Ho) Hs. split_and!; [done|by rewrite Hs|]. intros l Hl. rewrite Hs. by apply Ho. Qed.

(** The element was added with a null pointer; the block is filled in. *)
Lemma fill_mem_ok k data w r :
  written k (ptr_zval None) w r →
  ∃ p w', fill_mem data r = Some (Some p, w') ∧ points_to w' k p ∧ copied data p w w' ∧
    ∀ k', k' ≠ k → contents w' k' = contents w k'.
Proof using laws.
  destruct r as [o w0]. intros [Ho (Hk&Hother&Hbl)]. simpl in *. subst. 
  pose proof (pemalloc_law (Z.of_nat (length data)) (ht_persistent w0) w0) as Hm.
  destruct (pemalloc (Z.of_nat (length data)) (ht_persistent w0) w0) as [p w1].
  destruct Hm as (Hn&Ht&(junk&Hj&Hb)&Hob). rewrite Nat2Z.id in Hj.
  assert (Hk1 : contents w1 k = Some (ptr_zval None)) by by rewrite Ht.
  rewrite deref_element, Hk1. simpl.
  destruct (store_law k (Zval (VPtr (Some p)) IS_PTR 0) _ w1 Hk1) as (w2&Hst&Hk2&Ho2&Hb2).
  change (Zval (VPtr (Some p)) (Z_TYPE_INFO (ptr_zval None)) (Z_EXTRA (ptr_zval None)))
    with (Zval (VPtr (Some p)) IS_PTR 0). rewrite Hst. simpl.
  destruct (memcpy_law p data junk w2) as (w3&Hc&Ht3&Hb3&Ho3); [by rewrite Hb2|lia|]. rewrite Hc. simpl.
  rewrite <- Hj, drop_all, app_nil_r in Hb3. exists p, w3. split_and!; [done| |split_and!; [by rewrite <- Hbl|done|]|].
  - exists (Zval (VPtr (Some p)) IS_PTR 0). by rewrite Ht3.
  - intros l Hl. by rewrite Ho3, Hb2, Hob, Hbl.
  - intros k' Hk'. by rewrite Ht3, Ho2, Ht, Hother.
Qed.

(** A copy stored with zend_hash_update_mem is a new block with exactly the
    bytes given, reachable by the lookup of its key; zend_hash_add_mem allocates
    only for a new key; zend_hash_next_index_insert_mem frees its block again when
    the table has no index left. *)
Theorem mem_elements key data w :
  (∃ p w', zend_hash_update_mem key data w = Some (Some p, w') ∧ copied data p w w' ∧
     zend_hash_find_ptr w' key = Some (Some p) ∧ ∀ k', k' ≠ KStr key → contents w' k' = contents w k') ∧
  match contents w (KStr key) with
  | Some _ => zend_hash_add_mem key data w = Some (None, w)
  | None => ∃ p w', zend_hash_add_mem key data w = Some (Some p, w') ∧ copied data p w w' ∧
      zend_hash_find_ptr w' key = Some (Some p) ∧ ∀ k', k' ≠ KStr key → contents w' k' = contents w k'
  end ∧
  ∃ r w', zend_hash_next_index_insert_mem data w = Some (r, w') ∧
    match r with
    | None => same_table w w' ∧ same_blocks w w'
    | Some p => copied data p w w' ∧ ∃ h, contents w (KInt h) = None ∧ zend_hash_index_find_ptr w' h = Some (Some p)
    end.
Proof using laws.
  split_and!.
  - destruct (alloc_copy (ht_persistent w) data w) as (p&w1&w2&Hm&Hc&Ht&Hcop). unfold zend_hash_update_mem.
    rewrite Hm, Hc. simpl. pose proof (update_law key (ptr_zval (Some p)) w2) as Hw.
    destruct (written_ptr _ _ _ _ Hw) as (_&Hptr&_). destruct Hw as [_ Hset].
    unfold zend_hash_update_ptr. rewrite Hptr. eexists _, _. split; [done|]. split_and!.
    + eapply copied_then; [done|apply Hset].
    + apply points_to_find. by eapply set_points_to.
    + intros k' Hk'. destruct Hset as (_&Ho&_). by rewrite Ho.
  - pose proof (add_law key (ptr_zval None) w) as Hw. unfold added, zend_hash_add_mem in *.
    destruct (contents w (KStr key)); [by rewrite Hw|].
    destruct (fill_mem_ok _ data _ _ Hw) as (p&w'&Hf&Hp&Hcop&Ho). exists p, w'. split_and!; [done..| |done].
    by apply points_to_find.
  - destruct (alloc_copy (ht_persistent w) data w) as (p&w1&w2&Hm&Hc&Ht&Hcop). unfold zend_hash_next_index_insert_mem.
    rewrite Hm, Hc. simpl. destruct (next_insert_law (ptr_zval (Some p)) w2) as [Hr|(h&Hn&Hw)]; [rewrite Hr|].
    + eexists None, _. split; [done|]. destruct Hcop as (Hn&Hb&Ho).
      destruct (pefree_law p (ht_persistent w2) data w2 Hb) as (Ht3&Hb3&Ho3). split.
      * intros k. by rewrite Ht3.
      * intros l. destruct (decide (l = p)) as [->|Hl]; [by rewrite Hb3|by rewrite Ho3, Ho].
    + pose proof (written_ptr _ _ _ _ Hw) as _. destruct Hw as [Hr Hset].
      destruct (zend_hash_next_index_insert (ptr_zval (Some p)) w2) as [o w3]. simpl in *. subst.
      exists (Some p), w3. split; [done|]. split; [eapply copied_then; [done|apply Hset]|].
      exists h. rewrite <- Ht. split; [done|]. apply points_to_find_index. by eapply set_points_to.
Qed.
End theorems.
