(* ===== verification/ZendHashWitnesses.v ===== *)
(** * The hash tables on concrete values

    Concrete packed and mixed tables, and a small model of the functions of
    zend_hash.c over a finite map, at which the properties of the hash tables and
    the symbol tables apply. *)

From S2P Require Import Prelude ZendTypes ZendString ZendOperators ZendHash ZendHashLinks ZendSymtable.
Import HashLayout.

(** ** Tables *)

Definition long (n : Z) : zval := ZVAL_LONG zval_uninit n.

(** The list [10, -, 30] with a hole, in a packed table for eight values. *)
Definition packed3 : HashTable :=
  Table HASH_FLAG_PACKED HT_MIN_MASK [] (ArPacked ([long 10; zval_uninit; long 30] ++ replicate 5 zval_uninit))
    3 2 8 0 3.
Definition packed3_values : list zval := [long 10; zval_uninit; long 30] ++ replicate 5 zval_uninit.

Lemma packed3_shape : shape_ok packed3.
Proof. split; [|by vm_compute]. by split; vm_compute. Qed.

Lemma foreach_visits_witness :
  ZEND_HASH_FOREACH_FROM packed3 false ∅ 1 (λ e s, Next (e_h e :: s)) [] = Some (Next [2]) ∧
  ZEND_HASH_FOREACH_VAL packed3 (λ e s, Next (z_value (e_val e) :: s)) [] = Some (Next [VLval 30; VLval 10]).
Proof.
  split.
  - destruct (foreach_visits packed3 false ∅ 1 (λ e s, Next (e_h e :: s)) [] packed3_shape) as (_&H&_);
      [exact I|by vm_compute|exact H].
  - destruct (foreach_visits packed3 false ∅ 1 (λ e s, Next (z_value (e_val e) :: s)) [] packed3_shape)
      as (_&_&_&_&_&H&_); [exact I|by vm_compute|exact H].
Defined.

Lemma array_is_list_witness :
  ∃ b, zend_array_is_list packed3 = Some b ∧ (b = true ↔ keys_from 0 (List.filter live (visible packed3 false ∅))).
Proof. apply (array_is_list packed3 packed3_shape). reflexivity. Defined.

(** A growth that doubles the values. *)
Definition grow_twice (ht : HashTable) : HashTable :=
  match ht_ar ht with
  | ArPacked zs => Table (HT_FLAGS ht) (nTableMask ht) (arHash ht) (ArPacked (zs ++ replicate (length zs) zval_uninit))
                     (nNumUsed ht) (nNumOfElements ht) (2 * nTableSize ht) (nInternalPointer ht) (nNextFreeElement ht)
  | ArData _ => ht
  end.
Lemma grow_twice_grows : grows grow_twice.
Proof.
  intros ht zs (_&Ha&_) _. exists (replicate (length zs) zval_uninit). split; [apply length_replicate|].
  unfold grow_twice. by rewrite Ha.
Qed.

Lemma fill_appends_witness :
  ∃ f f', ZEND_HASH_FILL_PACKED packed3 = Some f ∧ fill_growing grow_twice f (long <$> [1; 2; 3; 4; 5; 6; 7]) = Some f' ∧
    appended packed3 (long <$> [1; 2; 3; 4; 5; 6; 7]) (ZEND_HASH_FILL_FINISH f').
Proof.
  destruct (fill_appends packed3 packed3_values (long <$> [1; 2; 3; 4; 5; 6; 7]) grow_twice) as [_ H].
  - split_and!; [exact packed3_shape|done..].
  - by repeat constructor.
  - exact grow_twice_grows.
  - apply H; by vm_compute.
Defined.

(** *** Mixed tables *)

Definition free_bucket : Bucket := Bkt zval_uninit 0 None.
(** An empty mixed table for eight elements. *)
Definition mixed0 : HashTable :=
  Table 0 (HT_SIZE_TO_MASK 8) (replicate 16 HT_INVALID_IDX) (ArData (replicate 8 free_bucket)) 0 0 8 0 0.
(** Two elements with the hashes 5 and 21, in one chain, the second first. *)
Definition pair2 : list Bucket :=
  [Bkt (Zval (VLval 1) IS_LONG HT_INVALID_IDX) 5 None; Bkt (Zval (VLval 2) IS_LONG 0) 21 None]
  ++ replicate 6 free_bucket.
Definition mixed2 : HashTable :=
  Table 0 (HT_SIZE_TO_MASK 8) (<[5%nat := 1]> (replicate 16 HT_INVALID_IDX)) (ArData pair2) 2 2 8 0 22.

Lemma table_8 : table_size 8.
Proof. exists 3. split; [lia|done]. Qed.

Lemma mixed0_ok : mixed_ok mixed0 (replicate 8 free_bucket).
Proof. split_and!; [|done|exact table_8|done..]. split; [by split; vm_compute|by vm_compute]. Qed.
Lemma mixed0_chains : chains_ok mixed0 (replicate 8 free_bucket).
Proof.
  intros k v Hv. apply lookup_replicate in Hv as [-> _]. exists []. split_and!; [constructor|constructor|].
  intros i. split; [by intros ?%not_elem_of_nil|]. intros [Hi _]. vm_compute in Hi. lia.
Qed.

Lemma mixed2_ok : mixed_ok mixed2 pair2.
Proof. split_and!; [|done|exact table_8|done..]. split; [by split; vm_compute|by vm_compute]. Qed.
Lemma mixed2_chains : chains_ok mixed2 pair2.
Proof.
  assert (Hmem : ∀ k i, member mixed2 pair2 k i ↔ k = 5%nat ∧ (i = 0%nat ∨ i = 1%nat)).
  { intros k i. unfold member. change (Z.to_nat (nNumUsed mixed2)) with 2%nat. split.
    - intros [Hi (b&Hb&_&Hh)]. destruct i as [|[|i]]; [..|lia]; injection Hb as <-; vm_compute in Hh; auto.
    - intros [-> [-> | ->]]; (split; [lia|]);
        (eexists; split; [reflexivity|]; split; [reflexivity|vm_compute; reflexivity]). }
  intros k v Hv. change (arHash mixed2) with (<[5%nat := 1]> (replicate 16 HT_INVALID_IDX)) in Hv.
  destruct (decide (k = 5%nat)) as [->|Hk].
  - injection Hv as <-. exists [1; 0]%nat. split_and!.
    + refine (links_next pair2 1 (Bkt (Zval (VLval 2) IS_LONG 0) 21 None) _ eq_refl _).
      refine (links_next pair2 0 (Bkt (Zval (VLval 1) IS_LONG HT_INVALID_IDX) 5 None) _ eq_refl _). constructor.
    + repeat constructor; set_solver.
    + intros i. rewrite Hmem, !elem_of_cons, elem_of_nil. naive_solver.
  - rewrite list_lookup_insert_ne in Hv by done. apply lookup_replicate in Hv as [-> _].
    exists []. split_and!; [constructor|constructor|]. intros i. rewrite Hmem, elem_of_nil. naive_solver.
Qed.

(** A hash function that gives words; what it computes does not matter. *)
Definition length_hash (bs : bytes) : Z := u64 (Z.of_nat (length bs)).
Lemma length_hash_word bs : in_u64 (length_hash bs).
Proof. apply u64_range. Qed.

Definition key_heap : zheap := {[3%positive := with_refcount (new_string (lit "ab") false) 1]}.
Lemma key_heap_ok : key_ok length_hash 3 false 2 key_heap.
Proof.
  exists (with_refcount (new_string (lit "ab") false) 1). do 3 eexists.
  split; [done|]. split; [done|]. split; [done|]. split; [by vm_compute|]. split; [by vm_compute|].
  simpl. exists (lit "ab"). done.
Qed.

Lemma hash_append_links_witness :
  ∃ ht' heap', _zend_hash_append_ex length_hash mixed0 3 (long 7) false key_heap = Some (0, ht', heap') ∧
    linked_in mixed0 2 3 (payload (long 7)) ht' ∧ key_taken 3 false 2 key_heap heap'.
Proof.
  destruct (hash_append_links length_hash length_hash_word 3 false 2 false mixed0 (replicate 8 free_bucket) key_heap
              (long 7) None) as [H _]; [exact mixed0_ok|exact mixed0_chains|by vm_compute|by vm_compute|
                exact key_heap_ok|done|done|].
  exact H.
Defined.

(** The body collects hashes and stops at the first element. *)
Definition until_5 (e : entry) (s : list Z) : control (list Z) := if e_h e =? 5 then Break s else Next (e_h e :: s).

Lemma foreach_end_del_witness :
  ∃ ht' bs', ZEND_HASH_MAP_REVERSE_FOREACH_DEL until_5 mixed2 [] = Some (ht', Break [21]) ∧
    mixed_ok ht' bs' ∧ chains_ok ht' bs' ∧ elements_ok ht' ∧ 0 <= nNumUsed ht' <= 2.
Proof.
  destruct (foreach_end_del until_5 mixed2 pair2 [] mixed2_ok mixed2_chains) as (ht'&bs'&Hr&Hok&Hch&Hel&Hu&_).
  - reflexivity.
  - intros e e' s Hh _ _. unfold until_5. by rewrite Hh.
  - exists ht', bs'. split_and!; [exact Hr|exact Hok|exact Hch|exact Hel|apply Hu|apply Hu].
Defined.

(** ** A model of the functions of zend_hash.c *)
Module ModelTable.

(** The elements, the largest index so far, the blocks of memory, and the values
    that indirect elements point to. *)
Record mtable : Type := MTable {
  m_elements : hkey → option zval;
  m_next : Z;
  m_blocks : gmap loc bytes;
  m_slots : gmap loc zval }.

Definition put (k : hkey) (v : option zval) (w : mtable) : mtable :=
  MTable (λ k', if decide (k' = k) then v else m_elements w k') (m_next w) (m_blocks w) (m_slots w).
Definition with_blocks (b : gmap loc bytes) (w : mtable) : mtable :=
  MTable (m_elements w) (m_next w) b (m_slots w).

Definition find (w : mtable) (k : hkey) : option place := (λ _, PElement k) <$> m_elements w k.
Definition update (k : hkey) (v : zval) (w : mtable) : option place * mtable := (Some (PElement k), put k (Some v) w).
Definition add (k : hkey) (v : zval) (w : mtable) : option place * mtable :=
  match m_elements w k with Some _ => (None, w) | None => update k v w end.
Definition del (k : hkey) (w : mtable) : Z * mtable :=
  match m_elements w k with Some _ => (SUCCESS, put k None w) | None => (FAILURE, w) end.

(** The next index, unless it is taken or too large. *)
Definition insert_next (v : zval) (w : mtable) : option place * mtable :=
  if m_next w <? 2 ^ 63 then add (KInt (m_next w)) v w else (None, w).

(** Canonical decimal integers in the range of a [zend_long]. *)
Definition numeric (key : bytes) : option Z :=
  match key with
  | [] => None
  | c :: ds =>
      if uchar c =? ch_minus then
        if canonical ds && (0 <? dec_value ds) && (dec_value ds <=? 2 ^ 63) then Some (u64 (- dec_value ds)) else None
      else if canonical key && (dec_value key <? 2 ^ 63) then Some (dec_value key) else None
  end.

#[global] Instance model_functions : HashFunctions mtable := {
  deref w p := match p with PElement k => m_elements w k | PMemory l => m_slots w !! l end;
  store p v w :=
    match p with
    | PElement k => Some (put k (Some v) w)
    | PMemory l => Some (MTable (m_elements w) (m_next w) (m_blocks w) (<[l := v]> (m_slots w)))
    end;
  ht_persistent _ := false;
  zend_hash_find w key := find w (KStr key);
  zend_hash_find_known_hash w key := find w (KStr key);
  zend_hash_str_find w key := find w (KStr key);
  zend_hash_index_find w h := find w (KInt h);
  zend_hash_add key := add (KStr key);
  zend_hash_add_new key := update (KStr key);
  zend_hash_update key := update (KStr key);
  zend_hash_update_ind key := update (KStr key);
  zend_hash_str_add key := add (KStr key);
  zend_hash_str_add_new key := update (KStr key);
  zend_hash_str_update key := update (KStr key);
  zend_hash_str_update_ind key := update (KStr key);
  zend_hash_index_add h := add (KInt h);
  zend_hash_index_add_new h := update (KInt h);
  zend_hash_index_update h := update (KInt h);
  zend_hash_next_index_insert := insert_next;
  zend_hash_del key := del (KStr key);
  zend_hash_del_ind key := del (KStr key);
  zend_hash_str_del key := del (KStr key);
  zend_hash_str_del_ind key := del (KStr key);
  zend_hash_index_del h := del (KInt h);
  _zend_handle_numeric_str_ex := numeric;
  pemalloc n _ w :=
    let p := fresh (dom (m_blocks w)) in (p, with_blocks (<[p := replicate (Z.to_nat n) NUL]> (m_blocks w)) w);
  memcpy p data w :=
    old ← m_blocks w !! p;
    if (length data <=? length old)%nat then
      Some (with_blocks (<[p := data ++ drop (length data) old]> (m_blocks w)) w)
    else None;
  pefree p _ w := with_blocks (base.delete p (m_blocks w)) w }.

#[global] Instance model_view : HashView mtable := {
  contents w k := m_elements w k;
  block_of w l := m_blocks w !! l }.

Lemma put_set k v w : set_at k v w (put k (Some v) w).
Proof.
  split_and!; simpl; [by rewrite decide_True| |done]. intros k' Hk. by rewrite decide_False.
Qed.
Lemma update_written k v w : written k v w (update k v w).
Proof. split; [done|]. apply put_set. Qed.
Lemma add_added k v w : added k v w (add k v w).
Proof. unfold added, add. simpl. destruct (m_elements w k); [done|]. apply update_written. Qed.
Lemma del_deleted k w : deleted k w (del k w).
Proof.
  unfold deleted, del. simpl. destruct (m_elements w k); [|done]. simpl. split_and!; [done|by rewrite decide_True| |done].
  intros k' Hk. by rewrite decide_False.
Qed.
Lemma numeric_looks key idx : numeric key = Some idx → looks_numeric key = true.
Proof.
  unfold numeric, looks_numeric, canonical. destruct key as [|c ds]; [done|].
  destruct (uchar c =? ch_minus).
  - destruct (forallb digit ds); [|done]. by destruct ds.
  - by destruct (forallb digit (c :: ds)).
Qed.

#[global] Instance model_laws : HashLaws mtable.
Proof.
  split; try done; try (intros; apply update_written); try (intros; apply add_added); try (intros; apply del_deleted).
  - intros v w. unfold insert_next. simpl. unfold insert_next. destruct (m_next w <? 2 ^ 63); [|by left].
    unfold add. destruct (m_elements w (KInt (m_next w))) eqn:He; [by left|]. right. exists (m_next w).
    split; [done|apply update_written].
  - intros key idx. apply numeric_looks.
  - intros k v v0 w _. eexists. split; [done|apply put_set].
  - intros n b w. simpl. set (p := fresh (dom (m_blocks w))).
    assert (m_blocks w !! p = None) by (apply not_elem_of_dom, is_fresh).
    split_and!; [done|done| |].
    + eexists. split; [|by rewrite lookup_insert_eq]. apply length_replicate.
    + intros l Hl. by rewrite lookup_insert_ne.
  - intros p data old w Hp Hlen. simpl in *. rewrite Hp. cbn [mbind option_bind].
    rewrite (proj2 (Nat.leb_le _ _)) by done. eexists. split; [done|]. split_and!; [done|by simpl; rewrite lookup_insert_eq|].
    intros l Hl. simpl. by rewrite lookup_insert_ne.
  - intros p b old w Hp. simpl in *. split_and!; [done|by rewrite lookup_delete_eq|].
    intros l Hl. by rewrite lookup_delete_ne.
Qed.

(** A symbol table with an integer, a string and an indirect element. *)
Definition symbols : mtable :=
  put (KStr (lit "x")) (Some (Zval (VPtr (Some 9%positive)) IS_INDIRECT 0))
    (put (KInt 12) (Some (long 5)) (MTable (λ _, None) 13 ∅ {[9%positive := long 6]})).
End ModelTable.
Import ModelTable.

Lemma numeric_fast_path_witness :
  _zend_handle_numeric_str uchar (lit "-42") = Some (u64 (-42)) ∧
  _zend_handle_numeric_str schar (lit "042") = None.
Proof.
  split; [exact (proj1 (numeric_fast_path (lit "-42")))|exact (proj2 (numeric_fast_path (lit "042")))].
Defined.

Lemma symtable_refines_witness :
  zend_symtable_find symbols (lit "12") = Some (PElement (KInt 12)) ∧
  written (KInt 12) (long 8) symbols (zend_symtable_update (lit "12") (long 8) symbols) ∧
  deleted (KStr (lit "012")) symbols (zend_symtable_del (lit "012") symbols).
Proof.
  destruct (symtable_refines symbols (lit "12") (long 8)) as (Hf&_&_&_&Hu&_).
  destruct (symtable_refines symbols (lit "012") (long 8)) as (_&_&_&_&_&_&_&Hd&_).
  split_and!; [exact Hf|exact Hu|exact Hd].
Defined.

Lemma indirect_tests_witness :
  zend_symtable_exists_ind symbols (lit "x") = Some true ∧
  zend_hash_find_ind symbols (lit "x") = Some (Some (PMemory 9)).
Proof.
  destruct (indirect_tests_agree symbols (lit "x")) as (_&_&H&_). split; [exact H|reflexivity].
Defined.

Lemma ptr_elements_witness :
  ∃ w', zend_hash_update_ptr (lit "k") (Some 4%positive) symbols = Some (Some 4%positive, w') ∧
    zend_hash_find_ptr w' (lit "k") = Some (Some 4%positive).
Proof.
  destruct (ptr_elements (lit "k") 3 4 symbols) as ((w'&Hu&_&Hf&_)&_&_).
  exists w'. split; [exact Hu|exact Hf].
Defined.

Lemma mem_elements_witness :
  ∃ p w', zend_hash_update_mem (lit "k") (lit "abc") symbols = Some (Some p, w') ∧
    copied (lit "abc") p symbols w' ∧ zend_hash_find_ptr w' (lit "k") = Some (Some p).
Proof.
  destruct (mem_elements (lit "k") (lit "abc") symbols) as ((p&w'&Hu&Hc&Hf&_)&_&_).
  exists p, w'. split_and!; [exact Hu|exact Hc|exact Hf].
Defined.
