(* ===== verification/Engine.v ===== *)
(** * The engine behind the C boundary

    The part of the PHP engine that native/pam_php.c sees: the counted heap, the
    open streams, the constants, the SAPI and executor globals. The functions of
    the engine library that the C file calls are not in the repository; they are
    the fields of the class [ZendEngine], over a private state [E] nothing here
    looks into. What the C file relies on is stated once, in [EngineLaws], as
    ownership: who holds each reference of a counted value and each open stream. *)

From S2P Require Import Prelude ZendTypes ZendArith ZendString.

(** ** State *)

(** [struct _php_stream] (main/php_streams.h): the fields the C file touches, and
    the bytes a reader of the stream gets. *)
Record php_stream : Type := Stream {
  stream_res : loc; stream_flags : Z; stream_exposed : bool; stream_data : bytes }.

(** [sapi_globals_struct] with its [request_info] and [sapi_headers]
    (main/SAPI.h). *)
Record sapi_globals : Type := SapiGlobals {
  sg_headers : list bytes;
  http_response_code : Z;
  send_default_content_type : Z;
  headers_sent : Z;
  request_body : option loc;
  sg_argc : Z;
  sg_argv : list bytes;
  no_headers : Z;
  sg_options : Z }.

(** [struct _sapi_module_struct] (main/SAPI.h): the fields pam_php.c assigns. *)
Record sapi_module_struct : Type := SapiModule {
  sm_name : bytes;
  sm_pretty_name : bytes;
  sm_executable_location : option bytes;
  sm_php_ini_ignore : Z;
  sm_php_ini_ignore_cwd : Z;
  sm_ini_entries : option loc }.

Record es (E : Type) : Type := ES {
  es_heap : zheap;
  es_streams : gmap loc php_stream;
  es_constants : gmap loc zval;
  SG : sapi_globals;
  eg_exit_status : Z;
  eg_bailout : option loc;
  cg_skip_shebang : bool;
  es_priv : E }.
Arguments ES {E}.
Arguments es_heap {E}. Arguments es_streams {E}. Arguments es_constants {E}.
Arguments SG {E}. Arguments eg_exit_status {E}. Arguments eg_bailout {E}.
Arguments cg_skip_shebang {E}. Arguments es_priv {E}.

Section setters.
Context {E : Type}.
Implicit Type s : es E.
Definition with_heap h s : es E :=
  ES h (es_streams s) (es_constants s) (SG s) (eg_exit_status s) (eg_bailout s) (cg_skip_shebang s) (es_priv s).
Definition with_streams m s : es E :=
  ES (es_heap s) m (es_constants s) (SG s) (eg_exit_status s) (eg_bailout s) (cg_skip_shebang s) (es_priv s).
Definition with_constants c s : es E :=
  ES (es_heap s) (es_streams s) c (SG s) (eg_exit_status s) (eg_bailout s) (cg_skip_shebang s) (es_priv s).
Definition with_SG g s : es E :=
  ES (es_heap s) (es_streams s) (es_constants s) g (eg_exit_status s) (eg_bailout s) (cg_skip_shebang s) (es_priv s).
Definition with_bailout b s : es E :=
  ES (es_heap s) (es_streams s) (es_constants s) (SG s) (eg_exit_status s) b (cg_skip_shebang s) (es_priv s).
Definition with_skip_shebang b s : es E :=
  ES (es_heap s) (es_streams s) (es_constants s) (SG s) (eg_exit_status s) (eg_bailout s) b (es_priv s).
Definition with_priv e s : es E :=
  ES (es_heap s) (es_streams s) (es_constants s) (SG s) (eg_exit_status s) (eg_bailout s) (cg_skip_shebang s) e.
End setters.

Definition with_request_body (b : option loc) (g : sapi_globals) : sapi_globals :=
  SapiGlobals (sg_headers g) (http_response_code g) (send_default_content_type g) (headers_sent g)
    b (sg_argc g) (sg_argv g) (no_headers g) (sg_options g).
Definition with_headers_sent (n : Z) (g : sapi_globals) : sapi_globals :=
  SapiGlobals (sg_headers g) (http_response_code g) (send_default_content_type g) n
    (request_body g) (sg_argc g) (sg_argv g) (no_headers g) (sg_options g).
Definition with_http_response_code (n : Z) (g : sapi_globals) : sapi_globals :=
  SapiGlobals (sg_headers g) n (send_default_content_type g) (headers_sent g)
    (request_body g) (sg_argc g) (sg_argv g) (no_headers g) (sg_options g).
Definition with_send_default_content_type (n : Z) (g : sapi_globals) : sapi_globals :=
  SapiGlobals (sg_headers g) (http_response_code g) n (headers_sent g)
    (request_body g) (sg_argc g) (sg_argv g) (no_headers g) (sg_options g).
Definition with_args (argc : Z) (argv : list bytes) (g : sapi_globals) : sapi_globals :=
  SapiGlobals (sg_headers g) (http_response_code g) (send_default_content_type g) (headers_sent g)
    (request_body g) argc argv (no_headers g) (sg_options g).
Definition with_no_headers (n : Z) (g : sapi_globals) : sapi_globals :=
  SapiGlobals (sg_headers g) (http_response_code g) (send_default_content_type g) (headers_sent g)
    (request_body g) (sg_argc g) (sg_argv g) n (sg_options g).
Definition with_options (n : Z) (g : sapi_globals) : sapi_globals :=
  SapiGlobals (sg_headers g) (http_response_code g) (send_default_content_type g) (headers_sent g)
    (request_body g) (sg_argc g) (sg_argv g) (no_headers g) n.

(** ** The functions of the engine library *)

(** The fields are the library functions pam_php.c and the headers call. A
    computation may return or bail out; [zend_call_known_function] also says what
    it left in the caller's return-value zval, whichever way it ended. *)
Class ZendEngine (E : Type) : Type := {
  rc_dtor_func : loc → M (es E) ();
  gc_possible_root : loc → M (es E) ();
  zval_ptr_dtor : zval → M (es E) ();
  (** whether [pemalloc (size, persistent)] finds memory *)
  pemalloc_ok : Z → bool → es E → bool;
  zend_lookup_class : loc → M (es E) (option loc);
  (** [zend_hash_str_find (&ce->function_table, name)] *)
  zend_hash_str_find : loc → bytes → E → option zval;
  zend_call_known_function : loc → option loc → zval → list zval → es E → bool * zval * es E;
  sapi_header_op_delete_all : M (es E) ();
  php_stream_temp_open : bytes → M (es E) (option loc);
  php_stream_close : loc → M (es E) ();
  php_stream_open_wrapper : bytes → bytes → M (es E) (option loc);
  zend_string_init_interned : bytes → M (es E) loc;
  zend_register_constant : zval → loc → M (es E) Z;
  zend_get_constant_ptr : loc → M (es E) (option loc);
  (** a function table ends in an entry without a name *)
  zend_register_functions : list (option bytes) → M (es E) Z;
  zend_unregister_functions : list (option bytes) → Z → M (es E) ();
  zend_eval_stringl : bytes → bytes → M (es E) Z;
  php_execute_script : bytes → M (es E) bool;
  zend_signal_startup : M (es E) ();
  sapi_startup : M (es E) ();
  (** [php_embed_module.startup], with the INI text [ini_entries] points to *)
  module_startup : sapi_module_struct → option block → M (es E) Z;
  php_request_startup : M (es E) Z;
  php_module_shutdown : M (es E) ();
  php_embed_shutdown : M (es E) ();
  php_register_variable : bytes → bytes → M (es E) ();
  zend_fetch_resource2_ex : zval → M (es E) (option loc);
  php_stream_cast : loc → Z → M (es E) (Z * Z) }.

(** The C library: the environment, and whether the [n]-th [malloc] of the
    process succeeds for a size. *)
Class Host : Type := {
  getenv : bytes → option bytes;
  malloc_ok : nat → Z → bool }.

(** ** The inline layer over it *)
Section inline.
Context {E : Type} {engine : ZendEngine E}.

(** A heap operation of zend_string.h or zend_types.h. *)
Definition heap_op {A} (f : zheap → option (A * zheap)) : M (es E) A := λ s,
  match f (es_heap s) with
  | Some (a, h) => Ret a (with_heap h s)
  | None => Undef
  end.
Definition heap_do (f : zheap → option zheap) : M (es E) () :=
  heap_op (λ h, h' ← f h; Some ((), h')).

(** [zend_string_init], whose allocation can fail: the allocator does not return. For
    the memory of a request it reports a fatal error and bails out; for persistent memory
    [__zend_malloc] ends the process, which is a bailout without a handler here. *)
Definition zend_string_init_m (str : bytes) (persistent : bool) : M (es E) loc := λ s,
  if pemalloc_ok (zstr_alloc_size (Z.of_nat (length str))) persistent s
  then heap_op (zend_string_init str persistent) s
  else Bail s.

(** [ZVAL_STRINGL(z, str, length)]. *)
Definition ZVAL_STRINGL (z : zval) (str : bytes) : M (es E) zval :=
  s ← zend_string_init_m str false; mret (ZVAL_NEW_STR z s).

(** [gc_check_possible_root] (Zend/zend_gc.h). *)
Definition gc_check_possible_root (ref : loc) : M (es E) () :=
  h ← gets es_heap; o ← need (h !! ref);
  if gc_type_info o =? GC_REFERENCE then
    match gc_body o with
    | BReference zv =>
        if negb (Z_COLLECTABLE zv) then mret ()
        else ref' ← need (Z_COUNTED zv); o' ← need (h !! ref');
             if GC_MAY_LEAK (gc_type_info o') then gc_possible_root ref' else mret ()
    | _ => undef
    end
  else if GC_MAY_LEAK (gc_type_info o) then gc_possible_root ref else mret ().

(** [gc_check_possible_root_no_ref]: the caller says it is no reference. *)
Definition gc_check_possible_root_no_ref (ref : loc) : M (es E) () :=
  h ← gets es_heap; o ← need (h !! ref);
  if gc_type_info o =? GC_REFERENCE then undef
  else if GC_MAY_LEAK (gc_type_info o) then gc_possible_root ref else mret ().

(** [zval_ptr_dtor_nogc], [i_zval_ptr_dtor] and [zval_ptr_dtor_str]
    (Zend/zend_variables.h). *)
Definition zval_ptr_dtor_nogc (z : zval) : M (es E) () :=
  if Z_REFCOUNTED z then
    l ← need (Z_COUNTED z); rc ← heap_op (GC_DELREF l);
    if rc =? 0 then rc_dtor_func l else mret ()
  else mret ().

Definition i_zval_ptr_dtor (z : zval) : M (es E) () :=
  if Z_REFCOUNTED z then
    l ← need (Z_COUNTED z); rc ← heap_op (GC_DELREF l);
    if rc =? 0 then rc_dtor_func l else gc_check_possible_root l
  else mret ().

Definition zval_ptr_dtor_str (z : zval) : M (es E) () :=
  if Z_REFCOUNTED z then
    l ← need (Z_COUNTED z); rc ← heap_op (GC_DELREF l);
    if rc =? 0 then
      h ← gets es_heap; o ← need (h !! l);
      if (zval_get_type z =? IS_STRING) && negb (ZSTR_IS_INTERNED o) && negb (has_flag o IS_STR_PERSISTENT)
      then modify (λ s, with_heap (delete l (es_heap s)) s) else undef
    else mret ()
  else mret ().

(** [GC_DTOR], [GC_DTOR_NO_REF] and [GC_TRY_DTOR_NO_REF] (Zend/zend_types.h). *)
Definition GC_DTOR (l : loc) : M (es E) () :=
  rc ← heap_op (GC_DELREF l);
  if rc =? 0 then rc_dtor_func l else gc_check_possible_root l.
Definition GC_DTOR_NO_REF (l : loc) : M (es E) () :=
  rc ← heap_op (GC_DELREF l);
  if rc =? 0 then rc_dtor_func l else gc_check_possible_root_no_ref l.
Definition GC_TRY_DTOR_NO_REF (l : loc) : M (es E) () :=
  h ← gets es_heap; o ← need (h !! l);
  if Z.land (gc_type_info o) GC_IMMUTABLE =? 0 then
    rc ← heap_op (GC_DELREF l);
    if rc =? 0 then rc_dtor_func l else gc_check_possible_root_no_ref l
  else mret ().

(** [zend_hash_str_find_ptr] (Zend/zend_hash.h) on a class's function table. *)
Definition zend_hash_str_find_ptr (ce : loc) (name : bytes) : M (es E) (option loc) :=
  s ← get;
  match zend_hash_str_find ce name (es_priv s) with
  | Some zv => match z_value zv with VPtr (Some p) => mret (Some p) | _ => undef end
  | None => mret None
  end.

(** [php_stream_to_zval] (main/php_streams.h): the resource of an open stream. *)
Definition php_stream_to_zval (stream : loc) (z : zval) : M (es E) zval :=
  s ← get; p ← need (es_streams s !! stream);
  modify (with_streams (<[stream := Stream (stream_res p) (stream_flags p) true (stream_data p)]> (es_streams s)));;
  mret (ZVAL_RES z (stream_res p)).

End inline.

(** The type word of a string is not a reference's, nor one the collector looks at. *)
Lemma string_gc_word_plain o :
  GC_TYPE o = IS_STRING → has_flag o GC_NOT_COLLECTABLE = true →
  (gc_type_info o =? GC_REFERENCE) = false ∧ GC_MAY_LEAK (gc_type_info o) = false.
Proof.
  intros Ht Hf. split.
  - apply Z.eqb_neq. intros E. unfold GC_TYPE in Ht. by rewrite E in Ht.
  - apply Z.eqb_neq. intros E. unfold has_flag, GC_FLAGS, zval_gc_flags in Hf.
    apply negb_true_iff, Z.eqb_neq in Hf. apply Hf. unfold GC_FLAGS_SHIFT in *.
    rewrite !Z.shiftr_0_r. rewrite <- Z.land_assoc.
    change (Z.land GC_FLAGS_MASK GC_NOT_COLLECTABLE) with
      (Z.land (Z.lor GC_INFO_MASK (Z.shiftl GC_NOT_COLLECTABLE 0)) GC_NOT_COLLECTABLE).
    by rewrite Z.land_assoc, E.
Qed.

(** All the inline ways to release a shared string (nogc, inline destructor,
    string destructor, GC_DTOR and its variants, zend_string_release) drop exactly
    one reference and never register a garbage root. *)
Theorem string_release_agree {E} {engine : ZendEngine E} z l o (s : es E) :
  Z_REFCOUNTED z = true → Z_COUNTED z = Some l → zval_get_type z = IS_STRING →
  es_heap s !! l = Some o → GC_TYPE o = IS_STRING → has_flag o GC_NOT_COLLECTABLE = true →
  ZSTR_IS_INTERNED o = false → 1 < gc_refcount o < 2 ^ 32 →
  let s' := with_heap (<[l := with_refcount o (gc_refcount o - 1)]> (es_heap s)) s in
  zval_ptr_dtor_nogc z s = Ret () s' ∧ i_zval_ptr_dtor z s = Ret () s' ∧ zval_ptr_dtor_str z s = Ret () s' ∧
  GC_DTOR l s = Ret () s' ∧ GC_DTOR_NO_REF l s = Ret () s' ∧ GC_TRY_DTOR_NO_REF l s = Ret () s' ∧
  heap_do (zend_string_release l) s = Ret () s'.
Proof.
  intros Hr Hc Ht Hl Hg Hf Hi Hb s'. destruct (string_gc_word_plain o Hg Hf) as [H1 H2].
  assert (Hd : heap_op (GC_DELREF l) s = Ret (gc_refcount o - 1) s').
  { unfold heap_op. rewrite (GC_DELREF_lookup _ _ _ Hl) by lia. done. }
  assert (Hz : (gc_refcount o - 1 =? 0) = false) by lia.
  assert (Hs : es_heap s' !! l = Some (with_refcount o (gc_refcount o - 1))) by apply lookup_insert_eq.
  assert (Hrel : zend_string_release l (es_heap s) = Some (es_heap s')).
  { unfold zend_string_release. rewrite Hl. simpl. rewrite Hi, (GC_DELREF_lookup _ _ _ Hl) by lia. simpl.
    by rewrite Hz. }
  assert (Hm : Z.land (gc_type_info o) GC_IMMUTABLE = 0).
  { unfold ZSTR_IS_INTERNED, has_flag, GC_FLAGS, zval_gc_flags, IS_STR_INTERNED, GC_FLAGS_SHIFT in Hi.
    rewrite !Z.shiftr_0_r, <- Z.land_assoc in Hi. by apply negb_false_iff, Z.eqb_eq in Hi. }
  assert (Hn : GC_DTOR_NO_REF l s = Ret () s').
  { unfold GC_DTOR_NO_REF, gc_check_possible_root_no_ref, mbind, M_bind, gets, need. rewrite Hd. cbn beta iota.
    rewrite Hz, Hs. unfold mret, M_ret. cbn beta iota. cbn [gc_type_info with_refcount]. by rewrite H1, H2. }
  assert (Ht' : GC_TRY_DTOR_NO_REF l s = GC_DTOR_NO_REF l s).
  { unfold GC_TRY_DTOR_NO_REF, mbind at 1 2, M_bind at 1 2, gets, need. rewrite Hl. unfold mret, M_ret. cbn beta iota.
    by rewrite Hm. }
  rewrite Ht', Hn. clear Ht' Hn.
  unfold zval_ptr_dtor_nogc, i_zval_ptr_dtor, zval_ptr_dtor_str, GC_DTOR, gc_check_possible_root, mbind, M_bind,
    gets, need, mret, M_ret.
  rewrite Hr, Hc. cbn beta iota. rewrite Hd. cbn beta iota. rewrite Hz, Hs. cbn beta iota.
  cbn [gc_type_info with_refcount]. rewrite H1, H2.
  split_and!; try done. unfold heap_do, heap_op. cbn beta. by rewrite Hrel.
Qed.

(** ** Ownership *)

(** The reference a zval holds, if it holds one. *)
Definition zrefs (z : zval) : gmultiset loc :=
  if Z_REFCOUNTED z then match Z_COUNTED z with Some l => {[+ l +]} | None => ∅ end else ∅.

(** The references held by the values of the constants. *)
Definition const_refs (m : gmap loc zval) : gmultiset loc :=
  map_fold (λ _ z acc, zrefs z ⊎ acc) ∅ m.

(** A string object: its type word says so and keeps it out of the collector. *)
Definition str_obj (o : zend_refcounted) : Prop :=
  (∃ h len val, gc_body o = BString h len val) ∧
  zval_gc_type (gc_type_info o) = IS_STRING ∧
  Z.land (gc_type_info o) GC_NOT_COLLECTABLE = GC_NOT_COLLECTABLE.

(** The references and the open streams the engine itself holds, for a private
    state. *)
Class Ownership (E : Type) : Type := {
  engine_refs : E → loc → nat;
  engine_streams : E → gset loc }.

Section ownership.
Context {E : Type} {engine : ZendEngine E} {own : Ownership E}.

(** Every reference count is the number of its holders: the engine, the constants
    and the caller, who holds [R]. Interned values are not counted. *)
Definition counts_ok (s : es E) (R : gmultiset loc) : Prop := ∀ l,
  match es_heap s !! l with
  | None => engine_refs (es_priv s) l = 0%nat ∧ multiplicity l (const_refs (es_constants s)) = 0%nat
            ∧ multiplicity l R = 0%nat
  | Some o =>
      if ZSTR_IS_INTERNED o
      then multiplicity l R = 0%nat ∧ multiplicity l (const_refs (es_constants s)) = 0%nat
      else gc_refcount o = Z.of_nat (engine_refs (es_priv s) l
             + multiplicity l (const_refs (es_constants s)) + multiplicity l R)
           ∧ 0 < gc_refcount o < 2 ^ 32
  end.

(** Every open stream has one owner: the engine, or the caller, who owns [T]; and
    a resource of its own. *)
Definition streams_ok (s : es E) (T : gset loc) : Prop :=
  dom (es_streams s) = engine_streams (es_priv s) ∪ T ∧ engine_streams (es_priv s) ## T ∧
  ∀ p q sp sq, es_streams s !! p = Some sp → es_streams s !! q = Some sq →
    stream_res sp = stream_res sq → p = q.

(** The caller holds the references [R], all to strings, and the streams [T]. *)
Definition owned (s : es E) (R : gmultiset loc) (T : gset loc) : Prop :=
  counts_ok s R ∧ streams_ok s T ∧
  (∀ l, l ∈ R → ∃ o, es_heap s !! l = Some o ∧ str_obj o).

(** PHP code that ran from [s] to [s']: the request body is the one there was, or
    one it created because there was none, which the caller then owns. *)
Definition body_step (s s' : es E) (T T' : gset loc) : Prop :=
  (request_body (SG s') = request_body (SG s) ∧ T' = T) ∨
  (request_body (SG s) = None ∧
   ∃ b, request_body (SG s') = Some b ∧ (b ∉ T) ∧ T' = T ∪ {[b]}).

(** A method found once stays where it was found. *)
Definition keeps_methods (s s' : es E) : Prop := ∀ ce name zv,
  zend_hash_str_find ce name (es_priv s) = Some zv → zend_hash_str_find ce name (es_priv s') = Some zv.

(** The strings the caller holds keep their contents. *)
Definition keeps_strings (s s' : es E) (R : gmultiset loc) : Prop := ∀ l o bs,
  l ∈ R → es_heap s !! l = Some o → zstr_ok bs o →
  ∃ o', es_heap s' !! l = Some o' ∧ zstr_ok bs o'.

Definition ran (s : es E) (R : gmultiset loc) (T : gset loc) (s' : es E) : Prop :=
  eg_bailout s' = eg_bailout s ∧ keeps_methods s s' ∧ ∃ T', owned s' R T' ∧ body_step s s' T T'.

(** A value a method with a declared scalar or [string] return type leaves. *)
Definition plain_value (h : zheap) (r : zval) : Prop :=
  if zval_get_type r =? IS_STRING
  then ∃ l o bs, Z_COUNTED r = Some l ∧ h !! l = Some o ∧ str_obj o ∧ zstr_ok bs o ∧ fits bs
         ∧ Z_REFCOUNTED r = negb (ZSTR_IS_INTERNED o)
  else Z_REFCOUNTED r = false.
End ownership.

(** An allocation of at most [m] bytes that the allocator refuses. *)
Definition alloc_fails {E} `{ZendEngine E} (m : Z) : Prop :=
  ∃ n p s, n <= m ∧ pemalloc_ok n p s = false.

Lemma alloc_fails_mono {E} `{ZendEngine E} m n : m <= n → alloc_fails m → alloc_fails n.
Proof. intros Hmn (k&p&s&Hk&Hs). exists k, p, s. split; [lia|done]. Qed.

(** ** What the C file relies on *)
Class EngineLaws (E : Type) `{ZendEngine E, Ownership E} : Prop := {
  (** the exported destructor is the inline one *)
  zval_ptr_dtor_inline z s : zval_ptr_dtor z s = i_zval_ptr_dtor z s;
  (** destroying a string frees it *)
  rc_dtor_string l o s :
    es_heap s !! l = Some o → str_obj o → gc_refcount o = 0 →
    rc_dtor_func l s = Ret () (with_heap (delete l (es_heap s)) s);
  (** finding a class may run an autoloader *)
  lookup_class_law name s R T :
    owned s R T → name ∈ R →
    wp (zend_lookup_class name) (λ _, ran s R T) (ran s R T) s;
  function_ptr_law ce name e zv :
    zend_hash_str_find ce name e = Some zv → ∃ p, z_value zv = VPtr (Some p);
  (** a call borrows its arguments and gives its result to the caller *)
  call_law f c z args s R T :
    owned s R T → Forall (λ a, zrefs a ⊆ R) args → zrefs z = ∅ →
    let '(returned, r, s') := zend_call_known_function f c z args s in
    plain_value (es_heap s') r ∧ ran s (R ⊎ zrefs r) T s';
  (** headers can be deleted before they are sent, or when none will be *)
  header_delete_law s R T :
    owned s R T →
    wp sapi_header_op_delete_all
       (λ _ s', owned s' R T ∧ eg_bailout s' = eg_bailout s ∧ keeps_methods s s' ∧
                keeps_strings s s' R ∧ request_body (SG s') = request_body (SG s) ∧
                (headers_sent (SG s) = 0 ∨ no_headers (SG s) ≠ 0 → sg_headers (SG s') = []))
       never s;
  temp_open_law data s R T :
    owned s R T →
    wp (php_stream_temp_open data)
       (λ r s', eg_bailout s' = eg_bailout s ∧ SG s' = SG s ∧ keeps_methods s s' ∧
          keeps_strings s s' R ∧
          match r with
          | None => owned s' R T
          | Some p => (p ∉ T) ∧ owned s' R (T ∪ {[p]}) ∧
                      ∃ st, es_streams s' !! p = Some st ∧ stream_data st = data
          end)
       (λ _, alloc_fails (4096 + zstr_alloc_size (Z.of_nat (length data)))) s;
  (** scripts run like any PHP code *)
  eval_law src name s R T :
    owned s R T →
    wp (zend_eval_stringl src name) (λ r s', (r = SUCCESS ∨ r = FAILURE) ∧ ran s R T s') (ran s R T) s;
  execute_law file s R T :
    owned s R T → wp (php_execute_script file) (λ _, ran s R T) (ran s R T) s;
  close_law p s R T :
    owned s R (T ∪ {[p]}) → p ∉ T →
    wp (php_stream_close p)
       (λ _ s', owned s' R T ∧ eg_bailout s' = eg_bailout s ∧ SG s' = SG s ∧ keeps_methods s s')
       never s }.

(** ** Consequences *)

Lemma own_nothing (R : gmultiset loc) : R ⊎ ∅ = R.
Proof. apply gmultiset_disj_union_right_id. Qed.
Lemma own_left (R : gmultiset loc) : ∅ ⊎ R = R.
Proof. apply gmultiset_disj_union_left_id. Qed.

Section derived.
Context {E : Type} {own : Ownership E}.
Implicit Types (s : es E) (R : gmultiset loc) (T : gset loc).

Lemma body_step_refl s T : body_step s s T T.
Proof. by left. Qed.

Lemma body_step_trans s s1 s2 T T1 T2 :
  body_step s s1 T T1 → body_step s1 s2 T1 T2 → body_step s s2 T T2.
Proof.
  intros [[H1 ->]|(Hn&b&H1&Hb&->)] [[H2 ->]|(Hn'&b'&H2&Hb'&->)].
  - left. split; congruence.
  - right. split; [congruence|]. eauto.
  - right. split; [done|]. exists b. split_and!; congruence.
  - congruence.
Qed.

(** Only the heap changed. *)
Definition heap_only s s' : Prop := ∃ h, s' = with_heap h s.

Lemma heap_only_trans s s1 s2 : heap_only s s1 → heap_only s1 s2 → heap_only s s2.
Proof. intros [h ->] [h' ->]. by exists h'. Qed.

Lemma heap_only_frame s s' :
  heap_only s s' → es_streams s' = es_streams s ∧ es_constants s' = es_constants s ∧ SG s' = SG s ∧
    eg_bailout s' = eg_bailout s ∧ es_priv s' = es_priv s ∧ eg_exit_status s' = eg_exit_status s.
Proof. by intros [h ->]. Qed.

(** The object behind a reference the caller holds. *)
Lemma owned_object s R T l :
  owned s R T → l ∈ R →
  ∃ o, es_heap s !! l = Some o ∧ str_obj o ∧ ZSTR_IS_INTERNED o = false ∧
       0 < gc_refcount o < 2 ^ 32 ∧
       gc_refcount o = Z.of_nat (engine_refs (es_priv s) l
         + multiplicity l (const_refs (es_constants s)) + multiplicity l R).
Proof.
  intros (Hc&_&Hstr) Hl. destruct (Hstr l Hl) as (o&Ho&Hso). exists o.
  specialize (Hc l). rewrite Ho in Hc. rewrite elem_of_multiplicity in Hl.
  destruct (ZSTR_IS_INTERNED o) eqn:Hi; [lia|]. by destruct Hc.
Qed.

(** Exchange the heap below a caller: enough to look at the one changed object. *)
Lemma owned_with_heap s R R' T l mo :
  owned s R T →
  (∀ l', l' ≠ l → multiplicity l' R' = multiplicity l' R) →
  (match mo with
   | None => engine_refs (es_priv s) l = 0%nat ∧ multiplicity l (const_refs (es_constants s)) = 0%nat
             ∧ multiplicity l R' = 0%nat
   | Some o => ZSTR_IS_INTERNED o = false ∧ str_obj o ∧
       gc_refcount o = Z.of_nat (engine_refs (es_priv s) l
             + multiplicity l (const_refs (es_constants s)) + multiplicity l R')
           ∧ 0 < gc_refcount o < 2 ^ 32
   end) →
  owned (with_heap (partial_alter (λ _, mo) l (es_heap s)) s) R' T.
Proof.
  intros (Hc&Hs&Hstr) Hne Hl. split_and!.
  - intros l'. simpl. destruct (decide (l' = l)) as [->|Hd].
    + rewrite lookup_partial_alter_eq. destruct mo as [o|]; [|done].
      destruct Hl as (->&_&?&?). done.
    + rewrite lookup_partial_alter_ne, Hne by done. apply Hc.
  - done.
  - intros l' Hl'. simpl. destruct (decide (l' = l)) as [->|Hd].
    + rewrite lookup_partial_alter_eq. rewrite elem_of_multiplicity in Hl'.
      destruct mo as [o|]; [|lia]. exists o. by destruct Hl as (_&?&_).
    + rewrite lookup_partial_alter_ne by done. apply Hstr.
      rewrite elem_of_multiplicity. rewrite elem_of_multiplicity in Hl'. by rewrite <- Hne.
Qed.

Lemma new_string_str bs p : str_obj (new_string bs p).
Proof. split; [by eexists _, _, _|]. by destruct p. Qed.

(** Dropping a reference the caller holds. *)
Lemma delref_spec l s R T :
  owned s (R ⊎ {[+ l +]}) T →
  ∃ rc h', GC_DELREF l (es_heap s) = Some (rc, h') ∧
    if rc =? 0 then owned (with_heap (delete l h') s) R T ∧
                    ∃ o, h' !! l = Some o ∧ str_obj o ∧ gc_refcount o = 0
    else owned (with_heap h' s) R T ∧ ∃ o, h' !! l = Some o ∧ str_obj o.
Proof.
  intros Ho. assert (Hl : l ∈ R ⊎ {[+ l +]}) by multiset_solver.
  destruct (owned_object _ _ _ _ Ho Hl) as (o&Hlo&Hso&Hi&Hb&Hrc).
  rewrite multiplicity_disj_union, multiplicity_singleton_eq in Hrc.
  rewrite (GC_DELREF_lookup _ _ _ Hlo Hb). eexists _, _. split; [done|].
  assert (Hne : ∀ l', l' ≠ l → multiplicity l' R = multiplicity l' (R ⊎ {[+ l +]})).
  { intros. rewrite multiplicity_disj_union, multiplicity_singleton_ne by done. lia. }
  destruct (Z.eqb_spec (gc_refcount o - 1) 0) as [H0|H0].
  - split.
    + rewrite delete_insert_eq. apply (owned_with_heap _ _ _ _ l None Ho Hne). lia.
    + eexists. rewrite lookup_insert_eq. done.
  - split.
    + apply (owned_with_heap _ _ _ _ l (Some _) Ho Hne). simpl. split_and!; try done; lia.
    + eexists. by rewrite lookup_insert_eq.
Qed.

End derived.

Section specs.
Context {E : Type} {engine : ZendEngine E} {own : Ownership E}.
Implicit Types (s : es E) (R : gmultiset loc) (T : gset loc).

(** The same with the constants the accounts are kept for, which may differ from
    those of the state while the value of one of them is being replaced. *)
Lemma string_init_acc str p cs s R T :
  owned (with_constants cs s) R T → fits str →
  wp (zend_string_init_m str p)
     (λ l s', owned (with_constants cs s') (R ⊎ {[+ l +]}) T ∧ heap_only s s' ∧ es_heap s !! l = None ∧
              es_heap s' = <[l := new_string str p]> (es_heap s))
     (λ s', s' = s ∧ alloc_fails (zstr_alloc_size (Z.of_nat (length str)))) s.
Proof.
  intros Ho Hf. unfold wp, zend_string_init_m. destruct (pemalloc_ok _ p s) eqn:Hm.
  - unfold heap_op. rewrite zend_string_init_eq by done.
    destruct (halloc (new_string str p) (es_heap s)) as [l h'] eqn:Ha.
    apply halloc_fresh in Ha as [Hn ->]. split_and!; [|by eexists|done|done].
    pose proof (proj1 Ho l) as Hc. simpl in Hc. rewrite Hn in Hc. destruct Hc as (He&Hk&Hr).
    apply (owned_with_heap (with_constants cs s) R _ T l (Some (new_string str p))); [done| |].
    + intros l' Hd. rewrite multiplicity_disj_union, multiplicity_singleton_ne by done. lia.
    + simpl. rewrite multiplicity_disj_union, multiplicity_singleton_eq, He, Hk, Hr.
      destruct (new_string_flags str p) as (?&_). split_and!; [done|apply new_string_str|done..].
  - split; [done|]. by exists (zstr_alloc_size (Z.of_nat (length str))), p, s.
Qed.

Lemma same_constants s : with_constants (es_constants s) s = s.
Proof. by destruct s. Qed.

(** Creating a string gives the caller one reference to it. *)
Lemma string_init_spec str p s R T :
  owned s R T → fits str →
  wp (zend_string_init_m str p)
     (λ l s', owned s' (R ⊎ {[+ l +]}) T ∧ heap_only s s' ∧ es_heap s !! l = None ∧
              es_heap s' = <[l := new_string str p]> (es_heap s))
     (λ s', s' = s ∧ alloc_fails (zstr_alloc_size (Z.of_nat (length str)))) s.
Proof.
  intros Ho Hf. rewrite <- (same_constants s) in Ho.
  eapply wp_mono; [by eapply string_init_acc| |done]. cbn beta.
  intros l s' (Ho'&[h ->]&?&?). split_and!; [exact Ho'|by exists h|done|done].
Qed.

Lemma str_obj_no_root l o s :
  es_heap s !! l = Some o → str_obj o → gc_check_possible_root l s = Ret () s.
Proof.
  intros Hl (_&Ht&Hn). unfold gc_check_possible_root, gets, mbind, M_bind. rewrite Hl. simpl.
  destruct (Z.eqb_spec (gc_type_info o) GC_REFERENCE) as [E0|_]; [by rewrite E0 in Ht|].
  destruct (GC_MAY_LEAK (gc_type_info o)) eqn:Hm; [|done].
  unfold GC_MAY_LEAK in Hm. apply Z.eqb_eq in Hm.
  assert (H : Z.land (gc_type_info o) GC_NOT_COLLECTABLE = 0).
  { change GC_NOT_COLLECTABLE with
      (Z.land (Z.lor GC_INFO_MASK (Z.shiftl GC_NOT_COLLECTABLE GC_FLAGS_SHIFT)) GC_NOT_COLLECTABLE).
    by rewrite Z.land_assoc, Hm. }
  by rewrite H in Hn.
Qed.

(** A zval whose flags say it is counted has a counted value. *)
Definition counted_ok (z : zval) : Prop := Z_REFCOUNTED z = true → is_Some (Z_COUNTED z).

Lemma zval_ptr_dtor_acc {laws : EngineLaws E} z cs s R T :
  owned (with_constants cs s) (R ⊎ zrefs z) T → counted_ok z →
  wp (zval_ptr_dtor z) (λ _ s', owned (with_constants cs s') R T ∧ heap_only s s') never s.
Proof.
  intros Ho Hz. unfold wp. rewrite zval_ptr_dtor_inline. unfold i_zval_ptr_dtor, zrefs in *.
  destruct (Z_REFCOUNTED z) eqn:Hr.
  2: { rewrite own_nothing in Ho. split; [done|by exists (es_heap s); destruct s]. }
  destruct (Hz Hr) as [l Hl]. rewrite Hl in *.
  destruct (delref_spec _ _ _ _ Ho) as (rc&h'&Hd&Hpost). simpl in Hd |- *.
  unfold mbind, M_bind, heap_op, mret, M_ret. rewrite Hd. destruct (rc =? 0).
  - destruct Hpost as [Ho' (o&Hlo&Hso&H0)]. rewrite (rc_dtor_string l o) by done.
    split; [done|by eexists].
  - destruct Hpost as [Ho' (o&Hlo&Hso)]. rewrite (str_obj_no_root l o) by done.
    split; [done|by eexists].
Qed.

Lemma zval_ptr_dtor_spec {laws : EngineLaws E} z s R T :
  owned s (R ⊎ zrefs z) T → counted_ok z →
  wp (zval_ptr_dtor z) (λ _ s', owned s' R T ∧ heap_only s s') never s.
Proof.
  intros Ho Hz. rewrite <- (same_constants s) in Ho.
  eapply wp_mono; [by eapply zval_ptr_dtor_acc| |done]. cbn beta.
  intros _ s' [Ho' [h ->]]. split; [exact Ho'|by exists h].
Qed.

Lemma release_others l h h' l' :
  zend_string_release l h = Some h' → l' ≠ l → h' !! l' = h !! l'.
Proof.
  unfold zend_string_release, GC_DELREF. destruct (h !! l) as [o|]; simpl; [|done].
  destruct (ZSTR_IS_INTERNED o); [by intros [= <-]|].
  destruct (zend_gc_delref o) as [o'|]; simpl; [|done]. intros H Hne.
  destruct (gc_refcount o' =? 0); simplify_eq;
    by rewrite ?lookup_delete_ne, ?lookup_insert_ne by done.
Qed.

Lemma zend_string_release_spec l s R T :
  owned s (R ⊎ {[+ l +]}) T →
  wp (heap_do (zend_string_release l))
     (λ _ s', owned s' R T ∧ heap_only s s' ∧ ∀ l', l' ≠ l → es_heap s' !! l' = es_heap s !! l') never s.
Proof.
  intros Ho. destruct (delref_spec _ _ _ _ Ho) as (rc&h'&Hd&Hpost).
  destruct (owned_object s (R ⊎ {[+ l +]}) T l Ho) as (o&Hlo&_&Hi&_); [multiset_solver|].
  assert (∃ h2, zend_string_release l (es_heap s) = Some h2 ∧ owned (with_heap h2 s) R T) as (h2&Hr&Ho2).
  { unfold zend_string_release. rewrite Hlo. simpl. rewrite Hi, Hd. simpl.
    destruct (rc =? 0); destruct Hpost as [Ho' _]; eauto. }
  unfold wp, heap_do, heap_op. rewrite Hr. simpl. split_and!; [done|by eexists|].
  intros l' Hne. simpl. by eapply release_others.
Qed.

End specs.

(** ** Replacing the value of a constant *)
Section constants.
Context {E : Type} {own : Ownership E}.
Implicit Types (s : es E) (R : gmultiset loc) (T : gset loc).

Lemma const_refs_insert c v (m : gmap loc zval) :
  const_refs (<[c := v]> m) = zrefs v ⊎ const_refs (delete c m).
Proof.
  unfold const_refs. rewrite <- insert_delete_eq.
  rewrite (map_fold_insert_L (λ (_ : loc) z acc, zrefs z ⊎ acc)); [done| |by rewrite lookup_delete_eq].
  intros. multiset_solver.
Qed.

Lemma const_refs_delete c v (m : gmap loc zval) :
  m !! c = Some v → const_refs m = zrefs v ⊎ const_refs (delete c m).
Proof. intros H. rewrite <- (insert_id m c v H) at 1. apply const_refs_insert. Qed.

(** Two sets of accounts with the same holders in total. *)
Lemma owned_transfer s cs R R' T :
  owned s R T → const_refs cs ⊎ R' = const_refs (es_constants s) ⊎ R →
  (∀ l, l ∈ R' → ∃ o, es_heap s !! l = Some o ∧ str_obj o) →
  owned (with_constants cs s) R' T.
Proof.
  intros (Hc&Hs&_) Heq Hstr. split_and!; [|done|done].
  intros l. specialize (Hc l). simpl.
  assert (Hm : (multiplicity l (const_refs cs) + multiplicity l R')%nat
             = (multiplicity l (const_refs (es_constants s)) + multiplicity l R)%nat).
  { rewrite <- !multiplicity_disj_union. by rewrite Heq. }
  destruct (es_heap s !! l) as [o|]; [destruct (ZSTR_IS_INTERNED o)|]; lia.
Qed.

(** Take the reference a constant's value holds into the caller's hands, and give
    a reference to a constant. *)
Lemma owned_take_constant s c v R T :
  owned s R T → es_constants s !! c = Some v → plain_value (es_heap s) v →
  owned (with_constants (delete c (es_constants s)) s) (R ⊎ zrefs v) T.
Proof.
  intros Ho Hv Hpl. apply (owned_transfer s _ R); [done| |].
  - rewrite (const_refs_delete c v (es_constants s) Hv). multiset_solver.
  - intros l [Hl|Hl]%gmultiset_elem_of_disj_union; [by apply Ho|].
    unfold zrefs, plain_value in *. destruct (Z_REFCOUNTED v) eqn:Hr; [|multiset_solver].
    destruct (zval_get_type v =? IS_STRING); [|done].
    destruct Hpl as (l'&o&bs&Hl'&Ho'&Hso&_). rewrite Hl' in Hl.
    apply gmultiset_elem_of_singleton in Hl as ->. eauto.
Qed.

Lemma owned_give_constant s c v R T :
  owned (with_constants (delete c (es_constants s)) s) (R ⊎ zrefs v) T →
  owned (with_constants (<[c := v]> (es_constants s)) s) R T.
Proof.
  intros Ho. apply (owned_transfer _ (<[c := v]> (es_constants s)) _ R) in Ho; [done| |].
  - simpl. rewrite const_refs_insert. multiset_solver.
  - intros l Hl. apply Ho. multiset_solver.
Qed.
End constants.

(** ** Starting and stopping the engine *)

(** What the start-up sequence relies on: the functions return to their caller; a
    started request leaves the C file without references and streams; a stream is
    the caller's until a constant takes it over. *)
Class LifecycleLaws (E : Type) `{ZendEngine E, Ownership E} : Prop := {
  signal_startup_law s : wp zend_signal_startup (λ _ _, True) never s;
  sapi_startup_law s : wp sapi_startup (λ _ _, True) never s;
  module_startup_law m ini s : wp (module_startup m ini) (λ _ _, True) never s;
  request_startup_law s : wp php_request_startup (λ r s', r ≠ FAILURE → owned s' ∅ ∅) never s;
  register_variable_law n v s R T :
    owned s R T → wp (php_register_variable n v) (λ _ s', owned s' R T) never s;
  module_shutdown_law s : wp php_module_shutdown (λ _ _, True) never s;
  embed_shutdown_law s : wp php_embed_shutdown (λ _ _, True) never s;
  register_functions_law fs s R T :
    owned s R T → wp (zend_register_functions fs) (λ _ s', owned s' R T) never s;
  unregister_functions_law fs n s : wp (zend_unregister_functions fs n) (λ _ _, True) never s;
  get_constant_law name s R T :
    owned s R T → name ∈ R →
    wp (zend_get_constant_ptr name)
       (λ r s', owned s' R T ∧ es_constants s' = es_constants s ∧
          ∀ c, r = Some c → ∃ v, es_constants s' !! c = Some v ∧ plain_value (es_heap s') v) never s;
  open_wrapper_law path mode s R T :
    owned s R T →
    wp (php_stream_open_wrapper path mode)
       (λ r s', match r with
                | None => owned s' R T
                | Some p => (p ∉ T) ∧ owned s' R (T ∪ {[p]})
                end ∧
                (∀ q, q ∈ T → es_streams s' !! q = es_streams s !! q)) never s;
  init_interned_law name s R T :
    owned s R T →
    wp (zend_string_init_interned name) (λ _ s', owned s' R T ∧ es_streams s' = es_streams s) never s;
  (** the constant owns the stream whose resource it holds *)
  register_constant_law p st v name s R T :
    owned s R (T ∪ {[p]}) → p ∉ T → es_streams s !! p = Some st →
    z_value v = VCounted (stream_res st) →
    wp (zend_register_constant v name)
       (λ _ s', owned s' R T ∧ ∀ q, q ∈ T → es_streams s' !! q = es_streams s !! q) never s }.
