(* ===== verification/ModelEngine.v ===== *)
(** * A small engine

    A concrete instance of [ZendEngine] that satisfies [EngineLaws] and
    [LifecycleLaws]: every class and method exists, a call returns (or bails out)
    with a fresh string, streams are cells of a map. It shows that the assumptions
    made of the engine can hold together, and the properties of the C file are
    evaluated on it. *)

From S2P Require Import Prelude ZendTypes ZendArith ZendString Engine.

(** What the engine answers. *)
Record config : Type := Config {
  cfg_answer : bytes;
  cfg_returns : bool;
  cfg_register : Z;
  cfg_memory : bool }.

(** The private state: the streams the engine owns. *)
Abbreviation priv := (gset loc).
Abbreviation mes := (es (gset positive)).

Section model.
Context (cfg : config).

Definition free_counted (l : loc) : M mes () := modify (λ s, with_heap (delete l (es_heap s)) s).

Definition some_function : zval := Zval (VPtr (Some 9%positive)) IS_PTR 0.

Definition answer_call (f : loc) (c : option loc) (z : zval) (args : list zval) (s : mes)
    : bool * zval * mes :=
  let '(l, h) := halloc (new_string (cfg_answer cfg) false) (es_heap s) in
  (cfg_returns cfg, ZVAL_NEW_STR zval_uninit l, with_heap h s).

Definition resources (m : gmap loc php_stream) : gset loc :=
  list_to_set ((λ x, stream_res x.2) <$> map_to_list m).

Definition open_stream (data : bytes) : M mes (option loc) := λ s,
  let p := fresh (dom (es_streams s)) in
  Ret (Some p)
    (with_streams (<[p := Stream (fresh (resources (es_streams s))) 0 false data]> (es_streams s)) s).

Definition close_stream (p : loc) : M mes () := λ s,
  match es_streams s !! p with
  | Some _ => Ret () (with_priv (es_priv s ∖ {[p]}) (with_streams (delete p (es_streams s)) s))
  | None => Undef
  end.

(** The engine takes over the stream whose resource the constant holds. *)
Definition take_stream (v : zval) : M mes Z := λ s,
  Ret SUCCESS
    (with_priv (es_priv s ∪ dom (filter (λ x, VCounted (stream_res x.2) = z_value v) (es_streams s))) s).

(** [PHP_BINARY] is a constant without contents until the C file sets it. *)
Definition binary_constant : loc := 5%positive.
Definition find_constant : M mes (option loc) := λ s,
  match es_constants s !! binary_constant with
  | Some v => if Z_REFCOUNTED v || (zval_get_type v =? IS_STRING) then Ret None s else Ret (Some binary_constant) s
  | None => Ret None s
  end.

Definition boot : M mes Z := λ s,
  Ret SUCCESS
    (with_heap ∅ (with_streams ∅ (with_constants {[binary_constant := ZVAL_NULL zval_uninit]} (with_priv ∅ s)))).

Definition base : ZendEngine (gset positive) := {|
  rc_dtor_func := free_counted;
  gc_possible_root := λ _, mret ();
  zval_ptr_dtor := λ _, undef;
  pemalloc_ok := λ _ _ _, cfg_memory cfg;
  zend_lookup_class := λ _, mret (Some 7%positive);
  zend_hash_str_find := λ _ _ _, Some some_function;
  zend_call_known_function := answer_call;
  sapi_header_op_delete_all :=
    modify (λ s, with_SG (SapiGlobals [] (http_response_code (SG s)) (send_default_content_type (SG s))
      (headers_sent (SG s)) (request_body (SG s)) (sg_argc (SG s)) (sg_argv (SG s)) (no_headers (SG s))
      (sg_options (SG s))) s);
  php_stream_temp_open := open_stream;
  php_stream_close := close_stream;
  php_stream_open_wrapper := λ _ _, open_stream [];
  zend_string_init_interned := λ _, mret 1%positive;
  zend_register_constant := λ v _, take_stream v;
  zend_get_constant_ptr := λ _, find_constant;
  zend_register_functions := λ _, mret (cfg_register cfg);
  zend_unregister_functions := λ _ _, mret ();
  zend_eval_stringl := λ _ _, mret SUCCESS;
  php_execute_script := λ _, mret true;
  zend_signal_startup := mret ();
  sapi_startup := mret ();
  module_startup := λ _ _, mret SUCCESS;
  php_request_startup := boot;
  php_module_shutdown := mret ();
  php_embed_shutdown := mret ();
  php_register_variable := λ _ _, mret ();
  zend_fetch_resource2_ex := λ z, mret (Z_COUNTED z);
  php_stream_cast := λ _ _, mret (SUCCESS, 5) |}.

(** The exported destructor is the inline one over the same engine. *)
Definition model : ZendEngine (gset positive) := {|
  rc_dtor_func := @rc_dtor_func _ base;
  gc_possible_root := @gc_possible_root _ base;
  zval_ptr_dtor := @i_zval_ptr_dtor _ base;
  pemalloc_ok := @pemalloc_ok _ base;
  zend_lookup_class := @zend_lookup_class _ base;
  zend_hash_str_find := @zend_hash_str_find _ base;
  zend_call_known_function := @zend_call_known_function _ base;
  sapi_header_op_delete_all := @sapi_header_op_delete_all _ base;
  php_stream_temp_open := @php_stream_temp_open _ base;
  php_stream_close := @php_stream_close _ base;
  php_stream_open_wrapper := @php_stream_open_wrapper _ base;
  zend_string_init_interned := @zend_string_init_interned _ base;
  zend_register_constant := @zend_register_constant _ base;
  zend_get_constant_ptr := @zend_get_constant_ptr _ base;
  zend_register_functions := @zend_register_functions _ base;
  zend_unregister_functions := @zend_unregister_functions _ base;
  zend_eval_stringl := @zend_eval_stringl _ base;
  php_execute_script := @php_execute_script _ base;
  zend_signal_startup := @zend_signal_startup _ base;
  sapi_startup := @sapi_startup _ base;
  module_startup := @module_startup _ base;
  php_request_startup := @php_request_startup _ base;
  php_module_shutdown := @php_module_shutdown _ base;
  php_embed_shutdown := @php_embed_shutdown _ base;
  php_register_variable := @php_register_variable _ base;
  zend_fetch_resource2_ex := @zend_fetch_resource2_ex _ base;
  php_stream_cast := @php_stream_cast _ base |}.

Definition model_ownership : Ownership (gset positive) := {|
  engine_refs := λ _ _, 0%nat;
  engine_streams := λ e, e |}.

End model.

(** An engine before the process started anything. *)
Definition globals0 : sapi_globals := SapiGlobals [] 200 0 0 None 0 [] 0 0.
Definition es0 : mes := ES ∅ ∅ ∅ globals0 0 None false ∅.

(** A C library whose [malloc] succeeds and whose environment is empty. *)
Definition plain_host : Host := {| getenv := λ _, None; malloc_ok := λ _ _, true |}.

(** ** The laws hold *)
#[export] Existing Instance model_ownership.

Lemma open_stream_ok data (s : mes) R T :
  owned s R T →
  wp (open_stream data)
     (λ r s', ∃ p st, r = Some p ∧ (p ∉ T) ∧ owned s' R (T ∪ {[p]}) ∧
        es_streams s' !! p = Some st ∧ stream_data st = data ∧
        es_heap s' = es_heap s ∧ SG s' = SG s ∧ eg_bailout s' = eg_bailout s ∧ es_priv s' = es_priv s ∧
        ∀ q, q ∈ T → es_streams s' !! q = es_streams s !! q) never s.
Proof.
  intros (Hc&(Hd&Hj&Hr)&Hs). unfold wp, open_stream. set (p := fresh (dom (es_streams s))).
  assert (Hp : p ∉ dom (es_streams s)) by apply is_fresh.
  assert (Hpe : (p ∉ es_priv s) ∧ p ∉ T) by (rewrite Hd in Hp; simpl in Hp; set_solver).
  set (st := Stream _ 0 false data). exists p, st. simpl.
  split_and!; try done; [apply Hpe| |apply lookup_insert_eq|].
  - split_and!; [done| |done]. split_and!; simpl.
    + rewrite dom_insert_L, Hd. simpl. set_solver.
    + simpl in *. set_solver.
    + assert (Hfresh : ∀ q sq, es_streams s !! q = Some sq → stream_res sq ≠ stream_res st).
      { intros q sq Hq Heq. assert (Hin : stream_res sq ∈ resources (es_streams s)).
        { apply elem_of_list_to_set, list_elem_of_fmap. exists (q, sq). split; [done|].
          by apply elem_of_map_to_list. }
        rewrite Heq in Hin. by apply is_fresh in Hin. }
      intros a b sa sb [[<- <-]|[Ha Ha']]%lookup_insert_Some [[<- <-]|[Hb Hb']]%lookup_insert_Some Heq;
        [done|exfalso; by eapply (Hfresh b sb)|exfalso; by eapply (Hfresh a sa)|by eapply Hr].
  - intros q Hq. rewrite lookup_insert_ne; [done|]. intros <-. by apply Hpe.
Qed.

Lemma close_stream_ok p (s : mes) R T :
  owned s R (T ∪ {[p]}) → p ∉ T →
  wp (close_stream p)
     (λ _ s', owned s' R T ∧ eg_bailout s' = eg_bailout s ∧ SG s' = SG s) never s.
Proof.
  intros (Hc&(Hd&Hj&Hr)&Hs) Hp. unfold wp, close_stream.
  assert (is_Some (es_streams s !! p)) as [st Hst] by (apply elem_of_dom; rewrite Hd; set_solver).
  rewrite Hst. split_and!; [|done|done]. split_and!; [done| |done]. simpl in *. split_and!; simpl.
  - rewrite dom_delete_L, Hd. set_solver.
  - set_solver.
  - intros a b sa sb [_ Ha]%lookup_delete_Some [_ Hb]%lookup_delete_Some. by apply (Hr a b).
Qed.

Lemma take_stream_ok p st v (s : mes) R T :
  owned s R (T ∪ {[p]}) → p ∉ T → es_streams s !! p = Some st → z_value v = VCounted (stream_res st) →
  wp (take_stream v) (λ _ s', owned s' R T ∧ es_streams s' = es_streams s) never s.
Proof.
  intros (Hc&(Hd&Hj&Hr)&Hs) Hp Hst Hv. unfold wp, take_stream. split; [|done].
  assert (Hdom : dom (filter (λ x, VCounted (stream_res x.2) = z_value v) (es_streams s)) = {[p]}).
  { apply set_eq. intros q. rewrite elem_of_dom, elem_of_singleton. split.
    - intros [sq [Hq Heq]%map_lookup_filter_Some]. simpl in Heq. rewrite Hv in Heq. simplify_eq.
      by apply (Hr q p sq st).
    - intros ->. exists st. apply map_lookup_filter_Some. by rewrite Hv. }
  split_and!; [done| |done]. simpl in *. rewrite Hdom. split_and!; [|set_solver|done].
  simpl. rewrite Hd. set_solver.
Qed.

Lemma answer_call_ok cfg f c z args (s : mes) R T :
  fits (cfg_answer cfg) → owned s R T →
  let '(_, r, s') := answer_call cfg f c z args s in
  plain_value (es_heap s') r ∧ owned s' (R ⊎ zrefs r) T ∧ heap_only s s'.
Proof.
  intros Hf Ho. unfold answer_call.
  destruct (halloc (new_string (cfg_answer cfg) false) (es_heap s)) as [l h] eqn:Ha.
  apply halloc_fresh in Ha as [Hn ->]. split_and!; [| |by eexists].
  - exists l, (new_string (cfg_answer cfg) false), (cfg_answer cfg). simpl. rewrite lookup_insert_eq.
    split_and!; auto using new_string_str, new_string_ok.
  - pose proof (proj1 Ho l) as Hc. rewrite Hn in Hc. destruct Hc as (He&Hk&Hr).
    apply (owned_with_heap s R _ T l (Some (new_string (cfg_answer cfg) false))); [done| |].
    + intros l' Hd. change (zrefs (ZVAL_NEW_STR zval_uninit l)) with ({[+ l +]} : gmultiset loc).
      rewrite multiplicity_disj_union, multiplicity_singleton_ne by done. lia.
    + change (zrefs (ZVAL_NEW_STR zval_uninit l)) with ({[+ l +]} : gmultiset loc).
      rewrite multiplicity_disj_union, multiplicity_singleton_eq, He, Hk, Hr.
      split_and!; [done|apply new_string_str|done..].
Qed.

Lemma ran_same cfg (s : mes) R T : owned s R T → @ran _ (model cfg) _ s R T s.
Proof. intros Ho. split; [done|]. split; [by intros ce n zv|]. exists T. split; [done|by left]. Qed.

Lemma boot_owned (s : mes) : wp boot (λ r s', r ≠ FAILURE → owned s' ∅ ∅) never s.
Proof.
  unfold wp, boot. intros _. split_and!.
  - intros l. simpl. rewrite lookup_empty. unfold singletonM, map_singleton.
    rewrite const_refs_insert, delete_empty. done.
  - split_and!; [done|done|]. simpl. intros a b sa sb H. by rewrite lookup_empty in H.
  - intros l Hl. by apply gmultiset_not_elem_of_empty in Hl.
Qed.

Lemma model_laws cfg : fits (cfg_answer cfg) → @EngineLaws _ (model cfg) _.
Proof.
  intros Hf. constructor.
  - intros z s. reflexivity.
  - intros l o s Hl _ _. done.
  - intros name s R T Ho _. by apply ran_same.
  - intros ce name e zv [= <-]. by eexists.
  - intros f c z args s R T Ho _ _. pose proof (answer_call_ok cfg f c z args s R T Hf Ho) as H.
    change (@zend_call_known_function _ (model cfg) f c z args s) with (answer_call cfg f c z args s).
    destruct (answer_call cfg f c z args s) as [[ret r] s']. destruct H as (Hpl&Ho'&[h ->]).
    split; [exact Hpl|]. split; [done|]. split; [by intros ce n zv|]. exists T. split; [exact Ho'|by left].
  - intros s R T Ho. split_and!; try done; by intros l o bs; eauto.
  - intros data s R T Ho. eapply wp_mono; [by apply open_stream_ok| |done]. cbn beta.
    intros r s' (p&st&->&Hp&Ho'&Hst&Hda&Hh&HSG&Hb&_&_). 
    split; [done|]. split; [done|]. split; [by intros ce n zv|].
    split; [intros l o bs _ Hl Hok; rewrite Hh; eauto|]. split_and!; [done|done|by exists st].
  - intros src name s R T Ho. split; [by left|by apply ran_same].
  - intros file s R T Ho. by apply ran_same.
  - intros p s R T Ho Hp. eapply wp_mono; [by apply close_stream_ok| |done]. cbn beta.
    intros _ s' (?&?&?). split; [done|]. split; [done|]. split; [done|by intros ce n zv].
Qed.

Lemma model_lifecycle cfg : @LifecycleLaws _ (model cfg) _.
Proof.
  constructor; try done.
  - apply boot_owned.
  - intros name s R T Ho _. unfold wp. simpl. unfold find_constant.
    destruct (es_constants s !! binary_constant) as [v|] eqn:Hv; [|done].
    destruct (Z_REFCOUNTED v || (zval_get_type v =? IS_STRING)) eqn:Hc; [done|].
    apply orb_false_iff in Hc as [Hr Ht]. split_and!; [done|done|].
    intros c [= <-]. exists v. split; [done|]. unfold plain_value. by rewrite Ht.
  - intros path mode s R T Ho. eapply wp_mono; [by apply open_stream_ok| |done]. cbn beta.
    intros r s' (p&st&->&Hp&Ho'&_&_&_&_&_&_&Hq). done.
  - intros p st v name s R T Ho Hp Hst Hv. eapply wp_mono; [by eapply take_stream_ok| |done]. cbn beta.
    intros _ s' [Ho' ->]. done.
Qed.
