(* ===== verification/ZendAssign.v ===== *)
(** * Assignment (Zend/zend_execute.h, Zend/zend_operators.h)

    How a value gets into a variable: by the kind of its operand it is copied or
    moved, a reference is looked through on either side, and what the variable held
    is released after the new value is in place. The theorems account for every
    reference: a counted value's count is the number of its holders, before and
    after. Assignments to references of typed properties are left to the engine. *)

From S2P Require Import Prelude ZendTypes ZendString Engine.

Module Assign.

(** The kinds of an operand (zend_compile.h). *)
Definition IS_CONST : Z := Z.shiftl 1 0.
Definition IS_TMP_VAR : Z := Z.shiftl 1 1.
Definition IS_VAR : Z := Z.shiftl 1 2.
Definition IS_CV : Z := Z.shiftl 1 3.

(** [ZEND_CONST_COND]: the condition when the compiler knows it, else the default. *)
Definition ZEND_CONST_COND (known condition default : bool) : bool := if known then condition else default.

Definition Z_REFVAL (l : loc) (h : zheap) : option zval :=
  o ← h !! l; match gc_body o with BReference v => Some v | _ => None end.

Definition addref_if_counted (z : zval) (h : zheap) : option (zval * zheap) :=
  if Z_OPT_REFCOUNTED z then h ← zval_addref_p z h; Some (z, h) else Some (z, h).

(** [known]: whether the compiler knows [value_type]. *)
Definition zend_copy_to_variable (known : bool) (variable value : zval) (value_type : Z) (h : zheap)
    : option (zval * zheap) :=
  '(ref, value) ←
    (if ZEND_CONST_COND known (negb (Z.land value_type (Z.lor IS_VAR IS_CV) =? 0)) true && Z_ISREF value
     then l ← Z_COUNTED value; v ← Z_REFVAL l h; Some (Some l, v) else Some (None, value));
  let variable := ZVAL_COPY_VALUE variable value in
  if ZEND_CONST_COND known (value_type =? IS_CONST) false then addref_if_counted variable h
  else if negb (Z.land value_type (Z.lor IS_CONST IS_CV) =? 0) then addref_if_counted variable h
  else
    match ref with
    | Some l =>
        if ZEND_CONST_COND known (value_type =? IS_VAR) true then
          '(rc, h) ← GC_DELREF l h;
          if rc =? 0 then Some (variable, delete l h) else addref_if_counted variable h
        else Some (variable, h)
    | None => Some (variable, h)
    end.

(** Store into the zval inside a reference. *)
Definition set_refval (l : loc) (z : zval) (h : zheap) : option zheap :=
  o ← h !! l; Some (<[l := Counted (gc_refcount o) (gc_type_info o) (BReference z)]> h).

Section assign.
Context {E : Type} {engine : ZendEngine E}.
(** [ZEND_REF_HAS_TYPE_SOURCES], and the engine's assignments for such references. *)
Context (has_type_sources : loc → bool) (zend_assign_to_typed_ref : zval → zval → Z → bool → M (es E) zval)
  (zend_assign_to_typed_ref_ex : zval → zval → Z → bool → M (es E) (zval * option loc)).

(** The new contents of the variable. *)
Definition copy_to (known : bool) (variable value : zval) (value_type : Z) : M (es E) zval :=
  heap_op (zend_copy_to_variable known variable value value_type).
(** The same when the variable is the zval inside the reference at [l]. *)
Definition copy_into (known : bool) (l : loc) (value : zval) (value_type : Z) : M (es E) () :=
  h ← gets es_heap; old ← need (Z_REFVAL l h);
  new ← copy_to known old value value_type; heap_do (set_refval l new).

Definition zend_assign_to_variable (known : bool) (variable value : zval) (value_type : Z) (strict : bool)
    : M (es E) zval :=
  if Z_REFCOUNTED variable then
    garbage ← need (Z_COUNTED variable);
    if Z_ISREF variable then
      if has_type_sources garbage then zend_assign_to_typed_ref variable value value_type strict
      else
        h ← gets es_heap; inner ← need (Z_REFVAL garbage h);
        copy_into known garbage value value_type;;
        (if Z_REFCOUNTED inner then old ← need (Z_COUNTED inner); GC_DTOR_NO_REF old else mret ());;
        mret variable
    else
      variable ← copy_to known variable value value_type;
      GC_DTOR_NO_REF garbage;; mret variable
  else copy_to known variable value value_type.

(** [zend_assign_to_variable_ex]: what is to be released is the caller's. *)
Definition zend_assign_to_variable_ex (known : bool) (variable value : zval) (value_type : Z) (strict : bool)
    : M (es E) (zval * option loc) :=
  if Z_REFCOUNTED variable then
    garbage ← need (Z_COUNTED variable);
    if Z_ISREF variable then
      if has_type_sources garbage then zend_assign_to_typed_ref_ex variable value value_type strict
      else
        h ← gets es_heap; inner ← need (Z_REFVAL garbage h);
        copy_into known garbage value value_type;;
        mret (variable, if Z_REFCOUNTED inner then Z_COUNTED inner else None)
    else v ← copy_to known variable value value_type; mret (v, Some garbage)
  else v ← copy_to known variable value value_type; mret (v, None).

(** [zend_safe_assign_to_variable_noref]: a move into a variable that is no
    reference. *)
Definition zend_safe_assign_to_variable_noref (variable value : zval) : M (es E) zval :=
  if Z_REFCOUNTED variable then
    if zval_get_type variable =? IS_REFERENCE then undef
    else
      ref ← need (Z_COUNTED variable);
      let variable := ZVAL_COPY_VALUE variable value in
      GC_DTOR_NO_REF ref;; mret variable
  else mret (ZVAL_COPY_VALUE variable value).
End assign.

(** [zend_unwrap_reference] (zend_operators.h). *)
Definition zend_unwrap_reference (op : zval) (h : zheap) : option (zval * zheap) :=
  rc ← zval_refcount_p op h;
  if rc =? 1 then ZVAL_UNREF op h
  else '(_, h) ← zval_delref_p op h; l ← Z_COUNTED op; v ← Z_REFVAL l h; ZVAL_COPY op v h.
End Assign.
Export Assign.

(** ** Accounting for references *)

(** The references held by reference cells. *)
Definition body_refs (o : zend_refcounted) : gmultiset loc :=
  match gc_body o with BReference v => zrefs v | _ => ∅ end.
Definition heap_refs (h : zheap) : gmultiset loc := map_fold (λ _ o acc, body_refs o ⊎ acc) ∅ h.

(** Every count is right: [X] are the references held by variables, [others l] those
    held inside arrays, objects and the engine; nobody holds what was freed. *)
Definition exact (others : loc → nat) (h : zheap) (X : gmultiset loc) : Prop :=
  ∀ l, match h !! l with
       | Some o => gc_refcount o = Z.of_nat (multiplicity l (X ⊎ heap_refs h) + others l) ∧ gc_refcount o < 2 ^ 32
       | None => multiplicity l (X ⊎ heap_refs h) = 0%nat
       end.

Section accounting.
Implicit Types (h : zheap) (o : zend_refcounted) (X : gmultiset loc) (z v : zval).

Lemma heap_refs_insert h l o : h !! l = None → heap_refs (<[l := o]> h) = body_refs o ⊎ heap_refs h.
Proof.
  intros Hl. unfold heap_refs. apply (map_fold_insert_L (λ _ o acc, body_refs o ⊎ acc)); [|done].
  intros. multiset_solver.
Qed.
Lemma heap_refs_delete h l o : h !! l = Some o → heap_refs h = body_refs o ⊎ heap_refs (delete l h).
Proof.
  intros Hl. rewrite <- (insert_delete_id h l o Hl) at 1. apply heap_refs_insert, lookup_delete_eq.
Qed.
Lemma heap_refs_update h l o o' :
  h !! l = Some o → heap_refs (<[l := o']> h) ⊎ body_refs o = heap_refs h ⊎ body_refs o'.
Proof.
  intros Hl. rewrite (heap_refs_delete h l o Hl), <- insert_delete_eq, heap_refs_insert by apply lookup_delete_eq.
  multiset_solver.
Qed.
Lemma heap_refs_count h l o rc : h !! l = Some o → heap_refs (<[l := with_refcount o rc]> h) = heap_refs h.
Proof.
  intros Hl. pose proof (heap_refs_update h l o (with_refcount o rc) Hl) as H.
  change (body_refs (with_refcount o rc)) with (body_refs o) in H. multiset_solver.
Qed.

(** One more holder, one less, and one less that was the last. *)
Lemma exact_addref others h X l o :
  exact others h X → h !! l = Some o → gc_refcount o + 1 < 2 ^ 32 →
  exact others (<[l := zend_gc_addref o]> h) (X ⊎ {[+ l +]}).
Proof.
  intros Hx Hl Hb k. pose proof (Hx l) as Hxl. rewrite Hl in Hxl. unfold zend_gc_addref. rewrite heap_refs_count by done.
  specialize (Hx k). destruct (decide (k = l)) as [->|Hne].
  - rewrite lookup_insert_eq. cbn [with_refcount gc_refcount]. rewrite Hl in Hx. destruct Hx as [Hx Hlt].
    rewrite u32_small by lia. rewrite Hx at 1. rewrite !multiplicity_disj_union, multiplicity_singleton_eq in *. lia.
  - rewrite lookup_insert_ne by done. rewrite !multiplicity_disj_union in *.
    rewrite multiplicity_singleton_ne by done. by rewrite Nat.add_0_r.
Qed.

Lemma exact_live others h X l : exact others h (X ⊎ {[+ l +]}) → ∃ o, h !! l = Some o ∧ 0 < gc_refcount o < 2 ^ 32.
Proof.
  intros Hx. specialize (Hx l). rewrite !multiplicity_disj_union, multiplicity_singleton_eq in Hx.
  destruct (h !! l) as [o|]; [|lia]. exists o. split; [done|]. lia.
Qed.

Lemma exact_delref others h X l o :
  exact others h (X ⊎ {[+ l +]}) → h !! l = Some o →
  exact others (<[l := with_refcount o (gc_refcount o - 1)]> h) X.
Proof.
  intros Hx Hl k. rewrite heap_refs_count by done. specialize (Hx k). rewrite !multiplicity_disj_union in *.
  destruct (decide (k = l)) as [->|Hne].
  - rewrite lookup_insert_eq. rewrite Hl, multiplicity_singleton_eq in Hx. cbn [with_refcount gc_refcount]. lia.
  - rewrite lookup_insert_ne by done. rewrite multiplicity_singleton_ne, Nat.add_0_r in Hx by done. done.
Qed.

(** The last holder of a reference cell takes its value and frees the cell. *)
Lemma exact_unref others h X l o v :
  exact others h (X ⊎ {[+ l +]}) → h !! l = Some o → gc_body o = BReference v → gc_refcount o = 1 →
  exact others (delete l h) (X ⊎ zrefs v).
Proof.
  intros Hx Hl Hb H1 k. pose proof (heap_refs_delete h l o Hl) as Hh. unfold body_refs in Hh. rewrite Hb in Hh.
  pose proof (Hx l) as Hxl. rewrite Hl in Hxl. specialize (Hx k).
  rewrite !multiplicity_disj_union, multiplicity_singleton_eq in Hxl. rewrite Hh, !multiplicity_disj_union in *.
  destruct (decide (k = l)) as [->|Hne].
  - rewrite lookup_delete_eq. lia.
  - rewrite lookup_delete_ne by done. rewrite multiplicity_singleton_ne in Hx by done.
    destruct (h !! k) as [ok|]; [|lia]. destruct Hx as [Hx ?]. split; [|done]. rewrite Hx. lia.
Qed.

(** A value moved into a reference cell, the old one moved out. *)
Lemma exact_set others h X l o v v' :
  exact others h (X ⊎ zrefs v') → h !! l = Some o → gc_body o = BReference v →
  exact others (<[l := Counted (gc_refcount o) (gc_type_info o) (BReference v')]> h) (X ⊎ zrefs v).
Proof.
  intros Hx Hl Hb k. pose proof (heap_refs_update h l o (Counted (gc_refcount o) (gc_type_info o) (BReference v')) Hl) as Hh.
  unfold body_refs in Hh at 1 2. rewrite Hb in Hh. cbn [gc_body] in Hh.
  apply (f_equal (multiplicity k)) in Hh. rewrite !multiplicity_disj_union in Hh.
  specialize (Hx k). rewrite !multiplicity_disj_union in *.
  destruct (decide (k = l)) as [->|Hne].
  - rewrite lookup_insert_eq. rewrite Hl in Hx. cbn [gc_refcount]. lia.
  - rewrite lookup_insert_ne by done. destruct (h !! k); lia.
Qed.
End accounting.

(** ** Copying into a variable *)
Section copying.
Implicit Types (h : zheap) (X : gmultiset loc) (z v value variable : zval).

(** A zval whose type word and value agree, and whose reference leads to a value. *)
Definition counted_zval z : Prop := Z_REFCOUNTED z = true → is_Some (Z_COUNTED z).
Definition value_ok h z : Prop :=
  counted_zval z ∧
  (Z_ISREF z = true →
     Z_REFCOUNTED z = true ∧ ∃ l v, Z_COUNTED z = Some l ∧ Z_REFVAL l h = Some v ∧ counted_zval v ∧ Z_ISREF v = false).

Definition operand (t : Z) : Prop := t = IS_CONST ∨ t = IS_TMP_VAR ∨ t = IS_VAR ∨ t = IS_CV.
(** Temporaries are used up, constants and compiled variables stay. *)
Definition used_up (t : Z) : bool := (t =? IS_TMP_VAR) || (t =? IS_VAR).
Definition consumed (t : Z) value : gmultiset loc := if used_up t then zrefs value else ∅.
(** Constants and temporaries are never references. *)
Definition operand_ok (t : Z) h value : Prop :=
  operand t ∧ value_ok h value ∧ (t = IS_CONST ∨ t = IS_TMP_VAR → Z_ISREF value = false).

(** No count is about to overflow. *)
Definition room h : Prop := ∀ l o, h !! l = Some o → gc_refcount o + 1 < 2 ^ 32.

(** Counts may have changed and values may be gone, but nothing else. *)
Definition keeps h h' : Prop :=
  ∀ k o', h' !! k = Some o' → ∃ o, h !! k = Some o ∧ gc_body o' = gc_body o ∧ gc_type_info o' = gc_type_info o.
#[global] Instance keeps_preorder : PreOrder keeps.
Proof.
  split; [intros h k o; eauto|]. intros h1 h2 h3 H12 H23 k o Ho. destruct (H23 k o Ho) as (o2&Ho2&Hb&Ht).
  destruct (H12 k o2 Ho2) as (o1&?&?&?). exists o1. split_and!; congruence.
Qed.
Lemma keeps_count h l o rc : h !! l = Some o → keeps h (<[l := with_refcount o rc]> h).
Proof.
  intros Ho k o'. destruct (decide (k = l)) as [->|Hne].
  - rewrite lookup_insert_eq. intros [= <-]. eauto.
  - rewrite lookup_insert_ne by done. eauto.
Qed.
Lemma keeps_delete h l : keeps h (delete l h).
Proof. intros k o' [_ Ho]%lookup_delete_Some. eauto. Qed.

Lemma zrefs_copy z v : zrefs (ZVAL_COPY_VALUE z v) = zrefs v.
Proof. done. Qed.

Lemma zrefs_counted z l : Z_REFCOUNTED z = true → Z_COUNTED z = Some l → zrefs z = {[+ l +]}.
Proof. unfold zrefs. by intros -> ->. Qed.
Lemma zrefs_plain z : Z_REFCOUNTED z = false → zrefs z = ∅.
Proof. unfold zrefs. by intros ->. Qed.

(** A value that somebody holds gets one more holder. *)
Lemma addref_exact others h X z :
  counted_zval z → exact others h X → zrefs z ⊆ X ⊎ heap_refs h → room h →
  ∃ h', addref_if_counted z h = Some (z, h') ∧ exact others h' (X ⊎ zrefs z) ∧ keeps h h'.
Proof.
  intros Hc Hx Hin Hroom. unfold addref_if_counted. rewrite opt_refcounted. destruct (Z_REFCOUNTED z) eqn:Hr.
  - destruct (Hc Hr) as [l Hl]. rewrite (zrefs_counted z l Hr Hl) in Hin |- *.
    assert (Ho : ∃ o, h !! l = Some o).
    { specialize (Hx l). destruct (h !! l) as [o|]; [eauto|]. exfalso.
      apply gmultiset_singleton_subseteq_l in Hin. rewrite elem_of_multiplicity in Hin. lia. }
    destruct Ho as [o Ho]. unfold zval_addref_p. rewrite Hr, Hl. cbn [mbind option_bind].
    rewrite (GC_ADDREF_lookup l h o Ho). cbn [mbind option_bind]. eexists. split; [done|]. split.
    + apply exact_addref; [done|done|by apply (Hroom l)].
    + by apply keeps_count.
  - exists h. rewrite (zrefs_plain z Hr), (right_id_L ∅ (⊎)). done.
Qed.

Lemma heap_refs_refval h l v : Z_REFVAL l h = Some v → zrefs v ⊆ heap_refs h.
Proof.
  unfold Z_REFVAL. destruct (h !! l) as [o|] eqn:Ho; [|done]. cbn [mbind option_bind].
  destruct (gc_body o) as [| v'|] eqn:Hb; try done. intros [= ->]. rewrite (heap_refs_delete h l o Ho).
  unfold body_refs. rewrite Hb. multiset_solver.
Qed.

(** What the compiler knows about the operand makes no difference. *)
Lemma copy_known_irrelevant h variable value t :
  operand_ok t h value → zend_copy_to_variable true variable value t h = zend_copy_to_variable false variable value t h.
Proof.
  intros (Ht&_&Href). unfold zend_copy_to_variable, ZEND_CONST_COND.
  destruct Ht as [->|[->|[->| ->]]]; cbn; try rewrite Href by auto; done.
Qed.

(** The value behind an operand. *)
Definition behind h value : option zval := ZVAL_DEREF value h.

Lemma copy_plain others h X variable value t :
  operand_ok t h value → Z_ISREF value = false → exact others h (X ⊎ consumed t value) →
  (used_up t = false → zrefs value ⊆ X) → room h →
  ∃ h', zend_copy_to_variable true variable value t h = Some (ZVAL_COPY_VALUE variable value, h') ∧
    exact others h' (X ⊎ zrefs value) ∧ keeps h h'.
Proof.
  intros (Ht&[Hc _]&_) Hr Hx Hin Hroom. unfold zend_copy_to_variable. rewrite Hr, andb_false_r. cbn [mbind option_bind].
  assert (Hadd : used_up t = false → ∃ h', addref_if_counted (ZVAL_COPY_VALUE variable value) h =
    Some (ZVAL_COPY_VALUE variable value, h') ∧ exact others h' (X ⊎ zrefs value) ∧ keeps h h').
  { intros Hu. unfold consumed in Hx. rewrite Hu, (right_id_L ∅ (⊎)) in Hx. specialize (Hin Hu).
    destruct (addref_exact others h X (ZVAL_COPY_VALUE variable value)) as (h'&?&?&?); [done|done| |done|eauto].
    rewrite zrefs_copy. multiset_solver. }
  destruct Ht as [->|[->|[->| ->]]]; cbn; [by apply Hadd| | |by apply Hadd]; exists h; done.
Qed.

Lemma copy_reference others h X variable value t l v :
  t = IS_VAR ∨ t = IS_CV → Z_ISREF value = true → Z_REFCOUNTED value = true → Z_COUNTED value = Some l →
  Z_REFVAL l h = Some v → counted_zval v → exact others h (X ⊎ consumed t value) → room h →
  ∃ h', zend_copy_to_variable true variable value t h = Some (ZVAL_COPY_VALUE variable v, h') ∧
    exact others h' (X ⊎ zrefs v) ∧ keeps h h'.
Proof.
  intros Ht Hr Hrc Hl Hv Hcv Hx Hroom. unfold zend_copy_to_variable. rewrite Hr, Hl.
  destruct Ht as [->| ->]; unfold ZEND_CONST_COND.
  - change (consumed IS_VAR value) with (zrefs value) in Hx. rewrite (zrefs_counted value l Hrc Hl) in Hx.
    destruct (exact_live _ _ _ _ Hx) as (o&Ho&Hrcb).
    change (negb (Z.land IS_VAR (Z.lor IS_VAR IS_CV) =? 0)) with true. change (IS_VAR =? IS_CONST) with false.
    change (negb (Z.land IS_VAR (Z.lor IS_CONST IS_CV) =? 0)) with false. rewrite Z.eqb_refl.
    cbn [andb mbind option_bind]. rewrite Hv. cbn [mbind option_bind].
    rewrite (GC_DELREF_lookup l h o Ho Hrcb). cbn [mbind option_bind].
    assert (Hb : gc_body o = BReference v).
    { unfold Z_REFVAL in Hv. rewrite Ho in Hv. cbn in Hv. destruct (gc_body o); congruence. }
    destruct (Z.eqb_spec (gc_refcount o - 1) 0).
    + eexists. split; [done|]. rewrite delete_insert_eq. split; [|apply keeps_delete].
      eapply exact_unref; [exact Hx|done|done|lia].
    + pose proof (exact_delref others h X l o Hx Ho) as Hx1.
      destruct (addref_exact others _ X (ZVAL_COPY_VALUE variable v) Hcv Hx1) as (h'&?&?&?).
      * rewrite zrefs_copy, heap_refs_count by done. pose proof (heap_refs_refval h l v Hv). multiset_solver.
      * intros k ok. destruct (decide (k = l)) as [->|Hne].
        -- rewrite lookup_insert_eq. intros [= <-]. cbn. lia.
        -- rewrite lookup_insert_ne by done. apply Hroom.
      * exists h'. split_and!; [done..|]. etrans; [by apply keeps_count|done].
  - change (consumed IS_CV value) with (∅ : gmultiset loc) in Hx. rewrite (right_id_L ∅ (⊎)) in Hx.
    change (negb (Z.land IS_CV (Z.lor IS_VAR IS_CV) =? 0)) with true. change (IS_CV =? IS_CONST) with false.
    change (negb (Z.land IS_CV (Z.lor IS_CONST IS_CV) =? 0)) with true. cbn [andb mbind option_bind]. rewrite Hv.
    cbn [mbind option_bind].
    destruct (addref_exact others h X (ZVAL_COPY_VALUE variable v) Hcv Hx) as (h'&?&?&?); [|done|eauto].
    rewrite zrefs_copy. pose proof (heap_refs_refval h l v Hv). multiset_solver.
Qed.

Lemma copy_spec known others h X variable value t :
  operand_ok t h value → exact others h (X ⊎ consumed t value) → (used_up t = false → zrefs value ⊆ X) → room h →
  ∃ v h', behind h value = Some v ∧ counted_zval v ∧
    zend_copy_to_variable known variable value t h = Some (ZVAL_COPY_VALUE variable v, h') ∧
    exact others h' (X ⊎ zrefs v) ∧ keeps h h'.
Proof.
  intros Hok Hx Hin Hroom. pose proof Hok as (Ht&[Hc Hdef]&Hno).
  assert (Hk : zend_copy_to_variable known variable value t h = zend_copy_to_variable true variable value t h)
    by (destruct known; [done|symmetry; by apply copy_known_irrelevant]).
  rewrite Hk. unfold behind, ZVAL_DEREF. destruct (Z_ISREF value) eqn:Hr.
  - destruct (Hdef eq_refl) as (Hrc&l&v&Hl&Hv&Hcv&_). exists v. rewrite Hl. cbn [mbind option_bind].
    assert (Ht' : t = IS_VAR ∨ t = IS_CV). { destruct Ht as [->|[->|[->| ->]]]; auto; by specialize (Hno ltac:(auto)). }
    destruct (copy_reference others h X variable value t l v Ht' Hr Hrc Hl Hv Hcv Hx Hroom) as (h'&?&?&?).
    exists h'. split_and!; [exact Hv|done..].
  - destruct (copy_plain others h X variable value t Hok Hr Hx Hin Hroom) as (h'&?&?&?). exists value, h'. done.
Qed.

(** Copying an operand into a variable is defined, whatever the kind of the operand
    and whether or not the compiler knows it. The variable gets the value behind the
    operand, not the reference to it; a temporary gives its hold up, a constant or a
    compiled variable keeps it; a reference whose last holder was the operand is
    freed. Every count is exact before and after: no value is leaked or freed while
    it is held. *)
Theorem copy_keeps_counts known others h X variable value t :
  operand_ok t h value → exact others h (X ⊎ consumed t value) → (used_up t = false → zrefs value ⊆ X) → room h →
  ∃ v h', behind h value = Some v ∧ zend_copy_to_variable known variable value t h = Some (ZVAL_COPY_VALUE variable v, h') ∧
    exact others h' (X ⊎ zrefs v) ∧ keeps h h'.
Proof.
  intros Hok Hx Hin Hroom. destruct (copy_spec known others h X variable value t Hok Hx Hin Hroom) as (v&h'&?&?&?&?&?).
  exists v, h'. split_and!; done.
Qed.
End copying.

(** ** Assignment *)
Section assigning.
Context {E : Type} {engine : ZendEngine E}.
Context (typed : loc → bool) (typed_ref : zval → zval → Z → bool → M (es E) zval)
  (typed_ref_ex : zval → zval → Z → bool → M (es E) (zval * option loc)) (others : loc → nat).
Implicit Types (s : es E) (X : gmultiset loc) (variable value v : zval).

(** What an assignment leaves to release, and the release. *)
Definition release (garbage : option loc) : M (es E) () :=
  match garbage with Some g => GC_DTOR_NO_REF g | None => mret () end.
Definition released (garbage : option loc) : gmultiset loc :=
  match garbage with Some g => {[+ g +]} | None => ∅ end.

(** The variable after the assignment of [v]: a reference stays one, and what it
    refers to is the value. *)
Definition holds_value variable v variable' s : Prop :=
  if Z_ISREF variable then
    variable' = variable ∧
    ∃ l old, Z_COUNTED variable = Some l ∧ Z_REFVAL l (es_heap s) = Some (ZVAL_COPY_VALUE old v)
  else variable' = ZVAL_COPY_VALUE variable v.

Lemma copy_to_eq known variable value t s z h' :
  zend_copy_to_variable known variable value t (es_heap s) = Some (z, h') →
  copy_to (E := E) known variable value t s = Ret z (with_heap h' s).
Proof. intros H. unfold copy_to, heap_op. by rewrite H. Qed.

Lemma refval_cell l h v : Z_REFVAL l h = Some v → ∃ o, h !! l = Some o ∧ gc_body o = BReference v.
Proof.
  unfold Z_REFVAL. destruct (h !! l) as [o|]; [|done]. cbn. destruct (gc_body o) eqn:Hb; try done. intros [= ->]. eauto.
Qed.

Lemma zrefs_released z : counted_zval z → zrefs z = released (if Z_REFCOUNTED z then Z_COUNTED z else None).
Proof.
  intros Hc. destruct (Z_REFCOUNTED z) eqn:Hr; [|by apply zrefs_plain]. destruct (Hc Hr) as [l Hl].
  rewrite Hl. by apply zrefs_counted.
Qed.

(** The variable is a reference to [inner]. *)
Lemma copy_into_spec known X value t s l inner :
  let h := es_heap s in
  operand_ok t h value → Z_REFVAL l h = Some inner → exact others h (X ⊎ {[+ l +]} ⊎ consumed t value) →
  (used_up t = false → zrefs value ⊆ X ⊎ {[+ l +]}) → room h →
  ∃ v h', behind h value = Some v ∧ copy_into known l value t s = Ret () (with_heap h' s) ∧
    exact others h' (X ⊎ {[+ l +]} ⊎ zrefs inner) ∧ Z_REFVAL l h' = Some (ZVAL_COPY_VALUE inner v).
Proof using E others.
  clear typed typed_ref typed_ref_ex.
  cbv zeta. intros Hok Hinner Hx Hin Hroom.
  destruct (copy_spec known others _ (X ⊎ {[+ l +]}) inner value t Hok Hx Hin Hroom) as (v&h1&Hv&_&Hcopy&Hx1&Hk).
  assert (Ho1 : ∃ o1, h1 !! l = Some o1 ∧ gc_body o1 = BReference inner).
  { destruct (exact_live others h1 (X ⊎ zrefs v) l) as (o1&Ho1&_).
    { eapply eq_ind; [exact Hx1|]. multiset_solver. }
    destruct (Hk l o1 Ho1) as (o&Ho&Hb&_). destruct (refval_cell _ _ _ Hinner) as (o'&Ho'&Hb'). exists o1. split; [done|]. congruence. }
  destruct Ho1 as (o1&Ho1&Hb1).
  exists v, (<[l := Counted (gc_refcount o1) (gc_type_info o1) (BReference (ZVAL_COPY_VALUE inner v))]> h1).
  split; [done|]. split; [|split].
  - unfold copy_into, mbind, M_bind, gets, need. rewrite Hinner. cbn [mret M_ret].
    rewrite (copy_to_eq _ _ _ _ _ _ _ Hcopy). unfold heap_do, heap_op, set_refval. cbn [es_heap with_heap].
    rewrite Ho1. done.
  - eapply (exact_set others h1 (X ⊎ {[+ l +]}) l o1 inner (ZVAL_COPY_VALUE inner v)); done.
  - unfold Z_REFVAL. by rewrite lookup_insert_eq.
Qed.

(** The whole assignment, for a variable that is no typed reference. *)
Lemma assign_spec known X variable value t strict s :
  let h := es_heap s in
  operand_ok t h value → value_ok h variable →
  (Z_ISREF variable = true → ∀ l, Z_COUNTED variable = Some l → typed l = false) →
  exact others h (X ⊎ zrefs variable ⊎ consumed t value) →
  (used_up t = false → zrefs value ⊆ X ⊎ zrefs variable) → room h →
  ∃ v s' variable' garbage, behind h value = Some v ∧
    zend_assign_to_variable typed typed_ref known variable value t strict s = (release garbage;; mret variable') s' ∧
    zend_assign_to_variable_ex typed typed_ref_ex known variable value t strict s = Ret (variable', garbage) s' ∧
    exact others (es_heap s') (X ⊎ zrefs variable' ⊎ released garbage) ∧ holds_value variable v variable' s'.
Proof using All.
  cbv zeta. intros Hok [Hcv Href] Htyped Hx Hin Hroom. unfold zend_assign_to_variable, zend_assign_to_variable_ex, holds_value.
  destruct (Z_REFCOUNTED variable) eqn:Hrc; [destruct (Hcv Hrc) as [g Hg]; rewrite Hg; destruct (Z_ISREF variable) eqn:Hr|].
  - destruct (Href eq_refl) as (_&l&inner&Hl&Hinner&Hci&_). rewrite Hg in Hl. injection Hl as <-.
    rewrite (zrefs_counted variable g Hrc Hg) in Hx, Hin.
    destruct (copy_into_spec known X value t s g inner Hok Hinner Hx Hin Hroom) as (v&h'&Hv&Hinto&Hx'&Hnew).
    exists v, (with_heap h' s), variable, (if Z_REFCOUNTED inner then Z_COUNTED inner else None).
    split; [done|]. unfold mbind, M_bind, need. cbn [mret M_ret]. rewrite (Htyped eq_refl g Hg).
    unfold gets. rewrite Hinner. cbn [mret M_ret]. rewrite Hinto. split; [|split; [done|split]].
    + destruct (Z_REFCOUNTED inner) eqn:Hi; [|done]. destruct (Hci Hi) as [k ->]. done.
    + rewrite <- zrefs_released, (zrefs_counted variable g Hrc Hg) by done. done.
    + split; [done|]. exists g, inner. done.
  - rewrite (zrefs_counted variable g Hrc Hg) in Hx, Hin.
    destruct (copy_spec known others (es_heap s) (X ⊎ {[+ g +]}) variable value t Hok Hx Hin Hroom) as (v&h'&Hv&_&Hcopy&Hx'&_).
    exists v, (with_heap h' s), (ZVAL_COPY_VALUE variable v), (Some g). split; [done|].
    unfold mbind, M_bind, need. cbn [mret M_ret]. rewrite (copy_to_eq _ _ _ _ _ _ _ Hcopy).
    split; [done|]. split; [done|]. split; [|done]. rewrite zrefs_copy. cbn [released].
    eapply eq_ind; [exact Hx'|]. multiset_solver.
  - rewrite (zrefs_plain variable Hrc), (right_id_L ∅ (⊎)) in Hx, Hin.
    destruct (copy_spec known others (es_heap s) X variable value t Hok Hx Hin Hroom) as (v&h'&Hv&_&Hcopy&Hx'&_).
    assert (Hr : Z_ISREF variable = false) by (destruct (Z_ISREF variable); [by destruct (Href eq_refl)|done]).
    exists v, (with_heap h' s), (ZVAL_COPY_VALUE variable v), None. rewrite Hr. split; [done|].
    unfold mbind, M_bind. rewrite (copy_to_eq _ _ _ _ _ _ _ Hcopy).
    split; [done|]. split; [done|]. split; [|done]. rewrite zrefs_copy. cbn [released]. by rewrite (right_id_L ∅ (⊎)).
Qed.
End assigning.

(** ** What is released *)
Section releasing.
Context {E : Type} {engine : ZendEngine E}.
Implicit Types (s : es E) (X : gmultiset loc) (variable value v z : zval).

(** What is left to do for a value that has lost a holder: it is destroyed when that
    was the last one, and handed to the collector's check otherwise. *)
Definition finish_release (garbage : option loc) : M (es E) () :=
  match garbage with
  | Some g =>
      h ← gets es_heap; o ← need (h !! g);
      if gc_refcount o =? 0 then rc_dtor_func g else gc_check_possible_root_no_ref g
  | None => mret ()
  end.

Lemma keeps_refval h h' l v o : keeps h h' → Z_REFVAL l h = Some v → h' !! l = Some o → Z_REFVAL l h' = Some v.
Proof.
  intros Hk Hv Ho. destruct (Hk l o Ho) as (o0&Ho0&Hb&_). destruct (refval_cell _ _ _ Hv) as (o1&Ho1&Hb1).
  unfold Z_REFVAL. rewrite Ho. cbn. rewrite Hb. simplify_eq. by rewrite Hb1.
Qed.

Lemma addref_stays z z' h h' l : addref_if_counted z h = Some (z', h') → h !! l ≠ None → h' !! l ≠ None.
Proof.
  unfold addref_if_counted, zval_addref_p. destruct (Z_OPT_REFCOUNTED z); [|congruence].
  destruct (Z_REFCOUNTED z); [|done]. destruct (Z_COUNTED z) as [k|]; [|done]. cbn [mbind option_bind].
  destruct (h !! k) as [o|] eqn:Ho; [|unfold GC_ADDREF; by rewrite Ho].
  rewrite (GC_ADDREF_lookup k h o Ho). cbn [mbind option_bind]. intros [= _ <-] Hl.
  destruct (decide (l = k)) as [->|]; [by rewrite lookup_insert_eq|by rewrite lookup_insert_ne].
Qed.

Lemma release_spec others X garbage s :
  exact others (es_heap s) (X ⊎ released garbage) →
  ∃ s', release garbage s = finish_release garbage s' ∧ exact others (es_heap s') X ∧
    keeps (es_heap s) (es_heap s') ∧ (∀ l, is_Some (es_heap s !! l) → is_Some (es_heap s' !! l)).
Proof.
  intros Hx. destruct garbage as [g|]; cbn [release released finish_release] in *.
  - destruct (exact_live _ _ _ _ Hx) as (o&Ho&Hrc).
    exists (with_heap (<[g := with_refcount o (gc_refcount o - 1)]> (es_heap s)) s). split_and!.
    + unfold GC_DTOR_NO_REF, mbind, M_bind, gets, need, heap_op. rewrite (GC_DELREF_lookup g _ o Ho Hrc).
      cbn [es_heap with_heap]. rewrite lookup_insert_eq. done.
    + by apply exact_delref.
    + by apply keeps_count.
    + intros l Hl. cbn [es_heap with_heap]. rewrite lookup_insert_is_Some. destruct (decide (g = l)); auto.
  - exists s. rewrite (right_id_L ∅ (⊎)) in Hx. split_and!; done.
Qed.

(** C31: Assignment to a variable that is not a typed reference is defined for
    every operand, and does the copy first and the release after it. The variable,
    or what it refers to, is then the value behind the operand; what it held
    before has one holder less, is destroyed exactly when it has none left, and
    every reference count is exact at that moment. The variant for the caller that
    releases later leaves the same state, less the release. *)
Theorem assign_keeps_counts typed typed_ref typed_ref_ex others known X variable value t strict s :
  operand_ok t (es_heap s) value → value_ok (es_heap s) variable →
  (Z_ISREF variable = true → ∀ l, Z_COUNTED variable = Some l → typed l = false) →
  exact others (es_heap s) (X ⊎ zrefs variable ⊎ consumed t value) →
  (used_up t = false → zrefs value ⊆ X ⊎ zrefs variable) → room (es_heap s) →
  ∃ v s1 s2 variable' garbage, behind (es_heap s) value = Some v ∧
    zend_assign_to_variable_ex typed typed_ref_ex known variable value t strict s = Ret (variable', garbage) s1 ∧
    exact others (es_heap s1) (X ⊎ zrefs variable' ⊎ released garbage) ∧
    zend_assign_to_variable typed typed_ref known variable value t strict s = (finish_release garbage;; mret variable') s2 ∧
    exact others (es_heap s2) (X ⊎ zrefs variable') ∧ holds_value variable v variable' s2.
Proof.
  intros Hok Hvar Htyped Hx Hin Hroom.
  destruct (assign_spec typed typed_ref typed_ref_ex others known X variable value t strict s Hok Hvar Htyped Hx Hin Hroom)
    as (v&s1&variable'&garbage&Hv&Ha&Hex&Hx1&Hh).
  destruct (release_spec others (X ⊎ zrefs variable') garbage s1 Hx1) as (s2&Hrel&Hx2&Hk&Hlive).
  exists v, s1, s2, variable', garbage. split_and!; try done.
  - rewrite Ha. unfold mbind, M_bind. by rewrite Hrel.
  - unfold holds_value in *. destruct (Z_ISREF variable); [|done]. destruct Hh as (?&l&old&Hl&Hr). split; [done|].
    exists l, old. split; [done|]. destruct (refval_cell _ _ _ Hr) as (o&Ho&_).
    destruct (Hlive l) as [o' Ho']; [by eexists|]. by eapply keeps_refval.
Qed.

(** A move into a variable that is not a reference, and the release of what it held. *)
Lemma safe_assign_spec others X variable value s :
  counted_zval variable → Z_ISREF variable = false → exact others (es_heap s) (X ⊎ zrefs value ⊎ zrefs variable) →
  ∃ garbage s', zend_safe_assign_to_variable_noref variable value s =
      (finish_release garbage;; mret (ZVAL_COPY_VALUE variable value)) s' ∧
    released garbage = zrefs variable ∧ exact others (es_heap s') (X ⊎ zrefs (ZVAL_COPY_VALUE variable value)).
Proof.
  intros Hc Hr Hx. rewrite (zrefs_released variable Hc) in Hx |- *.
  destruct (release_spec others (X ⊎ zrefs value) _ s Hx) as (s'&Hrel&Hx'&_&_).
  eexists _, s'. split; [|split; [reflexivity|exact Hx']].
  unfold zend_safe_assign_to_variable_noref. destruct (Z_REFCOUNTED variable) eqn:Hrc.
  - unfold Z_ISREF in Hr. rewrite Hr. destruct (Hc Hrc) as [g Hg]. rewrite Hg in *. unfold mbind, M_bind, need.
    cbn [mret M_ret]. cbn [release] in Hrel. rewrite Hrel. done.
  - cbn [release] in Hrel. unfold mbind, M_bind. by rewrite <- Hrel.
Qed.

(** Taking a value out of its reference: the last holder of the reference takes the
    value and frees it, any other one gives its hold up and gets one on the value. *)
Theorem unwrap_keeps_counts others h X op l v :
  Z_ISREF op = true → Z_REFCOUNTED op = true → Z_COUNTED op = Some l → Z_REFVAL l h = Some v → counted_zval v →
  exact others h (X ⊎ zrefs op) → room h →
  ∃ h', zend_unwrap_reference op h = Some (ZVAL_COPY_VALUE op v, h') ∧ exact others h' (X ⊎ zrefs v) ∧ keeps h h' ∧
    (h' !! l = None ↔ (∀ o, h !! l = Some o → gc_refcount o = 1)).
Proof.
  intros Hr Hrc Hl Hv Hc Hx Hroom. rewrite (zrefs_counted op l Hrc Hl) in Hx.
  destruct (exact_live _ _ _ _ Hx) as (o&Ho&Hb). destruct (refval_cell _ _ _ Hv) as (o'&Ho'&Hbody). simplify_eq.
  unfold zend_unwrap_reference, zval_refcount_p, zval_delref_p, ZVAL_UNREF. rewrite Hl, Hr, Hrc. cbn [mbind option_bind].
  rewrite Ho. cbn [mbind option_bind]. rewrite Hbody. destruct (Z.eqb_spec (gc_refcount o) 1) as [H1|H1].
  - exists (delete l h). split_and!; [done|by eapply exact_unref|apply keeps_delete|]. rewrite lookup_delete_eq. naive_solver.
  - rewrite (GC_DELREF_lookup l h o Ho Hb). cbn [mbind option_bind].
    set (h1 := <[l := with_refcount o (gc_refcount o - 1)]> h).
    assert (Hv1 : Z_REFVAL l h1 = Some v).
    { eapply keeps_refval; [by apply keeps_count|exact Hv|apply lookup_insert_eq]. }
    rewrite Hv1. cbn [mbind option_bind].
    destruct (addref_exact others h1 X (ZVAL_COPY_VALUE op v) Hc) as (h'&Hadd&Hx'&Hk).
    + by apply exact_delref.
    + rewrite zrefs_copy. pose proof (heap_refs_refval h1 l v Hv1). multiset_solver.
    + intros k ok. unfold h1. destruct (decide (k = l)) as [->|Hne].
      * rewrite lookup_insert_eq. intros [= <-]. cbn. lia.
      * rewrite lookup_insert_ne by done. apply Hroom.
    + exists h'. split_and!.
      * revert Hadd. unfold addref_if_counted, zval_addref_p, ZVAL_COPY.
        change (Z_TYPE_INFO_REFCOUNTED (Z_TYPE_INFO v)) with (Z_OPT_REFCOUNTED v). rewrite !opt_refcounted.
        change (Z_REFCOUNTED (ZVAL_COPY_VALUE op v)) with (Z_REFCOUNTED v).
        change (Z_COUNTED (ZVAL_COPY_VALUE op v)) with (Z_COUNTED v).
        destruct (Z_REFCOUNTED v); [|done]. by destruct (Z_COUNTED v).
      * done.
      * etrans; [by apply keeps_count|done].
      * split; [|intros H; by specialize (H o eq_refl)]. intros Hn. exfalso.
        apply (addref_stays _ _ _ _ l Hadd); [|done]. unfold h1. by rewrite lookup_insert_eq.
Qed.
End releasing.
