(* ===== verification/ZendConvert.v ===== *)
(** * Conversions between doubles and integers, and truth (Zend/zend_operators.h)

    A double becomes an integer by truncation when the result fits, and is reported
    when it does not fit or loses a fraction. Doubles are the binary64 of the Standard
    Library's specification; the engine library's own parts (the slow conversion, which
    reduces modulo 2^64, the reports, the truth of unusual objects) are parameters or
    recorded as events. *)

From Stdlib Require Import SpecFloat.
From S2P Require Import Prelude ZendTypes ZendArith ZendString ZendAssign.
Import Binary64 SignedMultiply LongOps.

Module Convert.

(** The reports of the engine library, which do not change the result. *)
Inductive report : Type :=
| zend_oob_double_to_long_error (d : double)
| zend_incompatible_double_to_long_error (d : double)
| zend_nan_coerced_to_type_warning (type : Z).

Definition zend_finite (d : double) : bool :=
  match d with S754_zero _ | S754_finite _ _ _ => true | _ => false end.
Definition zend_isnan (d : double) : bool := match d with S754_nan => true | _ => false end.

Definition ZEND_DOUBLE_FITS_LONG (d : double) : bool :=
  negb (SFleb (of_long ZEND_LONG_MAX) d || SFltb d (of_long ZEND_LONG_MIN)).

(** The cast [(zend_long) d]: towards zero, undefined when the result does not fit. *)
Definition trunc_mantissa (m : positive) (e : Z) : Z := if 0 <=? e then Z.pos m * 2 ^ e else Z.pos m / 2 ^ (- e).
Definition cast_long (d : double) : option Z :=
  match d with
  | S754_zero _ => Some 0
  | S754_finite s m e =>
      let l := if s then - trunc_mantissa m e else trunc_mantissa m e in
      if in_s64 l then Some l else None
  | _ => None
  end.

Section slow.
Context (zend_dval_to_lval_slow : double → Z).

Definition zend_dval_to_lval (d : double) : option (Z * list report) :=
  if negb (zend_finite d) then Some (0, [zend_oob_double_to_long_error d])
  else if negb (ZEND_DOUBLE_FITS_LONG d) then Some (zend_dval_to_lval_slow d, [zend_oob_double_to_long_error d])
  else l ← cast_long d; Some (l, []).
Definition zend_dval_to_lval_silent (d : double) : option Z :=
  if negb (zend_finite d) then Some 0
  else if negb (ZEND_DOUBLE_FITS_LONG d) then Some (zend_dval_to_lval_slow d)
  else cast_long d.
(** [d > 0] compares with a zero. *)
Definition zend_dval_to_lval_cap (d : double) : option Z :=
  if negb (zend_finite d) then Some 0
  else if negb (ZEND_DOUBLE_FITS_LONG d)
  then Some (if SFltb (S754_zero false) d then ZEND_LONG_MAX else ZEND_LONG_MIN)
  else cast_long d.

Definition zend_is_long_compatible (d : double) (l : Z) : bool := SFeqb (of_long l) d.

Definition zend_dval_to_lval_safe (d : double) : option (Z * list report) :=
  '(l, reports) ← zend_dval_to_lval d;
  Some (l, reports ++ if negb (zend_is_long_compatible d l) && ZEND_DOUBLE_FITS_LONG d
                      then [zend_incompatible_double_to_long_error d] else []).
End slow.

(** The double with the given bits. *)
Definition double_of_bits (bits : Z) : double :=
  let sign := Z.testbit bits 63 in
  let exponent := Z.land (Z.shiftr bits 52) 0x7ff in
  let fraction := Z.land bits (Z.ones 52) in
  if exponent =? 0x7ff then if fraction =? 0 then S754_infinity sign else S754_nan
  else if exponent =? 0 then
    match fraction with Zpos m => S754_finite sign m (-1074) | _ => S754_zero sign end
  else match 2 ^ 52 + fraction with Zpos m => S754_finite sign m (exponent - 1075) | _ => S754_nan end.

Section truth.
(** [zend_hash_num_elements], [Z_RES_HANDLE], the test for the standard cast handler
    and [zend_object_is_true]. *)
Context (num_elements : loc → Z) (res_handle : loc → Z) (std_cast : loc → bool) (zend_object_is_true : zval → bool).

(** The jump back to [again] takes a turn. *)
Fixpoint i_zend_is_true (fuel : nat) (op : zval) (h : zheap) : option (bool * list report) :=
  match fuel with
  | O => None
  | S fuel =>
      let t := zval_get_type op in
      if t =? IS_TRUE then Some (true, [])
      else if t =? IS_LONG then
        match z_value op with VLval l => Some (negb (l =? 0), []) | _ => None end
      else if t =? IS_DOUBLE then
        match z_value op with
        | VDval bits =>
            let d := double_of_bits bits in
            Some (negb (SFeqb d (S754_zero false)), if zend_isnan d then [zend_nan_coerced_to_type_warning IS_BOOL] else [])
        | _ => None
        end
      else if t =? IS_STRING then
        l ← Z_COUNTED op; o ← h !! l;
        match gc_body o with
        | BString _ len val =>
            if 1 <? len then Some (true, [])
            else if len =? 0 then Some (false, [])
            else c ← mjoin (val !! 0%nat); Some (negb (uchar c =? 48), [])
        | _ => None
        end
      else if t =? IS_ARRAY then l ← Z_COUNTED op; Some (negb (num_elements l =? 0), [])
      else if t =? IS_OBJECT then
        l ← Z_COUNTED op; Some (if std_cast l then true else zend_object_is_true op, [])
      else if t =? IS_RESOURCE then l ← Z_COUNTED op; Some (negb (res_handle l =? 0), [])
      else if t =? IS_REFERENCE then l ← Z_COUNTED op; v ← Z_REFVAL l h; i_zend_is_true fuel v h
      else Some (false, [])
  end.
End truth.
End Convert.
Export Convert.

(** ** Doubles and integers *)
Section doubles.
Implicit Types (m p : positive) (e l q : Z) (d : double) (s : bool).

Lemma digits_log2 p : Z.pos (digits2_pos p) = Z.log2 (Z.pos p) + 1.
Proof.
  induction p as [p IH|p IH|]; [| |done]; cbn [digits2_pos]; rewrite Pos2Z.inj_succ, IH.
  - rewrite Pos2Z.inj_xI, Z.log2_succ_double by lia. lia.
  - rewrite Pos2Z.inj_xO, Z.log2_double by lia. lia.
Qed.
Lemma digits_unique p k : 2 ^ (k - 1) <= Z.pos p < 2 ^ k → 0 < k → Z.pos (digits2_pos p) = k.
Proof. intros Hp Hk. rewrite digits_log2, (Z.log2_unique (Z.pos p) (k - 1)); [lia|lia|]. replace (Z.succ (k - 1)) with k by lia. lia. Qed.
Lemma digits_bounds p : 2 ^ (Z.pos (digits2_pos p) - 1) <= Z.pos p < 2 ^ Z.pos (digits2_pos p).
Proof. rewrite digits_log2. pose proof (Z.log2_spec (Z.pos p)). replace (Z.log2 (Z.pos p) + 1 - 1) with (Z.log2 (Z.pos p)) by lia. lia. Qed.

(** A canonical mantissa has 53 bits, unless the exponent is the least one. *)
Lemma bounded_spec m e :
  bounded 53 1024 m e = true → 0 < Z.pos m < 2 ^ 53 ∧ -1074 <= e <= 971 ∧ (2 ^ 52 <= Z.pos m ∨ e = -1074).
Proof.
  unfold bounded, canonical_mantissa, fexp, emin. rewrite andb_true_iff, Z.eqb_eq, Z.leb_le. intros [H1 H2].
  pose proof (digits_bounds m) as Hd. set (k := Z.pos (digits2_pos m)) in *.
  assert (Hk : k <= 53) by lia. assert (2 ^ k <= 2 ^ 53) by (apply Z.pow_le_mono_r; lia).
  split_and!; try lia. destruct (decide (k = 53)) as [->|]; [left; change (53 - 1) with 52 in Hd; lia|right; lia].
Qed.
Lemma bounded_normal m e : 2 ^ 52 <= Z.pos m < 2 ^ 53 → -1074 <= e <= 971 → bounded 53 1024 m e = true.
Proof.
  intros Hm He. unfold bounded, canonical_mantissa, fexp, emin.
  rewrite (digits_unique m 53) by (simpl; lia). apply andb_true_iff. split; [apply Z.eqb_eq; lia|apply Z.leb_le; lia].
Qed.

(** *** Rounding an integer that is representable *)
Lemma iter_pos_nat {A} (f : A → A) p : ∀ x, SpecFloat.iter_pos f p x = Nat.iter (Pos.to_nat p) f x.
Proof.
  induction p as [p IH|p IH|]; intros x; cbn [SpecFloat.iter_pos]; [| |done].
  - rewrite !IH, Pos2Nat.inj_xI, Nat.iter_succ_r, <- Nat.iter_add. f_equal. lia.
  - rewrite !IH, Pos2Nat.inj_xO. rewrite <- Nat.iter_add. f_equal. lia.
Qed.
Lemma shr_exact (n : nat) : ∀ m, Nat.iter n shr_1 (Build_shr_record (Z.pos m * 2 ^ Z.of_nat n) false false)
  = Build_shr_record (Z.pos m) false false.
Proof.
  induction n as [|n IH]; intros m; [by rewrite Z.mul_1_r|].
  rewrite Nat.iter_succ_r. etrans; [|apply IH]. f_equal.
  rewrite Nat2Z.inj_succ, Z.pow_succ_r by lia.
  replace (Z.pos m * (2 * 2 ^ Z.of_nat n)) with (2 * (Z.pos m * 2 ^ Z.of_nat n)) by ring.
  assert (0 < Z.pos m * 2 ^ Z.of_nat n) by (apply Z.mul_pos_pos; lia).
  destruct (Z.pos m * 2 ^ Z.of_nat n) as [|q|q]; [lia|done|lia].
Qed.
Lemma shl_iter (n : nat) m : Z.pos (Nat.iter n xO m) = Z.pos m * 2 ^ Z.of_nat n.
Proof.
  induction n as [|n IH]; [cbn; lia|]. rewrite Nat.iter_succ, Pos2Z.inj_xO, IH, Nat2Z.inj_succ, Z.pow_succ_r by lia. ring.
Qed.

(** The value of the double is the integer [q] or its opposite. *)
Definition is_integer m e q : Prop := if 0 <=? e then q = Z.pos m * 2 ^ e else q * 2 ^ (- e) = Z.pos m.

Lemma shr_none m e : bounded 53 1024 m e = true → shr_fexp 53 1024 (Z.pos m) e loc_Exact = (Build_shr_record (Z.pos m) false false, e).
Proof.
  unfold bounded, canonical_mantissa. rewrite andb_true_iff, Z.eqb_eq. intros [H _].
  unfold shr_fexp. cbn [Zdigits2]. rewrite H, Z.sub_diag. done.
Qed.
Lemma round_exact s m e : bounded 53 1024 m e = true → binary_round_aux 53 1024 s (Z.pos m) e loc_Exact = S754_finite s m e.
Proof.
  intros Hb. unfold binary_round_aux. rewrite (shr_none m e Hb). cbn [shr_m loc_of_shr_record round_nearest_even].
  rewrite (shr_none m e Hb). cbn [shr_m]. apply bounded_spec in Hb as (_&He&_). by rewrite (proj2 (Z.leb_le _ _)) by lia.
Qed.
Lemma round_shifted s m e :
  bounded 53 1024 m e = true → 0 < e →
  binary_round_aux 53 1024 s (Z.pos m * 2 ^ e) 0 loc_Exact = S754_finite s m e.
Proof.
  intros Hb He. pose proof (bounded_spec m e Hb) as (Hm&Hr&Hn). unfold binary_round_aux.
  assert (Hs : shr_fexp 53 1024 (Z.pos m * 2 ^ e) 0 loc_Exact = (Build_shr_record (Z.pos m) false false, e)).
  { unfold shr_fexp. assert (Hp : 0 < Z.pos m * 2 ^ e) by (apply Z.mul_pos_pos; lia).
    destruct (Z.pos m * 2 ^ e) as [|q|q] eqn:Eq; [lia| |lia]. cbn [Zdigits2]. rewrite (digits_unique q (53 + e)).
    - unfold fexp, emin. replace (Z.max _ _ - 0) with e by lia. destruct e as [|n|n]; [lia| |lia]. cbn [shr].
      rewrite iter_pos_nat, <- Eq. cbn [shr_record_of_loc]. rewrite <- (positive_nat_Z n) at 1. by rewrite shr_exact.
    - rewrite <- Eq. replace (53 + e - 1) with (52 + e) by lia. rewrite !Z.pow_add_r by lia.
      assert (0 < 2 ^ e) by lia. nia.
    - lia. }
  rewrite Hs. cbn [shr_m loc_of_shr_record round_nearest_even]. rewrite (shr_none m e Hb). cbn [shr_m].
  by rewrite (proj2 (Z.leb_le _ _)) by lia.
Qed.
End doubles.

Section conversions.
Implicit Types (m p : positive) (e l q : Z) (d : double) (s : bool).

Lemma shl_align_left p e : e < 0 → shl_align p 0 e = (Nat.iter (Z.to_nat (- e)) xO p, e).
Proof.
  intros He. unfold shl_align. rewrite Z.sub_0_r. destruct e as [|n|n]; [lia|lia|]. f_equal.
  by rewrite Pos2Nat.inj_iter.
Qed.

Lemma round_integer s m e p :
  bounded 53 1024 m e = true → is_integer m e (Z.pos p) → binary_round 53 1024 s p 0 = S754_finite s m e.
Proof.
  intros Hb Hi. pose proof (bounded_spec m e Hb) as (Hm&Hr&Hn). unfold is_integer in Hi. unfold binary_round.
  destruct (Z.leb_spec 0 e) as [He|He].
  - rewrite (digits_unique p (53 + e)); [|rewrite Hi; replace (53 + e - 1) with (52 + e) by lia;
      rewrite !Z.pow_add_r by lia; assert (0 < 2 ^ e) by lia; nia|lia].
    unfold fexp, emin, shl_align. replace (Z.max _ _ - 0) with e by lia.
    destruct e as [|n|n]; [|rewrite Hi; by apply round_shifted|lia].
    rewrite Z.mul_1_r in Hi. rewrite Hi. by apply round_exact.
  - destruct Hn as [Hn|Hn].
    2: { exfalso. rewrite Hn in Hi. assert (2 ^ 53 < 2 ^ 1074) by (apply Z.pow_lt_mono_r; lia).
         change (- -1074) with 1074 in Hi. nia. }
    assert (Hk : 0 < 53 + e).
    { destruct (Z.le_gt_cases (53 + e) 0); [|done]. exfalso.
      assert (2 ^ 53 <= 2 ^ (- e)) by (apply Z.pow_le_mono_r; lia). nia. }
    rewrite (digits_unique p (53 + e)).
    + unfold fexp, emin. replace (Z.max _ _) with e by lia. rewrite shl_align_left by done.
      rewrite shl_iter, Z2Nat.id, Hi by lia. by apply round_exact.
    + assert (H2 : 0 < 2 ^ (- e)) by lia.
      assert (E1 : 2 ^ 53 = 2 ^ (53 + e) * 2 ^ (- e)) by (rewrite <- Z.pow_add_r by lia; f_equal; lia).
      assert (E2 : 2 ^ 52 = 2 ^ (53 + e - 1) * 2 ^ (- e)) by (rewrite <- Z.pow_add_r by lia; f_equal; lia).
      rewrite E1 in Hm. rewrite E2 in Hn. nia.
    + done.
Qed.

(** The integer value of a double, with its sign. *)
Definition signed s q : Z := if s then - q else q.
Definition integral d l : Prop :=
  match d with
  | S754_zero _ => l = 0
  | S754_finite s m e => ∃ q, 0 < q ∧ is_integer m e q ∧ l = signed s q
  | _ => False
  end.

Lemma of_long_integral d l :
  valid_binary 53 1024 d = true → integral d l → of_long l = d ∨ (l = 0 ∧ d = S754_zero true).
Proof.
  destruct d as [s| | |s m e]; cbn [valid_binary integral]; [|done|done|].
  - intros _ ->. destruct s; auto.
  - intros Hb (q&Hq&Hi&->). left. destruct q as [|p|p]; [lia| |lia].
    destruct s; cbn [signed Z.opp]; by apply round_integer.
Qed.

(** *** The truncated value *)
Definition truncates d l : Prop :=
  match d with
  | S754_zero _ => l = 0
  | S754_finite s m e => ∃ q, l = signed s q ∧ if 0 <=? e then q = Z.pos m * 2 ^ e else q * 2 ^ (- e) <= Z.pos m < (q + 1) * 2 ^ (- e)
  | _ => False
  end.

Lemma trunc_mantissa_spec m e q :
  (if 0 <=? e then q = Z.pos m * 2 ^ e else q * 2 ^ (- e) <= Z.pos m < (q + 1) * 2 ^ (- e)) ↔ q = trunc_mantissa m e.
Proof.
  unfold trunc_mantissa. destruct (Z.leb_spec 0 e) as [He|He]; [done|]. assert (0 < 2 ^ (- e)) by lia. split.
  - intros Hq. apply Z.div_unique_pos with (Z.pos m - q * 2 ^ (- e)); lia.
  - intros ->. pose proof (Z.mul_div_le (Z.pos m) (2 ^ (- e))). pose proof (Z.mul_succ_div_gt (Z.pos m) (2 ^ (- e))). lia.
Qed.

Lemma truncates_exists d : zend_finite d = true → ∃ l, truncates d l.
Proof.
  destruct d as [s| | |s m e]; [by exists 0|done|done|]. intros _. eexists. exists (trunc_mantissa m e). split; [done|].
  by apply trunc_mantissa_spec.
Qed.
Lemma cast_truncates d l : truncates d l → cast_long d = if in_s64 l then Some l else None.
Proof.
  destruct d as [s| | |s m e]; cbn [truncates cast_long]; [by intros ->|done|done|].
  intros (q&->&Hq%trunc_mantissa_spec). by rewrite <- Hq.
Qed.

(** *** The range test *)
Lemma compare_cont_compare (a b : positive) : Pos.compare_cont Eq a b = Pos.compare a b.
Proof. done. Qed.

Lemma compare_at k m e :
  Z.pos k = 2 ^ 52 → bounded 53 1024 m e = true →
  SFleb (S754_finite false k 11) (S754_finite false m e) = (2 ^ 63 <=? trunc_mantissa m e) ∧
  SFltb (S754_finite true m e) (S754_finite true k 11) = (2 ^ 63 <? trunc_mantissa m e).
Proof.
  intros Hk Hb. pose proof (bounded_spec m e Hb) as (Hm&He&Hn). unfold SFleb, SFltb, SFcompare.
  rewrite (Z.compare_antisym e 11), !compare_cont_compare, !Pos2Z.inj_compare, Hk, (Z.compare_antisym (Z.pos m)).
  destruct (Z.compare_spec e 11) as [->|Hlt|Hgt]; cbn [CompOpp].
  - assert (Ht : trunc_mantissa m 11 = Z.pos m * 2 ^ 11) by done. rewrite Ht. destruct Hn as [Hn|]; [|lia].
    destruct (Z.compare_spec (Z.pos m) (2 ^ 52)) as [Hc|Hc|Hc]; cbn [CompOpp]; split; symmetry;
      first [apply Z.leb_le|apply Z.ltb_lt|apply Z.ltb_ge|idtac]; lia.
  - assert (trunc_mantissa m e < 2 ^ 63).
    { unfold trunc_mantissa. destruct (Z.leb_spec 0 e).
      - assert (2 ^ e <= 2 ^ 10) by (apply Z.pow_le_mono_r; lia). assert (0 < 2 ^ e) by lia. nia.
      - assert (0 < 2 ^ (- e)) by lia. pose proof (Z.div_le_upper_bound (Z.pos m) (2 ^ (- e)) (Z.pos m)). nia. }
    split; symmetry; [apply Z.leb_gt|apply Z.ltb_ge]; lia.
  - destruct Hn as [Hn|]; [|lia]. assert (2 ^ 63 < trunc_mantissa m e).
    { unfold trunc_mantissa. rewrite (proj2 (Z.leb_le 0 e)) by lia.
      assert (2 ^ 12 <= 2 ^ e) by (apply Z.pow_le_mono_r; lia). nia. }
    split; symmetry; [apply Z.leb_le|apply Z.ltb_lt]; lia.
Qed.

(** The limits of a long as doubles: 2^63 and its opposite. *)
Lemma long_limits : ∃ k, of_long ZEND_LONG_MAX = S754_finite false k 11 ∧ of_long ZEND_LONG_MIN = S754_finite true k 11 ∧ Z.pos k = 2 ^ 52.
Proof. exists 4503599627370496%positive. split_and!; by vm_compute. Qed.

Lemma fits_long d l :
  valid_binary 53 1024 d = true → truncates d l → ZEND_DOUBLE_FITS_LONG d = in_s64 l.
Proof.
  intros Hv Ht. unfold ZEND_DOUBLE_FITS_LONG. destruct long_limits as (k&->&->&Hk).
  destruct d as [s| | |s m e]; cbn [truncates valid_binary] in *; [by subst l; destruct s|done|done|].
  destruct Ht as (q&->&Hq%trunc_mantissa_spec). destruct (compare_at k m e Hk Hv) as [H1 H2]. rewrite <- Hq in H1, H2.
  assert (0 <= q). { rewrite Hq. unfold trunc_mantissa. destruct (Z.leb_spec 0 e); [|apply Z.div_pos; lia]. apply Z.mul_nonneg_nonneg; lia. }
  unfold in_s64. destruct s; cbn [signed].
  - rewrite H2. change (SFleb (S754_finite false k 11) (S754_finite true m e)) with false. destruct (Z.ltb_spec (2 ^ 63) q); cbn [orb negb]; lia.
  - rewrite H1. change (SFltb (S754_finite false m e) (S754_finite true k 11)) with false. rewrite orb_false_r.
    destruct (Z.leb_spec (2 ^ 63) q); cbn [negb]; lia.
Qed.
End conversions.

Section claims.
Context (slow : double → Z).
Implicit Types (m p : positive) (e l q : Z) (d : double) (s : bool).

Lemma SFeqb_finite s m e s' m' e' : SFeqb (S754_finite s m e) (S754_finite s' m' e') = true ↔ s = s' ∧ m = m' ∧ e = e'.
Proof.
  unfold SFeqb, SFcompare. rewrite !compare_cont_compare. split.
  - destruct s, s'; try done; destruct (Z.compare_spec e e') as [->| |]; try done;
      destruct (Pos.compare_spec m m') as [->| |]; done.
  - intros (->&->&->). rewrite Z.compare_refl, Pos.compare_refl. by destruct s'.
Qed.

(** An integer of at most 53 bits is a double. *)
Lemma small_integer q : 0 < q < 2 ^ 53 → ∃ m e, bounded 53 1024 m e = true ∧ is_integer m e q.
Proof.
  intros Hq. destruct q as [|p|p]; [lia| |lia]. pose proof (digits_bounds p) as Hd. set (k := Z.pos (digits2_pos p)) in *.
  assert (Hk : k <= 53).
  { destruct (Z.le_gt_cases k 53); [done|]. assert (2 ^ 53 <= 2 ^ (k - 1)) by (apply Z.pow_le_mono_r; lia). lia. }
  assert (Hpos : 0 < k) by lia. assert (H2 : 0 < 2 ^ (53 - k)) by lia.
  assert (E1 : 2 ^ 53 = 2 ^ k * 2 ^ (53 - k)) by (rewrite <- Z.pow_add_r by lia; f_equal; lia).
  assert (E2 : 2 ^ 52 = 2 ^ (k - 1) * 2 ^ (53 - k)) by (rewrite <- Z.pow_add_r by lia; f_equal; lia).
  destruct (Z.pos p * 2 ^ (53 - k)) as [|m|m] eqn:Em; [nia| |nia]. exists m, (k - 53). split.
  - apply bounded_normal; [|lia]. rewrite <- Em, E1, E2. nia.
  - unfold is_integer. destruct (Z.leb_spec 0 (k - 53)); [|replace (- (k - 53)) with (53 - k) by lia; done].
    replace k with 53 in * by lia. rewrite Z.mul_1_r in Em |- *. done.
Qed.

Lemma of_long_finite s m e p :
  bounded 53 1024 m e = true → is_integer m e (Z.pos p) → of_long (signed s (Z.pos p)) = S754_finite s m e.
Proof. intros Hb Hi. destruct s; cbn [signed Z.opp]; by apply round_integer. Qed.

(** The truncation gives the double back exactly when nothing was cut off. *)
Lemma truncates_integral d l :
  valid_binary 53 1024 d = true → truncates d l → zend_is_long_compatible d l = true ↔ integral d l.
Proof.
  unfold zend_is_long_compatible. destruct d as [s| | |s m e]; cbn [valid_binary truncates integral]; [by intros _ ->; destruct s|done|done|].
  intros Hb (q&->&Hq). pose proof (bounded_spec m e Hb) as (Hm&He&Hn). destruct (Z.leb_spec 0 e) as [H0|H0].
  - assert (Hpos : 0 < q) by (rewrite Hq; apply Z.mul_pos_pos; lia).
    assert (Hi : is_integer m e q) by (unfold is_integer; by rewrite (proj2 (Z.leb_le 0 e))).
    split; [by exists q|]. intros _. destruct q as [|p|p]; [lia| |lia]. rewrite (of_long_finite s m e p Hb Hi). by apply SFeqb_finite.
  - assert (H2 : 0 < 2 ^ (- e)) by lia. destruct (decide (q = 0)) as [->|Hz].
    { split; [by destruct s|]. intros (q'&?&_&E). destruct s; cbn [signed] in E; lia. }
    destruct q as [|p|p]; [done| |nia]. destruct (small_integer (Z.pos p)) as (m'&e'&Hb'&Hi'); [nia|].
    rewrite (of_long_finite s m' e' p Hb' Hi'), SFeqb_finite. split.
    + intros (_&->&->). exists (Z.pos p). by split_and!.
    + intros (q'&?&Hi&E). assert (q' = Z.pos p) as -> by (destruct s; cbn [signed] in E; lia).
      pose proof (of_long_finite s m e p Hb Hi) as E1. rewrite (of_long_finite s m' e' p Hb' Hi') in E1. by simplify_eq.
Qed.

Lemma signed_small l :
  - 2 ^ 53 < l < 2 ^ 53 →
  l = 0 ∨ ∃ s m e p, l = signed s (Z.pos p) ∧ bounded 53 1024 m e = true ∧ is_integer m e (Z.pos p).
Proof.
  intros Hl. destruct l as [|p|p]; [by left|right..]; (destruct (small_integer (Z.pos p)) as (m&e&?&?); [lia|]).
  - by exists false, m, e, p.
  - by exists true, m, e, p.
Qed.
Lemma integral_truncates s m e q : is_integer m e q → truncates (S754_finite s m e) (signed s q).
Proof.
  intros Hi. exists q. split; [done|]. unfold is_integer in Hi. destruct (Z.leb_spec 0 e); [done|].
  assert (0 < 2 ^ (- e)) by lia. lia.
Qed.

Lemma out_of_range_sign d l :
  truncates d l → in_s64 l = false → SFltb (S754_zero false) d = (0 <? l).
Proof.
  destruct d as [s| | |s m e]; [by intros ->|done|done|]. intros (q&->&Hq%trunc_mantissa_spec). unfold in_s64, SFltb, SFcompare.
  assert (0 <= q). { rewrite Hq. unfold trunc_mantissa. destruct (Z.leb_spec 0 e); [|apply Z.div_pos; lia]. apply Z.mul_nonneg_nonneg; lia. }
  destruct s; cbn [signed]; intros Hn; symmetry; [apply Z.ltb_ge; lia|apply Z.ltb_lt]. destruct (decide (q = 0)) as [->|]; [done|lia].
Qed.

Lemma in_range_conversion d l :
  valid_binary 53 1024 d = true → truncates d l → in_s64 l = true →
  zend_dval_to_lval slow d = Some (l, []) ∧ zend_dval_to_lval_silent slow d = Some l ∧ zend_dval_to_lval_cap d = Some l ∧
  ∃ reports, zend_dval_to_lval_safe slow d = Some (l, reports) ∧
    (integral d l → reports = []) ∧ (¬ integral d l → reports = [zend_incompatible_double_to_long_error d]).
Proof.
  intros Hv Ht Hl. assert (Hf : zend_finite d = true) by by destruct d.
  pose proof (cast_truncates d l Ht) as Hc. rewrite Hl in Hc. pose proof (fits_long d l Hv Ht) as Hfit. rewrite Hl in Hfit.
  assert (Hd : zend_dval_to_lval slow d = Some (l, [])) by (unfold zend_dval_to_lval; by rewrite Hf, Hfit, Hc).
  unfold zend_dval_to_lval_silent, zend_dval_to_lval_cap, zend_dval_to_lval_safe. rewrite Hd, Hf, Hfit, Hc.
  split_and!; try done. eexists. split; [done|]. cbn [app]. pose proof (truncates_integral d l Hv Ht) as Hi.
  destruct (zend_is_long_compatible d l); cbn; [|naive_solver]. split; [done|]. intros Hn. exfalso. by apply Hn, Hi.
Qed.

(** C38: Every conversion of a double to an integer returns, and never casts a
    double out of range. A double whose truncation towards zero fits gives the
    truncation, without a report; one that does not fit is reported and gives the
    slow conversion's result, or the nearest long for strings; NaN and the
    infinities give 0. The safe variant reports a fraction exactly when there is
    one, and reports NaN twice. A long of less than 53 bits comes back from its
    double, unreported. *)
Theorem double_to_long d :
  valid_binary 53 1024 d = true →
  (zend_finite d = false →
     zend_dval_to_lval slow d = Some (0, [zend_oob_double_to_long_error d]) ∧
     zend_dval_to_lval_silent slow d = Some 0 ∧ zend_dval_to_lval_cap d = Some 0 ∧
     zend_dval_to_lval_safe slow d = Some (0, zend_oob_double_to_long_error d ::
       if zend_isnan d then [zend_incompatible_double_to_long_error d] else [])) ∧
  (∀ l, truncates d l → in_s64 l = true →
     zend_dval_to_lval slow d = Some (l, []) ∧ zend_dval_to_lval_silent slow d = Some l ∧
     zend_dval_to_lval_cap d = Some l ∧
     ∃ reports, zend_dval_to_lval_safe slow d = Some (l, reports) ∧
       (integral d l → reports = []) ∧ (¬ integral d l → reports = [zend_incompatible_double_to_long_error d])) ∧
  (∀ l, truncates d l → in_s64 l = false →
     zend_dval_to_lval slow d = Some (slow d, [zend_oob_double_to_long_error d]) ∧
     zend_dval_to_lval_silent slow d = Some (slow d) ∧
     zend_dval_to_lval_cap d = Some (if 0 <? l then ZEND_LONG_MAX else ZEND_LONG_MIN) ∧
     zend_dval_to_lval_safe slow d = Some (slow d, [zend_oob_double_to_long_error d])) ∧
  (∀ l, - 2 ^ 53 < l < 2 ^ 53 → zend_dval_to_lval_safe slow (of_long l) = Some (l, [])).
Proof.
  intros Hv. split_and!; [|by intros; apply in_range_conversion| |].
  - intros Hf. unfold zend_dval_to_lval_safe, zend_dval_to_lval, zend_dval_to_lval_silent, zend_dval_to_lval_cap. rewrite Hf.
    destruct d as [|[]| |]; by split_and!.
  - intros l Ht Hl. assert (Hf : zend_finite d = true) by by destruct d. pose proof (fits_long d l Hv Ht) as Hfit.
    rewrite Hl in Hfit. unfold zend_dval_to_lval_safe, zend_dval_to_lval, zend_dval_to_lval_silent, zend_dval_to_lval_cap.
    rewrite Hf, Hfit, (out_of_range_sign d l Ht Hl). cbn [negb mbind option_bind]. by rewrite andb_false_r.
  - intros l Hl. assert (Hd : ∃ d0, of_long l = d0 ∧ valid_binary 53 1024 d0 = true ∧ integral d0 l ∧ truncates d0 l).
    { destruct (signed_small l Hl) as [->|(s&m&e&p&->&Hb&Hi)].
      - by exists (S754_zero false).
      - rewrite (of_long_finite s m e p Hb Hi). eexists. split_and!; [done|done|by exists (Z.pos p)|by apply integral_truncates]. }
    destruct Hd as (d0&->&Hv0&Hi0&Ht0). destruct (in_range_conversion d0 l Hv0 Ht0) as (_&_&_&reports&->&Hr&_); [unfold in_s64; lia|].
    by rewrite (Hr Hi0).
Qed.
End claims.

(** The double of any bits is one. *)
Lemma double_of_bits_valid bits : in_u64 bits → valid_binary 53 1024 (double_of_bits bits) = true.
Proof.
  intros Hb. unfold double_of_bits. set (e := Z.land (Z.shiftr bits 52) 0x7ff). set (f := Z.land bits (Z.ones 52)).
  assert (Hf : 0 <= f < 2 ^ 52) by (unfold f; rewrite Z.land_ones by lia; apply Z.mod_pos_bound; lia).
  assert (He : 0 <= e < 2 ^ 11).
  { unfold e. change 0x7ff with (Z.ones 11). rewrite Z.land_ones by lia. apply Z.mod_pos_bound. lia. }
  destruct (Z.eqb_spec e 0x7ff); [by destruct (f =? 0)|]. destruct (Z.eqb_spec e 0).
  - destruct f as [|m|m]; [done| |done]. cbn [valid_binary]. unfold bounded, canonical_mantissa, fexp, emin.
    pose proof (digits_bounds m) as Hd. set (k := Z.pos (digits2_pos m)) in *.
    assert (k <= 52).
    { destruct (Z.le_gt_cases k 52); [done|]. assert (2 ^ 52 <= 2 ^ (k - 1)) by (apply Z.pow_le_mono_r; lia). lia. }
    apply andb_true_iff. split; [apply Z.eqb_eq; lia|apply Z.leb_le; lia].
  - destruct (2 ^ 52 + f) as [|m|m] eqn:Em; [done| |done]. apply bounded_normal; lia.
Qed.

(** ** Truth *)

#[global] Instance spec_float_eq_dec : EqDecision spec_float.
Proof. solve_decision. Defined.

(** The values of the language, less the objects. *)
Inductive php_value : Type :=
| PUndef | PNull | PBool (b : bool) | PLong (l : Z) | PDouble (d : double) | PText (s : bytes)
| PArray (elements : Z) | PResource (handle : Z).

(** A double counts unless it is one of the zeros, a string unless it is empty or "0". *)
Definition truthy (v : php_value) : bool :=
  match v with
  | PUndef | PNull => false
  | PBool b => b
  | PLong l => bool_decide (l ≠ 0)
  | PDouble d => bool_decide (d ≠ S754_zero false ∧ d ≠ S754_zero true)
  | PText s => bool_decide (s ≠ [] ∧ s ≠ lit "0")
  | PArray n => bool_decide (n ≠ 0)
  | PResource n => bool_decide (n ≠ 0)
  end.

Lemma nonzero_test n : negb (n =? 0) = bool_decide (n ≠ 0).
Proof. destruct (Z.eqb_spec n 0); symmetry; [apply bool_decide_false; lia|by apply bool_decide_true]. Qed.

Lemma is_zero_double d : SFeqb d (S754_zero false) = bool_decide (d = S754_zero false ∨ d = S754_zero true).
Proof.
  destruct d as [[]|[]| |[] m e]; cbn; symmetry; first [apply bool_decide_true; auto; done|apply bool_decide_false; naive_solver].
Qed.

Lemma first_char s o : zstr_ok s o → ∃ hh len val, gc_body o = BString hh len val ∧ len = Z.of_nat (length s) ∧
  ∀ c s', s = c :: s' → val !! 0%nat = Some (Some c).
Proof.
  intros (hh&val&Hb&Hv). exists hh, (Z.of_nat (length s)), val. split_and!; [done|done|]. intros c s' ->.
  rewrite <- (lookup_take_lt val (S (length (c :: s'))) 0) by lia. by rewrite Hv.
Qed.

Section truths.
Context (num_elements res_handle : loc → Z) (std_cast : loc → bool) (object_is_true : zval → bool).

(** The zval that holds a value. *)
Definition holds (z : zval) (h : zheap) (v : php_value) : Prop :=
  match v with
  | PUndef => zval_get_type z = IS_UNDEF
  | PNull => zval_get_type z = IS_NULL
  | PBool b => zval_get_type z = if b then IS_TRUE else IS_FALSE
  | PLong l => zval_get_type z = IS_LONG ∧ z_value z = VLval l
  | PDouble d => zval_get_type z = IS_DOUBLE ∧ ∃ bits, z_value z = VDval bits ∧ double_of_bits bits = d
  | PText s => zval_get_type z = IS_STRING ∧ ∃ l o, Z_COUNTED z = Some l ∧ h !! l = Some o ∧ zstr_ok s o
  | PArray n => zval_get_type z = IS_ARRAY ∧ ∃ l, Z_COUNTED z = Some l ∧ num_elements l = n
  | PResource n => zval_get_type z = IS_RESOURCE ∧ ∃ l, Z_COUNTED z = Some l ∧ res_handle l = n
  end.


Lemma truth_direct fuel z h v :
  holds z h v → ∃ reports, i_zend_is_true num_elements res_handle std_cast object_is_true (S fuel) z h = Some (truthy v, reports) ∧
    (reports ≠ [] ↔ v = PDouble S754_nan).
Proof.
  intros Hh. cbn [i_zend_is_true]. destruct v as [| |b|l|d|s|n|n]; cbn [holds truthy] in *.
  - rewrite Hh. exists []. split; [done|naive_solver].
  - rewrite Hh. exists []. split; [done|naive_solver].
  - rewrite Hh. exists []. split; [by destruct b|naive_solver].
  - destruct Hh as [-> ->]. exists []. split; [|naive_solver]. cbn. by rewrite nonzero_test.
  - destruct Hh as (->&bits&->&->). cbn. eexists. rewrite is_zero_double. split.
    + do 2 f_equal. rewrite <- bool_decide_not. apply bool_decide_ext. naive_solver.
    + destruct d; cbn; naive_solver.
  - destruct Hh as (->&l&o&Hl&Ho&Hs). cbn. rewrite Hl. cbn. rewrite Ho. cbn. exists [].
    destruct (first_char s o Hs) as (hh&len&val&->&->&Hc). split; [|naive_solver].
    destruct s as [|c [|c' s]]; [done| |].
    + cbn [length]. change (1 <? Z.of_nat 1) with false. change (Z.of_nat 1 =? 0) with false. cbn iota.
      rewrite (Hc c [] eq_refl). cbn. do 2 f_equal. destruct c; by vm_compute.
    + rewrite (proj2 (Z.ltb_lt _ _)) by (cbn [length]; lia). f_equal. f_equal. symmetry. by apply bool_decide_true.
  - destruct Hh as (->&l&Hl&<-). cbn. rewrite Hl. cbn. exists []. split; [|naive_solver]. by rewrite nonzero_test.
  - destruct Hh as (->&l&Hl&<-). cbn. rewrite Hl. cbn. exists []. split; [|naive_solver]. by rewrite nonzero_test.
Qed.

(** The truth of a value is that of the language, whether the zval holds it or refers
    to it: the loop ends after one step through the reference, nothing is reported but
    a NaN, and an object counts as its handler says. *)
Theorem truth_value z h v :
  (holds z h v ∨ ∃ l r, zval_get_type z = IS_REFERENCE ∧ Z_COUNTED z = Some l ∧ Z_REFVAL l h = Some r ∧ holds r h v) →
  ∃ reports, i_zend_is_true num_elements res_handle std_cast object_is_true 2 z h = Some (truthy v, reports) ∧
    (reports ≠ [] ↔ v = PDouble S754_nan).
Proof.
  intros [Hz|(l&r&Ht&Hl&Hr&Hh)]; [by apply truth_direct|].
  destruct (truth_direct 0 r h v Hh) as (reports&He&Hrep). exists reports. split; [|done]. rewrite <- He.
  cbn [i_zend_is_true] in He |- *. rewrite Ht. cbn. rewrite Hl. cbn. by rewrite Hr.
Qed.
End truths.
