(* ===== verification/ZendSsa.v ===== *)
(** * Static single assignment (Zend/Optimizer/zend_ssa.h, zend_inference.h, zend_cfg.h)

    The optimiser gives every definition of a variable a number of its own and links
    the instructions and the phi functions that use it into chains. Modelled are the
    walks over these chains, over blocks and instructions, the removal of
    definitions, and the ranges that the inference keeps for integers. *)

From S2P Require Import Prelude ZendTypes ZendArith ZendAssign.
Import Binary64 LongOps SignedMultiply.

Module Ssa.

(** Negative numbers stand for none. *)
Record zend_ssa_op : Type := SsaOp {
  op1_use : Z; op2_use : Z; result_use : Z;
  op1_def : Z; op2_def : Z; result_def : Z;
  op1_use_chain : Z; op2_use_chain : Z; res_use_chain : Z }.

Record zend_ssa_var : Type := SsaVar {
  definition : Z;
  use_chain : Z;
  phi_use_chain : option loc }.

Record zend_ssa_phi : Type := SsaPhi {
  pi : Z;
  block : Z;
  use_chains : list (option loc);
  sources : list Z }.

Record zend_basic_block : Type := BasicBlock {
  bb_flags : Z;
  bb_start : Z;
  bb_len : Z;
  predecessors_count : Z }.

Record zend_ssa : Type := MkSsa {
  cfg_blocks : list zend_basic_block;
  ops : list zend_ssa_op;
  vars : list zend_ssa_var;
  phi_heap : gmap loc zend_ssa_phi }.

Definition with_ops (o : list zend_ssa_op) (ssa : zend_ssa) : zend_ssa := MkSsa (cfg_blocks ssa) o (vars ssa) (phi_heap ssa).
Definition with_vars (v : list zend_ssa_var) (ssa : zend_ssa) : zend_ssa := MkSsa (cfg_blocks ssa) (ops ssa) v (phi_heap ssa).

(** [p[i]], undefined outside the array. *)
Definition at_index {A} (l : list A) (i : Z) : option A := if decide (0 <= i) then l !! Z.to_nat i else None.
Definition set_index {A} (l : list A) (i : Z) (x : A) : option (list A) :=
  if decide (0 <= i < Z.of_nat (length l)) then Some (<[Z.to_nat i := x]> l) else None.

(** ** Definitions *)

Definition _zend_ssa_remove_def (var : zend_ssa_var) : option zend_ssa_var :=
  if (0 <=? definition var) && (use_chain var <? 0) && bool_decide (phi_use_chain var = None)
  then Some (SsaVar (-1) (use_chain var) (phi_use_chain var)) else None.

(** The definition of one operand of the instruction at [i]: [get] reads its number,
    [put] stores it. *)
Definition remove_operand_def (get : zend_ssa_op → Z) (put : Z → zend_ssa_op → zend_ssa_op) (i : Z) (ssa : zend_ssa)
    : option zend_ssa :=
  op ← at_index (ops ssa) i;
  var ← at_index (vars ssa) (get op);
  var ← _zend_ssa_remove_def var;
  vars' ← set_index (vars ssa) (get op) var;
  ops' ← set_index (ops ssa) i (put (-1) op);
  Some (with_ops ops' (with_vars vars' ssa)).
Definition put_result_def (d : Z) (o : zend_ssa_op) : zend_ssa_op :=
  SsaOp (op1_use o) (op2_use o) (result_use o) (op1_def o) (op2_def o) d (op1_use_chain o) (op2_use_chain o) (res_use_chain o).
Definition put_op1_def (d : Z) (o : zend_ssa_op) : zend_ssa_op :=
  SsaOp (op1_use o) (op2_use o) (result_use o) d (op2_def o) (result_def o) (op1_use_chain o) (op2_use_chain o) (res_use_chain o).
Definition put_op2_def (d : Z) (o : zend_ssa_op) : zend_ssa_op :=
  SsaOp (op1_use o) (op2_use o) (result_use o) (op1_def o) d (result_def o) (op1_use_chain o) (op2_use_chain o) (res_use_chain o).
Definition zend_ssa_remove_result_def : Z → zend_ssa → option zend_ssa := remove_operand_def result_def put_result_def.
Definition zend_ssa_remove_op1_def : Z → zend_ssa → option zend_ssa := remove_operand_def op1_def put_op1_def.
Definition zend_ssa_remove_op2_def : Z → zend_ssa → option zend_ssa := remove_operand_def op2_def put_op2_def.

(** ** Chains *)

Definition zend_ssa_next_use (ssa_op : list zend_ssa_op) (var use : Z) : option Z :=
  op ← at_index ssa_op use;
  Some (if op1_use op =? var then op1_use_chain op
        else if op2_use op =? var then op2_use_chain op
        else res_use_chain op).

Fixpoint find_source (n : nat) (j : Z) (srcs : list Z) (chains : list (option loc)) (var : Z) : option (option loc) :=
  match n with
  | O => Some None
  | S n =>
      s ← at_index srcs j;
      if s =? var then at_index chains j else find_source n (j + 1) srcs chains var
  end.
Definition zend_ssa_next_use_phi (ssa : zend_ssa) (var : Z) (p : zend_ssa_phi) : option (option loc) :=
  if 0 <=? pi p then at_index (use_chains p) 0
  else
    b ← at_index (cfg_blocks ssa) (block p);
    find_source (Z.to_nat (predecessors_count b)) 0 (sources p) (use_chains p) var.
Definition NUM_PHI_SOURCES (ssa : zend_ssa) (phi : zend_ssa_phi) : option Z :=
  if 0 <=? pi phi then Some 1 else b ← at_index (cfg_blocks ssa) (block phi); Some (predecessors_count b).

(** The loops of the iteration macros; the body takes the number or the address of
    the user and the state. *)
Section loops.
Context (body : Z → zend_ssa → option zend_ssa).

Fixpoint use_loop (fuel : nat) (var_num use : Z) (ssa : zend_ssa) : option zend_ssa :=
  match fuel with
  | O => None
  | S fuel =>
      if 0 <=? use then
        next ← zend_ssa_next_use (ops ssa) var_num use;
        ssa ← body use ssa;
        use_loop fuel var_num next ssa
      else Some ssa
  end.
Definition FOREACH_USE (var_num : Z) (ssa : zend_ssa) : option zend_ssa :=
  var ← at_index (vars ssa) var_num;
  use_loop (S (length (ops ssa))) var_num (use_chain var) ssa.

Fixpoint instr_loop (n : nat) (i : Z) (ssa : zend_ssa) : option zend_ssa :=
  match n with O => Some ssa | S n => ssa ← body i ssa; instr_loop n (i + 1) ssa end.
Definition ZEND_BB_REACHABLE : Z := Z.shiftl 1 31.
(** The blocks are those at the start: the body changes instructions, not blocks. *)
Fixpoint FOREACH_INSTR_NUM (blocks : list zend_basic_block) (ssa : zend_ssa) : option zend_ssa :=
  match blocks with
  | [] => Some ssa
  | b :: blocks =>
      if Z.land (bb_flags b) ZEND_BB_REACHABLE =? 0 then FOREACH_INSTR_NUM blocks ssa
      else
        let end_ := u32 (bb_start b + bb_len b) in
        ssa ← instr_loop (Z.to_nat (end_ - bb_start b)) (bb_start b) ssa;
        FOREACH_INSTR_NUM blocks ssa
  end.
End loops.

Section phi_loops.
Context (body : loc → zend_ssa → option zend_ssa).

Fixpoint phi_use_loop (fuel : nat) (var_num : Z) (phi : option loc) (ssa : zend_ssa) : option zend_ssa :=
  match fuel with
  | O => None
  | S fuel =>
      match phi with
      | None => Some ssa
      | Some l =>
          p ← phi_heap ssa !! l;
          next_phi ← zend_ssa_next_use_phi ssa var_num p;
          ssa ← body l ssa;
          phi_use_loop fuel var_num next_phi ssa
      end
  end.
Definition FOREACH_PHI_USE (var_num : Z) (ssa : zend_ssa) : option zend_ssa :=
  var ← at_index (vars ssa) var_num;
  phi_use_loop (S (size (phi_heap ssa))) var_num (phi_use_chain var) ssa.
End phi_loops.

(** ** Ranges *)

Record zend_ssa_range : Type := Range { r_min : Z; r_max : Z; r_underflow : bool; r_overflow : bool }.
Record zend_ssa_var_info : Type := VarInfo { has_range : bool; range : zend_ssa_range }.

(** An operand: its kind, the constant it is, the number of the variable it uses. *)
Record ssa_operand : Type := Operand { op_type : Z; constant : zval; op_use : Z }.
Definition IS_UNUSED : Z := 0.

Section ranges.
Context (var_info : option (list zend_ssa_var_info)).

(** The range of the variable the operand uses, if there is one; undefined when the
    number is outside the array. *)
Definition used_range (o : ssa_operand) : option (option zend_ssa_range) :=
  match var_info with
  | Some infos =>
      if negb (op_type o =? IS_UNUSED) && (0 <=? op_use o)
      then info ← at_index infos (op_use o); Some (if has_range info then Some (range info) else None)
      else Some None
  | None => Some None
  end.
Definition pick_range {A} (of_const : Z → A) (of_range : zend_ssa_range → A) (unknown : A) (o : ssa_operand) : option A :=
  if op_type o =? IS_CONST then
    if zval_get_type (constant o) =? IS_LONG then l ← Z_LVAL (constant o); Some (of_const l) else Some unknown
  else r ← used_range o; Some (from_option of_range unknown r).
Definition ssa_op_has_range : ssa_operand → option bool := pick_range (λ _, true) (λ _, true) false.
Definition ssa_op_min_range : ssa_operand → option Z := pick_range id r_min ZEND_LONG_MIN.
Definition ssa_op_max_range : ssa_operand → option Z := pick_range id r_max ZEND_LONG_MAX.
Definition ssa_op_range_underflow : ssa_operand → option bool := pick_range (λ _, false) r_underflow true.
Definition ssa_op_range_overflow : ssa_operand → option bool := pick_range (λ _, false) r_overflow true.
End ranges.

(** The differences are computed in [zend_long], and only where they cannot overflow. *)
Definition zend_add_will_overflow (a b : Z) : bool :=
  ((0 <? b) && (s64 (ZEND_LONG_MAX - b) <? a)) || ((b <? 0) && (a <? s64 (ZEND_LONG_MIN - b))).
Definition zend_sub_will_overflow (a b : Z) : bool :=
  ((0 <? b) && (a <? s64 (ZEND_LONG_MIN + b))) || ((b <? 0) && (s64 (ZEND_LONG_MAX + b) <? a)).
End Ssa.
Export Ssa.

(** ** Walking the chains *)
Section chains.
Implicit Types (ssa : zend_ssa) (us : list Z) (var u : Z).

(** The body on each of the users, one after the other. *)
Fixpoint run_over {A} (body : A → zend_ssa → option zend_ssa) (l : list A) ssa : option zend_ssa :=
  match l with [] => Some ssa | a :: l => ssa ← body a ssa; run_over body l ssa end.

Definition uses (op : zend_ssa_op) var : Prop := op1_use op = var ∨ op2_use op = var ∨ result_use op = var.
Fixpoint linked (l : list zend_ssa_op) var (head : Z) us : Prop :=
  match us with
  | [] => head < 0
  | u :: us => head = u ∧ 0 <= u ∧ ∃ next, zend_ssa_next_use l var u = Some next ∧ linked l var next us
  end.
(** The chain of a variable runs once through the instructions that use it. *)
Definition use_chain_ok ssa var us : Prop :=
  ∃ v, at_index (vars ssa) var = Some v ∧ linked (ops ssa) var (use_chain v) us ∧ NoDup us ∧
    ∀ u, u ∈ us ↔ ∃ op, at_index (ops ssa) u = Some op ∧ uses op var.

(** The body may change the instruction it is at, not the others. *)
Definition local_body (body : Z → zend_ssa → option zend_ssa) : Prop :=
  ∀ u ssa ssa' v, body u ssa = Some ssa' → v ≠ u → at_index (ops ssa') v = at_index (ops ssa) v.

Lemma next_use_ext l l' var u : at_index l u = at_index l' u → zend_ssa_next_use l var u = zend_ssa_next_use l' var u.
Proof. unfold zend_ssa_next_use. by intros ->. Qed.
Lemma linked_ext l l' var us : ∀ head, (∀ u, u ∈ us → at_index l u = at_index l' u) → linked l var head us → linked l' var head us.
Proof.
  induction us as [|u us IH]; intros head Hext; [done|]. cbn [linked]. intros (->&H0&next&Hn&Hl). split; [done|]. split; [done|].
  exists next. split; [|apply IH; [intros; apply Hext; by right|done]]. rewrite <- Hn. symmetry. apply next_use_ext, Hext. by left.
Qed.

Lemma use_loop_spec body var us : ∀ fuel head ssa,
  local_body body → linked (ops ssa) var head us → NoDup us → (length us < fuel)%nat →
  use_loop body fuel var head ssa = run_over body us ssa.
Proof.
  induction us as [|u us IH]; intros fuel head ssa Hb Hl Hnd Hf; (destruct fuel as [|fuel]; [simpl in Hf; lia|]); cbn [use_loop run_over linked] in *.
  - by rewrite (proj2 (Z.leb_gt _ _)).
  - destruct Hl as (->&H0&next&Hn&Hl). rewrite (proj2 (Z.leb_le _ _)), Hn by done. cbn [mbind option_bind].
    destruct (body u ssa) as [ssa'|] eqn:E; [|done]. cbn [mbind option_bind]. apply list.NoDup_cons in Hnd as [Hu Hnd].
    apply IH; [done| |done|simpl in Hf; lia]. eapply linked_ext; [|exact Hl]. intros v Hv. symmetry. eapply Hb; [done|]. by intros ->.
Qed.

Lemma at_index_bound {A} (l : list A) i x : at_index l i = Some x → 0 <= i < Z.of_nat (length l).
Proof. unfold at_index. destruct (decide (0 <= i)); [|done]. intros ?%lookup_lt_Some. lia. Qed.

(** The walk over the uses of a variable runs the body once on each instruction that
    uses it, in the order of the chain, and on no other; the body may change the links
    of the instruction it is at. The walk ends, whatever the body does: there are no
    more turns than instructions. *)
Theorem foreach_use_visits body ssa var us :
  use_chain_ok ssa var us → local_body body → FOREACH_USE body var ssa = run_over body us ssa ∧ (length us ≤ length (ops ssa))%nat.
Proof.
  intros (v&Hv&Hl&Hnd&Hin) Hb.
  assert (Hlen : (length us ≤ length (ops ssa))%nat).
  { assert (Hsub : us ⊆+ seqZ 0 (Z.of_nat (length (ops ssa)))).
    { apply NoDup_submseteq; [done|]. intros u Hu. apply elem_of_seqZ. apply Hin in Hu as (op&Hop&_).
      apply at_index_bound in Hop. lia. }
    apply submseteq_length in Hsub. rewrite length_seqZ in Hsub. lia. }
  split; [|done]. unfold FOREACH_USE. rewrite Hv. cbn [mbind option_bind]. apply use_loop_spec; [done|done|done|lia].
Qed.
End chains.

Section phi_chains.
Implicit Types (ssa : zend_ssa) (ls : list loc) (var : Z).

(** The link of a phi for the first source that is the variable. *)
Lemma find_source_first srcs chains var n j k c :
  0 <= j → j <= k < j + Z.of_nat n → at_index srcs k = Some var → at_index chains k = Some c →
  (∀ i, j <= i < k → ∃ s, at_index srcs i = Some s ∧ s ≠ var) → find_source n j srcs chains var = Some c.
Proof.
  revert j. induction n as [|n IH]; intros j H0 Hk Hs Hc Hb; [lia|]. cbn [find_source].
  destruct (decide (j = k)) as [->|Hne].
  - rewrite Hs. cbn [mbind option_bind]. by rewrite Z.eqb_refl.
  - destruct (Hb j) as (s&Hj&Hn); [lia|]. rewrite Hj. cbn [mbind option_bind]. rewrite (proj2 (Z.eqb_neq _ _)) by done.
    apply IH; [lia|lia|done|done|]. intros i Hi. apply Hb. lia.
Qed.

Fixpoint phi_linked ssa var (head : option loc) ls : Prop :=
  match ls with
  | [] => head = None
  | l :: ls => head = Some l ∧ ∃ p next, phi_heap ssa !! l = Some p ∧ zend_ssa_next_use_phi ssa var p = Some next ∧ phi_linked ssa var next ls
  end.
(** The chain of a variable runs once through the phis and pis that it is a source of. *)
Definition phi_chain_ok ssa var ls : Prop :=
  ∃ v, at_index (vars ssa) var = Some v ∧ phi_linked ssa var (phi_use_chain v) ls ∧ NoDup ls ∧
    ∀ l, l ∈ ls ↔ ∃ p, phi_heap ssa !! l = Some p ∧ var ∈ sources p.

Definition local_phi_body (body : loc → zend_ssa → option zend_ssa) : Prop :=
  ∀ l ssa ssa', body l ssa = Some ssa' → cfg_blocks ssa' = cfg_blocks ssa ∧ ∀ k, k ≠ l → phi_heap ssa' !! k = phi_heap ssa !! k.

Lemma phi_linked_ext ssa ssa' var ls : ∀ head,
  cfg_blocks ssa' = cfg_blocks ssa → (∀ l, l ∈ ls → phi_heap ssa' !! l = phi_heap ssa !! l) →
  phi_linked ssa var head ls → phi_linked ssa' var head ls.
Proof.
  induction ls as [|l ls IH]; intros head Hb Hext; [done|]. cbn [phi_linked]. intros (->&p&next&Hp&Hn&Hl). split; [done|].
  exists p, next. split; [rewrite Hext; [done|by left]|]. split; [|apply IH; [done|intros; apply Hext; by right|done]].
  unfold zend_ssa_next_use_phi in *. by rewrite Hb.
Qed.

Lemma phi_loop_spec body var ls : ∀ fuel head ssa,
  local_phi_body body → phi_linked ssa var head ls → NoDup ls → (length ls < fuel)%nat →
  phi_use_loop body fuel var head ssa = run_over body ls ssa.
Proof.
  induction ls as [|l ls IH]; intros fuel head ssa Hb Hl Hnd Hf; (destruct fuel as [|fuel]; [simpl in Hf; lia|]); cbn [phi_use_loop run_over phi_linked] in *.
  - by rewrite Hl.
  - destruct Hl as (->&p&next&Hp&Hn&Hl). rewrite Hp. cbn [mbind option_bind]. rewrite Hn. cbn [mbind option_bind].
    destruct (body l ssa) as [ssa'|] eqn:E; [|done]. cbn [mbind option_bind]. apply list.NoDup_cons in Hnd as [Hu Hnd].
    destruct (Hb _ _ _ E) as [Hblocks Hother].
    apply IH; [done| |done|simpl in Hf; lia]. eapply phi_linked_ext; [done| |exact Hl]. intros k Hk. apply Hother. by intros ->.
Qed.

(** The same for the phi functions that a variable is a source of. *)
Theorem foreach_phi_use_visits body ssa var ls :
  phi_chain_ok ssa var ls → local_phi_body body → FOREACH_PHI_USE body var ssa = run_over body ls ssa ∧ (length ls ≤ size (phi_heap ssa))%nat.
Proof.
  intros (v&Hv&Hl&Hnd&Hin) Hb.
  assert (Hlen : (length ls ≤ size (phi_heap ssa))%nat).
  { rewrite <- size_dom. rewrite <- (size_list_to_set (C := gset loc) ls) by done. apply subseteq_size. intros l.
    rewrite elem_of_list_to_set, Hin, elem_of_dom. intros (p&Hp&_). by eexists. }
  split; [|done]. unfold FOREACH_PHI_USE. rewrite Hv. cbn [mbind option_bind]. apply phi_loop_spec; [done|done|done|lia].
Qed.
End phi_chains.

(** ** Ranges *)
Section range_laws.
Context (var_info : option (list zend_ssa_var_info)) (env : Z → Z).
Implicit Types (o : ssa_operand) (a b : Z).

(** What is recorded is true of the value [env v] of every variable [v]: below [min]
    only when it may underflow, above [max] only when it may overflow. *)
Definition infos_true : Prop :=
  (∀ v, - 2 ^ 63 <= env v < 2 ^ 63) ∧
  ∀ infos v info, var_info = Some infos → at_index infos v = Some info → has_range info = true →
    (r_underflow (range info) = false → r_min (range info) <= env v) ∧
    (r_overflow (range info) = false → env v <= r_max (range info)).
(** The integer an operand stands for. *)
Definition operand_value o (x : Z) : Prop :=
  if op_type o =? IS_CONST then zval_get_type (constant o) = IS_LONG ∧ Z_LVAL (constant o) = Some x ∧ - 2 ^ 63 <= x < 2 ^ 63
  else x = env (op_use o).

Lemma operand_range o x mn mx u v :
  infos_true → operand_value o x →
  ssa_op_min_range var_info o = Some mn → ssa_op_max_range var_info o = Some mx →
  ssa_op_range_underflow var_info o = Some u → ssa_op_range_overflow var_info o = Some v →
  (u = false → mn <= x) ∧ (v = false → x <= mx) ∧ - 2 ^ 63 <= x < 2 ^ 63.
Proof.
  intros [Hb Hi] Hx. unfold ssa_op_min_range, ssa_op_max_range, ssa_op_range_underflow, ssa_op_range_overflow, pick_range.
  unfold operand_value in Hx. destruct (op_type o =? IS_CONST).
  - destruct Hx as (->&->&?). cbn. intros [= <-] [= <-] [= <-] [= <-]. split; [intros _; apply Z.le_refl|]. split; [intros _; apply Z.le_refl|done].
  - subst x. unfold used_range. destruct var_info as [infos|]; [|cbn; intros; simplify_eq; split; [done|split; [done|apply Hb]]].
    destruct (negb (op_type o =? IS_UNUSED) && (0 <=? op_use o)); [|cbn; intros; simplify_eq; split; [done|split; [done|apply Hb]]].
    destruct (at_index infos (op_use o)) as [info|] eqn:Hinfo; [|done]. cbn.
    destruct (has_range info) eqn:Hr; cbn; intros; simplify_eq; [|split; [done|split; [done|apply Hb]]].
    destruct (Hi infos (op_use o) info eq_refl Hinfo Hr). split; [auto|split; [auto|apply Hb]].
Qed.

(** The tests are exact, and compute nothing that overflows itself. *)
Lemma add_will_overflow_exact a b :
  - 2 ^ 63 <= a < 2 ^ 63 → - 2 ^ 63 <= b < 2 ^ 63 → zend_add_will_overflow a b = negb (in_s64 (a + b)).
Proof.
  intros Ha Hb. unfold zend_add_will_overflow, in_s64, ZEND_LONG_MAX, ZEND_LONG_MIN.
  destruct (Z.ltb_spec 0 b), (Z.ltb_spec b 0); try lia; cbn [andb orb].
  - rewrite (proj2 (s64_spec _)) by lia. rewrite orb_false_r. lia.
  - rewrite (proj2 (s64_spec _)) by lia. lia.
Qed.
Lemma sub_will_overflow_exact a b :
  - 2 ^ 63 <= a < 2 ^ 63 → - 2 ^ 63 <= b < 2 ^ 63 → zend_sub_will_overflow a b = negb (in_s64 (a - b)).
Proof.
  intros Ha Hb. unfold zend_sub_will_overflow, in_s64, ZEND_LONG_MAX, ZEND_LONG_MIN.
  destruct (Z.ltb_spec 0 b), (Z.ltb_spec b 0); try lia; cbn [andb orb].
  - rewrite (proj2 (s64_spec _)) by lia. rewrite orb_false_r. lia.
  - rewrite (proj2 (s64_spec _)) by lia. lia.
Qed.

(** The range recorded for an operand, when it may neither underflow nor overflow. *)
Definition recorded o (mn mx : Z) : Prop :=
  ssa_op_min_range var_info o = Some mn ∧ ssa_op_max_range var_info o = Some mx ∧
  ssa_op_range_underflow var_info o = Some false ∧ ssa_op_range_overflow var_info o = Some false ∧
  - 2 ^ 63 <= mn ∧ mx < 2 ^ 63.

Lemma recorded_range o x mn mx :
  infos_true → operand_value o x → recorded o mn mx → mn <= x <= mx ∧ - 2 ^ 63 <= mn ∧ mx < 2 ^ 63.
Proof.
  intros Hi Hx (Hn&Hm&Hu&Hv&?&?). destruct (operand_range _ _ _ _ _ _ Hi Hx Hn Hm Hu Hv) as (L&R&_).
  specialize (L eq_refl). specialize (R eq_refl). lia.
Qed.

(** What the inference of the optimiser relies on: the overflow tests say
    exactly whether the integer addition or subtraction leaves the range of a
    long, and when the recorded ranges of two operands are true, may neither
    underflow nor overflow and pass the tests at their ends, the addition and the
    subtraction of their values are integers, in the range of the sums and
    differences of the ends. *)
Theorem inferred_ranges_sound o1 o2 x1 x2 mn1 mx1 mn2 mx2 :
  infos_true → operand_value o1 x1 → operand_value o2 x2 → recorded o1 mn1 mx1 → recorded o2 mn2 mx2 →
  (zend_add_will_overflow mn1 mn2 = false → zend_add_will_overflow mx1 mx2 = false →
     fast_long_add_function x1 x2 = NLong (x1 + x2) ∧ mn1 + mn2 <= x1 + x2 <= mx1 + mx2) ∧
  (zend_sub_will_overflow mn1 mx2 = false → zend_sub_will_overflow mx1 mn2 = false →
     fast_long_sub_function x1 x2 = NLong (x1 - x2) ∧ mn1 - mx2 <= x1 - x2 <= mx1 - mn2) ∧
  zend_add_will_overflow x1 x2 = negb (in_s64 (x1 + x2)) ∧ zend_sub_will_overflow x1 x2 = negb (in_s64 (x1 - x2)).
Proof.
  intros Hi Hx1 Hx2 Hr1 Hr2. pose proof (recorded_range _ _ _ _ Hi Hx1 Hr1). pose proof (recorded_range _ _ _ _ Hi Hx2 Hr2).
  destruct (long_add_sub_variants x1 x2) as (_&_&->&_&_&->); [lia|lia|]. unfold php_number. split_and!.
  - rewrite !add_will_overflow_exact by lia. rewrite !negb_false_iff, !in_s64_spec. intros H1 H2.
    rewrite (proj2 (in_s64_spec (x1 + x2))) by lia. split; [done|lia].
  - rewrite !sub_will_overflow_exact by lia. rewrite !negb_false_iff, !in_s64_spec. intros H1 H2.
    rewrite (proj2 (in_s64_spec (x1 - x2))) by lia. split; [done|lia].
  - apply add_will_overflow_exact; lia.
  - apply sub_will_overflow_exact; lia.
Qed.
End range_laws.

(** ** Blocks, instructions and definitions *)
Section instructions.
Implicit Types (ssa : zend_ssa) (b : zend_basic_block).

Definition reachable b : bool := negb (Z.land (bb_flags b) ZEND_BB_REACHABLE =? 0).
Definition block_instrs b : list Z := seqZ (bb_start b) (bb_len b).

Lemma run_over_app {A} (body : A → zend_ssa → option zend_ssa) l k ssa :
  run_over body (l ++ k) ssa = ssa ← run_over body l ssa; run_over body k ssa.
Proof. revert ssa. induction l as [|a l IH]; intros ssa; cbn; [done|]. destruct (body a ssa); cbn; [apply IH|done]. Qed.
Lemma instr_loop_spec body n : ∀ i ssa, instr_loop body n i ssa = run_over body (seqZ i (Z.of_nat n)) ssa.
Proof.
  induction n as [|n IH]; intros i ssa; [done|]. cbn [instr_loop]. rewrite seqZ_cons by lia. cbn [run_over].
  replace (Z.pred (Z.of_nat (S n))) with (Z.of_nat n) by lia. replace (Z.succ i) with (i + 1) by lia.
  destruct (body i ssa); cbn; [apply IH|done].
Qed.

(** The walk over the instructions runs the body on every instruction of the
    reachable blocks, in the order of the blocks, and on none of the others. *)
Theorem foreach_instr_visits body blocks ssa :
  Forall (λ b, 0 <= bb_start b ∧ 0 <= bb_len b ∧ bb_start b + bb_len b < 2 ^ 32) blocks →
  FOREACH_INSTR_NUM body blocks ssa = run_over body (filter reachable blocks ≫= block_instrs) ssa.
Proof.
  revert ssa. induction blocks as [|b blocks IH]; intros ssa Hok; [done|]. inversion_clear Hok as [|? ? (Hs&Hl&Hb) Hok'].
  cbn [FOREACH_INSTR_NUM]. rewrite filter_cons.
  assert (Hr : (Z.land (bb_flags b) ZEND_BB_REACHABLE =? 0) = negb (reachable b)) by (unfold reachable; by rewrite negb_involutive).
  rewrite Hr. destruct (reachable b); cbn [negb].
  - rewrite decide_True by done. cbn [mbind list_bind]. rewrite run_over_app, u32_small, instr_loop_spec by lia.
    unfold block_instrs at 1. rewrite Z2Nat.id by lia. replace (bb_start b + bb_len b - bb_start b) with (bb_len b) by lia.
    destruct (run_over body _ ssa); cbn; [by apply IH|done].
  - rewrite decide_False by auto. by apply IH.
Qed.

(** Removing the definition of the result: refused while the variable is used. *)
Lemma remove_result_def_spec i ssa ssa' :
  zend_ssa_remove_result_def i ssa = Some ssa' →
  ∃ op var, at_index (ops ssa) i = Some op ∧ at_index (vars ssa) (result_def op) = Some var ∧
    use_chain var < 0 ∧ phi_use_chain var = None ∧ 0 <= definition var ∧
    at_index (vars ssa') (result_def op) = Some (SsaVar (-1) (use_chain var) None) ∧
    at_index (ops ssa') i = Some (put_result_def (-1) op) ∧
    (∀ k, k ≠ i → at_index (ops ssa') k = at_index (ops ssa) k) ∧
    (∀ k, k ≠ result_def op → at_index (vars ssa') k = at_index (vars ssa) k).
Proof.
  unfold zend_ssa_remove_result_def, remove_operand_def, _zend_ssa_remove_def.
  destruct (at_index (ops ssa) i) as [op|] eqn:Hop; [|done]. cbn [mbind option_bind].
  destruct (at_index (vars ssa) (result_def op)) as [var|] eqn:Hvar; [|done]. cbn [mbind option_bind].
  destruct (Z.leb_spec 0 (definition var)) as [Hd|]; [|done]. destruct (Z.ltb_spec (use_chain var) 0) as [Hu|]; [|done].
  cbn [andb]. case_bool_decide as Hp; [|done]. cbn [mbind option_bind].
  pose proof (at_index_bound _ _ _ Hop) as Bi. pose proof (at_index_bound _ _ _ Hvar) as Bv.
  unfold set_index. rewrite !decide_True by done. cbn [mbind option_bind]. intros [= <-].
  exists op, var. unfold with_ops, with_vars, at_index in *. cbn [ops vars]. split_and!; try done.
  - rewrite decide_True, list_lookup_insert_eq by lia. by rewrite Hp.
  - rewrite decide_True, list_lookup_insert_eq by lia. done.
  - intros k Hk. destruct (decide (0 <= k)); [|done]. apply list_lookup_insert_ne. lia.
  - intros k Hk. destruct (decide (0 <= k)); [|done]. apply list_lookup_insert_ne. lia.
Qed.
End instructions.
