(* ===== verification/ZendFrames.v ===== *)
(** * Call frames on the stack of the virtual machine
      (Zend/zend_execute.h, Zend/zend_compile.h)

    Every call of a PHP function has a frame of zval-sized slots: a header, then
    arguments, variables and temporaries. Frames lie one after another on pages;
    a frame that does not fit starts a new page and is marked
    [ZEND_CALL_ALLOCATED], so that freeing it gives the page back. Addresses are
    integers. [zend_vm_stack_extend] is a function of the engine library. *)

From S2P Require Import Prelude ZendTypes ZendString ZendArena Engine.

(** ** Frames *)
Module Frame.
Import HashLayout.

(** The fields of a [zend_function] that the frame depends on. *)
Record zend_function : Type := Function_ {
  f_type : Z;
  fn_flags : Z;
  f_scope : option loc;
  f_num_args : Z;
  f_T : Z;
  last_var : Z }.

Definition ZEND_INTERNAL_FUNCTION : Z := 1.
Definition ZEND_USER_FUNCTION : Z := 2.
Definition ZEND_USER_CODE (type : Z) : bool := negb (type =? ZEND_INTERNAL_FUNCTION).

Definition ZEND_CALL_CODE : Z := Z.shiftl 1 16.
Definition ZEND_CALL_TOP : Z := Z.shiftl 1 17.
Definition ZEND_CALL_ALLOCATED : Z := Z.shiftl 1 18.
Definition ZEND_CALL_FREE_EXTRA_ARGS : Z := Z.shiftl 1 19.

(** The function and [This]: the object or class, the call information in the type
    word and the number of arguments in the spare word. *)
Record zend_execute_data : Type := ExecuteData { ex_func : zend_function; ex_This : zval }.

Definition ZEND_CALL_INFO (ex : zend_execute_data) : Z := Z_TYPE_INFO (ex_This ex).
Definition ZEND_CALL_NUM_ARGS (ex : zend_execute_data) : Z := Z_EXTRA (ex_This ex).
Definition ZEND_CALL_KIND_EX (call_info : Z) : Z := Z.land call_info (Z.lor ZEND_CALL_CODE ZEND_CALL_TOP).
Definition ZEND_ADD_CALL_FLAG_EX (call_info flag : Z) : Z := Z.lor call_info flag.
Definition ZEND_DEL_CALL_FLAG_EX (call_info flag : Z) : Z := Z.land call_info (Z.lxor flag 0xffffffff).

Definition sizeof_zend_execute_data : Z := 80.
Definition ZEND_CALL_FRAME_SLOT : Z := (sizeof_zend_execute_data + sizeof_zval - 1) / sizeof_zval.
Definition ZEND_CALL_VAR (call n : Z) : Z := call + n.
Definition ZEND_CALL_VAR_NUM (call n : Z) : Z := call + (ZEND_CALL_FRAME_SLOT + n) * sizeof_zval.
Definition ZEND_CALL_ARG (call n : Z) : Z := ZEND_CALL_VAR_NUM call (n - 1).
Definition EX_VAR_TO_NUM (n : Z) : Z := u32 (n / sizeof_zval - ZEND_CALL_FRAME_SLOT).
Definition EX_NUM_TO_VAR (n : Z) : Z := u32 ((n + ZEND_CALL_FRAME_SLOT) * sizeof_zval).

(** The bytes a call needs, in 32-bit arithmetic. *)
Definition zend_vm_calc_used_stack (num_args : Z) (func : zend_function) : Z :=
  let used_stack := u32 (ZEND_CALL_FRAME_SLOT + num_args + f_T func) in
  let used_stack :=
    if ZEND_USER_CODE (f_type func)
    then u32 (used_stack + (last_var func - Z.min (f_num_args func) num_args)) else used_stack in
  u32 (used_stack * sizeof_zval).
End Frame.
Export Frame.

(** ** The stack *)
Module VmStack.
Import HashLayout.

(** [struct _zend_vm_stack] and the address it lies at; the list is the chain of
    [prev] pointers. *)
Record zend_vm_page : Type := VmPage { pg_base : Z; pg_top : Z; pg_end : Z }.
Definition sizeof_zend_vm_stack : Z := 24.
Definition ZEND_VM_STACK_HEADER_SLOTS : Z := (sizeof_zend_vm_stack + sizeof_zval - 1) / sizeof_zval.
Definition ZEND_VM_STACK_ELEMENTS (p : zend_vm_page) : Z := pg_base p + ZEND_VM_STACK_HEADER_SLOTS * sizeof_zval.
Definition page_block (p : zend_vm_page) : mblock := Block (pg_base p) (pg_end p - pg_base p).

(** [EG(vm_stack_top)], [EG(vm_stack_end)], [EG(vm_stack)] with its chain, and the
    memory of the frames: headers and slots by address. *)
Record vm : Type := Vm {
  vm_stack_top : Z;
  vm_stack_end : Z;
  vm_stack : list zend_vm_page;
  vm_frames : gmap Z zend_execute_data;
  vm_slots : gmap Z zval }.

Definition with_top (top : Z) (st : vm) : vm := Vm top (vm_stack_end st) (vm_stack st) (vm_frames st) (vm_slots st).
Definition with_frame (call : Z) (ex : zend_execute_data) (st : vm) : vm :=
  Vm (vm_stack_top st) (vm_stack_end st) (vm_stack st) (<[call := ex]> (vm_frames st)) (vm_slots st).
Definition with_slot (p : Z) (z : zval) (st : vm) : vm :=
  Vm (vm_stack_top st) (vm_stack_end st) (vm_stack st) (vm_frames st) (<[p := z]> (vm_slots st)).

Definition zend_vm_stack_new_page (emalloc : list mblock → Z → option Z) (used : list mblock) (size : Z)
    (prev : list zend_vm_page) : option (list zend_vm_page) :=
  page ← emalloc used size;
  Some (VmPage page (page + ZEND_VM_STACK_HEADER_SLOTS * sizeof_zval) (page + size) :: prev).

(** [ZEND_ASSERT(!func->common.scope || object_or_called_scope)]. *)
Definition zend_vm_init_call_frame (call call_info : Z) (func : zend_function) (num_args : Z)
    (object_or_called_scope : option loc) (st : vm) : option vm :=
  match f_scope func, object_or_called_scope with
  | Some _, None => None
  | _, _ => Some (with_frame call (ExecuteData func (Zval (VPtr object_or_called_scope) call_info num_args)) st)
  end.

Section stack.
(** [zend_vm_stack_extend]: a frame at the start of a new page; [None] when there is
    no memory, which ends the request. *)
Context (zend_vm_stack_extend : Z → vm → option (Z * vm)).

(** The inner [None] ends the request. *)
Definition zend_vm_stack_push_call_frame_ex (used_stack call_info : Z) (func : zend_function) (num_args : Z)
    (object_or_called_scope : option loc) (st : vm) : option (option (Z * vm)) :=
  let call := vm_stack_top st in
  if u64 (vm_stack_end st - call) <? used_stack then
    match zend_vm_stack_extend used_stack st with
    | None => Some None
    | Some (call, st) =>
        st ← zend_vm_init_call_frame call (Z.lor call_info ZEND_CALL_ALLOCATED) func num_args object_or_called_scope st;
        Some (Some (call, st))
    end
  else
    st ← zend_vm_init_call_frame call call_info func num_args object_or_called_scope (with_top (call + used_stack) st);
    Some (Some (call, st)).

Definition zend_vm_stack_push_call_frame (call_info : Z) (func : zend_function) (num_args : Z)
    (object_or_called_scope : option loc) (st : vm) : option (option (Z * vm)) :=
  zend_vm_stack_push_call_frame_ex (zend_vm_calc_used_stack num_args func) call_info func num_args
    object_or_called_scope st.

(** The page given back, if any. The first page has no [prev]. *)
Definition zend_vm_stack_free_call_frame_ex (call_info call : Z) (st : vm) : option (list mblock * vm) :=
  if negb (Z.land call_info ZEND_CALL_ALLOCATED =? 0) then
    match vm_stack st with
    | p :: (prev :: _) as rest =>
        if call =? ZEND_VM_STACK_ELEMENTS p
        then Some ([page_block p], Vm (pg_top prev) (pg_end prev) rest (vm_frames st) (vm_slots st))
        else None
    | _ => None
    end
  else Some ([], with_top call st).
Definition zend_vm_stack_free_call_frame (call : Z) (st : vm) : option (list mblock * vm) :=
  ex ← vm_frames st !! call; zend_vm_stack_free_call_frame_ex (ZEND_CALL_INFO ex) call st.

(** [zend_vm_stack_copy_call_frame] moves the frame to a new page. *)
Definition zend_vm_stack_extend_call_frame
    (zend_vm_stack_copy_call_frame : Z → Z → Z → vm → option (Z * vm)) (call passed_args additional_args : Z)
    (st : vm) : option (Z * vm) :=
  if additional_args <? u32 ((vm_stack_end st - vm_stack_top st) / sizeof_zval)
  then Some (call, with_top (vm_stack_top st + additional_args * sizeof_zval) st)
  else zend_vm_stack_copy_call_frame call passed_args additional_args st.
End stack.

(** The zvals at [p], [p + 1], ..., destroyed one after the other: a loop that ends
    when the 32-bit count reaches zero after its decrement. *)
Section args.
Context {E : Type} {engine : ZendEngine E}.

Definition turns (count : Z) : nat := Z.to_nat (if count =? 0 then 2 ^ 32 else count).

Fixpoint dtor_loop (dtor : zval → M (es E) ()) (n : nat) (p : Z) (st : vm) : M (es E) () :=
  match n with
  | O => mret ()
  | S n => z ← need (vm_slots st !! p); dtor z;; dtor_loop dtor n (p + sizeof_zval) st
  end.

Definition zend_vm_stack_free_args (call : Z) (st : vm) : M (es E) () :=
  ex ← need (vm_frames st !! call);
  let num_args := ZEND_CALL_NUM_ARGS ex in
  if 0 <? num_args then dtor_loop zval_ptr_dtor_nogc (turns num_args) (ZEND_CALL_ARG call 1) st else mret ().

Definition zend_vm_stack_free_extra_args_ex (call_info call : Z) (st : vm) : M (es E) () :=
  if negb (Z.land call_info ZEND_CALL_FREE_EXTRA_ARGS =? 0) then
    ex ← need (vm_frames st !! call);
    let count := u32 (ZEND_CALL_NUM_ARGS ex - f_num_args (ex_func ex)) in
    dtor_loop i_zval_ptr_dtor (turns count) (ZEND_CALL_VAR_NUM call (last_var (ex_func ex) + f_T (ex_func ex))) st
  else mret ().
Definition zend_vm_stack_free_extra_args (call : Z) (st : vm) : M (es E) () :=
  ex ← need (vm_frames st !! call); zend_vm_stack_free_extra_args_ex (ZEND_CALL_INFO ex) call st.
End args.
End VmStack.
Export VmStack.

(** ** The frames that are in use *)
Import HashLayout.

(** A frame: where it lies, its size, where its page ends, and whether it opened
    the page. *)
Record live : Type := Live { l_call : Z; l_size : Z; l_limit : Z; l_alloc : bool }.
Definition l_block (f : live) : mblock := Block (l_call f) (l_size f).

(** The frames of a stack, newest first: one after another on each page, the first
    of a later page at its start; [top] is where the next one goes. The first frame
    goes to [bottom] on the page that lies at [first]. *)
Inductive stacked (bottom : Z) (first : mblock) : Z → list zend_vm_page → list live → Prop :=
| stacked_bottom p :
    ZEND_VM_STACK_ELEMENTS p <= bottom <= pg_end p → page_block p = first → stacked bottom first bottom [p] []
| stacked_frame top p rest fs size :
    stacked bottom first top (p :: rest) fs → 0 < size → top + size <= pg_end p →
    stacked bottom first (top + size) (p :: rest) (Live top size (pg_end p) false :: fs)
| stacked_page p prev rest fs size :
    stacked bottom first (pg_top prev) (prev :: rest) fs → 0 < size → ZEND_VM_STACK_ELEMENTS p + size <= pg_end p →
    stacked bottom first (ZEND_VM_STACK_ELEMENTS p + size) (p :: prev :: rest)
      (Live (ZEND_VM_STACK_ELEMENTS p) size (pg_end p) true :: fs).

Definition page_ok (p : zend_vm_page) : Prop :=
  0 < pg_base p ∧ ZEND_VM_STACK_ELEMENTS p <= pg_end p ∧ pg_end p < 2 ^ 63.
Fixpoint pages_ok (pages : list zend_vm_page) : Prop :=
  match pages with
  | [] => True
  | p :: rest => page_ok p ∧ Forall (disjoint_blocks (page_block p)) (page_block <$> rest) ∧ pages_ok rest
  end.

(** The flag in the header tells the frames that opened a page. *)
Definition header_ok (st : vm) (f : live) : Prop :=
  ∃ ex, vm_frames st !! l_call f = Some ex ∧ negb (Z.land (ZEND_CALL_INFO ex) ZEND_CALL_ALLOCATED =? 0) = l_alloc f.

Definition vm_ok (bottom : Z) (first : mblock) (st : vm) (fs : list live) : Prop :=
  stacked bottom first (vm_stack_top st) (vm_stack st) fs ∧ pages_ok (vm_stack st) ∧ Forall (header_ok st) fs ∧
  ∃ p rest, vm_stack st = p :: rest ∧ vm_stack_end st = pg_end p.

(** [zend_vm_stack_extend] keeps the top of the current page, links a new page that
    overlaps no other, and reserves the frame at its start. *)
Definition extends (extend : Z → vm → option (Z * vm)) : Prop :=
  ∀ size st call st', 0 < size → extend size st = Some (call, st') →
  ∃ p prev rest, vm_stack st = prev :: rest ∧
    st' = Vm (call + size) (pg_end p) (p :: VmPage (pg_base prev) (vm_stack_top st) (pg_end prev) :: rest)
             (vm_frames st) (vm_slots st) ∧
    call = ZEND_VM_STACK_ELEMENTS p ∧ call + size <= pg_end p ∧ page_ok p ∧
    Forall (disjoint_blocks (page_block p)) (page_block <$> vm_stack st).

Section stack_laws.
Context (bottom : Z) (first : mblock).
Implicit Types (st : vm) (fs : list live) (f : live) (p : zend_vm_page).

Lemma stacked_top top p rest fs :
  pages_ok (p :: rest) → stacked bottom first top (p :: rest) fs → pg_base p < top <= pg_end p.
Proof.
  intros ((H0&He&_)&_) Hs. unfold ZEND_VM_STACK_ELEMENTS in *.
  change (ZEND_VM_STACK_HEADER_SLOTS * sizeof_zval) with 32 in *.
  remember (p :: rest) as pages eqn:Hp. revert p rest Hp H0 He.
  induction Hs as [q Ht Hq|top q r fs size Hs IH Hsz Hend|q prev r fs size Hs IH Hsz Hend];
    intros p rest [= <- <-] H0 He; unfold ZEND_VM_STACK_ELEMENTS in *;
    change (ZEND_VM_STACK_HEADER_SLOTS * sizeof_zval) with 32 in *; [lia| |lia].
  specialize (IH q r eq_refl H0 He). lia.
Qed.

(** Every frame lies on its page: below [top] on the current one. *)
Lemma stacked_below top p rest fs f :
  stacked bottom first top (p :: rest) fs → f ∈ fs → pages_ok (p :: rest) →
  0 < l_size f ∧
  ((pg_base p < l_call f ∧ l_call f + l_size f <= top) ∨
   (∃ q, q ∈ rest ∧ pg_base q < l_call f ∧ l_call f + l_size f <= pg_end q)).
Proof.
  remember (p :: rest) as pages eqn:Hp. intros Hs. revert p rest Hp.
  induction Hs as [q Ht Hq|top q r fs size Hs IH Hsz Hend|q prev r fs size Hs IH Hsz Hend];
    intros p rest [= <- <-] Hf Hok; [by apply not_elem_of_nil in Hf|..].
  - apply elem_of_cons in Hf as [->|Hf]; simpl.
    + pose proof (stacked_top _ _ _ _ Hok Hs). split; [lia|left; lia].
    + destruct (IH q r eq_refl Hf Hok) as [Hl [[? ?]|Hq]]; split; [done|left; lia|done|by right].
  - apply elem_of_cons in Hf as [->|Hf]; simpl.
    + split; [lia|]. left. unfold ZEND_VM_STACK_ELEMENTS. change (ZEND_VM_STACK_HEADER_SLOTS * sizeof_zval) with 32. lia.
    + destruct Hok as (_&_&Hok). destruct (IH prev r eq_refl Hf Hok) as [Hl [[? ?]|(q'&?&?&?)]]; (split; [done|right]).
      * exists prev. split; [by left|]. pose proof (stacked_top _ _ _ _ Hok Hs). lia.
      * exists q'. split; [by right|]. lia.
Qed.

(** What lies above [top] on the current page, or on a page of its own, meets no
    frame. *)
Lemma stacked_apart top p rest fs addr size :
  stacked bottom first top (p :: rest) fs → pages_ok (p :: rest) → top <= addr → addr + size <= pg_end p →
  Forall (disjoint_blocks (Block addr size)) (l_block <$> fs).
Proof.
  intros Hs Hok Ha He. apply Forall_fmap, list.Forall_forall. intros f Hf.
  pose proof (stacked_top _ _ _ _ Hok Hs) as Htop.
  destruct (stacked_below _ _ _ _ _ Hs Hf Hok) as [Hl [[? ?]|(q&Hq&?&?)]];
    unfold disjoint_blocks, l_block, m_end; simpl; [lia|].
  destruct Hok as (_&Hd&_). rewrite list.Forall_fmap, list.Forall_forall in Hd. specialize (Hd q Hq).
  unfold disjoint_blocks, page_block, m_end in Hd. simpl in Hd. lia.
Qed.

(** The registers and the pages are determined by the frames. *)
Fixpoint blocks_of fs : list mblock :=
  match fs with
  | [] => [first]
  | f :: fs =>
      if l_alloc f
      then let base := l_call f - ZEND_VM_STACK_HEADER_SLOTS * sizeof_zval in Block base (l_limit f - base) :: blocks_of fs
      else blocks_of fs
  end.
Definition top_of fs : Z := match fs with f :: _ => l_call f + l_size f | [] => bottom end.

Lemma stacked_determined top pages fs :
  stacked bottom first top pages fs → top = top_of fs ∧ page_block <$> pages = blocks_of fs.
Proof.
  induction 1 as [p _ Hp|top p rest fs size _ [IH1 IH2] _ _|p prev rest fs size _ [IH1 IH2] _ _]; simpl.
  - by rewrite Hp.
  - split; [done|exact IH2].
  - split; [done|]. rewrite <- IH2. simpl. f_equal. unfold page_block, ZEND_VM_STACK_ELEMENTS. f_equal; lia.
Qed.

Lemma vm_ok_registers st st' fs :
  vm_ok bottom first st fs → vm_ok bottom first st' fs →
  vm_stack_top st' = vm_stack_top st ∧ vm_stack_end st' = vm_stack_end st ∧
  page_block <$> vm_stack st' = page_block <$> vm_stack st.
Proof.
  intros (Hs&_&_&p&rest&Hp&He) (Hs'&_&_&p'&rest'&Hp'&He').
  destruct (stacked_determined _ _ _ Hs) as [Ht Hb]. destruct (stacked_determined _ _ _ Hs') as [Ht' Hb'].
  rewrite Hb, Hb', Ht, Ht', He, He'. split_and!; [done| |done]. rewrite Hp in Hb. rewrite Hp' in Hb'.
  rewrite <- Hb in Hb'. simpl in Hb'. unfold page_block in Hb'. injection Hb' as H1 H2 _. lia.
Qed.

Lemma header_ok_insert st f call ex :
  call ≠ l_call f → header_ok st f → header_ok (with_frame call ex st) f.
Proof. intros Hne (ex'&He&Ha). exists ex'. split; [|done]. simpl. by rewrite lookup_insert_ne. Qed.

(** A frame that meets none of the others has a header of its own. *)
Lemma headers_insert st fs call size ex :
  0 < size → Forall (disjoint_blocks (Block call size)) (l_block <$> fs) → Forall (λ f, 0 < l_size f) fs →
  Forall (header_ok st) fs → Forall (header_ok (with_frame call ex st)) fs.
Proof.
  intros Hs Hd Hp Hh. rewrite list.Forall_fmap in Hd. rewrite list.Forall_forall in *. intros f Hf. apply header_ok_insert; [|by apply Hh].
  specialize (Hd f Hf). specialize (Hp f Hf). unfold disjoint_blocks, l_block, m_end in Hd. simpl in Hd. lia.
Qed.

Lemma stacked_sizes top pages fs : stacked bottom first top pages fs → Forall (λ f, 0 < l_size f) fs.
Proof. induction 1; by constructor. Qed.
End stack_laws.

(** ** Calls and returns *)
Section calls.
Context (extend : Z → vm → option (Z * vm)) (extending : extends extend) (bottom : Z) (first : mblock).
Implicit Types (st : vm) (fs : list live).
Abbreviation ok := (vm_ok bottom first).

(** The header a call writes. *)
Definition header (func : zend_function) (obj : option loc) (call_info num_args : Z) : zend_execute_data :=
  ExecuteData func (Zval (VPtr obj) call_info num_args).

Lemma init_call_frame call call_info func num_args obj st :
  (f_scope func = None ∨ is_Some obj) →
  zend_vm_init_call_frame call call_info func num_args obj st
  = Some (with_frame call (header func obj call_info num_args) st).
Proof. unfold zend_vm_init_call_frame. intros [->|[o ->]]; [done|by destruct (f_scope func)]. Qed.

Lemma allocated_flag call_info : (Z.land (Z.lor call_info ZEND_CALL_ALLOCATED) ZEND_CALL_ALLOCATED =? 0) = false.
Proof.
  apply Z.eqb_neq. intros H. assert (Hb : Z.testbit (Z.land (Z.lor call_info ZEND_CALL_ALLOCATED) ZEND_CALL_ALLOCATED) 18 = true).
  { rewrite Z.land_spec, Z.lor_spec. change (Z.testbit ZEND_CALL_ALLOCATED 18) with true. by rewrite orb_true_r. }
  rewrite H in Hb. by rewrite Z.testbit_0_l in Hb.
Qed.

(** A page that overlaps none of the others meets no frame. *)
Lemma stacked_apart_page top q rest fs p addr size :
  stacked bottom first top (q :: rest) fs → pages_ok (q :: rest) →
  Forall (disjoint_blocks (page_block p)) (page_block <$> q :: rest) →
  pg_base p <= addr → addr + size <= pg_end p → Forall (disjoint_blocks (Block addr size)) (l_block <$> fs).
Proof.
  intros Hs Hok Hd Ha He. apply list.Forall_fmap, list.Forall_forall. intros f Hf.
  rewrite list.Forall_fmap, list.Forall_forall in Hd. pose proof (stacked_top _ _ _ _ _ _ Hok Hs) as Htop.
  assert (Hon : ∃ x, x ∈ q :: rest ∧ pg_base x < l_call f ∧ l_call f + l_size f <= pg_end x).
  { destruct (stacked_below _ _ _ _ _ _ _ Hs Hf Hok) as [_ [[? ?]|(x&?&?&?)]].
    - exists q. split; [by left|lia].
    - exists x. split; [by right|lia]. }
  destruct Hon as (x&Hx&?&?). specialize (Hd x Hx).
  unfold disjoint_blocks, l_block, page_block, m_end in *. simpl in *. lia.
Qed.

(** The saved top of the current page does not matter while it is current. *)
Lemma stacked_head top t q rest fs :
  stacked bottom first top (q :: rest) fs → stacked bottom first top (VmPage (pg_base q) t (pg_end q) :: rest) fs.
Proof.
  remember (q :: rest) as pages eqn:Hq. intros Hs. revert q rest Hq.
  induction Hs as [p Ht Hb|top p r fs size Hs IH Hsz Hend|p prev r fs size Hs IH Hsz Hend]; intros q rest [= <- <-].
  - by constructor.
  - apply (stacked_frame _ _ _ (VmPage (pg_base p) t (pg_end p))); [by apply IH|done|done].
  - by apply (stacked_page _ _ (VmPage (pg_base p) t (pg_end p))).
Qed.

(** What a push of [used] bytes leaves. *)
Definition pushed st fs (used call_info : Z) (func : zend_function) (num_args : Z) (obj : option loc)
    (call : Z) st' (f : live) : Prop :=
  ok st' (f :: fs) ∧ l_call f = call ∧ l_size f = used ∧
  Forall (disjoint_blocks (Block call used)) (l_block <$> fs) ∧
  vm_frames st' = <[call := header func obj (if l_alloc f then Z.lor call_info ZEND_CALL_ALLOCATED else call_info) num_args]> (vm_frames st) ∧
  vm_slots st' = vm_slots st.

Lemma push_frame_here used call_info func num_args obj st fs :
  ok st fs → 0 < used → used <= vm_stack_end st - vm_stack_top st → Z.land call_info ZEND_CALL_ALLOCATED = 0 →
  ∃ f, pushed st fs used call_info func num_args obj (vm_stack_top st)
    (with_frame (vm_stack_top st) (header func obj call_info num_args) (with_top (vm_stack_top st + used) st)) f.
Proof.
  intros (Hs&Hp&Hh&p&rest&Hpg&He) Hu Hfit Hci. rewrite Hpg in Hs, Hp. rewrite He in Hfit.
  pose proof (stacked_apart _ _ _ _ _ _ (vm_stack_top st) used Hs Hp) as Hd.
  eexists (Live (vm_stack_top st) used (pg_end p) false). unfold pushed. split_and!; try done; [|apply Hd; lia].
  split_and!; simpl.
  - rewrite Hpg. apply stacked_frame; [done|done|lia].
  - by rewrite Hpg.
  - constructor.
    + eexists. split; [apply lookup_insert_eq|]. simpl. unfold ZEND_CALL_INFO. simpl. by rewrite Hci.
    + apply (headers_insert (with_top (vm_stack_top st + used) st) fs _ used); [done|apply Hd; lia|by eapply stacked_sizes|done].
  - eauto.
Qed.

Lemma push_frame_page used call_info func num_args obj st fs call st1 :
  ok st fs → 0 < used → extend used st = Some (call, st1) →
  ∃ f, pushed st fs used call_info func num_args obj call
    (with_frame call (header func obj (Z.lor call_info ZEND_CALL_ALLOCATED) num_args) st1) f.
Proof using extending.
  intros (Hs&Hp&Hh&q&rest&Hpg&He) Hu Hex.
  destruct (extending used st call st1 Hu Hex) as (p&prev&rest'&Hpg'&->&->&Hend&Hok&Hd).
  rewrite Hpg in Hpg'. injection Hpg' as <- <-. rewrite Hpg in *.
  set (q' := VmPage (pg_base q) (vm_stack_top st) (pg_end q)).
  assert (Hs' : stacked bottom first (vm_stack_top st) (q' :: rest) fs) by by apply stacked_head.
  assert (Hpages : pages_ok (p :: q' :: rest)) by exact (conj Hok (conj Hd Hp)).
  assert (Hapart : Forall (disjoint_blocks (Block (ZEND_VM_STACK_ELEMENTS p) used)) (l_block <$> fs)).
  { eapply stacked_apart_page; [exact Hs|done|exact Hd| |done]. unfold ZEND_VM_STACK_ELEMENTS.
    change (ZEND_VM_STACK_HEADER_SLOTS * sizeof_zval) with 32. lia. }
  eexists (Live (ZEND_VM_STACK_ELEMENTS p) used (pg_end p) true). unfold pushed. split_and!; try done.
  split_and!; simpl; [by apply stacked_page|done| |eauto].
  constructor.
  - eexists. split; [apply lookup_insert_eq|]. unfold ZEND_CALL_INFO. simpl. by rewrite allocated_flag.
  - apply (headers_insert (Vm _ _ _ (vm_frames st) (vm_slots st)) fs _ used); [done|done|by eapply stacked_sizes|done].
Qed.

Lemma vm_ok_room st fs : ok st fs → 0 <= vm_stack_end st - vm_stack_top st < 2 ^ 63.
Proof.
  intros (Hs&Hp&_&p&rest&Hpg&He). rewrite Hpg in Hs, Hp. rewrite He.
  pose proof (stacked_top _ _ _ _ _ _ Hp Hs). destruct Hp as ((?&?&?)&_). lia.
Qed.

Definition call_ok (used call_info : Z) (func : zend_function) (obj : option loc) : Prop :=
  0 < used ∧ Z.land call_info ZEND_CALL_ALLOCATED = 0 ∧ (f_scope func = None ∨ is_Some obj).

(** A push is defined, and gives a frame unless the engine has no memory for a page. *)
Lemma push_frame_spec used call_info func num_args obj st fs :
  ok st fs → call_ok used call_info func obj →
  match zend_vm_stack_push_call_frame_ex extend used call_info func num_args obj st with
  | None => False
  | Some None => extend used st = None
  | Some (Some (call, st')) => ∃ f, pushed st fs used call_info func num_args obj call st' f
  end.
Proof using extending.
  intros Hok (Hu&Hci&Hobj). pose proof (vm_ok_room st fs Hok) as Hroom.
  unfold zend_vm_stack_push_call_frame_ex. rewrite u64_small by lia.
  destruct (Z.ltb_spec (vm_stack_end st - vm_stack_top st) used).
  - destruct (extend used st) as [[call st1]|] eqn:Hex; [|done]. rewrite init_call_frame by done. simpl.
    by apply push_frame_page.
  - rewrite init_call_frame by done. simpl. by apply push_frame_here.
Qed.

(** A return is defined, and the frames below it stay. *)
Lemma free_frame_spec st f fs :
  ok st (f :: fs) →
  ∃ freed st', zend_vm_stack_free_call_frame (l_call f) st = Some (freed, st') ∧ ok st' fs ∧
    vm_frames st' = vm_frames st ∧ vm_slots st' = vm_slots st ∧
    freed = (if l_alloc f then [Block (l_call f - ZEND_VM_STACK_HEADER_SLOTS * sizeof_zval)
                                      (l_limit f - (l_call f - ZEND_VM_STACK_HEADER_SLOTS * sizeof_zval))] else []).
Proof.
  intros (Hs&Hp&Hh&p&rest&Hpg&He). inversion_clear Hh as [|? ? (ex&Hex&Hal) Hh'].
  unfold zend_vm_stack_free_call_frame. rewrite Hex. cbn [mbind option_bind].
  unfold zend_vm_stack_free_call_frame_ex. rewrite Hal.
  inversion Hs as [|top p' rest' fs' size Hs' Hsz Hend|p' prev rest' fs' size Hs' Hsz Hend]; subst; cbn [l_alloc l_call l_limit].
  - eexists _, _. split; [done|]. split_and!; try done. split_and!; simpl; [by destruct (vm_stack st); simplify_eq|done|done|eauto].
  - rewrite Z.eqb_refl. eexists _, _. split; [done|].
    match goal with H : _ = vm_stack st |- _ => rewrite <- H in * end. destruct Hp as (_&_&Hp).
    split_and!; try done.
    + split_and!; simpl; [done|done|done|eauto].
    + unfold page_block. f_equal. f_equal; unfold ZEND_VM_STACK_ELEMENTS; lia.
Qed.

(** *** Sequences of calls and returns *)

Inductive vm_op : Type :=
| Enter (call_info : Z) (func : zend_function) (num_args : Z) (object_or_called_scope : option loc)
| Leave.

(** The calls that have not returned are a stack of frame pointers. *)
Definition do_op (op : vm_op) (st : vm) (calls : list Z) : option (option (vm * list Z)) :=
  match op with
  | Enter call_info func num_args obj =>
      r ← zend_vm_stack_push_call_frame extend call_info func num_args obj st;
      Some ('(call, st) ← r; Some (st, call :: calls))
  | Leave =>
      match calls with
      | [] => None
      | call :: calls => '(_, st) ← zend_vm_stack_free_call_frame call st; Some (Some (st, calls))
      end
  end.

Fixpoint do_ops (ops : list vm_op) (st : vm) (calls : list Z) : option (option (vm * list Z)) :=
  match ops with
  | [] => Some (Some (st, calls))
  | op :: ops =>
      r ← do_op op st calls;
      match r with None => Some None | Some (st, calls) => do_ops ops st calls end
  end.

(** No return without a call, and how many calls are open at the end. *)
Fixpoint nested (depth : nat) (ops : list vm_op) : option nat :=
  match ops, depth with
  | [], _ => Some depth
  | Enter _ _ _ _ :: ops, _ => nested (S depth) ops
  | Leave :: ops, S depth => nested depth ops
  | Leave :: _, O => None
  end.

Definition op_ok (op : vm_op) : Prop :=
  match op with
  | Enter call_info func num_args obj => call_ok (zend_vm_calc_used_stack num_args func) call_info func obj
  | Leave => True
  end.

(** No two frames overlap. *)
Fixpoint frames_apart fs : Prop :=
  match fs with
  | [] => True
  | f :: fs => Forall (disjoint_blocks (l_block f)) (l_block <$> fs) ∧ frames_apart fs
  end.

Lemma do_ops_spec ops : ∀ st fs depth n,
  ok st fs → frames_apart fs → Forall op_ok ops → length fs = depth → nested depth ops = Some n →
  match do_ops ops st (l_call <$> fs) with
  | None => False
  | Some None => ∃ size st1, extend size st1 = None
  | Some (Some (st', calls)) => ∃ fs', ok st' fs' ∧ frames_apart fs' ∧ l_call <$> fs' = calls ∧ length calls = n
  end.
Proof using extending.
  induction ops as [|op ops IH]; intros st fs depth n Hok Ha Hops Hlen Hn.
  { injection Hn as <-. exists fs. by rewrite length_fmap. }
  inversion_clear Hops as [|? ? Hop Hops']. cbn [do_ops]. destruct op as [call_info func num_args obj|]; cbn [do_op].
  - unfold zend_vm_stack_push_call_frame. pose proof (push_frame_spec _ _ _ num_args _ _ _ Hok Hop) as Hp.
    destruct (zend_vm_stack_push_call_frame_ex _ _ _ _ _ _ _) as [[[call st1]|]|]; cbn [mbind option_bind]; [|eauto|done].
    destruct Hp as (f&Hok1&Hc&Hs&Hd&_). change (call :: (l_call <$> fs)) with ([call] ++ (l_call <$> fs)). rewrite <- Hc.
    apply (IH st1 (f :: fs) (S depth) n); [done| |done|by simpl; rewrite Hlen|done].
    split; [|done]. unfold l_block. by rewrite Hc, Hs.
  - destruct fs as [|f fs]; [simpl in Hlen; by subst depth|]. subst depth. cbn [length] in Hn. rewrite fmap_cons.
    destruct (free_frame_spec st f fs Hok) as (freed&st1&->&Hok1&_). cbn [mbind option_bind].
    by eapply (IH st1 fs); [done|apply Ha|..].
Qed.

(** C30: Calls and returns in any nested order, of user and internal functions of
    any size: every push and every free of a call frame is defined, the frames in
    use never overlap, one frame is open per call that has not returned, and once
    all calls have returned the stack is where it was: the same top and end and
    the same pages. Only the engine's lack of memory for a page can end the
    sequence early. *)
Theorem calls_and_returns ops st n :
  ok st [] → Forall op_ok ops → nested 0 ops = Some n →
  match do_ops ops st [] with
  | None => False
  | Some None => ∃ size st1, extend size st1 = None
  | Some (Some (st', calls)) =>
      length calls = n ∧
      (∃ fs', ok st' fs' ∧ l_call <$> fs' = calls ∧ frames_apart fs') ∧
      (n = 0%nat → vm_stack_top st' = vm_stack_top st ∧ vm_stack_end st' = vm_stack_end st ∧
                   page_block <$> vm_stack st' = page_block <$> vm_stack st)
  end.
Proof using extending.
  intros Hok Hops Hn. pose proof (do_ops_spec ops st [] 0 n Hok I Hops eq_refl Hn) as H.
  change (l_call <$> []) with (@nil Z) in H. destruct (do_ops ops st []) as [[[st' calls]|]|]; [|done|done].
  destruct H as (fs'&Hok'&Ha&Hc&Hl). split_and!; [done|eauto|]. intros ->.
  destruct fs' as [|f fs']; [|subst calls; by rewrite fmap_cons in Hl]. by eapply vm_ok_registers.
Qed.

(** A push hands out a frame that meets no frame in use, with a header that holds the
    function, the object, the arguments' number and the flag for a new page; freeing
    it gives the stack back as it was. *)
Theorem push_then_free call_info func num_args obj st fs call st' :
  ok st fs → op_ok (Enter call_info func num_args obj) →
  zend_vm_stack_push_call_frame extend call_info func num_args obj st = Some (Some (call, st')) →
  Forall (disjoint_blocks (Block call (zend_vm_calc_used_stack num_args func))) (l_block <$> fs) ∧
  (∃ ex, vm_frames st' !! call = Some ex ∧ ex_func ex = func ∧ ZEND_CALL_NUM_ARGS ex = num_args ∧
     z_value (ex_This ex) = VPtr obj ∧ (ZEND_CALL_INFO ex = call_info ∨ ZEND_CALL_INFO ex = Z.lor call_info ZEND_CALL_ALLOCATED)) ∧
  ∃ freed st'', zend_vm_stack_free_call_frame call st' = Some (freed, st'') ∧ ok st'' fs ∧
    vm_stack_top st'' = vm_stack_top st ∧ vm_stack_end st'' = vm_stack_end st ∧
    page_block <$> vm_stack st'' = page_block <$> vm_stack st ∧
    page_block <$> vm_stack st' = freed ++ (page_block <$> vm_stack st).
Proof using extending.
  intros Hok Hop Hpush. unfold zend_vm_stack_push_call_frame in Hpush.
  pose proof (push_frame_spec _ _ _ num_args _ _ _ Hok Hop) as Hp. rewrite Hpush in Hp.
  destruct Hp as (f&Hok1&Hc&Hs&Hd&Hfr&_). split_and!; [done|..].
  - eexists. rewrite Hfr, lookup_insert_eq. split; [done|]. split_and!; try done. destruct (l_alloc f); auto.
  - destruct (free_frame_spec st' f fs Hok1) as (freed&st''&Hfree&Hok2&_&_&Hfreed). rewrite Hc in Hfree.
    destruct (vm_ok_registers bottom first st st'' fs Hok Hok2) as (Ht&He&Hb).
    exists freed, st''. split_and!; [done..|].
    destruct Hok1 as (Hst&_). apply stacked_determined in Hst as [_ Hst]. rewrite Hst.
    destruct Hok as (Hst0&_). apply stacked_determined in Hst0 as [_ Hst0]. rewrite Hst0, Hfreed. cbn [blocks_of].
    by destruct (l_alloc f).
Qed.
End calls.

(** ** The slots of a frame *)
Section layout.
Implicit Types (func : zend_function) (st : vm).

(** A compiled function: its parameters are its first variables, and a frame of it
    with its arguments fits the 32-bit size. *)
Definition func_ok func (num_args : Z) : Prop :=
  0 <= num_args ∧ 0 <= f_T func ∧ 0 <= f_num_args func <= last_var func ∧
  ZEND_CALL_FRAME_SLOT + num_args + f_T func + last_var func < 2 ^ 28.

(** Slot [n] of the frame at [call] lies between the header and the end. *)
Definition slot_inside (call used n : Z) : Prop :=
  call + sizeof_zend_execute_data <= ZEND_CALL_VAR_NUM call n ∧ ZEND_CALL_VAR_NUM call n + sizeof_zval <= call + used.

(** The size of a call frame is exact (no wrap-around), and the frame has
    room for the header, every argument the caller passes and, in user code, every
    variable, every temporary and the arguments beyond the declared parameters,
    which move behind them; a slot's offset in the code and its number translate
    into each other. *)
Theorem frame_has_room func num_args call :
  func_ok func num_args →
  let used := zend_vm_calc_used_stack num_args func in
  let user := ZEND_USER_CODE (f_type func) in
  used = (ZEND_CALL_FRAME_SLOT + num_args + f_T func
          + (if user then last_var func - Z.min (f_num_args func) num_args else 0)) * sizeof_zval ∧
  (∀ n, 1 <= n <= num_args → slot_inside call used (n - 1)) ∧
  (user = true →
     (∀ n, 0 <= n < last_var func → slot_inside call used n) ∧
     (∀ n, 0 <= n < f_T func → slot_inside call used (last_var func + n)) ∧
     (∀ n, 0 <= n < num_args - f_num_args func → slot_inside call used (last_var func + f_T func + n))) ∧
  (∀ n, 0 <= n < 2 ^ 28 - ZEND_CALL_FRAME_SLOT →
     EX_VAR_TO_NUM (EX_NUM_TO_VAR n) = n ∧ ZEND_CALL_VAR call (EX_NUM_TO_VAR n) = ZEND_CALL_VAR_NUM call n).
Proof.
  intros (Hn&HT&Hp&Hsum). cbv zeta. unfold zend_vm_calc_used_stack, slot_inside, ZEND_CALL_VAR_NUM, ZEND_CALL_VAR.
  change ZEND_CALL_FRAME_SLOT with 5 in *. change sizeof_zval with 16. change sizeof_zend_execute_data with 80.
  rewrite (u32_small (5 + num_args + f_T func)) by lia.
  assert (Hnum : ∀ n, 0 <= n < 2 ^ 28 - 5 → EX_NUM_TO_VAR n = (n + 5) * 16).
  { intros n Hr. unfold EX_NUM_TO_VAR. change ZEND_CALL_FRAME_SLOT with 5. change sizeof_zval with 16. apply u32_small. lia. }
  destruct (ZEND_USER_CODE (f_type func)).
  - rewrite (u32_small (5 + num_args + f_T func + _)) by lia. rewrite u32_small by lia.
    split_and!; [lia|intros; lia|intros _; split_and!; intros; lia|].
    intros n Hr. rewrite (Hnum n Hr). split; [|lia]. unfold EX_VAR_TO_NUM.
    change ZEND_CALL_FRAME_SLOT with 5. change sizeof_zval with 16. rewrite Z.div_mul by lia. rewrite u32_small; lia.
  - rewrite u32_small by lia. split_and!; [lia|intros; lia|done|].
    intros n Hr. rewrite (Hnum n Hr). split; [|lia]. unfold EX_VAR_TO_NUM.
    change ZEND_CALL_FRAME_SLOT with 5. change sizeof_zval with 16. rewrite Z.div_mul by lia. rewrite u32_small; lia.
Qed.

(** The zvals in [length zs] slots from [p]. *)
Fixpoint slots_hold st (p : Z) (zs : list zval) : Prop :=
  match zs with
  | [] => True
  | z :: zs => vm_slots st !! p = Some z ∧ slots_hold st (p + sizeof_zval) zs
  end.
End layout.

Section freeing.
Context {E : Type} {engine : ZendEngine E}.
Implicit Types (st : vm) (s : es E).

Lemma need_bind {A B} (a : A) (f : A → M (es E) B) s : (need (Some a) ≫= f) s = f a s.
Proof. done. Qed.

Lemma dtor_loop_spec dtor st zs : ∀ p s,
  slots_hold st p zs → dtor_loop dtor (length zs) p st s = for_each dtor zs s.
Proof.
  induction zs as [|z zs IH]; intros p s; [done|]. intros [Hz Hzs]. cbn [length dtor_loop for_each].
  unfold mbind, M_bind. unfold need. rewrite Hz. cbn.
  destruct (dtor z s) as [u s'|s'|]; [|done|done]. by apply IH.
Qed.

(** At the end of a call the arguments are released once each, from the first to the
    last; in user code that was called with more arguments than parameters, exactly
    the surplus ones, which lie behind the temporaries. The counted loops end. *)
Theorem arguments_released st call ex zs s :
  vm_frames st !! call = Some ex →
  ZEND_CALL_NUM_ARGS ex = Z.of_nat (length zs) → Z.of_nat (length zs) < 2 ^ 32 → 0 <= f_num_args (ex_func ex) →
  slots_hold st (ZEND_CALL_ARG call 1) zs →
  zend_vm_stack_free_args call st s = for_each zval_ptr_dtor_nogc zs s ∧
  (∀ extra, Z.of_nat (length extra) = Z.of_nat (length zs) - f_num_args (ex_func ex) → extra ≠ [] →
     slots_hold st (ZEND_CALL_VAR_NUM call (last_var (ex_func ex) + f_T (ex_func ex))) extra →
     Z.land (ZEND_CALL_INFO ex) ZEND_CALL_FREE_EXTRA_ARGS ≠ 0 →
     zend_vm_stack_free_extra_args call st s = for_each i_zval_ptr_dtor extra s) ∧
  (Z.land (ZEND_CALL_INFO ex) ZEND_CALL_FREE_EXTRA_ARGS = 0 → zend_vm_stack_free_extra_args call st s = Ret () s).
Proof.
  intros Hex Hn Hmax Hp Hzs. split_and!.
  - unfold zend_vm_stack_free_args. rewrite Hex, need_bind. cbv zeta. rewrite Hn.
    destruct zs as [|z zs]; [done|]. rewrite (proj2 (Z.ltb_lt _ _)) by (cbn [length]; lia). unfold turns.
    rewrite (proj2 (Z.eqb_neq _ _)) by (cbn [length]; lia). rewrite Nat2Z.id. by apply dtor_loop_spec.
  - intros extra Hlen Hne Hhold Hflag. unfold zend_vm_stack_free_extra_args, zend_vm_stack_free_extra_args_ex.
    rewrite Hex, need_bind, (proj2 (Z.eqb_neq _ _) Hflag). cbn [negb]. rewrite need_bind. cbv zeta.
    destruct extra as [|x extra]; [done|]. rewrite Hn, <- Hlen, u32_small by (cbn [length] in *; lia). unfold turns.
    rewrite (proj2 (Z.eqb_neq _ _)) by (cbn [length]; lia). rewrite Nat2Z.id. by apply dtor_loop_spec.
  - intros Hflag. unfold zend_vm_stack_free_extra_args, zend_vm_stack_free_extra_args_ex.
    rewrite Hex, need_bind. by rewrite Hflag.
Qed.
End freeing.

(** More arguments for the newest frame: it grows in place while its page has room,
    and stays inside the page and apart from the other frames. *)
Theorem frame_grows copy bottom first st f fs passed additional :
  vm_ok bottom first st (f :: fs) → 0 <= additional →
  additional < u32 ((vm_stack_end st - vm_stack_top st) / sizeof_zval) →
  let f' := Live (l_call f) (l_size f + additional * sizeof_zval) (l_limit f) (l_alloc f) in
  ∃ st', zend_vm_stack_extend_call_frame copy (l_call f) passed additional st = Some (l_call f, st') ∧
    vm_ok bottom first st' (f' :: fs) ∧ vm_stack_top st' = l_call f + l_size f + additional * sizeof_zval ∧
    vm_frames st' = vm_frames st.
Proof.
  intros (Hs&Hp&Hh&p&rest&Hpg&He) Ha Hlt. cbv zeta. unfold zend_vm_stack_extend_call_frame.
  rewrite (proj2 (Z.ltb_lt _ _) Hlt). eexists. split; [done|].
  pose proof (Z.mod_le ((vm_stack_end st - vm_stack_top st) / sizeof_zval) (2 ^ 32)) as Hu. fold (u32 ((vm_stack_end st - vm_stack_top st) / sizeof_zval)) in Hu.
  rewrite Hpg in Hs, Hp. pose proof (stacked_top _ _ _ _ _ _ Hp Hs) as Htop. rewrite He in *. change sizeof_zval with 16 in *.
  assert (Hroom : vm_stack_top st + additional * 16 <= pg_end p).
  { pose proof (Z.mul_div_le (pg_end p - vm_stack_top st) 16). pose proof (Z.div_pos (pg_end p - vm_stack_top st) 16). lia. }
  assert (Hh' : ∀ g, l_call g = l_call f → l_alloc g = l_alloc f → Forall (header_ok st) (g :: fs)).
  { intros g Hg Hg'. inversion_clear Hh as [|? ? Hf Hfs]. constructor; [|done]. unfold header_ok in *. by rewrite Hg, Hg'. }
  unfold vm_ok. cbn [with_top vm_stack_top vm_stack vm_frames vm_stack_end]. rewrite Hpg.
  inversion Hs as [|top p' rest' fs' size Hs' Hsz Hend|p' prev rest' fs' size Hs' Hsz Hend]; subst; cbn [l_call l_size l_limit l_alloc] in *.
  - split_and!; [|done|by apply Hh'|eauto|lia|done].
    rewrite <- Z.add_assoc.
    apply (stacked_frame _ _ top p rest fs (size + additional * 16)); [done|lia|lia].
  - split_and!; [|done|by apply Hh'|eauto|lia|done].
    rewrite <- Z.add_assoc.
    apply (stacked_page _ _ p prev rest' fs (size + additional * 16)); [done|lia|lia].
Qed.
