(* ===== verification/ZendObjects.v ===== *)
(** * Objects: the store, sizes and slots (Zend/zend_objects_API.h, Zend/zend_weakrefs.h,
      Zend/zend_lazy_objects.h)

    The store of objects keeps its free handles in the buckets themselves, as a linked
    list of tagged numbers; an object is allocated with room for its declared
    properties behind it; a reference to an object is released like any other. *)

From S2P Require Import Prelude ZendTypes ZendArith ZendString Engine ZendAssign ZendFrames.
Import HashLayout.

Module Objects.

(** ** The store *)

(** The buckets are words: the address of an object, or a tagged number. *)
Record zend_objects_store : Type := Store {
  object_buckets : list Z;
  st_top : Z;
  st_size : Z;
  free_list_head : Z }.

Definition OBJ_BUCKET_INVALID : Z := Z.shiftl 1 0.
Definition IS_OBJ_VALID (o : Z) : bool := Z.land o OBJ_BUCKET_INVALID =? 0.
Definition SET_OBJ_INVALID (o : Z) : Z := Z.lor o OBJ_BUCKET_INVALID.
(** The shift of an [intptr_t] keeps the sign. *)
Definition GET_OBJ_BUCKET_NUMBER (o : Z) : Z := Z.shiftr (s64 o) 1.
(** [(uintptr_t) n] of an [int] extends the sign. *)
Definition SET_OBJ_BUCKET_NUMBER (n : Z) : Z := Z.lor (u64 (Z.shiftl (u64 n) 1)) OBJ_BUCKET_INVALID.
Definition ZEND_OBJECTS_STORE_ADD_TO_FREE_LIST (h : Z) (s : zend_objects_store) : option zend_objects_store :=
  if decide (0 <= h < Z.of_nat (length (object_buckets s)))
  then Some (Store (<[Z.to_nat h := SET_OBJ_BUCKET_NUMBER (free_list_head s)]> (object_buckets s)) (st_top s) (st_size s) h)
  else None.

(** ** Objects *)

Definition IS_OBJ_LAZY_UNINITIALIZED : Z := Z.shiftl 1 31.
Definition IS_OBJ_LAZY_PROXY : Z := Z.shiftl 1 30.
Definition zend_object_is_lazy (extra_flags : Z) : bool :=
  negb (Z.land extra_flags (Z.lor IS_OBJ_LAZY_UNINITIALIZED IS_OBJ_LAZY_PROXY) =? 0).
Definition zend_object_is_lazy_proxy (extra_flags : Z) : bool := negb (Z.land extra_flags IS_OBJ_LAZY_PROXY =? 0).
Definition zend_lazy_object_initialized (extra_flags : Z) : bool :=
  Z.land extra_flags IS_OBJ_LAZY_UNINITIALIZED =? 0.
Definition zend_lazy_object_must_init (extra_flags : Z) : bool := zend_object_is_lazy extra_flags.

(** The fields of a class that its objects depend on. *)
Record zend_class_entry : Type := Class_ {
  ce_id : loc;
  ce_flags : Z;
  default_properties_count : Z;
  properties_info_table : list (option loc) }.

Definition ZEND_ACC_PUBLIC : Z := Z.shiftl 1 0.
Definition ZEND_ACC_PROTECTED : Z := Z.shiftl 1 1.
Definition ZEND_ACC_PRIVATE : Z := Z.shiftl 1 2.
Definition ZEND_ACC_USE_GUARDS : Z := Z.shiftl 1 30.

Definition sizeof_zend_object : Z := 56.
Definition offset_properties_table : Z := 40.
(** The count is an [int]; the product is computed in [size_t]. *)
Definition zend_object_properties_size (ce : zend_class_entry) : Z :=
  u64 (sizeof_zval * u64 (default_properties_count ce - (if negb (Z.land (ce_flags ce) ZEND_ACC_USE_GUARDS =? 0) then 0 else 1))).
(** The block, and the bytes at its start that are cleared. *)
Definition zend_object_alloc (emalloc : Z → option Z) (obj_size : Z) (ce : zend_class_entry) : option (Z * Z * Z) :=
  let size := u64 (obj_size + zend_object_properties_size ce) in
  obj ← emalloc size; Some (obj, size, u64 (obj_size - sizeof_zend_object)).

Section slots.
Context (zend_get_property_info_for_slot_slow : Z → Z → option loc)
  (zend_lazy_object_get_property_info_for_slot : Z → Z → option loc).

(** [slot - obj->properties_table] counts zvals. *)
Definition zend_get_property_info_for_slot_self (obj : Z) (ce : zend_class_entry) (slot : Z) : option (option loc) :=
  let prop_num := (slot - (obj + offset_properties_table)) / sizeof_zval in
  if decide (0 <= prop_num < default_properties_count ce) then
    info ← properties_info_table ce !! Z.to_nat prop_num;
    match info with
    | Some i => Some (Some i)
    | None => Some (zend_get_property_info_for_slot_slow obj slot)
    end
  else None.
Definition zend_get_property_info_for_slot (obj : Z) (extra_flags : Z) (ce : zend_class_entry) (slot : Z)
    : option (option loc) :=
  if zend_object_is_lazy_proxy extra_flags then Some (zend_lazy_object_get_property_info_for_slot obj slot)
  else zend_get_property_info_for_slot_self obj ce slot.
(** [type_is_set]: [ZEND_TYPE_IS_SET] of the property's type. *)
Definition zend_get_typed_property_info_for_slot (type_is_set : loc → bool) (obj extra_flags : Z)
    (ce : zend_class_entry) (slot : Z) : option (option loc) :=
  prop_info ← zend_get_property_info_for_slot obj extra_flags ce slot;
  Some (i ← prop_info; if type_is_set i then Some i else None).
End slots.

(** [zend_check_protected] and [zend_get_function_root_class] are engine functions. *)
Definition zend_check_method_accessible (zend_check_protected : loc → option loc → bool)
    (zend_get_function_root_class : zend_function → loc) (fn : zend_function) (scope : option loc) : bool :=
  negb ((Z.land (fn_flags fn) ZEND_ACC_PUBLIC =? 0) && bool_decide (f_scope fn ≠ scope) &&
        (negb (Z.land (fn_flags fn) ZEND_ACC_PRIVATE =? 0) || negb (zend_check_protected (zend_get_function_root_class fn) scope))).

Section release.
Context {E : Type} {engine : ZendEngine E} (zend_objects_store_del : loc → M (es E) ()).

Definition zend_object_release (obj : loc) : M (es E) () :=
  rc ← heap_op (GC_DELREF obj);
  if rc =? 0 then zend_objects_store_del obj
  else
    h ← gets es_heap; o ← need (h !! obj);
    if GC_MAY_LEAK (gc_type_info o) then gc_possible_root obj else mret ().
Definition IS_OBJ_DESTRUCTOR_CALLED : Z := Z.shiftl 1 8.
Definition zend_object_store_ctor_failed (obj : loc) : M (es E) () :=
  heap_do (λ h, o ← h !! obj; Some (<[obj := with_type_info o (gc_add_flags (gc_type_info o) IS_OBJ_DESTRUCTOR_CALLED)]> h)).
End release.

(** ** Keys of weak references *)
Definition ZEND_MM_ALIGNMENT_LOG2 : Z := 3.
Definition zend_object_to_weakref_key (object : Z) : option Z :=
  if object mod ZEND_MM_ALIGNMENT =? 0 then Some (Z.shiftr object ZEND_MM_ALIGNMENT_LOG2) else None.
Definition zend_weakref_key_to_object (key : Z) : Z := u64 (Z.shiftl key ZEND_MM_ALIGNMENT_LOG2).
End Objects.
Export Objects.

(** ** The free handles *)
Section store.
Implicit Types (s : zend_objects_store) (l hs : list Z) (h n : Z).

(** The handles from the head on; a negative number ends the list. *)
Fixpoint free_chain (buckets : list Z) (head : Z) l : Prop :=
  match l with
  | [] => head = -1
  | h :: l => head = h ∧ 0 <= h < Z.of_nat (length buckets) ∧
      ∃ w, buckets !! Z.to_nat h = Some w ∧ IS_OBJ_VALID w = false ∧ free_chain buckets (GET_OBJ_BUCKET_NUMBER w) l
  end.
Definition free_handles s l : Prop := free_chain (object_buckets s) (free_list_head s) l ∧ Z.of_nat (length (object_buckets s)) < 2 ^ 31.

Fixpoint free_all hs s : option zend_objects_store :=
  match hs with [] => Some s | h :: hs => s ← ZEND_OBJECTS_STORE_ADD_TO_FREE_LIST h s; free_all hs s end.

(** A number comes back from its tagged word, the end of the list included. *)
Lemma bucket_number n : -1 <= n < 2 ^ 31 → GET_OBJ_BUCKET_NUMBER (SET_OBJ_BUCKET_NUMBER n) = n ∧ IS_OBJ_VALID (SET_OBJ_BUCKET_NUMBER n) = false.
Proof.
  intros Hn. unfold SET_OBJ_BUCKET_NUMBER, GET_OBJ_BUCKET_NUMBER, IS_OBJ_VALID, OBJ_BUCKET_INVALID. change (Z.shiftl 1 0) with 1.
  destruct (decide (n = -1)) as [->|Hne]; [by vm_compute|].
  rewrite (u64_small n), Z.shiftl_mul_pow2 by lia. change (n * 2 ^ 1) with (n * 2). rewrite (u64_small (n * 2)) by lia.
  assert (E : Z.lor (n * 2) 1 = 2 * n + 1).
  { pose proof (Z.add_lor_land (n * 2) 1) as H. change 1 with (Z.ones 1) in H at 2. rewrite Z.land_ones in H by lia.
    change (2 ^ 1) with 2 in H. rewrite Z.mod_mul in H by lia. lia. }
  rewrite E. clear E. split.
  - rewrite (proj2 (s64_spec (2 * n + 1))) by lia. rewrite Z.shiftr_div_pow2 by lia. change (2 ^ 1) with 2. symmetry. apply Z.div_unique with 1; lia.
  - change 1 with (Z.ones 1) at 2. rewrite Z.land_ones by lia. change (2 ^ 1) with 2.
    apply Z.eqb_neq. rewrite Z.add_comm, Z.mul_comm, Z.mod_add by lia. done.
Qed.

Lemma free_chain_insert buckets head l h w :
  free_chain buckets head l → h ∉ l → 0 <= h → free_chain (<[Z.to_nat h := w]> buckets) head l.
Proof.
  revert head. induction l as [|k l IH]; intros head; [done|]. cbn [free_chain].
  intros (->&Hk&v&Hv&Hi&Hc) [Hne Hl]%not_elem_of_cons H0. split; [done|]. rewrite length_insert. split; [done|].
  exists v. split; [|by auto]. rewrite list_lookup_insert_ne by lia. done.
Qed.

Lemma add_to_free_list s l h :
  free_handles s l → h ∉ l → 0 <= h < Z.of_nat (length (object_buckets s)) →
  ∃ s', ZEND_OBJECTS_STORE_ADD_TO_FREE_LIST h s = Some s' ∧ free_handles s' (h :: l) ∧
    length (object_buckets s') = length (object_buckets s) ∧ st_top s' = st_top s ∧ st_size s' = st_size s ∧
    ∀ k, 0 <= k → k ≠ h → object_buckets s' !! Z.to_nat k = object_buckets s !! Z.to_nat k.
Proof.
  intros [Hc Hlen] Hl Hh. unfold ZEND_OBJECTS_STORE_ADD_TO_FREE_LIST. rewrite decide_True by done. eexists. split; [done|].
  assert (Hhead : -1 <= free_list_head s < 2 ^ 31).
  { destruct l as [|k l]; [simpl in Hc; lia|]. destruct Hc as (->&?&_). lia. }
  destruct (bucket_number _ Hhead) as [Hg Hv]. split_and!; cbn [object_buckets free_list_head st_top st_size];
    [split| by rewrite length_insert|done|done|].
  - cbn [free_chain object_buckets free_list_head]. rewrite length_insert. split; [done|]. split; [lia|]. eexists. rewrite list_lookup_insert_eq by lia.
    split; [done|]. split; [done|]. rewrite Hg. apply free_chain_insert; [done|done|lia].
  - cbn [object_buckets]. by rewrite length_insert.
  - intros k Hk Hne. apply list_lookup_insert_ne. lia.
Qed.

Lemma free_chain_member buckets head l h :
  free_chain buckets head l → h ∈ l → ∃ w, buckets !! Z.to_nat h = Some w ∧ IS_OBJ_VALID w = false.
Proof.
  revert head. induction l as [|k l IH]; intros head Hc Hh; [set_solver|]. destruct Hc as (_&_&w&Hw&Hi&Hc).
  apply elem_of_cons in Hh as [->|Hh]; [eauto|by eapply IH].
Qed.

Lemma free_all_spec hs : ∀ s l,
  free_handles s l → NoDup (hs ++ l) → (∀ h, h ∈ hs → 0 <= h < Z.of_nat (length (object_buckets s))) →
  ∃ s', free_all hs s = Some s' ∧ free_handles s' (reverse hs ++ l) ∧ st_top s' = st_top s ∧ st_size s' = st_size s ∧
    (∀ k, 0 <= k → k ∉ hs → object_buckets s' !! Z.to_nat k = object_buckets s !! Z.to_nat k).
Proof.
  induction hs as [|h hs IH]; intros s l Hf Hnd Hr; [by exists s|]. cbn [free_all].
  rewrite <- app_comm_cons, list.NoDup_cons in Hnd. destruct Hnd as [Hh Hnd].
  destruct (add_to_free_list s l h Hf) as (s1&->&Hf1&Hlen&Ht&Hs&Hk); [set_solver|apply Hr; by left|]. cbn [mbind option_bind].
  destruct (IH s1 (h :: l) Hf1) as (s'&->&Hf'&Ht'&Hs'&Hk').
  - rewrite <- Permutation_middle. by apply list.NoDup_cons.
  - intros k Hin. rewrite Hlen. apply Hr. by right.
  - exists s'. split; [done|]. rewrite reverse_cons, <- (assoc_L (++)). split_and!; [done|congruence..|].
    intros k H0 [Hne Hn]%not_elem_of_cons. rewrite Hk', Hk by done. done.
Qed.

(** Freeing any handles of the object store: every store is inside the
    buckets, the last handle freed is the first of the free list, the list before
    it is intact, a freed bucket is told from an object by its tag, and no other
    bucket changes. *)
Theorem freed_handles_listed hs s l :
  free_handles s l → NoDup (hs ++ l) → (∀ h, h ∈ hs → 0 <= h < Z.of_nat (length (object_buckets s))) →
  ∃ s', free_all hs s = Some s' ∧ free_handles s' (reverse hs ++ l) ∧ st_top s' = st_top s ∧ st_size s' = st_size s ∧
    (∀ h, h ∈ hs → ∃ w, object_buckets s' !! Z.to_nat h = Some w ∧ IS_OBJ_VALID w = false) ∧
    (∀ k, 0 <= k → k ∉ hs → object_buckets s' !! Z.to_nat k = object_buckets s !! Z.to_nat k).
Proof.
  intros Hf Hnd Hr. destruct (free_all_spec hs s l Hf Hnd Hr) as (s'&?&Hf'&?&?&?). exists s'. split_and!; try done.
  intros h Hh. destruct Hf' as [Hc _]. apply (free_chain_member _ _ _ h Hc). set_solver.
Qed.
End store.

(** ** Sizes and keys *)

Definition uses_guards (ce : zend_class_entry) : bool := negb (Z.land (ce_flags ce) ZEND_ACC_USE_GUARDS =? 0).
(** The slot of property [k] of an object whose standard part ends a block of
    [obj_size] bytes and the properties. *)
Definition property_slot (obj obj_size k : Z) : Z := obj + (obj_size - sizeof_zend_object) + offset_properties_table + k * sizeof_zval.

(** The block of an object has room for its own fields and every declared
    property, and for the guard word of a class that uses guards; the size is
    exact although the count of a class without properties and guards makes the
    product wrap around. Only the fields before the standard part are cleared. A
    slot of the table leads back to its number, and outside the table the lookup
    is refused. *)
Theorem object_has_room emalloc obj_size ce :
  sizeof_zend_object <= obj_size < 2 ^ 32 → 0 <= default_properties_count ce < 2 ^ 31 →
  Z.of_nat (length (properties_info_table ce)) = default_properties_count ce →
  match zend_object_alloc emalloc obj_size ce with
  | None => ∃ size, emalloc size = None
  | Some (obj, size, cleared) =>
      size = obj_size + sizeof_zval * (default_properties_count ce - if uses_guards ce then 0 else 1) ∧
      cleared = obj_size - sizeof_zend_object ∧ obj + cleared <= property_slot obj obj_size 0 ∧
      (∀ k, 0 <= k < default_properties_count ce + (if uses_guards ce then 1 else 0) →
         property_slot obj obj_size k + sizeof_zval <= obj + size) ∧
      (∀ slow k, 0 <= k < default_properties_count ce →
         ∃ info, properties_info_table ce !! Z.to_nat k = Some info ∧
           zend_get_property_info_for_slot_self slow (obj + cleared) ce (property_slot obj obj_size k)
           = Some (match info with Some i => Some i | None => slow (obj + cleared) (property_slot obj obj_size k) end)) ∧
      (∀ slow k, ~ (0 <= k < default_properties_count ce) →
         zend_get_property_info_for_slot_self slow (obj + cleared) ce (property_slot obj obj_size k) = None)
  end.
Proof.
  intros Hs Hc Ht. unfold zend_object_alloc, zend_object_properties_size. fold (uses_guards ce).
  unfold property_slot, sizeof_zend_object, offset_properties_table in *. change sizeof_zval with 16 in *.
  assert (Hsize : u64 (obj_size + u64 (16 * u64 (default_properties_count ce - (if uses_guards ce then 0 else 1))))
                  = obj_size + 16 * (default_properties_count ce - if uses_guards ce then 0 else 1)).
  { unfold u64. rewrite Z.mul_mod_idemp_r, Z.add_mod_idemp_r by lia. apply Z.mod_small. destruct (uses_guards ce); lia. }
  rewrite Hsize. destruct (emalloc _) as [obj|] eqn:E; [|cbn; eauto]. cbn [mbind option_bind]. rewrite u64_small by lia.
  split_and!; [done|done|lia|intros k Hk; destruct (uses_guards ce); lia|..].
  all: intros slow k Hk; unfold zend_get_property_info_for_slot_self, offset_properties_table; change sizeof_zval with 16;
    replace (obj + (obj_size - 56) + 40 + k * 16 - (obj + (obj_size - 56) + 40)) with (k * 16) by lia; rewrite Z.div_mul by lia.
  - destruct (lookup_lt_is_Some_2 (properties_info_table ce) (Z.to_nat k)) as [info Hi]; [lia|].
    exists info. split; [done|]. rewrite decide_True, Hi by done. by destruct info.
  - by rewrite decide_False.
Qed.

(** The key of an object for weak references leads back to it, so that no two objects
    share a key; it leaves no low bit unused. *)
Theorem weakref_keys object other key :
  0 <= object < 2 ^ 64 → 0 <= other < 2 ^ 64 → zend_object_to_weakref_key object = Some key →
  zend_weakref_key_to_object key = object ∧ 0 <= key < 2 ^ 61 ∧ (zend_object_to_weakref_key other = Some key → other = object).
Proof.
  assert (Hback : ∀ o k, 0 <= o < 2 ^ 64 → zend_object_to_weakref_key o = Some k → zend_weakref_key_to_object k = o ∧ 0 <= k < 2 ^ 61).
  { intros o k Ho. unfold zend_object_to_weakref_key, zend_weakref_key_to_object, ZEND_MM_ALIGNMENT, ZEND_MM_ALIGNMENT_LOG2.
    destruct (Z.eqb_spec (o mod 8) 0) as [Hm|]; [|done]. intros [= <-]. rewrite Z.shiftr_div_pow2, Z.shiftl_mul_pow2 by lia.
    change (2 ^ 3) with 8. pose proof (Z.div_mod o 8 ltac:(lia)). rewrite u64_small by lia. lia. }
  intros Ho Ho' Hk. destruct (Hback _ _ Ho Hk) as [H1 H2]. split_and!; [done|lia|lia|].
  intros Hk'. destruct (Hback _ _ Ho' Hk') as [H3 _]. congruence.
Qed.

(** Releasing an object gives one hold up: the store deletes it when that was the last
    one, and the collector hears of it otherwise when it may be part of a cycle. *)
Theorem object_release_counts {E} {engine : ZendEngine E} del others X obj (s : es E) :
  exact others (es_heap s) (X ⊎ {[+ obj +]}) →
  ∃ s' o, es_heap s' !! obj = Some o ∧ exact others (es_heap s') X ∧ keeps (es_heap s) (es_heap s') ∧
    zend_object_release del obj s =
      (if gc_refcount o =? 0 then del obj s'
       else if GC_MAY_LEAK (gc_type_info o) then gc_possible_root obj s' else Ret () s').
Proof.
  intros Hx. destruct (exact_live _ _ _ _ Hx) as (o&Ho&Hrc).
  exists (with_heap (<[obj := with_refcount o (gc_refcount o - 1)]> (es_heap s)) s), (with_refcount o (gc_refcount o - 1)).
  cbn [es_heap with_heap]. split_and!; [apply lookup_insert_eq|by apply exact_delref|by apply keeps_count|].
  unfold zend_object_release, mbind, M_bind, gets, need, heap_op. rewrite (GC_DELREF_lookup obj _ o Ho Hrc). cbn beta iota.
  cbn [with_refcount gc_refcount gc_type_info]. destruct (gc_refcount o - 1 =? 0); [done|].
  cbn [es_heap with_heap]. rewrite lookup_insert_eq. cbn. by destruct (GC_MAY_LEAK (gc_type_info o)).
Qed.
