(* ===== verification/ZendVm.v ===== *)
(** * The virtual machine (Zend/zend_vm_def.h, Zend/zend_vm_execute.h, Zend/zend_compile.h)

    Instructions, the frame they work on, and the handlers that carry them out:
    arithmetic, comparison, increments, jumps and copies, with the helpers they fall
    back to, and the handlers that are specialised for known types. The handlers are
    those of the template zend_vm_def.h, from which zend_vm_execute.h is generated, with
    the kinds of the operands as arguments. The macros that move to the next
    instruction and the lookups that warn of undefined variables are not in the
    repository: they are the classes [VmMacros] and [VmLibrary]. *)

From S2P Require Import Prelude ZendTypes ZendArith ZendString Engine ZendAssign ZendConvert ZendFrames.
From Stdlib Require Import SpecFloat.
Import Binary64 LongOps SignedMultiply.

Module Vm.

(** The 64 bits of a double. A NaN that an operation makes is stored as one pattern. *)
Definition NAN_BITS : Z := Z.shiftl 0xfff 51.
Definition sign_bits (s : bool) : Z := if s then 2 ^ 63 else 0.
Definition bits_of_double (d : double) : Z :=
  match d with
  | S754_zero s => sign_bits s
  | S754_infinity s => sign_bits s + 0x7ff * 2 ^ 52
  | S754_nan => NAN_BITS
  | S754_finite s m e =>
      sign_bits s + if Z.pos m <? 2 ^ 52 then Z.pos m else (e + 1075) * 2 ^ 52 + (Z.pos m - 2 ^ 52)
  end.

(** [struct _zend_op]. The operands are 32-bit words; [handler] is the number of the
    handler in the table. *)
Record zend_op : Type := ZendOp {
  handler : Z; op1 : Z; op2 : Z; result : Z; extended_value : Z; lineno : Z;
  opcode : Z; op1_type : Z; op2_type : Z; result_type : Z }.
Definition sizeof_zend_op : Z := 32.

Definition IS_UNUSED : Z := 0.
Definition IS_TMP_OR_VAR : Z := Z.lor IS_TMP_VAR IS_VAR.
Definition IS_SMART_BRANCH_JMPZ : Z := Z.shiftl 1 4.
Definition IS_SMART_BRANCH_JMPNZ : Z := Z.shiftl 1 5.
Definition RETURN_VALUE_USED (op : zend_op) : bool := negb (result_type op =? IS_UNUSED).

(** Constants and jump targets are at offsets from the instruction, in bytes. *)
Definition RT_CONSTANT (opline node : Z) : Z := opline + s32 node.
Definition OP_JMP_ADDR (opline node : Z) : Z := opline + s32 node.

(** A pointer to a zval: a slot of the frame, a constant, the inside of a reference, or
    [EG(uninitialized_zval)]. *)
Inductive zptr : Type :=
| PVar (addr : Z)
| PConst (addr : Z)
| PRef (ref : loc)
| PUninit.

(** The machine: the frame, the current instruction, the instruction saved in the
    frame, the slots, and the engine. *)
Record vst (E : Type) : Type := VSt {
  execute_data : Z; opline : Z; EX_opline : Z; vm_mem : gmap Z zval; eng : es E }.
Arguments VSt {E}. Arguments execute_data {E}. Arguments opline {E}. Arguments EX_opline {E}.
Arguments vm_mem {E}. Arguments eng {E}.

Section setters.
Context {E : Type}.
Definition with_opline (p : Z) (s : vst E) : vst E := VSt (execute_data s) p (EX_opline s) (vm_mem s) (eng s).
Definition with_EX_opline (p : Z) (s : vst E) : vst E := VSt (execute_data s) (opline s) p (vm_mem s) (eng s).
Definition with_mem (m : gmap Z zval) (s : vst E) : vst E := VSt (execute_data s) (opline s) (EX_opline s) m (eng s).
Definition with_eng (e : es E) (s : vst E) : vst E := VSt (execute_data s) (opline s) (EX_opline s) (vm_mem s) e.

Definition SAVE_OPLINE : M (vst E) () := modify (λ s, with_EX_opline (opline s) s).
Definition LOAD_OPLINE : M (vst E) () := modify (λ s, with_opline (EX_opline s) s).

(** A computation of the engine. *)
Definition on_engine {A} (m : M (es E) A) : M (vst E) A := λ s,
  match m (eng s) with Ret a e => Ret a (with_eng e s) | Bail e => Bail (with_eng e s) | Undef => Undef end.
End setters.

(** The operators of the library (zend_operators.h) that store into a result. *)
Inductive binary_op : Type :=
| add_function | sub_function | mul_function | div_function | mod_function | pow_function
| shift_left_function | shift_right_function | bitwise_or_function | bitwise_and_function
| bitwise_xor_function | boolean_xor_function | compare_function.

Class VmLibrary (E : Type) : Type := {
  binary_function : binary_op → zptr → zptr → zptr → M (vst E) ();
  bitwise_not_function : zptr → zptr → M (vst E) ();
  increment_function : zptr → M (vst E) ();
  decrement_function : zptr → M (vst E) ();
  zend_incdec_typed_ref : zend_op → loc → option zptr → M (vst E) ();
  ZEND_REF_HAS_TYPE_SOURCES : E → loc → bool;
  zend_compare : zval → zval → M (es E) Z;
  zend_is_identical : zval → zval → M (es E) bool;
  zendi_smart_streq : loc → loc → M (es E) bool;
  zend_hash_num_elements : E → loc → Z;
  Z_RES_HANDLE : E → loc → Z;
  has_std_cast : E → loc → bool;
  zend_object_is_true : E → zval → bool;
  zend_error : report → M (es E) ();
  zend_throw_modulo_by_zero : M (es E) ();
  EG_exception : E → bool;
  EG_vm_interrupt : E → bool }.

(** A branch fused with a comparison: the slot and kind of the result, and the target
    of the conditional jump that follows. *)
Record branch : Type := Branch { br_result : Z; br_type : Z; br_target : Z }.

Class VmMacros (E : Type) : Type := {
  ZEND_VM_NEXT_OPCODE : M (vst E) ();
  ZEND_VM_NEXT_OPCODE_CHECK_EXCEPTION : M (vst E) ();
  ZEND_VM_JMP_EX : Z → bool → M (vst E) ();
  ZEND_VM_JMP : Z → M (vst E) ();
  ZEND_VM_SMART_BRANCH : branch → bool → bool → M (vst E) ();
  ZEND_VM_SMART_BRANCH_TRUE : branch → M (vst E) ();
  ZEND_VM_SMART_BRANCH_FALSE : branch → M (vst E) ();
  (** the operands, by kind and word; a variable that is undefined is reported *)
  ZVAL_UNDEFINED_OP1 : zend_op → M (vst E) zptr;
  ZVAL_UNDEFINED_OP2 : zend_op → M (vst E) zptr;
  get_zval_ptr_tmp : Z → M (vst E) zptr;
  get_zval_ptr_var : Z → M (vst E) zptr;
  get_zval_ptr_ptr_var : Z → M (vst E) zptr;
  get_zval_ptr_cv_BP_VAR_R : Z → M (vst E) zptr;
  get_zval_ptr_cv_BP_VAR_IS : Z → M (vst E) zptr;
  get_zval_ptr_var_deref : Z → M (vst E) zptr;
  get_zval_ptr_cv_deref_BP_VAR_R : Z → M (vst E) zptr;
  get_zval_ptr_tmpvarcv : Z → Z → M (vst E) zptr }.

Section machine.
Context {E : Type} {engine : ZendEngine E} {library : VmLibrary E} {macros : VmMacros E}.
(** The constants by address, and the branch that follows the instruction. *)
Context (literals : gmap Z zval) (br : branch).
Implicit Types (op : zend_op) (p : zptr).

Definition EX_VAR (n : Z) : M (vst E) zptr := gets (λ s, PVar (ZEND_CALL_VAR (execute_data s) n)).
Definition CONST (node : Z) : M (vst E) zptr := gets (λ s, PConst (RT_CONSTANT (opline s) node)).

Definition uninitialized_zval : zval := Zval VNone IS_NULL 0.
Definition load p : M (vst E) zval :=
  match p with
  | PVar a => m ← gets vm_mem; need (m !! a)
  | PConst a => need (literals !! a)
  | PRef l => s ← get; need (Z_REFVAL l (es_heap (eng s)))
  | PUninit => mret uninitialized_zval
  end.
Definition store p (z : zval) : M (vst E) () :=
  match p with
  | PVar a => m ← gets vm_mem; need (m !! a);; modify (with_mem (<[a := z]> m))
  | PRef l => on_engine (heap_do (set_refval l z))
  | PConst _ | PUninit => undef
  end.
(** Replace what [p] points to. *)
Definition update p (f : zval → zval) : M (vst E) () := z ← load p; store p (f z).

Definition Z_LVAL_P p : M (vst E) Z := z ← load p; need (Z_LVAL z).
Definition Z_DVAL_BITS (z : zval) : option Z := match z_value z with VDval b => Some b | _ => None end.
Definition Z_DVAL_P p : M (vst E) double := z ← load p; b ← need (Z_DVAL_BITS z); mret (double_of_bits b).
Definition Z_TYPE_INFO_P p : M (vst E) Z := z ← load p; mret (Z_TYPE_INFO z).
Definition Z_TYPE_P p : M (vst E) Z := z ← load p; mret (zval_get_type z).

Definition store_long p (l : Z) : M (vst E) () := update p (λ z, ZVAL_LONG z l).
Definition store_double p (d : double) : M (vst E) () := update p (λ z, ZVAL_DOUBLE z (bits_of_double d)).
(** The result of [fast_long_add_function] and its like. *)
Definition store_number p (n : number) : M (vst E) () :=
  match n with NLong l => store_long p l | NDouble d => store_double p d end.
(** [Z_LVAL_P(p) = l]: the type stays. *)
Definition store_lval p (l : Z) : M (vst E) () := update p (λ z, Zval (VLval l) (Z_TYPE_INFO z) (Z_EXTRA z)).
Definition store_number_in_place p (n : number) : M (vst E) () :=
  match n with NLong l => store_lval p l | NDouble d => store_double p d end.

Definition HANDLE_EXCEPTION : M (vst E) () :=
  s ← get; if EG_exception (es_priv (eng s)) then LOAD_OPLINE else undef.
Definition exception_pending : M (vst E) bool := gets (λ s, EG_exception (es_priv (eng s))).

(** *** Operands *)

(** [GET_OPn_ZVAL_PTR_UNDEF], as it is generated for the operand kinds TMPVARCV, TMPVAR
    and CV, and TMP, VAR and CV. *)
Definition get_undef_merged (kind node : Z) : M (vst E) zptr := if kind =? IS_CONST then CONST node else EX_VAR node.
Definition get_undef_tmpvar (kind node : Z) : M (vst E) zptr :=
  if kind =? IS_CONST then CONST node
  else if negb (Z.land kind IS_TMP_OR_VAR =? 0) then get_zval_ptr_var node else EX_VAR node.
Definition get_undef_each (kind node : Z) : M (vst E) zptr :=
  if kind =? IS_CONST then CONST node else if kind =? IS_TMP_VAR then get_zval_ptr_tmp node
  else if kind =? IS_VAR then get_zval_ptr_var node else EX_VAR node.
(** [GET_OPn_ZVAL_PTR(BP_VAR_R)] and [GET_OPn_ZVAL_PTR_DEREF(BP_VAR_R)]. *)
Definition get_ptr (kind node : Z) : M (vst E) zptr :=
  if kind =? IS_CONST then CONST node
  else if negb (Z.land kind IS_TMP_OR_VAR =? 0) then get_zval_ptr_var node else get_zval_ptr_cv_BP_VAR_R node.
Definition get_ptr_each (cv : Z → M (vst E) zptr) (kind node : Z) : M (vst E) zptr :=
  if kind =? IS_CONST then CONST node else if kind =? IS_TMP_VAR then get_zval_ptr_tmp node
  else if kind =? IS_VAR then get_zval_ptr_var node else cv node.
Definition get_deref (kind node : Z) : M (vst E) zptr :=
  if kind =? IS_CONST then CONST node else if kind =? IS_TMP_VAR then get_zval_ptr_tmp node
  else if kind =? IS_VAR then get_zval_ptr_var_deref node else get_zval_ptr_cv_deref_BP_VAR_R node.
(** [GET_OP1_ZVAL_PTR_PTR_UNDEF(BP_VAR_RW)]. *)
Definition get_ptr_ptr (kind node : Z) : M (vst E) zptr := if kind =? IS_VAR then get_zval_ptr_ptr_var node else EX_VAR node.

Definition free_ptr (kind : Z) p : M (vst E) () :=
  if Z.land kind IS_TMP_OR_VAR =? 0 then mret () else z ← load p; on_engine (zval_ptr_dtor_nogc z).
Definition free_str (kind : Z) p : M (vst E) () :=
  if Z.land kind IS_TMP_OR_VAR =? 0 then mret () else z ← load p; on_engine (zval_ptr_dtor_str z).
(** [FREE_OPn]. *)
Definition FREE_OP (kind node : Z) : M (vst E) () := p ← EX_VAR node; free_ptr kind p.

Definition defined_op1 op p : M (vst E) zptr := t ← Z_TYPE_INFO_P p; if t =? IS_UNDEF then ZVAL_UNDEFINED_OP1 op else mret p.
Definition defined_op2 op p : M (vst E) zptr := t ← Z_TYPE_INFO_P p; if t =? IS_UNDEF then ZVAL_UNDEFINED_OP2 op else mret p.

Definition CONST_CONST op : bool := (op1_type op =? IS_CONST) && (op2_type op =? IS_CONST).

(** *** Arithmetic *)

(** The helpers [zend_add_helper] and its like. *)
Definition binary_helper (f : binary_op) op p1 p2 : M (vst E) () :=
  SAVE_OPLINE;; p1 ← defined_op1 op p1; p2 ← defined_op2 op p2;
  r ← EX_VAR (result op); binary_function f r p1 p2;;
  free_ptr (op1_type op) p1;; free_ptr (op2_type op) p2;; ZEND_VM_NEXT_OPCODE_CHECK_EXCEPTION.
Definition zend_add_helper := binary_helper add_function.
Definition zend_sub_helper := binary_helper sub_function.
Definition zend_mul_helper := binary_helper mul_function.
Definition zend_mod_helper := binary_helper mod_function.
Definition zend_shift_left_helper := binary_helper shift_left_function.
Definition zend_shift_right_helper := binary_helper shift_right_function.
Definition zend_bw_or_helper := binary_helper bitwise_or_function.
Definition zend_bw_and_helper := binary_helper bitwise_and_function.
Definition zend_bw_xor_helper := binary_helper bitwise_xor_function.

Definition double_result op (d : double) : M (vst E) () :=
  r ← EX_VAR (result op); store_double r d;; ZEND_VM_NEXT_OPCODE.

Definition arith_handler (long_op : Z → Z → number) (double_op : double → double → double)
    (helper : zend_op → zptr → zptr → M (vst E) ()) op : M (vst E) () :=
  p1 ← get_undef_merged (op1_type op) (op1 op); p2 ← get_undef_merged (op2_type op) (op2 op);
  if CONST_CONST op then helper op p1 p2 else
  t1 ← Z_TYPE_INFO_P p1;
  if t1 =? IS_LONG then
    t2 ← Z_TYPE_INFO_P p2;
    if t2 =? IS_LONG then
      r ← EX_VAR (result op); a ← Z_LVAL_P p1; b ← Z_LVAL_P p2; store_number r (long_op a b);; ZEND_VM_NEXT_OPCODE
    else if t2 =? IS_DOUBLE then a ← Z_LVAL_P p1; d2 ← Z_DVAL_P p2; double_result op (double_op (of_long a) d2)
    else helper op p1 p2
  else if t1 =? IS_DOUBLE then
    t2 ← Z_TYPE_INFO_P p2;
    if t2 =? IS_DOUBLE then d1 ← Z_DVAL_P p1; d2 ← Z_DVAL_P p2; double_result op (double_op d1 d2)
    else if t2 =? IS_LONG then d1 ← Z_DVAL_P p1; b ← Z_LVAL_P p2; double_result op (double_op d1 (of_long b))
    else helper op p1 p2
  else helper op p1 p2.

Definition ZEND_ADD := arith_handler fast_long_add_function_builtin dadd zend_add_helper.
Definition ZEND_SUB := arith_handler fast_long_sub_function_builtin dsub zend_sub_helper.
Definition ZEND_MUL := arith_handler mul_builtin dmul zend_mul_helper.

(** Handlers that leave the work to the library. *)
Definition library_handler (f : binary_op) op : M (vst E) () :=
  SAVE_OPLINE;; p1 ← get_ptr (op1_type op) (op1 op); p2 ← get_ptr (op2_type op) (op2 op);
  r ← EX_VAR (result op); binary_function f r p1 p2;;
  FREE_OP (op1_type op) (op1 op);; FREE_OP (op2_type op) (op2 op);; ZEND_VM_NEXT_OPCODE_CHECK_EXCEPTION.
Definition ZEND_DIV := library_handler div_function.
Definition ZEND_POW := library_handler pow_function.
Definition ZEND_SPACESHIP := library_handler compare_function.
Definition ZEND_BOOL_XOR := library_handler boolean_xor_function.

Definition zend_mod_by_zero_helper op : M (vst E) () :=
  SAVE_OPLINE;; on_engine zend_throw_modulo_by_zero;;
  r ← EX_VAR (result op); update r ZVAL_UNDEF;; HANDLE_EXCEPTION.

(** Handlers with a fast path for two integers: [fast a b] is what it does. *)
Definition long_handler (fast : zend_op → Z → Z → option (M (vst E) ()))
    (helper : zend_op → zptr → zptr → M (vst E) ()) op : M (vst E) () :=
  p1 ← get_undef_merged (op1_type op) (op1 op); p2 ← get_undef_merged (op2_type op) (op2 op);
  if CONST_CONST op then helper op p1 p2 else
  t1 ← Z_TYPE_INFO_P p1;
  if t1 =? IS_LONG then
    t2 ← Z_TYPE_INFO_P p2;
    if t2 =? IS_LONG then
      a ← Z_LVAL_P p1; b ← Z_LVAL_P p2;
      match fast op a b with Some m => m | None => helper op p1 p2 end
    else helper op p1 p2
  else helper op p1 p2.
Definition long_result op (l : Z) : M (vst E) () :=
  r ← EX_VAR (result op); store_long r l;; ZEND_VM_NEXT_OPCODE.

(** [%] truncates; its result is undefined when the quotient does not fit. *)
Definition c_rem (a b : Z) : option Z := if (b =? 0) || negb (in_s64 (Z.quot a b)) then None else Some (Z.rem a b).
Definition ZEND_MOD := long_handler (λ op a b, Some
  (if b =? 0 then zend_mod_by_zero_helper op
   else if b =? -1 then long_result op 0
   else l ← need (c_rem a b); long_result op l)) zend_mod_helper.
(** [(zend_ulong)b < SIZEOF_ZEND_LONG * 8]. *)
Definition shift_in_range (b : Z) : bool := u64 b <? 8 * 8.
Definition ZEND_SL := long_handler (λ op a b,
  if shift_in_range b then Some (long_result op (s64 (u64 (Z.shiftl (u64 a) b)))) else None) zend_shift_left_helper.
Definition ZEND_SR := long_handler (λ op a b,
  if shift_in_range b then Some (long_result op (Z.shiftr a b)) else None) zend_shift_right_helper.
Definition ZEND_BW_OR := long_handler (λ op a b, Some (long_result op (Z.lor a b))) zend_bw_or_helper.
Definition ZEND_BW_AND := long_handler (λ op a b, Some (long_result op (Z.land a b))) zend_bw_and_helper.
Definition ZEND_BW_XOR := long_handler (λ op a b, Some (long_result op (Z.lxor a b))) zend_bw_xor_helper.

Definition zend_bw_not_helper op p : M (vst E) () :=
  SAVE_OPLINE;; t ← Z_TYPE_P p; p ← (if t =? IS_UNDEF then ZVAL_UNDEFINED_OP1 op else mret p);
  r ← EX_VAR (result op); bitwise_not_function r p;; FREE_OP (op1_type op) (op1 op);; ZEND_VM_NEXT_OPCODE_CHECK_EXCEPTION.
Definition ZEND_BW_NOT op : M (vst E) () :=
  p ← get_undef_merged (op1_type op) (op1 op); t ← Z_TYPE_INFO_P p;
  if t =? IS_LONG then a ← Z_LVAL_P p; long_result op (Z.lnot a) else zend_bw_not_helper op p.

(** *** Comparison *)

(** [zend_fast_equal_strings] (zend_operators.h); [char] is unsigned on arm64. *)
Definition first_char (o : zend_refcounted) : option Z := '(_, _, val) ← as_string o; c ← mjoin (val !! 0%nat); Some (uchar c).
Definition zend_fast_equal_strings (z1 z2 : zval) : M (es E) bool :=
  s1 ← need (Z_COUNTED z1); s2 ← need (Z_COUNTED z2);
  if decide (s1 = s2) then mret true else
  h ← gets es_heap; o1 ← need (h !! s1); o2 ← need (h !! s2);
  c1 ← need (first_char o1); c2 ← need (first_char o2);
  if (57 <? c1) || (57 <? c2) then need (zend_string_equal_content o1 o2) else zendi_smart_streq s1 s2.

(** [fast_is_identical_function] and [fast_is_not_identical_function]
    (zend_operators.h). *)
Definition fast_is_identical_function (z1 z2 : zval) : M (es E) bool :=
  if negb (zval_get_type z1 =? zval_get_type z2) then mret false
  else if zval_get_type z1 <=? IS_TRUE then mret true else zend_is_identical z1 z2.
Definition fast_is_not_identical_function (z1 z2 : zval) : M (es E) bool :=
  if negb (zval_get_type z1 =? zval_get_type z2) then mret true
  else if zval_get_type z1 <=? IS_TRUE then mret false else b ← zend_is_identical z1 z2; mret (negb b).

(** [zend_is_equal_helper] and its like; [free1] is whether the first operand is
    freed. *)
Definition compare_helper (free1 : bool) (test : Z → bool) op p1 p2 : M (vst E) () :=
  SAVE_OPLINE;; p1 ← defined_op1 op p1; p2 ← defined_op2 op p2;
  z1 ← load p1; z2 ← load p2; ret ← on_engine (zend_compare z1 z2);
  (if free1 then free_ptr (op1_type op) p1 else mret ());; free_ptr (op2_type op) p2;;
  ZEND_VM_SMART_BRANCH br (test ret) true.
Definition zend_is_equal_helper := compare_helper true (λ r, r =? 0).
Definition zend_is_not_equal_helper := compare_helper true (λ r, negb (r =? 0)).
Definition zend_is_smaller_helper := compare_helper true (λ r, r <? 0).
Definition zend_is_smaller_or_equal_helper := compare_helper true (λ r, r <=? 0).
Definition zend_case_helper := compare_helper false (λ r, r =? 0).

Definition smart (b : bool) : M (vst E) () := if b then ZEND_VM_SMART_BRANCH_TRUE br else ZEND_VM_SMART_BRANCH_FALSE br.

(** The comparisons of numbers: [type] reads the type, [other] is what happens when
    the first operand is no number. *)
Definition compare_numbers (type : zptr → M (vst E) Z) (long_test : Z → Z → bool) (double_test : double → double → bool)
    (helper : zend_op → zptr → zptr → M (vst E) ()) (other : Z → M (vst E) ()) op p1 p2 : M (vst E) () :=
  t1 ← type p1;
  if t1 =? IS_LONG then
    t2 ← type p2;
    if t2 =? IS_LONG then a ← Z_LVAL_P p1; b ← Z_LVAL_P p2; smart (long_test a b)
    else if t2 =? IS_DOUBLE then a ← Z_LVAL_P p1; d2 ← Z_DVAL_P p2; smart (double_test (of_long a) d2)
    else helper op p1 p2
  else if t1 =? IS_DOUBLE then
    t2 ← type p2;
    if t2 =? IS_DOUBLE then d1 ← Z_DVAL_P p1; d2 ← Z_DVAL_P p2; smart (double_test d1 d2)
    else if t2 =? IS_LONG then d1 ← Z_DVAL_P p1; b ← Z_LVAL_P p2; smart (double_test d1 (of_long b))
    else helper op p1 p2
  else other t1.

Definition order_handler long_test double_test helper op : M (vst E) () :=
  p1 ← get_undef_merged (op1_type op) (op1 op); p2 ← get_undef_merged (op2_type op) (op2 op);
  if CONST_CONST op then helper op p1 p2
  else compare_numbers Z_TYPE_INFO_P long_test double_test helper (λ _, helper op p1 p2) op p1 p2.
Definition ZEND_IS_SMALLER := order_handler Z.ltb SFltb zend_is_smaller_helper.
Definition ZEND_IS_SMALLER_OR_EQUAL := order_handler Z.leb SFleb zend_is_smaller_or_equal_helper.

(** Two strings: compared, freed, and the outcome is [test] of their equality. *)
Definition compare_strings (free : M (vst E) ()) (test : bool → bool)
    (helper : zend_op → zptr → zptr → M (vst E) ()) op p1 p2 (t1 : Z) : M (vst E) () :=
  if t1 =? IS_STRING then
    t2 ← Z_TYPE_P p2;
    if t2 =? IS_STRING then
      z1 ← load p1; z2 ← load p2; b ← on_engine (zend_fast_equal_strings z1 z2); free;; smart (test b)
    else helper op p1 p2
  else helper op p1 p2.
Definition equal_handler long_test double_test test helper op : M (vst E) () :=
  p1 ← get_undef_tmpvar (op1_type op) (op1 op); p2 ← get_undef_tmpvar (op2_type op) (op2 op);
  if CONST_CONST op then helper op p1 p2
  else compare_numbers Z_TYPE_P long_test double_test helper
         (compare_strings (free_str (op1_type op) p1;; free_str (op2_type op) p2) test helper op p1 p2) op p1 p2.
Definition ZEND_IS_EQUAL := equal_handler Z.eqb SFeqb id zend_is_equal_helper.
Definition ZEND_IS_NOT_EQUAL :=
  equal_handler (λ a b, negb (a =? b)) (λ a b, negb (SFeqb a b)) negb zend_is_not_equal_helper.
Definition ZEND_CASE op : M (vst E) () :=
  p1 ← get_undef_tmpvar (op1_type op) (op1 op); p2 ← get_undef_tmpvar (op2_type op) (op2 op);
  compare_numbers Z_TYPE_P Z.eqb SFeqb zend_case_helper
    (compare_strings (FREE_OP (op2_type op) (op2 op)) id zend_case_helper op p1 p2) op p1 p2.

Definition identical_handler (f : zval → zval → M (es E) bool) (free1 : bool) op : M (vst E) () :=
  SAVE_OPLINE;; p1 ← get_deref (op1_type op) (op1 op); p2 ← get_deref (op2_type op) (op2 op);
  z1 ← load p1; z2 ← load p2; b ← on_engine (f z1 z2);
  (if free1 then FREE_OP (op1_type op) (op1 op) else mret ());; FREE_OP (op2_type op) (op2 op);;
  ZEND_VM_SMART_BRANCH br b true.
Definition ZEND_IS_IDENTICAL := identical_handler fast_is_identical_function true.
Definition ZEND_IS_NOT_IDENTICAL := identical_handler fast_is_not_identical_function true.
Definition ZEND_CASE_STRICT := identical_handler fast_is_identical_function false.

(** *** Truth and jumps *)

(** [i_zend_is_true] with what it reports. *)
Definition is_true p : M (vst E) bool :=
  z ← load p; s ← get; let e := es_priv (eng s) in
  '(b, reports) ← need (i_zend_is_true (zend_hash_num_elements e) (Z_RES_HANDLE e) (has_std_cast e)
                          (zend_object_is_true e) 2 z (es_heap (eng s)));
  on_engine (for_each zend_error reports);; mret b.

(** [ZEND_BOOL] and [ZEND_BOOL_NOT]: [value b] is the result for the truth [b]. *)
Definition bool_handler (value : bool → bool) op : M (vst E) () :=
  p ← get_undef_tmpvar (op1_type op) (op1 op); t ← Z_TYPE_INFO_P p;
  if t =? IS_TRUE then r ← EX_VAR (result op); update r (λ z, ZVAL_BOOL z (value true));; ZEND_VM_NEXT_OPCODE
  else if t <=? IS_TRUE then
    r ← EX_VAR (result op); update r (λ z, ZVAL_BOOL z (value false));;
    if (op1_type op =? IS_CV) && (t =? IS_UNDEF)
    then SAVE_OPLINE;; ZVAL_UNDEFINED_OP1 op;; ZEND_VM_NEXT_OPCODE_CHECK_EXCEPTION
    else ZEND_VM_NEXT_OPCODE
  else
    SAVE_OPLINE;; b ← is_true p; r ← EX_VAR (result op); update r (λ z, ZVAL_BOOL z (value b));;
    FREE_OP (op1_type op) (op1 op);; ZEND_VM_NEXT_OPCODE_CHECK_EXCEPTION.
Definition ZEND_BOOL := bool_handler id.
Definition ZEND_BOOL_NOT := bool_handler negb.

Definition ZEND_JMP op : M (vst E) () := s ← get; ZEND_VM_JMP_EX (OP_JMP_ADDR (opline s) (op1 op)) false.
Definition jump_target op : M (vst E) Z := gets (λ s, OP_JMP_ADDR (opline s) (op2 op)).
Definition next_op : M (vst E) Z := gets (λ s, opline s + sizeof_zend_op).

(** The undefined variable is reported; an exception ends the instruction. *)
Definition report_undefined op (k : M (vst E) ()) : M (vst E) () :=
  SAVE_OPLINE;; ZVAL_UNDEFINED_OP1 op;; e ← exception_pending; if (e : bool) then HANDLE_EXCEPTION else k.

(** [ZEND_JMPZ] and [ZEND_JMPNZ]: [taken b] is whether the truth [b] jumps. *)
Definition jump_handler (taken : bool → bool) op : M (vst E) () :=
  p ← get_undef_tmpvar (op1_type op) (op1 op); t ← Z_TYPE_INFO_P p;
  let go (b : bool) := if taken b then a ← jump_target op; ZEND_VM_JMP_EX a false else ZEND_VM_NEXT_OPCODE in
  if t =? IS_TRUE then go true
  else if t <=? IS_TRUE then
    if (op1_type op =? IS_CV) && (t =? IS_UNDEF) then report_undefined op (go false) else go false
  else
    SAVE_OPLINE;; b ← is_true p; a ← (if taken b then jump_target op else next_op);
    free_ptr (op1_type op) p;; ZEND_VM_JMP a.
Definition ZEND_JMPZ := jump_handler negb.
Definition ZEND_JMPNZ := jump_handler id.

Definition ZEND_JMPZ_EX op : M (vst E) () :=
  p ← get_undef_tmpvar (op1_type op) (op1 op); t ← Z_TYPE_INFO_P p; r ← EX_VAR (result op);
  if t =? IS_TRUE then update r ZVAL_TRUE;; ZEND_VM_NEXT_OPCODE
  else if t <=? IS_TRUE then
    update r ZVAL_FALSE;; t ← Z_TYPE_INFO_P p;
    let go := a ← jump_target op; ZEND_VM_JMP_EX a false in
    if (op1_type op =? IS_CV) && (t =? IS_UNDEF) then report_undefined op go else go
  else
    SAVE_OPLINE;; b ← is_true p; FREE_OP (op1_type op) (op1 op);;
    a ← (if (b : bool) then update r ZVAL_TRUE;; next_op else update r ZVAL_FALSE;; jump_target op); ZEND_VM_JMP a.
Definition ZEND_JMPNZ_EX op : M (vst E) () :=
  p ← get_undef_tmpvar (op1_type op) (op1 op); t ← Z_TYPE_INFO_P p; r ← EX_VAR (result op);
  if t =? IS_TRUE then update r ZVAL_TRUE;; a ← jump_target op; ZEND_VM_JMP_EX a false
  else if t <=? IS_TRUE then
    update r ZVAL_FALSE;; t ← Z_TYPE_INFO_P p;
    if (op1_type op =? IS_CV) && (t =? IS_UNDEF)
    then SAVE_OPLINE;; ZVAL_UNDEFINED_OP1 op;; ZEND_VM_NEXT_OPCODE_CHECK_EXCEPTION else ZEND_VM_NEXT_OPCODE
  else
    SAVE_OPLINE;; b ← is_true p; FREE_OP (op1_type op) (op1 op);;
    a ← (if (b : bool) then update r ZVAL_TRUE;; jump_target op else update r ZVAL_FALSE;; next_op); ZEND_VM_JMP a.

(** *** Increments *)

(** [ZVAL_COPY(to, from)]. *)
Definition copy_zval (to from : zptr) : M (vst E) () :=
  z ← load to; v ← load from; z' ← on_engine (heap_op (ZVAL_COPY z v)); store to z'.
Definition copy_value (to from : zptr) : M (vst E) () := v ← load from; update to (λ z, ZVAL_COPY_VALUE z v).

(** The body of the helpers' [do ... while (0)]: [change] works on the variable or on the
    inside of its reference, unless the reference has types to respect. The pointer
    afterwards. *)
Definition change_variable op (typed : option zptr) (change : zptr → M (vst E) ()) p : M (vst E) zptr :=
  t ← Z_TYPE_P p;
  if t =? IS_REFERENCE then
    z ← load p; ref ← need (Z_COUNTED z); s ← get;
    (if ZEND_REF_HAS_TYPE_SOURCES (es_priv (eng s)) ref then zend_incdec_typed_ref op ref typed else change (PRef ref));;
    mret (PRef ref)
  else change p;; mret p.
Definition null_if_undefined op p : M (vst E) () :=
  t ← Z_TYPE_P p;
  if (op1_type op =? IS_CV) && (t =? IS_UNDEF) then ZVAL_UNDEFINED_OP1 op;; update p ZVAL_NULL else mret ().

Definition pre_helper (change : zptr → M (vst E) ()) op : M (vst E) () :=
  p ← get_ptr_ptr (op1_type op) (op1 op); SAVE_OPLINE;; null_if_undefined op p;;
  p ← change_variable op None change p;
  (if RETURN_VALUE_USED op then r ← EX_VAR (result op); copy_zval r p else mret ());;
  FREE_OP (op1_type op) (op1 op);; ZEND_VM_NEXT_OPCODE_CHECK_EXCEPTION.
Definition zend_pre_inc_helper := pre_helper increment_function.
Definition zend_pre_dec_helper := pre_helper decrement_function.
Definition pre_handler (fast : Z → number) (helper : zend_op → M (vst E) ()) op : M (vst E) () :=
  p ← get_ptr_ptr (op1_type op) (op1 op); t ← Z_TYPE_P p;
  if t =? IS_LONG then
    l ← Z_LVAL_P p; store_number_in_place p (fast l);;
    (if RETURN_VALUE_USED op then r ← EX_VAR (result op); copy_value r p else mret ());; ZEND_VM_NEXT_OPCODE
  else helper op.
Definition ZEND_PRE_INC := pre_handler fast_long_increment_function_builtin zend_pre_inc_helper.
Definition ZEND_PRE_DEC := pre_handler fast_long_decrement_function_builtin zend_pre_dec_helper.

Definition post_helper (change : zptr → M (vst E) ()) op : M (vst E) () :=
  p ← get_ptr_ptr (op1_type op) (op1 op); SAVE_OPLINE;; null_if_undefined op p;; r ← EX_VAR (result op);
  change_variable op (Some r) (λ p, copy_zval r p;; change p) p;;
  FREE_OP (op1_type op) (op1 op);; ZEND_VM_NEXT_OPCODE_CHECK_EXCEPTION.
Definition zend_post_inc_helper := post_helper increment_function.
Definition zend_post_dec_helper := post_helper decrement_function.
Definition post_handler (fast : Z → number) (helper : zend_op → M (vst E) ()) op : M (vst E) () :=
  p ← get_ptr_ptr (op1_type op) (op1 op); t ← Z_TYPE_P p;
  if t =? IS_LONG then
    r ← EX_VAR (result op); l ← Z_LVAL_P p; store_long r l;;
    l ← Z_LVAL_P p; store_number_in_place p (fast l);; ZEND_VM_NEXT_OPCODE
  else helper op.
Definition ZEND_POST_INC := post_handler fast_long_increment_function_builtin zend_post_inc_helper.
Definition ZEND_POST_DEC := post_handler fast_long_decrement_function_builtin zend_post_dec_helper.

(** *** Copies *)

Definition ZEND_NOP op : M (vst E) () := ZEND_VM_NEXT_OPCODE.
Definition ZEND_EXT_NOP op : M (vst E) () := ZEND_VM_NEXT_OPCODE.
Definition ZEND_FREE op : M (vst E) () :=
  SAVE_OPLINE;; FREE_OP (op1_type op) (op1 op);; ZEND_VM_NEXT_OPCODE_CHECK_EXCEPTION.

(** [if (Z_OPT_REFCOUNTED_P(r)) Z_ADDREF_P(r)]. *)
Definition addref_slot r : M (vst E) () :=
  z ← load r; if Z_OPT_REFCOUNTED z then on_engine (heap_do (zval_addref_p z)) else mret ().
(** The end of a VAR that was a reference: the last holder frees it, another one shares
    what was copied out of it. *)
Definition leave_reference (ref : loc) r : M (vst E) () :=
  rc ← on_engine (heap_op (GC_DELREF ref));
  if rc =? 0 then on_engine (heap_do (λ h, Some (delete ref h))) else addref_slot r.

Definition ZEND_QM_ASSIGN op : M (vst E) () :=
  r ← EX_VAR (result op); p ← get_undef_each (op1_type op) (op1 op); t ← Z_TYPE_P p;
  if (op1_type op =? IS_CV) && (t =? IS_UNDEF) then
    SAVE_OPLINE;; ZVAL_UNDEFINED_OP1 op;; update r ZVAL_NULL;; ZEND_VM_NEXT_OPCODE_CHECK_EXCEPTION
  else
    (if op1_type op =? IS_CV then
       z ← load r; v ← load p; z' ← on_engine (heap_op (ZVAL_COPY_DEREF z v)); store r z'
     else if op1_type op =? IS_VAR then
       v ← load p;
       if Z_ISREF v then l ← need (Z_COUNTED v); copy_value r (PRef l);; leave_reference l r
       else copy_value r p
     else copy_value r p;; if op1_type op =? IS_CONST then addref_slot r else mret ());;
    ZEND_VM_NEXT_OPCODE.

(** [ZEND_JMP_SET] and [ZEND_COALESCE] look through a reference of a VAR or CV; the
    reference of a VAR is theirs to leave. *)
Definition look_through op p : M (vst E) (zptr * option loc) :=
  z ← load p;
  if ((op1_type op =? IS_VAR) || (op1_type op =? IS_CV)) && Z_ISREF z
  then l ← need (Z_COUNTED z); mret (PRef l, if op1_type op =? IS_VAR then Some l else None)
  else mret (p, None).
Definition keep_value op (ref : option loc) p : M (vst E) () :=
  r ← EX_VAR (result op); copy_value r p;;
  (if (op1_type op =? IS_CONST) || (op1_type op =? IS_CV) then addref_slot r
   else match ref with Some l => leave_reference l r | None => mret () end);;
  a ← jump_target op; ZEND_VM_JMP_EX a false.
Definition ZEND_JMP_SET op : M (vst E) () :=
  SAVE_OPLINE;; p ← get_ptr_each get_zval_ptr_cv_BP_VAR_R (op1_type op) (op1 op);
  '(p, ref) ← look_through op p; b ← is_true p; e ← exception_pending;
  if (e : bool) then FREE_OP (op1_type op) (op1 op);; r ← EX_VAR (result op); update r ZVAL_UNDEF;; HANDLE_EXCEPTION
  else if (b : bool) then keep_value op ref p
  else FREE_OP (op1_type op) (op1 op);; ZEND_VM_NEXT_OPCODE.
Definition ZEND_COALESCE op : M (vst E) () :=
  SAVE_OPLINE;; p ← get_ptr_each get_zval_ptr_cv_BP_VAR_IS (op1_type op) (op1 op);
  '(p, ref) ← look_through op p; t ← Z_TYPE_P p;
  if IS_NULL <? t then keep_value op ref p
  else
    (match ref with
     | Some l => rc ← on_engine (heap_op (GC_DELREF l)); if rc =? 0 then on_engine (heap_do (λ h, Some (delete l h))) else mret ()
     | None => mret ()
     end);; ZEND_VM_NEXT_OPCODE.

(** *** Handlers specialised for the types of their operands *)

(** Signed arithmetic of C: undefined when the result does not fit. *)
Definition c_long (z : Z) : option Z := if in_s64 z then Some z else None.

Definition no_overflow_handler (long_op : Z → Z → Z) op : M (vst E) () :=
  p1 ← get_undef_merged (op1_type op) (op1 op); p2 ← get_undef_merged (op2_type op) (op2 op);
  r ← EX_VAR (result op); a ← Z_LVAL_P p1; b ← Z_LVAL_P p2; l ← need (c_long (long_op a b)); store_long r l;; ZEND_VM_NEXT_OPCODE.
Definition ZEND_ADD_LONG_NO_OVERFLOW := no_overflow_handler Z.add.
Definition ZEND_SUB_LONG_NO_OVERFLOW := no_overflow_handler Z.sub.
Definition ZEND_MUL_LONG_NO_OVERFLOW := no_overflow_handler Z.mul.

Definition longs_handler (long_op : Z → Z → number) op : M (vst E) () :=
  p1 ← get_undef_merged (op1_type op) (op1 op); p2 ← get_undef_merged (op2_type op) (op2 op);
  r ← EX_VAR (result op); a ← Z_LVAL_P p1; b ← Z_LVAL_P p2; store_number r (long_op a b);; ZEND_VM_NEXT_OPCODE.
Definition ZEND_ADD_LONG := longs_handler fast_long_add_function_builtin.
Definition ZEND_SUB_LONG := longs_handler fast_long_sub_function_builtin.
Definition ZEND_MUL_LONG := longs_handler mul_builtin.

Definition doubles_handler (double_op : double → double → double) op : M (vst E) () :=
  p1 ← get_undef_merged (op1_type op) (op1 op); p2 ← get_undef_merged (op2_type op) (op2 op);
  r ← EX_VAR (result op); d1 ← Z_DVAL_P p1; d2 ← Z_DVAL_P p2; store_double r (double_op d1 d2);; ZEND_VM_NEXT_OPCODE.
Definition ZEND_ADD_DOUBLE := doubles_handler dadd.
Definition ZEND_SUB_DOUBLE := doubles_handler dsub.
Definition ZEND_MUL_DOUBLE := doubles_handler dmul.

Definition test_longs_handler (long_test : Z → Z → bool) op : M (vst E) () :=
  p1 ← get_undef_merged (op1_type op) (op1 op); p2 ← get_undef_merged (op2_type op) (op2 op);
  a ← Z_LVAL_P p1; b ← Z_LVAL_P p2; ZEND_VM_SMART_BRANCH br (long_test a b) false.
Definition ZEND_IS_EQUAL_LONG := test_longs_handler Z.eqb.
Definition ZEND_IS_NOT_EQUAL_LONG := test_longs_handler (λ a b, negb (a =? b)).
Definition ZEND_IS_SMALLER_LONG := test_longs_handler Z.ltb.
Definition ZEND_IS_SMALLER_OR_EQUAL_LONG := test_longs_handler Z.leb.

Definition test_doubles_handler (double_test : double → double → bool) op : M (vst E) () :=
  p1 ← get_undef_merged (op1_type op) (op1 op); p2 ← get_undef_merged (op2_type op) (op2 op);
  d1 ← Z_DVAL_P p1; d2 ← Z_DVAL_P p2; ZEND_VM_SMART_BRANCH br (double_test d1 d2) false.
Definition ZEND_IS_EQUAL_DOUBLE := test_doubles_handler SFeqb.
Definition ZEND_IS_NOT_EQUAL_DOUBLE := test_doubles_handler (λ a b, negb (SFeqb a b)).
Definition ZEND_IS_SMALLER_DOUBLE := test_doubles_handler SFltb.
Definition ZEND_IS_SMALLER_OR_EQUAL_DOUBLE := test_doubles_handler SFleb.

Definition empty_array_handler (test : bool → bool) op : M (vst E) () :=
  p ← get_zval_ptr_tmpvarcv (op1_type op) (op1 op); z ← load p; s ← get;
  b ← (if zval_get_type z =? IS_ARRAY
       then l ← need (Z_COUNTED z); mret (zend_hash_num_elements (es_priv (eng s)) l =? 0) else mret false);
  FREE_OP (op1_type op) (op1 op);; ZEND_VM_SMART_BRANCH br (test b) false.
Definition ZEND_IS_IDENTICAL_EMPTY_ARRAY := empty_array_handler id.
Definition ZEND_IS_NOT_IDENTICAL_EMPTY_ARRAY := empty_array_handler negb.

Definition nothrow_handler (test : bool → bool) op : M (vst E) () :=
  p1 ← EX_VAR (op1 op); p2 ← get_undef_merged (op2_type op) (op2 op);
  z1 ← load p1; z2 ← load p2; b ← on_engine (fast_is_identical_function z1 z2); ZEND_VM_SMART_BRANCH br (test b) false.
Definition ZEND_IS_IDENTICAL_NOTHROW := nothrow_handler id.
Definition ZEND_IS_NOT_IDENTICAL_NOTHROW := nothrow_handler negb.

Definition pre_no_overflow_handler (step : Z → Z) op : M (vst E) () :=
  p ← EX_VAR (op1 op); l ← Z_LVAL_P p; l' ← need (c_long (step l)); store_lval p l';;
  (if RETURN_VALUE_USED op then r ← EX_VAR (result op); l ← Z_LVAL_P p; store_long r l else mret ());; ZEND_VM_NEXT_OPCODE.
Definition ZEND_PRE_INC_LONG_NO_OVERFLOW := pre_no_overflow_handler (λ l, l + 1).
Definition ZEND_PRE_DEC_LONG_NO_OVERFLOW := pre_no_overflow_handler (λ l, l - 1).
Definition pre_long_handler (fast : Z → number) op : M (vst E) () :=
  p ← EX_VAR (op1 op); l ← Z_LVAL_P p; store_number_in_place p (fast l);;
  (if RETURN_VALUE_USED op then r ← EX_VAR (result op); copy_value r p else mret ());; ZEND_VM_NEXT_OPCODE.
Definition ZEND_PRE_INC_LONG := pre_long_handler fast_long_increment_function_builtin.
Definition ZEND_PRE_DEC_LONG := pre_long_handler fast_long_decrement_function_builtin.

Definition post_no_overflow_handler (step : Z → Z) op : M (vst E) () :=
  p ← EX_VAR (op1 op); r ← EX_VAR (result op); l ← Z_LVAL_P p; store_long r l;;
  l ← Z_LVAL_P p; l' ← need (c_long (step l)); store_lval p l';; ZEND_VM_NEXT_OPCODE.
Definition ZEND_POST_INC_LONG_NO_OVERFLOW := post_no_overflow_handler (λ l, l + 1).
Definition ZEND_POST_DEC_LONG_NO_OVERFLOW := post_no_overflow_handler (λ l, l - 1).
Definition post_long_handler (fast : Z → number) op : M (vst E) () :=
  p ← EX_VAR (op1 op); r ← EX_VAR (result op); l ← Z_LVAL_P p; store_long r l;;
  l ← Z_LVAL_P p; store_number_in_place p (fast l);; ZEND_VM_NEXT_OPCODE.
Definition ZEND_POST_INC_LONG := post_long_handler fast_long_increment_function_builtin.
Definition ZEND_POST_DEC_LONG := post_long_handler fast_long_decrement_function_builtin.

Definition ZEND_QM_ASSIGN_LONG op : M (vst E) () :=
  p ← get_undef_merged (op1_type op) (op1 op); r ← EX_VAR (result op); l ← Z_LVAL_P p; store_long r l;; ZEND_VM_NEXT_OPCODE.
(** A double is moved with all its bits. *)
Definition ZEND_QM_ASSIGN_DOUBLE op : M (vst E) () :=
  p ← get_undef_merged (op1_type op) (op1 op); r ← EX_VAR (result op);
  z ← load p; b ← need (Z_DVAL_BITS z); update r (λ z, ZVAL_DOUBLE z b);; ZEND_VM_NEXT_OPCODE.
Definition ZEND_QM_ASSIGN_NOREF op : M (vst E) () :=
  p ← get_undef_merged (op1_type op) (op1 op); r ← EX_VAR (result op); copy_value r p;; ZEND_VM_NEXT_OPCODE.

Definition ZEND_JMP_FORWARD op : M (vst E) () := modify (λ s, with_opline (OP_JMP_ADDR (opline s) (op1 op)) s).
End machine.
End Vm.
Export Vm.
