(* ===== verification/ZendVmLabels.v ===== *)
(** * The table of handlers (Zend/zend_vm_execute.h)

    The generated table of handlers, for the instructions modelled in ZendVm and for
    their specialised handlers, and the table that says for each instruction where its
    handlers begin and by what they are indexed. *)

From S2P Require Import Prelude.

Module Labels.

Definition SPEC_START_MASK : Z := 0x0000ffff.
Definition SPEC_EXTRA_MASK : Z := 0xfffc0000.
Definition SPEC_RULE_OP1 : Z := 0x00010000.
Definition SPEC_RULE_OP2 : Z := 0x00020000.
Definition SPEC_RULE_OP_DATA : Z := 0x00040000.
Definition SPEC_RULE_RETVAL : Z := 0x00080000.
Definition SPEC_RULE_QUICK_ARG : Z := 0x00100000.
Definition SPEC_RULE_SMART_BRANCH : Z := 0x00200000.
Definition SPEC_RULE_COMMUTATIVE : Z := 0x00800000.
Definition SPEC_RULE_ISSET : Z := 0x01000000.
Definition SPEC_RULE_OBSERVER : Z := 0x02000000.

Declare Scope spec_scope.
Delimit Scope spec_scope with spec.
Infix "|." := Z.lor (at level 50, left associativity) : spec_scope.

(** The handlers of the template. *)
Inductive template : Type :=
| T_NOP | T_ADD | T_SUB | T_MUL | T_DIV | T_MOD | T_SL | T_SR | T_BW_OR | T_BW_AND | T_BW_XOR | T_POW
| T_BW_NOT | T_BOOL_NOT | T_BOOL_XOR | T_IS_IDENTICAL | T_IS_NOT_IDENTICAL | T_IS_EQUAL
| T_IS_NOT_EQUAL | T_IS_SMALLER | T_IS_SMALLER_OR_EQUAL | T_QM_ASSIGN | T_PRE_INC | T_PRE_DEC
| T_POST_INC | T_POST_DEC | T_JMP | T_JMPZ | T_JMPNZ | T_JMPZ_EX | T_JMPNZ_EX | T_CASE | T_BOOL
| T_FREE | T_EXT_NOP | T_JMP_SET | T_COALESCE | T_SPACESHIP | T_CASE_STRICT | T_JMP_FORWARD
| T_ADD_LONG_NO_OVERFLOW | T_ADD_LONG | T_ADD_DOUBLE | T_SUB_LONG_NO_OVERFLOW | T_SUB_LONG
| T_SUB_DOUBLE | T_MUL_LONG_NO_OVERFLOW | T_MUL_LONG | T_MUL_DOUBLE | T_IS_EQUAL_LONG
| T_IS_EQUAL_DOUBLE | T_IS_NOT_EQUAL_LONG | T_IS_NOT_EQUAL_DOUBLE | T_IS_IDENTICAL_EMPTY_ARRAY
| T_IS_NOT_IDENTICAL_EMPTY_ARRAY | T_IS_IDENTICAL_NOTHROW | T_IS_NOT_IDENTICAL_NOTHROW
| T_IS_SMALLER_LONG | T_IS_SMALLER_DOUBLE | T_IS_SMALLER_OR_EQUAL_LONG | T_IS_SMALLER_OR_EQUAL_DOUBLE
| T_PRE_INC_LONG_NO_OVERFLOW | T_PRE_INC_LONG | T_PRE_DEC_LONG_NO_OVERFLOW | T_PRE_DEC_LONG
| T_POST_INC_LONG_NO_OVERFLOW | T_POST_INC_LONG | T_POST_DEC_LONG_NO_OVERFLOW | T_POST_DEC_LONG
| T_QM_ASSIGN_LONG | T_QM_ASSIGN_DOUBLE | T_QM_ASSIGN_NOREF.
#[global] Instance template_eq_dec : EqDecision template.
Proof. solve_decision. Defined.

(** The operand kinds a handler is generated for: any, none, a constant, a temporary, a
    variable, a compiled variable, and the merged kinds. *)
Inductive kinds : Type := AN | UN | CO | TM | VA | CV | TV | TVC.
#[global] Instance kinds_eq_dec : EqDecision kinds.
Proof. solve_decision. Defined.
(** The variant for a result that is (un)used or fused with a jump. *)
Inductive variant : Type := plain | used | unused | jmpz | jmpnz.
#[global] Instance variant_eq_dec : EqDecision variant.
Proof. solve_decision. Defined.

(** An entry of the table; [NULL] is [ZEND_NULL_LABEL]. *)
Inductive label : Type := L (t : template) (k1 k2 : kinds) (v : variant) | NULL.

(** [zend_spec_handlers]: the first handler of each instruction and the rules. *)
Definition specs_low : list Z := ([
  0; 1 |. SPEC_RULE_OP1 |. SPEC_RULE_OP2; 26 |. SPEC_RULE_OP1 |. SPEC_RULE_OP2;
  51 |. SPEC_RULE_OP1 |. SPEC_RULE_OP2 |. SPEC_RULE_COMMUTATIVE; 76 |. SPEC_RULE_OP1 |. SPEC_RULE_OP2;
  101 |. SPEC_RULE_OP1 |. SPEC_RULE_OP2; 126 |. SPEC_RULE_OP1 |. SPEC_RULE_OP2;
  151 |. SPEC_RULE_OP1 |. SPEC_RULE_OP2; 176 |. SPEC_RULE_OP1 |. SPEC_RULE_OP2;
  201 |. SPEC_RULE_OP1 |. SPEC_RULE_OP2 |. SPEC_RULE_COMMUTATIVE;
  226 |. SPEC_RULE_OP1 |. SPEC_RULE_OP2 |. SPEC_RULE_COMMUTATIVE;
  251 |. SPEC_RULE_OP1 |. SPEC_RULE_OP2 |. SPEC_RULE_COMMUTATIVE; 276 |. SPEC_RULE_OP1 |. SPEC_RULE_OP2;
  301 |. SPEC_RULE_OP1; 306 |. SPEC_RULE_OP1; 311 |. SPEC_RULE_OP1 |. SPEC_RULE_OP2 |. SPEC_RULE_COMMUTATIVE;
  336 |. SPEC_RULE_OP1 |. SPEC_RULE_OP2 |. SPEC_RULE_COMMUTATIVE;
  361 |. SPEC_RULE_OP1 |. SPEC_RULE_OP2 |. SPEC_RULE_COMMUTATIVE;
  386 |. SPEC_RULE_OP1 |. SPEC_RULE_OP2 |. SPEC_RULE_SMART_BRANCH |. SPEC_RULE_COMMUTATIVE;
  461 |. SPEC_RULE_OP1 |. SPEC_RULE_OP2 |. SPEC_RULE_SMART_BRANCH |. SPEC_RULE_COMMUTATIVE;
  536 |. SPEC_RULE_OP1 |. SPEC_RULE_OP2 |. SPEC_RULE_SMART_BRANCH;
  611 |. SPEC_RULE_OP1 |. SPEC_RULE_OP2 |. SPEC_RULE_SMART_BRANCH;
  686 |. SPEC_RULE_OP1 |. SPEC_RULE_OP2 |. SPEC_RULE_RETVAL;
  736 |. SPEC_RULE_OP1 |. SPEC_RULE_OP2 |. SPEC_RULE_OP_DATA;
  861 |. SPEC_RULE_OP1 |. SPEC_RULE_OP2 |. SPEC_RULE_OP_DATA; 986 |. SPEC_RULE_OP_DATA;
  991 |. SPEC_RULE_OP1 |. SPEC_RULE_OP2; 1016 |. SPEC_RULE_OP1 |. SPEC_RULE_OP2;
  1041 |. SPEC_RULE_OP1 |. SPEC_RULE_OP2; 1066; 1067 |. SPEC_RULE_OP1 |. SPEC_RULE_OP2; 1092 |. SPEC_RULE_OP1;
  1097 |. SPEC_RULE_OP1 |. SPEC_RULE_OP2 |. SPEC_RULE_OP_DATA; 1222; 1223 |. SPEC_RULE_OP1 |. SPEC_RULE_RETVAL;
  1233 |. SPEC_RULE_OP1 |. SPEC_RULE_RETVAL; 1243 |. SPEC_RULE_OP1; 1248 |. SPEC_RULE_OP1; 1253; 1253; 1254;
  1254; 1255; 1256 |. SPEC_RULE_OP1; 1261 |. SPEC_RULE_OP1; 3493; 1266 |. SPEC_RULE_OP1; 1271 |. SPEC_RULE_OP1;
  1276 |. SPEC_RULE_OP2; 1281; 1282 |. SPEC_RULE_OP2 |. SPEC_RULE_QUICK_ARG; 1292 |. SPEC_RULE_OP1;
  1297 |. SPEC_RULE_OP1; 1302 |. SPEC_RULE_OP1 |. SPEC_RULE_OP2; 1327 |. SPEC_RULE_OP2; 1332 |. SPEC_RULE_OP2;
  1337 |. SPEC_RULE_OP2; 1342; 1343; 1344; 1345 |. SPEC_RULE_RETVAL |. SPEC_RULE_OBSERVER; 1349;
  1350 |. SPEC_RULE_OP1 |. SPEC_RULE_OBSERVER; 1360; 1361; 1362 |. SPEC_RULE_OP1 |. SPEC_RULE_OP2;
  1387 |. SPEC_RULE_OP1 |. SPEC_RULE_OP2 |. SPEC_RULE_QUICK_ARG; 1437 |. SPEC_RULE_OP1 |. SPEC_RULE_OP2;
  1462 |. SPEC_RULE_OP1; 1467; 1468; 1469 |. SPEC_RULE_OP1 |. SPEC_RULE_OP2;
  1494 |. SPEC_RULE_OP1 |. SPEC_RULE_OP2; 1519 |. SPEC_RULE_OP1 |. SPEC_RULE_OBSERVER; 1529 |. SPEC_RULE_OP1;
  1534 |. SPEC_RULE_OP1 |. SPEC_RULE_OP2; 1559 |. SPEC_RULE_OP1 |. SPEC_RULE_OP2; 1584 |. SPEC_RULE_OP1; 1589;
  3493; 1590 |. SPEC_RULE_OP1; 1595 |. SPEC_RULE_OP1 |. SPEC_RULE_OP2; 1620 |. SPEC_RULE_OP1 |. SPEC_RULE_OP2;
  1645 |. SPEC_RULE_OP1; 1650 |. SPEC_RULE_OP1 |. SPEC_RULE_OP2; 1675 |. SPEC_RULE_OP1 |. SPEC_RULE_OP2;
  1700 |. SPEC_RULE_OP1; 1705 |. SPEC_RULE_OP1 |. SPEC_RULE_OP2; 1730 |. SPEC_RULE_OP1 |. SPEC_RULE_OP2;
  1755 |. SPEC_RULE_OP1; 1760 |. SPEC_RULE_OP1 |. SPEC_RULE_OP2; 1785 |. SPEC_RULE_OP1 |. SPEC_RULE_OP2;
  1810 |. SPEC_RULE_OP1; 1815 |. SPEC_RULE_OP1 |. SPEC_RULE_OP2; 1840 |. SPEC_RULE_OP1 |. SPEC_RULE_OP2;
  1865 |. SPEC_RULE_OP1; 1870 |. SPEC_RULE_OP1 |. SPEC_RULE_OP2; 1895 |. SPEC_RULE_OP1 |. SPEC_RULE_OP2;
  1920 |. SPEC_RULE_OP1 |. SPEC_RULE_OP2; 1945; 1946 |. SPEC_RULE_OP2 |. SPEC_RULE_QUICK_ARG; 1956; 1957; 1958;
  1959; 1960; 1961 |. SPEC_RULE_OP2; 1966; 1967 |. SPEC_RULE_OP1; 1972 |. SPEC_RULE_OP2; 1977 |. SPEC_RULE_OP1;
  1982 |. SPEC_RULE_OP1 |. SPEC_RULE_OBSERVER; 1992 |. SPEC_RULE_OP1 |. SPEC_RULE_OP2;
  2017 |. SPEC_RULE_OP1 |. SPEC_RULE_OP2; 2042 |. SPEC_RULE_OP1; 2047 |. SPEC_RULE_OP1 |. SPEC_RULE_OP2;
  2072 |. SPEC_RULE_OP1 |. SPEC_RULE_OP2 |. SPEC_RULE_QUICK_ARG; 2122 |. SPEC_RULE_OP1 |. SPEC_RULE_OP2;
  2147 |. SPEC_RULE_OP2; 2152; 2153 |. SPEC_RULE_OP1; 2158 |. SPEC_RULE_OP1; 2163; 2164 |. SPEC_RULE_OP1;
  2169 |. SPEC_RULE_OP1; 2174 |. SPEC_RULE_OP1; 2179; 2180])%spec.
Definition specs_high : list Z := ([
  2181 |. SPEC_RULE_OP2; 2186 |. SPEC_RULE_RETVAL |. SPEC_RULE_OBSERVER;
  2190 |. SPEC_RULE_RETVAL |. SPEC_RULE_OBSERVER; 2194 |. SPEC_RULE_RETVAL |. SPEC_RULE_OBSERVER;
  2198 |. SPEC_RULE_OP1 |. SPEC_RULE_OP2; 2198 |. SPEC_RULE_OP1 |. SPEC_RULE_OP2;
  2223 |. SPEC_RULE_OP1 |. SPEC_RULE_OP2; 2223 |. SPEC_RULE_OP1 |. SPEC_RULE_OP2; 2248 |. SPEC_RULE_OP1; 2253;
  2254 |. SPEC_RULE_OP1 |. SPEC_RULE_OP2; 2279; 2280 |. SPEC_RULE_OP1; 2285; 2286; 2287; 2288; 2289; 2290;
  2291; 2292 |. SPEC_RULE_OP1 |. SPEC_RULE_OP2; 2317; 2318; 2319; 2320 |. SPEC_RULE_OP1; 2325;
  2326 |. SPEC_RULE_ISSET; 2328 |. SPEC_RULE_OP2; 2333; 2334 |. SPEC_RULE_OP1; 2339 |. SPEC_RULE_OBSERVER;
  2341; 2342 |. SPEC_RULE_OP1 |. SPEC_RULE_OP2; 2367 |. SPEC_RULE_OP1 |. SPEC_RULE_OBSERVER; 2377; 2378; 2379;
  2380; 2381 |. SPEC_RULE_OP1; 2386; 2387; 2388 |. SPEC_RULE_OP1; 2393 |. SPEC_RULE_OP1 |. SPEC_RULE_OP2; 2418;
  2419 |. SPEC_RULE_OP1; 2424; 2425; 2426; 2427; 2428; 2429; 2430; 2431;
  2432 |. SPEC_RULE_OP1 |. SPEC_RULE_OP2; 2457; 2458; 2459; 2460 |. SPEC_RULE_OP2; 2465; 2466 |. SPEC_RULE_OP1;
  2471 |. SPEC_RULE_OP1; 2476 |. SPEC_RULE_OP1; 2481 |. SPEC_RULE_OP1; 2486 |. SPEC_RULE_OP1; 2491;
  2492 |. SPEC_RULE_OP1; 2497 |. SPEC_RULE_OP1 |. SPEC_RULE_OP2; 2522 |. SPEC_RULE_OP1;
  2527 |. SPEC_RULE_OP1 |. SPEC_RULE_OP2; 2552 |. SPEC_RULE_OP1; 2557 |. SPEC_RULE_OP1; 2562; 2563; 2564; 2565;
  2566; 2567 |. SPEC_RULE_OBSERVER; 2569 |. SPEC_RULE_OBSERVER; 2571 |. SPEC_RULE_OBSERVER;
  2573 |. SPEC_RULE_OBSERVER; 2575; 2576; 2577; 3493; 3493; 3493; 3493; 3493; 3493; 3493; 3493; 3493; 3493;
  3493; 3493; 3493; 3493; 3493; 3493; 3493; 3493; 3493; 3493; 3493; 3493; 3493; 3493; 3493; 3493; 3493; 3493;
  3493; 3493; 3493; 3493; 3493; 3493; 3493; 3493; 3493; 3493; 3493; 3493; 3493; 3493; 3493; 3493; 3493])%spec.
Definition specs : list Z := specs_low ++ specs_high.

Definition labels_NOP : list label := [
  L T_NOP AN AN plain].

Definition labels_ADD : list label := [
  L T_ADD CO CO plain; L T_ADD CO TVC plain; L T_ADD CO TVC plain; NULL; L T_ADD CO TVC plain;
  L T_ADD TVC CO plain; L T_ADD TVC TVC plain; L T_ADD TVC TVC plain; NULL; L T_ADD TVC TVC plain;
  L T_ADD TVC CO plain; L T_ADD TVC TVC plain; L T_ADD TVC TVC plain; NULL; L T_ADD TVC TVC plain; NULL;
  NULL; NULL; NULL; NULL; L T_ADD TVC CO plain; L T_ADD TVC TVC plain; L T_ADD TVC TVC plain; NULL;
  L T_ADD TVC TVC plain].

Definition labels_SUB : list label := [
  L T_SUB CO CO plain; L T_SUB CO TVC plain; L T_SUB CO TVC plain; NULL; L T_SUB CO TVC plain;
  L T_SUB TVC CO plain; L T_SUB TVC TVC plain; L T_SUB TVC TVC plain; NULL; L T_SUB TVC TVC plain;
  L T_SUB TVC CO plain; L T_SUB TVC TVC plain; L T_SUB TVC TVC plain; NULL; L T_SUB TVC TVC plain; NULL;
  NULL; NULL; NULL; NULL; L T_SUB TVC CO plain; L T_SUB TVC TVC plain; L T_SUB TVC TVC plain; NULL;
  L T_SUB TVC TVC plain].

Definition labels_MUL : list label := [
  L T_MUL CO CO plain; NULL; NULL; NULL; NULL; L T_MUL TVC CO plain; L T_MUL TVC TVC plain;
  L T_MUL TVC TVC plain; NULL; L T_MUL TVC TVC plain; L T_MUL TVC CO plain; L T_MUL TVC TVC plain;
  L T_MUL TVC TVC plain; NULL; L T_MUL TVC TVC plain; NULL; NULL; NULL; NULL; NULL; L T_MUL TVC CO plain;
  L T_MUL TVC TVC plain; L T_MUL TVC TVC plain; NULL; L T_MUL TVC TVC plain].

Definition labels_DIV : list label := [
  L T_DIV CO CO plain; L T_DIV CO TV plain; L T_DIV CO TV plain; NULL; L T_DIV CO CV plain;
  L T_DIV TV CO plain; L T_DIV TV TV plain; L T_DIV TV TV plain; NULL; L T_DIV TV CV plain;
  L T_DIV TV CO plain; L T_DIV TV TV plain; L T_DIV TV TV plain; NULL; L T_DIV TV CV plain; NULL; NULL; NULL;
  NULL; NULL; L T_DIV CV CO plain; L T_DIV CV TV plain; L T_DIV CV TV plain; NULL; L T_DIV CV CV plain].

Definition labels_MOD : list label := [
  L T_MOD CO CO plain; L T_MOD CO TVC plain; L T_MOD CO TVC plain; NULL; L T_MOD CO TVC plain;
  L T_MOD TVC CO plain; L T_MOD TVC TVC plain; L T_MOD TVC TVC plain; NULL; L T_MOD TVC TVC plain;
  L T_MOD TVC CO plain; L T_MOD TVC TVC plain; L T_MOD TVC TVC plain; NULL; L T_MOD TVC TVC plain; NULL;
  NULL; NULL; NULL; NULL; L T_MOD TVC CO plain; L T_MOD TVC TVC plain; L T_MOD TVC TVC plain; NULL;
  L T_MOD TVC TVC plain].

Definition labels_SL : list label := [
  L T_SL CO CO plain; L T_SL CO TVC plain; L T_SL CO TVC plain; NULL; L T_SL CO TVC plain;
  L T_SL TVC CO plain; L T_SL TVC TVC plain; L T_SL TVC TVC plain; NULL; L T_SL TVC TVC plain;
  L T_SL TVC CO plain; L T_SL TVC TVC plain; L T_SL TVC TVC plain; NULL; L T_SL TVC TVC plain; NULL; NULL;
  NULL; NULL; NULL; L T_SL TVC CO plain; L T_SL TVC TVC plain; L T_SL TVC TVC plain; NULL;
  L T_SL TVC TVC plain].

Definition labels_SR : list label := [
  L T_SR CO CO plain; L T_SR CO TVC plain; L T_SR CO TVC plain; NULL; L T_SR CO TVC plain;
  L T_SR TVC CO plain; L T_SR TVC TVC plain; L T_SR TVC TVC plain; NULL; L T_SR TVC TVC plain;
  L T_SR TVC CO plain; L T_SR TVC TVC plain; L T_SR TVC TVC plain; NULL; L T_SR TVC TVC plain; NULL; NULL;
  NULL; NULL; NULL; L T_SR TVC CO plain; L T_SR TVC TVC plain; L T_SR TVC TVC plain; NULL;
  L T_SR TVC TVC plain].

Definition labels_BW_OR : list label := [
  L T_BW_OR CO CO plain; NULL; NULL; NULL; NULL; L T_BW_OR TVC CO plain; L T_BW_OR TVC TVC plain;
  L T_BW_OR TVC TVC plain; NULL; L T_BW_OR TVC TVC plain; L T_BW_OR TVC CO plain; L T_BW_OR TVC TVC plain;
  L T_BW_OR TVC TVC plain; NULL; L T_BW_OR TVC TVC plain; NULL; NULL; NULL; NULL; NULL;
  L T_BW_OR TVC CO plain; L T_BW_OR TVC TVC plain; L T_BW_OR TVC TVC plain; NULL; L T_BW_OR TVC TVC plain].

Definition labels_BW_AND : list label := [
  L T_BW_AND CO CO plain; NULL; NULL; NULL; NULL; L T_BW_AND TVC CO plain; L T_BW_AND TVC TVC plain;
  L T_BW_AND TVC TVC plain; NULL; L T_BW_AND TVC TVC plain; L T_BW_AND TVC CO plain;
  L T_BW_AND TVC TVC plain; L T_BW_AND TVC TVC plain; NULL; L T_BW_AND TVC TVC plain; NULL; NULL; NULL; NULL;
  NULL; L T_BW_AND TVC CO plain; L T_BW_AND TVC TVC plain; L T_BW_AND TVC TVC plain; NULL;
  L T_BW_AND TVC TVC plain].

Definition labels_BW_XOR : list label := [
  L T_BW_XOR CO CO plain; NULL; NULL; NULL; NULL; L T_BW_XOR TVC CO plain; L T_BW_XOR TVC TVC plain;
  L T_BW_XOR TVC TVC plain; NULL; L T_BW_XOR TVC TVC plain; L T_BW_XOR TVC CO plain;
  L T_BW_XOR TVC TVC plain; L T_BW_XOR TVC TVC plain; NULL; L T_BW_XOR TVC TVC plain; NULL; NULL; NULL; NULL;
  NULL; L T_BW_XOR TVC CO plain; L T_BW_XOR TVC TVC plain; L T_BW_XOR TVC TVC plain; NULL;
  L T_BW_XOR TVC TVC plain].

Definition labels_POW : list label := [
  L T_POW CO CO plain; L T_POW CO TV plain; L T_POW CO TV plain; NULL; L T_POW CO CV plain;
  L T_POW TV CO plain; L T_POW TV TV plain; L T_POW TV TV plain; NULL; L T_POW TV CV plain;
  L T_POW TV CO plain; L T_POW TV TV plain; L T_POW TV TV plain; NULL; L T_POW TV CV plain; NULL; NULL; NULL;
  NULL; NULL; L T_POW CV CO plain; L T_POW CV TV plain; L T_POW CV TV plain; NULL; L T_POW CV CV plain].

Definition labels_BW_NOT : list label := [
  L T_BW_NOT CO AN plain; L T_BW_NOT TVC AN plain; L T_BW_NOT TVC AN plain; NULL; L T_BW_NOT TVC AN plain].

Definition labels_BOOL_NOT : list label := [
  L T_BOOL_NOT CO AN plain; L T_BOOL_NOT TV AN plain; L T_BOOL_NOT TV AN plain; NULL;
  L T_BOOL_NOT CV AN plain].

Definition labels_BOOL_XOR : list label := [
  L T_BOOL_XOR CO CO plain; NULL; NULL; NULL; NULL; L T_BOOL_XOR TV CO plain; L T_BOOL_XOR TV TV plain;
  L T_BOOL_XOR TV TV plain; NULL; NULL; L T_BOOL_XOR TV CO plain; L T_BOOL_XOR TV TV plain;
  L T_BOOL_XOR TV TV plain; NULL; NULL; NULL; NULL; NULL; NULL; NULL; L T_BOOL_XOR CV CO plain;
  L T_BOOL_XOR CV TV plain; L T_BOOL_XOR CV TV plain; NULL; L T_BOOL_XOR CV CV plain].

Definition labels_IS_IDENTICAL : list label := [
  L T_IS_IDENTICAL CO CO plain; NULL; NULL; NULL; NULL; L T_IS_IDENTICAL TM CO plain;
  L T_IS_IDENTICAL TM TM plain; NULL; NULL; NULL; L T_IS_IDENTICAL VA CO plain; L T_IS_IDENTICAL VA TM plain;
  L T_IS_IDENTICAL VA VA plain; NULL; NULL; NULL; NULL; NULL; NULL; NULL; L T_IS_IDENTICAL CV CO plain;
  L T_IS_IDENTICAL CV TM plain; L T_IS_IDENTICAL CV VA plain; NULL; L T_IS_IDENTICAL CV CV plain].

Definition labels_IS_NOT_IDENTICAL : list label := [
  L T_IS_NOT_IDENTICAL CO CO plain; NULL; NULL; NULL; NULL; L T_IS_NOT_IDENTICAL TM CO plain;
  L T_IS_NOT_IDENTICAL TM TM plain; NULL; NULL; NULL; L T_IS_NOT_IDENTICAL VA CO plain;
  L T_IS_NOT_IDENTICAL VA TM plain; L T_IS_NOT_IDENTICAL VA VA plain; NULL; NULL; NULL; NULL; NULL; NULL;
  NULL; L T_IS_NOT_IDENTICAL CV CO plain; L T_IS_NOT_IDENTICAL CV TM plain; L T_IS_NOT_IDENTICAL CV VA plain;
  NULL; L T_IS_NOT_IDENTICAL CV CV plain].

Definition labels_IS_EQUAL : list label := [
  L T_IS_EQUAL CO CO plain; L T_IS_EQUAL CO CO plain; L T_IS_EQUAL CO CO plain; NULL; NULL; NULL; NULL; NULL;
  NULL; NULL; NULL; NULL; NULL; NULL; NULL; L T_IS_EQUAL TV CO plain; L T_IS_EQUAL TV CO jmpz;
  L T_IS_EQUAL TV CO jmpnz; L T_IS_EQUAL TV TV plain; L T_IS_EQUAL TV TV jmpz; L T_IS_EQUAL TV TV jmpnz;
  L T_IS_EQUAL TV TV plain; L T_IS_EQUAL TV TV jmpz; L T_IS_EQUAL TV TV jmpnz; NULL; NULL; NULL; NULL; NULL;
  NULL; L T_IS_EQUAL TV CO plain; L T_IS_EQUAL TV CO jmpz; L T_IS_EQUAL TV CO jmpnz;
  L T_IS_EQUAL TV TV plain; L T_IS_EQUAL TV TV jmpz; L T_IS_EQUAL TV TV jmpnz; L T_IS_EQUAL TV TV plain;
  L T_IS_EQUAL TV TV jmpz; L T_IS_EQUAL TV TV jmpnz; NULL; NULL; NULL; NULL; NULL; NULL; NULL; NULL; NULL;
  NULL; NULL; NULL; NULL; NULL; NULL; NULL; NULL; NULL; NULL; NULL; NULL; L T_IS_EQUAL CV CO plain;
  L T_IS_EQUAL CV CO jmpz; L T_IS_EQUAL CV CO jmpnz; L T_IS_EQUAL CV TV plain; L T_IS_EQUAL CV TV jmpz;
  L T_IS_EQUAL CV TV jmpnz; L T_IS_EQUAL CV TV plain; L T_IS_EQUAL CV TV jmpz; L T_IS_EQUAL CV TV jmpnz;
  NULL; NULL; NULL; L T_IS_EQUAL CV CV plain; L T_IS_EQUAL CV CV jmpz; L T_IS_EQUAL CV CV jmpnz].

Definition labels_IS_NOT_EQUAL : list label := [
  L T_IS_NOT_EQUAL CO CO plain; L T_IS_NOT_EQUAL CO CO plain; L T_IS_NOT_EQUAL CO CO plain; NULL; NULL; NULL;
  NULL; NULL; NULL; NULL; NULL; NULL; NULL; NULL; NULL; L T_IS_NOT_EQUAL TV CO plain;
  L T_IS_NOT_EQUAL TV CO jmpz; L T_IS_NOT_EQUAL TV CO jmpnz; L T_IS_NOT_EQUAL TV TV plain;
  L T_IS_NOT_EQUAL TV TV jmpz; L T_IS_NOT_EQUAL TV TV jmpnz; L T_IS_NOT_EQUAL TV TV plain;
  L T_IS_NOT_EQUAL TV TV jmpz; L T_IS_NOT_EQUAL TV TV jmpnz; NULL; NULL; NULL; NULL; NULL; NULL;
  L T_IS_NOT_EQUAL TV CO plain; L T_IS_NOT_EQUAL TV CO jmpz; L T_IS_NOT_EQUAL TV CO jmpnz;
  L T_IS_NOT_EQUAL TV TV plain; L T_IS_NOT_EQUAL TV TV jmpz; L T_IS_NOT_EQUAL TV TV jmpnz;
  L T_IS_NOT_EQUAL TV TV plain; L T_IS_NOT_EQUAL TV TV jmpz; L T_IS_NOT_EQUAL TV TV jmpnz; NULL; NULL; NULL;
  NULL; NULL; NULL; NULL; NULL; NULL; NULL; NULL; NULL; NULL; NULL; NULL; NULL; NULL; NULL; NULL; NULL; NULL;
  L T_IS_NOT_EQUAL CV CO plain; L T_IS_NOT_EQUAL CV CO jmpz; L T_IS_NOT_EQUAL CV CO jmpnz;
  L T_IS_NOT_EQUAL CV TV plain; L T_IS_NOT_EQUAL CV TV jmpz; L T_IS_NOT_EQUAL CV TV jmpnz;
  L T_IS_NOT_EQUAL CV TV plain; L T_IS_NOT_EQUAL CV TV jmpz; L T_IS_NOT_EQUAL CV TV jmpnz; NULL; NULL; NULL;
  L T_IS_NOT_EQUAL CV CV plain; L T_IS_NOT_EQUAL CV CV jmpz; L T_IS_NOT_EQUAL CV CV jmpnz].

Definition labels_IS_SMALLER : list label := [
  L T_IS_SMALLER CO CO plain; L T_IS_SMALLER CO CO plain; L T_IS_SMALLER CO CO plain;
  L T_IS_SMALLER CO TVC plain; L T_IS_SMALLER CO TVC jmpz; L T_IS_SMALLER CO TVC jmpnz;
  L T_IS_SMALLER CO TVC plain; L T_IS_SMALLER CO TVC jmpz; L T_IS_SMALLER CO TVC jmpnz; NULL; NULL; NULL;
  L T_IS_SMALLER CO TVC plain; L T_IS_SMALLER CO TVC jmpz; L T_IS_SMALLER CO TVC jmpnz;
  L T_IS_SMALLER TVC CO plain; L T_IS_SMALLER TVC CO jmpz; L T_IS_SMALLER TVC CO jmpnz;
  L T_IS_SMALLER TVC TVC plain; L T_IS_SMALLER TVC TVC jmpz; L T_IS_SMALLER TVC TVC jmpnz;
  L T_IS_SMALLER TVC TVC plain; L T_IS_SMALLER TVC TVC jmpz; L T_IS_SMALLER TVC TVC jmpnz; NULL; NULL; NULL;
  L T_IS_SMALLER TVC TVC plain; L T_IS_SMALLER TVC TVC jmpz; L T_IS_SMALLER TVC TVC jmpnz;
  L T_IS_SMALLER TVC CO plain; L T_IS_SMALLER TVC CO jmpz; L T_IS_SMALLER TVC CO jmpnz;
  L T_IS_SMALLER TVC TVC plain; L T_IS_SMALLER TVC TVC jmpz; L T_IS_SMALLER TVC TVC jmpnz;
  L T_IS_SMALLER TVC TVC plain; L T_IS_SMALLER TVC TVC jmpz; L T_IS_SMALLER TVC TVC jmpnz; NULL; NULL; NULL;
  L T_IS_SMALLER TVC TVC plain; L T_IS_SMALLER TVC TVC jmpz; L T_IS_SMALLER TVC TVC jmpnz; NULL; NULL; NULL;
  NULL; NULL; NULL; NULL; NULL; NULL; NULL; NULL; NULL; NULL; NULL; NULL; L T_IS_SMALLER TVC CO plain;
  L T_IS_SMALLER TVC CO jmpz; L T_IS_SMALLER TVC CO jmpnz; L T_IS_SMALLER TVC TVC plain;
  L T_IS_SMALLER TVC TVC jmpz; L T_IS_SMALLER TVC TVC jmpnz; L T_IS_SMALLER TVC TVC plain;
  L T_IS_SMALLER TVC TVC jmpz; L T_IS_SMALLER TVC TVC jmpnz; NULL; NULL; NULL; L T_IS_SMALLER TVC TVC plain;
  L T_IS_SMALLER TVC TVC jmpz; L T_IS_SMALLER TVC TVC jmpnz].

Definition labels_IS_SMALLER_OR_EQUAL : list label := [
  L T_IS_SMALLER_OR_EQUAL CO CO plain; L T_IS_SMALLER_OR_EQUAL CO CO plain;
  L T_IS_SMALLER_OR_EQUAL CO CO plain; L T_IS_SMALLER_OR_EQUAL CO TVC plain;
  L T_IS_SMALLER_OR_EQUAL CO TVC jmpz; L T_IS_SMALLER_OR_EQUAL CO TVC jmpnz;
  L T_IS_SMALLER_OR_EQUAL CO TVC plain; L T_IS_SMALLER_OR_EQUAL CO TVC jmpz;
  L T_IS_SMALLER_OR_EQUAL CO TVC jmpnz; NULL; NULL; NULL; L T_IS_SMALLER_OR_EQUAL CO TVC plain;
  L T_IS_SMALLER_OR_EQUAL CO TVC jmpz; L T_IS_SMALLER_OR_EQUAL CO TVC jmpnz;
  L T_IS_SMALLER_OR_EQUAL TVC CO plain; L T_IS_SMALLER_OR_EQUAL TVC CO jmpz;
  L T_IS_SMALLER_OR_EQUAL TVC CO jmpnz; L T_IS_SMALLER_OR_EQUAL TVC TVC plain;
  L T_IS_SMALLER_OR_EQUAL TVC TVC jmpz; L T_IS_SMALLER_OR_EQUAL TVC TVC jmpnz;
  L T_IS_SMALLER_OR_EQUAL TVC TVC plain; L T_IS_SMALLER_OR_EQUAL TVC TVC jmpz;
  L T_IS_SMALLER_OR_EQUAL TVC TVC jmpnz; NULL; NULL; NULL; L T_IS_SMALLER_OR_EQUAL TVC TVC plain;
  L T_IS_SMALLER_OR_EQUAL TVC TVC jmpz; L T_IS_SMALLER_OR_EQUAL TVC TVC jmpnz;
  L T_IS_SMALLER_OR_EQUAL TVC CO plain; L T_IS_SMALLER_OR_EQUAL TVC CO jmpz;
  L T_IS_SMALLER_OR_EQUAL TVC CO jmpnz; L T_IS_SMALLER_OR_EQUAL TVC TVC plain;
  L T_IS_SMALLER_OR_EQUAL TVC TVC jmpz; L T_IS_SMALLER_OR_EQUAL TVC TVC jmpnz;
  L T_IS_SMALLER_OR_EQUAL TVC TVC plain; L T_IS_SMALLER_OR_EQUAL TVC TVC jmpz;
  L T_IS_SMALLER_OR_EQUAL TVC TVC jmpnz; NULL; NULL; NULL; L T_IS_SMALLER_OR_EQUAL TVC TVC plain;
  L T_IS_SMALLER_OR_EQUAL TVC TVC jmpz; L T_IS_SMALLER_OR_EQUAL TVC TVC jmpnz; NULL; NULL; NULL; NULL; NULL;
  NULL; NULL; NULL; NULL; NULL; NULL; NULL; NULL; NULL; NULL; L T_IS_SMALLER_OR_EQUAL TVC CO plain;
  L T_IS_SMALLER_OR_EQUAL TVC CO jmpz; L T_IS_SMALLER_OR_EQUAL TVC CO jmpnz;
  L T_IS_SMALLER_OR_EQUAL TVC TVC plain; L T_IS_SMALLER_OR_EQUAL TVC TVC jmpz;
  L T_IS_SMALLER_OR_EQUAL TVC TVC jmpnz; L T_IS_SMALLER_OR_EQUAL TVC TVC plain;
  L T_IS_SMALLER_OR_EQUAL TVC TVC jmpz; L T_IS_SMALLER_OR_EQUAL TVC TVC jmpnz; NULL; NULL; NULL;
  L T_IS_SMALLER_OR_EQUAL TVC TVC plain; L T_IS_SMALLER_OR_EQUAL TVC TVC jmpz;
  L T_IS_SMALLER_OR_EQUAL TVC TVC jmpnz].

Definition labels_QM_ASSIGN : list label := [
  L T_QM_ASSIGN CO AN plain; L T_QM_ASSIGN TM AN plain; L T_QM_ASSIGN VA AN plain; NULL;
  L T_QM_ASSIGN CV AN plain].

Definition labels_PRE_INC : list label := [
  NULL; NULL; NULL; NULL; L T_PRE_INC VA AN unused; L T_PRE_INC VA AN used; NULL; NULL;
  L T_PRE_INC CV AN unused; L T_PRE_INC CV AN used].

Definition labels_PRE_DEC : list label := [
  NULL; NULL; NULL; NULL; L T_PRE_DEC VA AN unused; L T_PRE_DEC VA AN used; NULL; NULL;
  L T_PRE_DEC CV AN unused; L T_PRE_DEC CV AN used].

Definition labels_POST_INC : list label := [
  NULL; NULL; L T_POST_INC VA AN plain; NULL; L T_POST_INC CV AN plain].

Definition labels_POST_DEC : list label := [
  NULL; NULL; L T_POST_DEC VA AN plain; NULL; L T_POST_DEC CV AN plain].

Definition labels_JMP : list label := [
  L T_JMP AN AN plain].

Definition labels_JMPZ : list label := [
  L T_JMPZ CO AN plain; L T_JMPZ TV AN plain; L T_JMPZ TV AN plain; NULL; L T_JMPZ CV AN plain].

Definition labels_JMPNZ : list label := [
  L T_JMPNZ CO AN plain; L T_JMPNZ TV AN plain; L T_JMPNZ TV AN plain; NULL; L T_JMPNZ CV AN plain].

Definition labels_JMPZ_EX : list label := [
  L T_JMPZ_EX CO AN plain; L T_JMPZ_EX TV AN plain; L T_JMPZ_EX TV AN plain; NULL; L T_JMPZ_EX CV AN plain].

Definition labels_JMPNZ_EX : list label := [
  L T_JMPNZ_EX CO AN plain; L T_JMPNZ_EX TV AN plain; L T_JMPNZ_EX TV AN plain; NULL;
  L T_JMPNZ_EX CV AN plain].

Definition labels_CASE : list label := [
  L T_CASE TV CO plain; L T_CASE TV TV plain; L T_CASE TV TV plain; NULL; L T_CASE TV CV plain].

Definition labels_BOOL : list label := [
  L T_BOOL CO AN plain; L T_BOOL TV AN plain; L T_BOOL TV AN plain; NULL; L T_BOOL CV AN plain].

Definition labels_FREE : list label := [
  L T_FREE TV AN plain].

Definition labels_EXT_NOP : list label := [
  L T_EXT_NOP AN AN plain].

Definition labels_JMP_SET : list label := [
  L T_JMP_SET CO AN plain; L T_JMP_SET TM AN plain; L T_JMP_SET VA AN plain; NULL; L T_JMP_SET CV AN plain].

Definition labels_COALESCE : list label := [
  L T_COALESCE CO AN plain; L T_COALESCE TM AN plain; L T_COALESCE VA AN plain; NULL;
  L T_COALESCE CV AN plain].

Definition labels_SPACESHIP : list label := [
  L T_SPACESHIP CO CO plain; L T_SPACESHIP CO TV plain; L T_SPACESHIP CO TV plain; NULL;
  L T_SPACESHIP CO CV plain; L T_SPACESHIP TV CO plain; L T_SPACESHIP TV TV plain; L T_SPACESHIP TV TV plain;
  NULL; L T_SPACESHIP TV CV plain; L T_SPACESHIP TV CO plain; L T_SPACESHIP TV TV plain;
  L T_SPACESHIP TV TV plain; NULL; L T_SPACESHIP TV CV plain; NULL; NULL; NULL; NULL; NULL;
  L T_SPACESHIP CV CO plain; L T_SPACESHIP CV TV plain; L T_SPACESHIP CV TV plain; NULL;
  L T_SPACESHIP CV CV plain].

Definition labels_CASE_STRICT : list label := [
  NULL; NULL; NULL; NULL; NULL; L T_CASE_STRICT TM CO plain; L T_CASE_STRICT TM TM plain;
  L T_CASE_STRICT TM VA plain; NULL; L T_CASE_STRICT TM CV plain; L T_CASE_STRICT VA CO plain;
  L T_CASE_STRICT VA TM plain; L T_CASE_STRICT VA VA plain; NULL; L T_CASE_STRICT VA CV plain; NULL; NULL;
  NULL; NULL; NULL; NULL; NULL; NULL; NULL; NULL].

Definition labels_JMP_FORWARD : list label := [
  L T_JMP_FORWARD AN AN plain].

Definition labels_ADD_LONG_NO_OVERFLOW : list label := [
  NULL; NULL; NULL; NULL; NULL; L T_ADD_LONG_NO_OVERFLOW TVC CO plain;
  L T_ADD_LONG_NO_OVERFLOW TVC TVC plain; L T_ADD_LONG_NO_OVERFLOW TVC TVC plain; NULL;
  L T_ADD_LONG_NO_OVERFLOW TVC TVC plain; L T_ADD_LONG_NO_OVERFLOW TVC CO plain;
  L T_ADD_LONG_NO_OVERFLOW TVC TVC plain; L T_ADD_LONG_NO_OVERFLOW TVC TVC plain; NULL;
  L T_ADD_LONG_NO_OVERFLOW TVC TVC plain; NULL; NULL; NULL; NULL; NULL;
  L T_ADD_LONG_NO_OVERFLOW TVC CO plain; L T_ADD_LONG_NO_OVERFLOW TVC TVC plain;
  L T_ADD_LONG_NO_OVERFLOW TVC TVC plain; NULL; L T_ADD_LONG_NO_OVERFLOW TVC TVC plain].

Definition labels_ADD_LONG : list label := [
  NULL; NULL; NULL; NULL; NULL; L T_ADD_LONG TVC CO plain; L T_ADD_LONG TVC TVC plain;
  L T_ADD_LONG TVC TVC plain; NULL; L T_ADD_LONG TVC TVC plain; L T_ADD_LONG TVC CO plain;
  L T_ADD_LONG TVC TVC plain; L T_ADD_LONG TVC TVC plain; NULL; L T_ADD_LONG TVC TVC plain; NULL; NULL; NULL;
  NULL; NULL; L T_ADD_LONG TVC CO plain; L T_ADD_LONG TVC TVC plain; L T_ADD_LONG TVC TVC plain; NULL;
  L T_ADD_LONG TVC TVC plain].

Definition labels_ADD_DOUBLE : list label := [
  NULL; NULL; NULL; NULL; NULL; L T_ADD_DOUBLE TVC CO plain; L T_ADD_DOUBLE TVC TVC plain;
  L T_ADD_DOUBLE TVC TVC plain; NULL; L T_ADD_DOUBLE TVC TVC plain; L T_ADD_DOUBLE TVC CO plain;
  L T_ADD_DOUBLE TVC TVC plain; L T_ADD_DOUBLE TVC TVC plain; NULL; L T_ADD_DOUBLE TVC TVC plain; NULL; NULL;
  NULL; NULL; NULL; L T_ADD_DOUBLE TVC CO plain; L T_ADD_DOUBLE TVC TVC plain; L T_ADD_DOUBLE TVC TVC plain;
  NULL; L T_ADD_DOUBLE TVC TVC plain].

Definition labels_SUB_LONG_NO_OVERFLOW : list label := [
  NULL; L T_SUB_LONG_NO_OVERFLOW CO TVC plain; L T_SUB_LONG_NO_OVERFLOW CO TVC plain; NULL;
  L T_SUB_LONG_NO_OVERFLOW CO TVC plain; L T_SUB_LONG_NO_OVERFLOW TVC CO plain;
  L T_SUB_LONG_NO_OVERFLOW TVC TVC plain; L T_SUB_LONG_NO_OVERFLOW TVC TVC plain; NULL;
  L T_SUB_LONG_NO_OVERFLOW TVC TVC plain; L T_SUB_LONG_NO_OVERFLOW TVC CO plain;
  L T_SUB_LONG_NO_OVERFLOW TVC TVC plain; L T_SUB_LONG_NO_OVERFLOW TVC TVC plain; NULL;
  L T_SUB_LONG_NO_OVERFLOW TVC TVC plain; NULL; NULL; NULL; NULL; NULL;
  L T_SUB_LONG_NO_OVERFLOW TVC CO plain; L T_SUB_LONG_NO_OVERFLOW TVC TVC plain;
  L T_SUB_LONG_NO_OVERFLOW TVC TVC plain; NULL; L T_SUB_LONG_NO_OVERFLOW TVC TVC plain].

Definition labels_SUB_LONG : list label := [
  NULL; L T_SUB_LONG CO TVC plain; L T_SUB_LONG CO TVC plain; NULL; L T_SUB_LONG CO TVC plain;
  L T_SUB_LONG TVC CO plain; L T_SUB_LONG TVC TVC plain; L T_SUB_LONG TVC TVC plain; NULL;
  L T_SUB_LONG TVC TVC plain; L T_SUB_LONG TVC CO plain; L T_SUB_LONG TVC TVC plain;
  L T_SUB_LONG TVC TVC plain; NULL; L T_SUB_LONG TVC TVC plain; NULL; NULL; NULL; NULL; NULL;
  L T_SUB_LONG TVC CO plain; L T_SUB_LONG TVC TVC plain; L T_SUB_LONG TVC TVC plain; NULL;
  L T_SUB_LONG TVC TVC plain].

Definition labels_SUB_DOUBLE : list label := [
  NULL; L T_SUB_DOUBLE CO TVC plain; L T_SUB_DOUBLE CO TVC plain; NULL; L T_SUB_DOUBLE CO TVC plain;
  L T_SUB_DOUBLE TVC CO plain; L T_SUB_DOUBLE TVC TVC plain; L T_SUB_DOUBLE TVC TVC plain; NULL;
  L T_SUB_DOUBLE TVC TVC plain; L T_SUB_DOUBLE TVC CO plain; L T_SUB_DOUBLE TVC TVC plain;
  L T_SUB_DOUBLE TVC TVC plain; NULL; L T_SUB_DOUBLE TVC TVC plain; NULL; NULL; NULL; NULL; NULL;
  L T_SUB_DOUBLE TVC CO plain; L T_SUB_DOUBLE TVC TVC plain; L T_SUB_DOUBLE TVC TVC plain; NULL;
  L T_SUB_DOUBLE TVC TVC plain].

Definition labels_MUL_LONG_NO_OVERFLOW : list label := [
  NULL; NULL; NULL; NULL; NULL; L T_MUL_LONG_NO_OVERFLOW TVC CO plain;
  L T_MUL_LONG_NO_OVERFLOW TVC TVC plain; L T_MUL_LONG_NO_OVERFLOW TVC TVC plain; NULL;
  L T_MUL_LONG_NO_OVERFLOW TVC TVC plain; L T_MUL_LONG_NO_OVERFLOW TVC CO plain;
  L T_MUL_LONG_NO_OVERFLOW TVC TVC plain; L T_MUL_LONG_NO_OVERFLOW TVC TVC plain; NULL;
  L T_MUL_LONG_NO_OVERFLOW TVC TVC plain; NULL; NULL; NULL; NULL; NULL;
  L T_MUL_LONG_NO_OVERFLOW TVC CO plain; L T_MUL_LONG_NO_OVERFLOW TVC TVC plain;
  L T_MUL_LONG_NO_OVERFLOW TVC TVC plain; NULL; L T_MUL_LONG_NO_OVERFLOW TVC TVC plain].

Definition labels_MUL_LONG : list label := [
  NULL; NULL; NULL; NULL; NULL; L T_MUL_LONG TVC CO plain; L T_MUL_LONG TVC TVC plain;
  L T_MUL_LONG TVC TVC plain; NULL; L T_MUL_LONG TVC TVC plain; L T_MUL_LONG TVC CO plain;
  L T_MUL_LONG TVC TVC plain; L T_MUL_LONG TVC TVC plain; NULL; L T_MUL_LONG TVC TVC plain; NULL; NULL; NULL;
  NULL; NULL; L T_MUL_LONG TVC CO plain; L T_MUL_LONG TVC TVC plain; L T_MUL_LONG TVC TVC plain; NULL;
  L T_MUL_LONG TVC TVC plain].

Definition labels_MUL_DOUBLE : list label := [
  NULL; NULL; NULL; NULL; NULL; L T_MUL_DOUBLE TVC CO plain; L T_MUL_DOUBLE TVC TVC plain;
  L T_MUL_DOUBLE TVC TVC plain; NULL; L T_MUL_DOUBLE TVC TVC plain; L T_MUL_DOUBLE TVC CO plain;
  L T_MUL_DOUBLE TVC TVC plain; L T_MUL_DOUBLE TVC TVC plain; NULL; L T_MUL_DOUBLE TVC TVC plain; NULL; NULL;
  NULL; NULL; NULL; L T_MUL_DOUBLE TVC CO plain; L T_MUL_DOUBLE TVC TVC plain; L T_MUL_DOUBLE TVC TVC plain;
  NULL; L T_MUL_DOUBLE TVC TVC plain].

Definition labels_IS_EQUAL_LONG : list label := [
  NULL; NULL; NULL; NULL; NULL; NULL; NULL; NULL; NULL; NULL; NULL; NULL; NULL; NULL; NULL;
  L T_IS_EQUAL_LONG TVC CO plain; L T_IS_EQUAL_LONG TVC CO jmpz; L T_IS_EQUAL_LONG TVC CO jmpnz;
  L T_IS_EQUAL_LONG TVC TVC plain; L T_IS_EQUAL_LONG TVC TVC jmpz; L T_IS_EQUAL_LONG TVC TVC jmpnz;
  L T_IS_EQUAL_LONG TVC TVC plain; L T_IS_EQUAL_LONG TVC TVC jmpz; L T_IS_EQUAL_LONG TVC TVC jmpnz; NULL;
  NULL; NULL; L T_IS_EQUAL_LONG TVC TVC plain; L T_IS_EQUAL_LONG TVC TVC jmpz;
  L T_IS_EQUAL_LONG TVC TVC jmpnz; L T_IS_EQUAL_LONG TVC CO plain; L T_IS_EQUAL_LONG TVC CO jmpz;
  L T_IS_EQUAL_LONG TVC CO jmpnz; L T_IS_EQUAL_LONG TVC TVC plain; L T_IS_EQUAL_LONG TVC TVC jmpz;
  L T_IS_EQUAL_LONG TVC TVC jmpnz; L T_IS_EQUAL_LONG TVC TVC plain; L T_IS_EQUAL_LONG TVC TVC jmpz;
  L T_IS_EQUAL_LONG TVC TVC jmpnz; NULL; NULL; NULL; L T_IS_EQUAL_LONG TVC TVC plain;
  L T_IS_EQUAL_LONG TVC TVC jmpz; L T_IS_EQUAL_LONG TVC TVC jmpnz; NULL; NULL; NULL; NULL; NULL; NULL; NULL;
  NULL; NULL; NULL; NULL; NULL; NULL; NULL; NULL; L T_IS_EQUAL_LONG TVC CO plain;
  L T_IS_EQUAL_LONG TVC CO jmpz; L T_IS_EQUAL_LONG TVC CO jmpnz; L T_IS_EQUAL_LONG TVC TVC plain;
  L T_IS_EQUAL_LONG TVC TVC jmpz; L T_IS_EQUAL_LONG TVC TVC jmpnz; L T_IS_EQUAL_LONG TVC TVC plain;
  L T_IS_EQUAL_LONG TVC TVC jmpz; L T_IS_EQUAL_LONG TVC TVC jmpnz; NULL; NULL; NULL;
  L T_IS_EQUAL_LONG TVC TVC plain; L T_IS_EQUAL_LONG TVC TVC jmpz; L T_IS_EQUAL_LONG TVC TVC jmpnz].

Definition labels_IS_EQUAL_DOUBLE : list label := [
  NULL; NULL; NULL; NULL; NULL; NULL; NULL; NULL; NULL; NULL; NULL; NULL; NULL; NULL; NULL;
  L T_IS_EQUAL_DOUBLE TVC CO plain; L T_IS_EQUAL_DOUBLE TVC CO jmpz; L T_IS_EQUAL_DOUBLE TVC CO jmpnz;
  L T_IS_EQUAL_DOUBLE TVC TVC plain; L T_IS_EQUAL_DOUBLE TVC TVC jmpz; L T_IS_EQUAL_DOUBLE TVC TVC jmpnz;
  L T_IS_EQUAL_DOUBLE TVC TVC plain; L T_IS_EQUAL_DOUBLE TVC TVC jmpz; L T_IS_EQUAL_DOUBLE TVC TVC jmpnz;
  NULL; NULL; NULL; L T_IS_EQUAL_DOUBLE TVC TVC plain; L T_IS_EQUAL_DOUBLE TVC TVC jmpz;
  L T_IS_EQUAL_DOUBLE TVC TVC jmpnz; L T_IS_EQUAL_DOUBLE TVC CO plain; L T_IS_EQUAL_DOUBLE TVC CO jmpz;
  L T_IS_EQUAL_DOUBLE TVC CO jmpnz; L T_IS_EQUAL_DOUBLE TVC TVC plain; L T_IS_EQUAL_DOUBLE TVC TVC jmpz;
  L T_IS_EQUAL_DOUBLE TVC TVC jmpnz; L T_IS_EQUAL_DOUBLE TVC TVC plain; L T_IS_EQUAL_DOUBLE TVC TVC jmpz;
  L T_IS_EQUAL_DOUBLE TVC TVC jmpnz; NULL; NULL; NULL; L T_IS_EQUAL_DOUBLE TVC TVC plain;
  L T_IS_EQUAL_DOUBLE TVC TVC jmpz; L T_IS_EQUAL_DOUBLE TVC TVC jmpnz; NULL; NULL; NULL; NULL; NULL; NULL;
  NULL; NULL; NULL; NULL; NULL; NULL; NULL; NULL; NULL; L T_IS_EQUAL_DOUBLE TVC CO plain;
  L T_IS_EQUAL_DOUBLE TVC CO jmpz; L T_IS_EQUAL_DOUBLE TVC CO jmpnz; L T_IS_EQUAL_DOUBLE TVC TVC plain;
  L T_IS_EQUAL_DOUBLE TVC TVC jmpz; L T_IS_EQUAL_DOUBLE TVC TVC jmpnz; L T_IS_EQUAL_DOUBLE TVC TVC plain;
  L T_IS_EQUAL_DOUBLE TVC TVC jmpz; L T_IS_EQUAL_DOUBLE TVC TVC jmpnz; NULL; NULL; NULL;
  L T_IS_EQUAL_DOUBLE TVC TVC plain; L T_IS_EQUAL_DOUBLE TVC TVC jmpz; L T_IS_EQUAL_DOUBLE TVC TVC jmpnz].

Definition labels_IS_NOT_EQUAL_LONG : list label := [
  NULL; NULL; NULL; NULL; NULL; NULL; NULL; NULL; NULL; NULL; NULL; NULL; NULL; NULL; NULL;
  L T_IS_NOT_EQUAL_LONG TVC CO plain; L T_IS_NOT_EQUAL_LONG TVC CO jmpz; L T_IS_NOT_EQUAL_LONG TVC CO jmpnz;
  L T_IS_NOT_EQUAL_LONG TVC TVC plain; L T_IS_NOT_EQUAL_LONG TVC TVC jmpz;
  L T_IS_NOT_EQUAL_LONG TVC TVC jmpnz; L T_IS_NOT_EQUAL_LONG TVC TVC plain;
  L T_IS_NOT_EQUAL_LONG TVC TVC jmpz; L T_IS_NOT_EQUAL_LONG TVC TVC jmpnz; NULL; NULL; NULL;
  L T_IS_NOT_EQUAL_LONG TVC TVC plain; L T_IS_NOT_EQUAL_LONG TVC TVC jmpz;
  L T_IS_NOT_EQUAL_LONG TVC TVC jmpnz; L T_IS_NOT_EQUAL_LONG TVC CO plain; L T_IS_NOT_EQUAL_LONG TVC CO jmpz;
  L T_IS_NOT_EQUAL_LONG TVC CO jmpnz; L T_IS_NOT_EQUAL_LONG TVC TVC plain;
  L T_IS_NOT_EQUAL_LONG TVC TVC jmpz; L T_IS_NOT_EQUAL_LONG TVC TVC jmpnz;
  L T_IS_NOT_EQUAL_LONG TVC TVC plain; L T_IS_NOT_EQUAL_LONG TVC TVC jmpz;
  L T_IS_NOT_EQUAL_LONG TVC TVC jmpnz; NULL; NULL; NULL; L T_IS_NOT_EQUAL_LONG TVC TVC plain;
  L T_IS_NOT_EQUAL_LONG TVC TVC jmpz; L T_IS_NOT_EQUAL_LONG TVC TVC jmpnz; NULL; NULL; NULL; NULL; NULL;
  NULL; NULL; NULL; NULL; NULL; NULL; NULL; NULL; NULL; NULL; L T_IS_NOT_EQUAL_LONG TVC CO plain;
  L T_IS_NOT_EQUAL_LONG TVC CO jmpz; L T_IS_NOT_EQUAL_LONG TVC CO jmpnz; L T_IS_NOT_EQUAL_LONG TVC TVC plain;
  L T_IS_NOT_EQUAL_LONG TVC TVC jmpz; L T_IS_NOT_EQUAL_LONG TVC TVC jmpnz;
  L T_IS_NOT_EQUAL_LONG TVC TVC plain; L T_IS_NOT_EQUAL_LONG TVC TVC jmpz;
  L T_IS_NOT_EQUAL_LONG TVC TVC jmpnz; NULL; NULL; NULL; L T_IS_NOT_EQUAL_LONG TVC TVC plain;
  L T_IS_NOT_EQUAL_LONG TVC TVC jmpz; L T_IS_NOT_EQUAL_LONG TVC TVC jmpnz].

Definition labels_IS_NOT_EQUAL_DOUBLE : list label := [
  NULL; NULL; NULL; NULL; NULL; NULL; NULL; NULL; NULL; NULL; NULL; NULL; NULL; NULL; NULL;
  L T_IS_NOT_EQUAL_DOUBLE TVC CO plain; L T_IS_NOT_EQUAL_DOUBLE TVC CO jmpz;
  L T_IS_NOT_EQUAL_DOUBLE TVC CO jmpnz; L T_IS_NOT_EQUAL_DOUBLE TVC TVC plain;
  L T_IS_NOT_EQUAL_DOUBLE TVC TVC jmpz; L T_IS_NOT_EQUAL_DOUBLE TVC TVC jmpnz;
  L T_IS_NOT_EQUAL_DOUBLE TVC TVC plain; L T_IS_NOT_EQUAL_DOUBLE TVC TVC jmpz;
  L T_IS_NOT_EQUAL_DOUBLE TVC TVC jmpnz; NULL; NULL; NULL; L T_IS_NOT_EQUAL_DOUBLE TVC TVC plain;
  L T_IS_NOT_EQUAL_DOUBLE TVC TVC jmpz; L T_IS_NOT_EQUAL_DOUBLE TVC TVC jmpnz;
  L T_IS_NOT_EQUAL_DOUBLE TVC CO plain; L T_IS_NOT_EQUAL_DOUBLE TVC CO jmpz;
  L T_IS_NOT_EQUAL_DOUBLE TVC CO jmpnz; L T_IS_NOT_EQUAL_DOUBLE TVC TVC plain;
  L T_IS_NOT_EQUAL_DOUBLE TVC TVC jmpz; L T_IS_NOT_EQUAL_DOUBLE TVC TVC jmpnz;
  L T_IS_NOT_EQUAL_DOUBLE TVC TVC plain; L T_IS_NOT_EQUAL_DOUBLE TVC TVC jmpz;
  L T_IS_NOT_EQUAL_DOUBLE TVC TVC jmpnz; NULL; NULL; NULL; L T_IS_NOT_EQUAL_DOUBLE TVC TVC plain;
  L T_IS_NOT_EQUAL_DOUBLE TVC TVC jmpz; L T_IS_NOT_EQUAL_DOUBLE TVC TVC jmpnz; NULL; NULL; NULL; NULL; NULL;
  NULL; NULL; NULL; NULL; NULL; NULL; NULL; NULL; NULL; NULL; L T_IS_NOT_EQUAL_DOUBLE TVC CO plain;
  L T_IS_NOT_EQUAL_DOUBLE TVC CO jmpz; L T_IS_NOT_EQUAL_DOUBLE TVC CO jmpnz;
  L T_IS_NOT_EQUAL_DOUBLE TVC TVC plain; L T_IS_NOT_EQUAL_DOUBLE TVC TVC jmpz;
  L T_IS_NOT_EQUAL_DOUBLE TVC TVC jmpnz; L T_IS_NOT_EQUAL_DOUBLE TVC TVC plain;
  L T_IS_NOT_EQUAL_DOUBLE TVC TVC jmpz; L T_IS_NOT_EQUAL_DOUBLE TVC TVC jmpnz; NULL; NULL; NULL;
  L T_IS_NOT_EQUAL_DOUBLE TVC TVC plain; L T_IS_NOT_EQUAL_DOUBLE TVC TVC jmpz;
  L T_IS_NOT_EQUAL_DOUBLE TVC TVC jmpnz].

Definition labels_IS_IDENTICAL_EMPTY_ARRAY : list label := [
  L T_IS_IDENTICAL_EMPTY_ARRAY TVC CO plain; L T_IS_IDENTICAL_EMPTY_ARRAY TVC CO jmpz;
  L T_IS_IDENTICAL_EMPTY_ARRAY TVC CO jmpnz].

Definition labels_IS_NOT_IDENTICAL_EMPTY_ARRAY : list label := [
  L T_IS_NOT_IDENTICAL_EMPTY_ARRAY TVC CO plain; L T_IS_NOT_IDENTICAL_EMPTY_ARRAY TVC CO jmpz;
  L T_IS_NOT_IDENTICAL_EMPTY_ARRAY TVC CO jmpnz].

Definition labels_IS_IDENTICAL_NOTHROW : list label := [
  L T_IS_IDENTICAL_NOTHROW CV CO plain; NULL; NULL; NULL; L T_IS_IDENTICAL_NOTHROW CV CV plain].

Definition labels_IS_NOT_IDENTICAL_NOTHROW : list label := [
  L T_IS_NOT_IDENTICAL_NOTHROW CV CO plain; NULL; NULL; NULL; L T_IS_NOT_IDENTICAL_NOTHROW CV CV plain].

Definition labels_IS_SMALLER_LONG : list label := [
  NULL; NULL; NULL; L T_IS_SMALLER_LONG CO TVC plain; L T_IS_SMALLER_LONG CO TVC jmpz;
  L T_IS_SMALLER_LONG CO TVC jmpnz; L T_IS_SMALLER_LONG CO TVC plain; L T_IS_SMALLER_LONG CO TVC jmpz;
  L T_IS_SMALLER_LONG CO TVC jmpnz; NULL; NULL; NULL; L T_IS_SMALLER_LONG CO TVC plain;
  L T_IS_SMALLER_LONG CO TVC jmpz; L T_IS_SMALLER_LONG CO TVC jmpnz; L T_IS_SMALLER_LONG TVC CO plain;
  L T_IS_SMALLER_LONG TVC CO jmpz; L T_IS_SMALLER_LONG TVC CO jmpnz; L T_IS_SMALLER_LONG TVC TVC plain;
  L T_IS_SMALLER_LONG TVC TVC jmpz; L T_IS_SMALLER_LONG TVC TVC jmpnz; L T_IS_SMALLER_LONG TVC TVC plain;
  L T_IS_SMALLER_LONG TVC TVC jmpz; L T_IS_SMALLER_LONG TVC TVC jmpnz; NULL; NULL; NULL;
  L T_IS_SMALLER_LONG TVC TVC plain; L T_IS_SMALLER_LONG TVC TVC jmpz; L T_IS_SMALLER_LONG TVC TVC jmpnz;
  L T_IS_SMALLER_LONG TVC CO plain; L T_IS_SMALLER_LONG TVC CO jmpz; L T_IS_SMALLER_LONG TVC CO jmpnz;
  L T_IS_SMALLER_LONG TVC TVC plain; L T_IS_SMALLER_LONG TVC TVC jmpz; L T_IS_SMALLER_LONG TVC TVC jmpnz;
  L T_IS_SMALLER_LONG TVC TVC plain; L T_IS_SMALLER_LONG TVC TVC jmpz; L T_IS_SMALLER_LONG TVC TVC jmpnz;
  NULL; NULL; NULL; L T_IS_SMALLER_LONG TVC TVC plain; L T_IS_SMALLER_LONG TVC TVC jmpz;
  L T_IS_SMALLER_LONG TVC TVC jmpnz; NULL; NULL; NULL; NULL; NULL; NULL; NULL; NULL; NULL; NULL; NULL; NULL;
  NULL; NULL; NULL; L T_IS_SMALLER_LONG TVC CO plain; L T_IS_SMALLER_LONG TVC CO jmpz;
  L T_IS_SMALLER_LONG TVC CO jmpnz; L T_IS_SMALLER_LONG TVC TVC plain; L T_IS_SMALLER_LONG TVC TVC jmpz;
  L T_IS_SMALLER_LONG TVC TVC jmpnz; L T_IS_SMALLER_LONG TVC TVC plain; L T_IS_SMALLER_LONG TVC TVC jmpz;
  L T_IS_SMALLER_LONG TVC TVC jmpnz; NULL; NULL; NULL; L T_IS_SMALLER_LONG TVC TVC plain;
  L T_IS_SMALLER_LONG TVC TVC jmpz; L T_IS_SMALLER_LONG TVC TVC jmpnz].

Definition labels_IS_SMALLER_DOUBLE : list label := [
  NULL; NULL; NULL; L T_IS_SMALLER_DOUBLE CO TVC plain; L T_IS_SMALLER_DOUBLE CO TVC jmpz;
  L T_IS_SMALLER_DOUBLE CO TVC jmpnz; L T_IS_SMALLER_DOUBLE CO TVC plain; L T_IS_SMALLER_DOUBLE CO TVC jmpz;
  L T_IS_SMALLER_DOUBLE CO TVC jmpnz; NULL; NULL; NULL; L T_IS_SMALLER_DOUBLE CO TVC plain;
  L T_IS_SMALLER_DOUBLE CO TVC jmpz; L T_IS_SMALLER_DOUBLE CO TVC jmpnz; L T_IS_SMALLER_DOUBLE TVC CO plain;
  L T_IS_SMALLER_DOUBLE TVC CO jmpz; L T_IS_SMALLER_DOUBLE TVC CO jmpnz; L T_IS_SMALLER_DOUBLE TVC TVC plain;
  L T_IS_SMALLER_DOUBLE TVC TVC jmpz; L T_IS_SMALLER_DOUBLE TVC TVC jmpnz;
  L T_IS_SMALLER_DOUBLE TVC TVC plain; L T_IS_SMALLER_DOUBLE TVC TVC jmpz;
  L T_IS_SMALLER_DOUBLE TVC TVC jmpnz; NULL; NULL; NULL; L T_IS_SMALLER_DOUBLE TVC TVC plain;
  L T_IS_SMALLER_DOUBLE TVC TVC jmpz; L T_IS_SMALLER_DOUBLE TVC TVC jmpnz;
  L T_IS_SMALLER_DOUBLE TVC CO plain; L T_IS_SMALLER_DOUBLE TVC CO jmpz; L T_IS_SMALLER_DOUBLE TVC CO jmpnz;
  L T_IS_SMALLER_DOUBLE TVC TVC plain; L T_IS_SMALLER_DOUBLE TVC TVC jmpz;
  L T_IS_SMALLER_DOUBLE TVC TVC jmpnz; L T_IS_SMALLER_DOUBLE TVC TVC plain;
  L T_IS_SMALLER_DOUBLE TVC TVC jmpz; L T_IS_SMALLER_DOUBLE TVC TVC jmpnz; NULL; NULL; NULL;
  L T_IS_SMALLER_DOUBLE TVC TVC plain; L T_IS_SMALLER_DOUBLE TVC TVC jmpz;
  L T_IS_SMALLER_DOUBLE TVC TVC jmpnz; NULL; NULL; NULL; NULL; NULL; NULL; NULL; NULL; NULL; NULL; NULL;
  NULL; NULL; NULL; NULL; L T_IS_SMALLER_DOUBLE TVC CO plain; L T_IS_SMALLER_DOUBLE TVC CO jmpz;
  L T_IS_SMALLER_DOUBLE TVC CO jmpnz; L T_IS_SMALLER_DOUBLE TVC TVC plain;
  L T_IS_SMALLER_DOUBLE TVC TVC jmpz; L T_IS_SMALLER_DOUBLE TVC TVC jmpnz;
  L T_IS_SMALLER_DOUBLE TVC TVC plain; L T_IS_SMALLER_DOUBLE TVC TVC jmpz;
  L T_IS_SMALLER_DOUBLE TVC TVC jmpnz; NULL; NULL; NULL; L T_IS_SMALLER_DOUBLE TVC TVC plain;
  L T_IS_SMALLER_DOUBLE TVC TVC jmpz; L T_IS_SMALLER_DOUBLE TVC TVC jmpnz].

Definition labels_IS_SMALLER_OR_EQUAL_LONG : list label := [
  NULL; NULL; NULL; L T_IS_SMALLER_OR_EQUAL_LONG CO TVC plain; L T_IS_SMALLER_OR_EQUAL_LONG CO TVC jmpz;
  L T_IS_SMALLER_OR_EQUAL_LONG CO TVC jmpnz; L T_IS_SMALLER_OR_EQUAL_LONG CO TVC plain;
  L T_IS_SMALLER_OR_EQUAL_LONG CO TVC jmpz; L T_IS_SMALLER_OR_EQUAL_LONG CO TVC jmpnz; NULL; NULL; NULL;
  L T_IS_SMALLER_OR_EQUAL_LONG CO TVC plain; L T_IS_SMALLER_OR_EQUAL_LONG CO TVC jmpz;
  L T_IS_SMALLER_OR_EQUAL_LONG CO TVC jmpnz; L T_IS_SMALLER_OR_EQUAL_LONG TVC CO plain;
  L T_IS_SMALLER_OR_EQUAL_LONG TVC CO jmpz; L T_IS_SMALLER_OR_EQUAL_LONG TVC CO jmpnz;
  L T_IS_SMALLER_OR_EQUAL_LONG TVC TVC plain; L T_IS_SMALLER_OR_EQUAL_LONG TVC TVC jmpz;
  L T_IS_SMALLER_OR_EQUAL_LONG TVC TVC jmpnz; L T_IS_SMALLER_OR_EQUAL_LONG TVC TVC plain;
  L T_IS_SMALLER_OR_EQUAL_LONG TVC TVC jmpz; L T_IS_SMALLER_OR_EQUAL_LONG TVC TVC jmpnz; NULL; NULL; NULL;
  L T_IS_SMALLER_OR_EQUAL_LONG TVC TVC plain; L T_IS_SMALLER_OR_EQUAL_LONG TVC TVC jmpz;
  L T_IS_SMALLER_OR_EQUAL_LONG TVC TVC jmpnz; L T_IS_SMALLER_OR_EQUAL_LONG TVC CO plain;
  L T_IS_SMALLER_OR_EQUAL_LONG TVC CO jmpz; L T_IS_SMALLER_OR_EQUAL_LONG TVC CO jmpnz;
  L T_IS_SMALLER_OR_EQUAL_LONG TVC TVC plain; L T_IS_SMALLER_OR_EQUAL_LONG TVC TVC jmpz;
  L T_IS_SMALLER_OR_EQUAL_LONG TVC TVC jmpnz; L T_IS_SMALLER_OR_EQUAL_LONG TVC TVC plain;
  L T_IS_SMALLER_OR_EQUAL_LONG TVC TVC jmpz; L T_IS_SMALLER_OR_EQUAL_LONG TVC TVC jmpnz; NULL; NULL; NULL;
  L T_IS_SMALLER_OR_EQUAL_LONG TVC TVC plain; L T_IS_SMALLER_OR_EQUAL_LONG TVC TVC jmpz;
  L T_IS_SMALLER_OR_EQUAL_LONG TVC TVC jmpnz; NULL; NULL; NULL; NULL; NULL; NULL; NULL; NULL; NULL; NULL;
  NULL; NULL; NULL; NULL; NULL; L T_IS_SMALLER_OR_EQUAL_LONG TVC CO plain;
  L T_IS_SMALLER_OR_EQUAL_LONG TVC CO jmpz; L T_IS_SMALLER_OR_EQUAL_LONG TVC CO jmpnz;
  L T_IS_SMALLER_OR_EQUAL_LONG TVC TVC plain; L T_IS_SMALLER_OR_EQUAL_LONG TVC TVC jmpz;
  L T_IS_SMALLER_OR_EQUAL_LONG TVC TVC jmpnz; L T_IS_SMALLER_OR_EQUAL_LONG TVC TVC plain;
  L T_IS_SMALLER_OR_EQUAL_LONG TVC TVC jmpz; L T_IS_SMALLER_OR_EQUAL_LONG TVC TVC jmpnz; NULL; NULL; NULL;
  L T_IS_SMALLER_OR_EQUAL_LONG TVC TVC plain; L T_IS_SMALLER_OR_EQUAL_LONG TVC TVC jmpz;
  L T_IS_SMALLER_OR_EQUAL_LONG TVC TVC jmpnz].

Definition labels_IS_SMALLER_OR_EQUAL_DOUBLE : list label := [
  NULL; NULL; NULL; L T_IS_SMALLER_OR_EQUAL_DOUBLE CO TVC plain; L T_IS_SMALLER_OR_EQUAL_DOUBLE CO TVC jmpz;
  L T_IS_SMALLER_OR_EQUAL_DOUBLE CO TVC jmpnz; L T_IS_SMALLER_OR_EQUAL_DOUBLE CO TVC plain;
  L T_IS_SMALLER_OR_EQUAL_DOUBLE CO TVC jmpz; L T_IS_SMALLER_OR_EQUAL_DOUBLE CO TVC jmpnz; NULL; NULL; NULL;
  L T_IS_SMALLER_OR_EQUAL_DOUBLE CO TVC plain; L T_IS_SMALLER_OR_EQUAL_DOUBLE CO TVC jmpz;
  L T_IS_SMALLER_OR_EQUAL_DOUBLE CO TVC jmpnz; L T_IS_SMALLER_OR_EQUAL_DOUBLE TVC CO plain;
  L T_IS_SMALLER_OR_EQUAL_DOUBLE TVC CO jmpz; L T_IS_SMALLER_OR_EQUAL_DOUBLE TVC CO jmpnz;
  L T_IS_SMALLER_OR_EQUAL_DOUBLE TVC TVC plain; L T_IS_SMALLER_OR_EQUAL_DOUBLE TVC TVC jmpz;
  L T_IS_SMALLER_OR_EQUAL_DOUBLE TVC TVC jmpnz; L T_IS_SMALLER_OR_EQUAL_DOUBLE TVC TVC plain;
  L T_IS_SMALLER_OR_EQUAL_DOUBLE TVC TVC jmpz; L T_IS_SMALLER_OR_EQUAL_DOUBLE TVC TVC jmpnz; NULL; NULL;
  NULL; L T_IS_SMALLER_OR_EQUAL_DOUBLE TVC TVC plain; L T_IS_SMALLER_OR_EQUAL_DOUBLE TVC TVC jmpz;
  L T_IS_SMALLER_OR_EQUAL_DOUBLE TVC TVC jmpnz; L T_IS_SMALLER_OR_EQUAL_DOUBLE TVC CO plain;
  L T_IS_SMALLER_OR_EQUAL_DOUBLE TVC CO jmpz; L T_IS_SMALLER_OR_EQUAL_DOUBLE TVC CO jmpnz;
  L T_IS_SMALLER_OR_EQUAL_DOUBLE TVC TVC plain; L T_IS_SMALLER_OR_EQUAL_DOUBLE TVC TVC jmpz;
  L T_IS_SMALLER_OR_EQUAL_DOUBLE TVC TVC jmpnz; L T_IS_SMALLER_OR_EQUAL_DOUBLE TVC TVC plain;
  L T_IS_SMALLER_OR_EQUAL_DOUBLE TVC TVC jmpz; L T_IS_SMALLER_OR_EQUAL_DOUBLE TVC TVC jmpnz; NULL; NULL;
  NULL; L T_IS_SMALLER_OR_EQUAL_DOUBLE TVC TVC plain; L T_IS_SMALLER_OR_EQUAL_DOUBLE TVC TVC jmpz;
  L T_IS_SMALLER_OR_EQUAL_DOUBLE TVC TVC jmpnz; NULL; NULL; NULL; NULL; NULL; NULL; NULL; NULL; NULL; NULL;
  NULL; NULL; NULL; NULL; NULL; L T_IS_SMALLER_OR_EQUAL_DOUBLE TVC CO plain;
  L T_IS_SMALLER_OR_EQUAL_DOUBLE TVC CO jmpz; L T_IS_SMALLER_OR_EQUAL_DOUBLE TVC CO jmpnz;
  L T_IS_SMALLER_OR_EQUAL_DOUBLE TVC TVC plain; L T_IS_SMALLER_OR_EQUAL_DOUBLE TVC TVC jmpz;
  L T_IS_SMALLER_OR_EQUAL_DOUBLE TVC TVC jmpnz; L T_IS_SMALLER_OR_EQUAL_DOUBLE TVC TVC plain;
  L T_IS_SMALLER_OR_EQUAL_DOUBLE TVC TVC jmpz; L T_IS_SMALLER_OR_EQUAL_DOUBLE TVC TVC jmpnz; NULL; NULL;
  NULL; L T_IS_SMALLER_OR_EQUAL_DOUBLE TVC TVC plain; L T_IS_SMALLER_OR_EQUAL_DOUBLE TVC TVC jmpz;
  L T_IS_SMALLER_OR_EQUAL_DOUBLE TVC TVC jmpnz].

Definition labels_PRE_INC_LONG_NO_OVERFLOW : list label := [
  L T_PRE_INC_LONG_NO_OVERFLOW CV AN unused; L T_PRE_INC_LONG_NO_OVERFLOW CV AN used].

Definition labels_PRE_INC_LONG : list label := [
  L T_PRE_INC_LONG CV AN unused; L T_PRE_INC_LONG CV AN used].

Definition labels_PRE_DEC_LONG_NO_OVERFLOW : list label := [
  L T_PRE_DEC_LONG_NO_OVERFLOW CV AN unused; L T_PRE_DEC_LONG_NO_OVERFLOW CV AN used].

Definition labels_PRE_DEC_LONG : list label := [
  L T_PRE_DEC_LONG CV AN unused; L T_PRE_DEC_LONG CV AN used].

Definition labels_POST_INC_LONG_NO_OVERFLOW : list label := [
  L T_POST_INC_LONG_NO_OVERFLOW CV AN plain].

Definition labels_POST_INC_LONG : list label := [
  L T_POST_INC_LONG CV AN plain].

Definition labels_POST_DEC_LONG_NO_OVERFLOW : list label := [
  L T_POST_DEC_LONG_NO_OVERFLOW CV AN plain].

Definition labels_POST_DEC_LONG : list label := [
  L T_POST_DEC_LONG CV AN plain].

Definition labels_QM_ASSIGN_LONG : list label := [
  L T_QM_ASSIGN_LONG CO AN plain; L T_QM_ASSIGN_LONG TVC AN plain; L T_QM_ASSIGN_LONG TVC AN plain; NULL;
  L T_QM_ASSIGN_LONG TVC AN plain].

Definition labels_QM_ASSIGN_DOUBLE : list label := [
  L T_QM_ASSIGN_DOUBLE CO AN plain; L T_QM_ASSIGN_DOUBLE TVC AN plain; L T_QM_ASSIGN_DOUBLE TVC AN plain;
  NULL; L T_QM_ASSIGN_DOUBLE TVC AN plain].

Definition labels_QM_ASSIGN_NOREF : list label := [
  L T_QM_ASSIGN_NOREF CO AN plain; L T_QM_ASSIGN_NOREF TVC AN plain; L T_QM_ASSIGN_NOREF TVC AN plain; NULL;
  L T_QM_ASSIGN_NOREF TVC AN plain].

(** The blocks of the table with the number of their first entry. *)
Definition blocks : list (Z * list label) := [
  (0, labels_NOP); (1, labels_ADD); (26, labels_SUB); (51, labels_MUL); (76, labels_DIV); (101, labels_MOD);
  (126, labels_SL); (151, labels_SR); (201, labels_BW_OR); (226, labels_BW_AND); (251, labels_BW_XOR);
  (276, labels_POW); (301, labels_BW_NOT); (306, labels_BOOL_NOT); (311, labels_BOOL_XOR);
  (336, labels_IS_IDENTICAL); (361, labels_IS_NOT_IDENTICAL); (386, labels_IS_EQUAL);
  (461, labels_IS_NOT_EQUAL); (536, labels_IS_SMALLER); (611, labels_IS_SMALLER_OR_EQUAL);
  (1092, labels_QM_ASSIGN); (1223, labels_PRE_INC); (1233, labels_PRE_DEC); (1243, labels_POST_INC);
  (1248, labels_POST_DEC); (1255, labels_JMP); (1256, labels_JMPZ); (1261, labels_JMPNZ);
  (1266, labels_JMPZ_EX); (1271, labels_JMPNZ_EX); (1276, labels_CASE); (1297, labels_BOOL);
  (1468, labels_FREE); (1959, labels_EXT_NOP); (2320, labels_JMP_SET); (2388, labels_COALESCE);
  (2393, labels_SPACESHIP); (2527, labels_CASE_STRICT); (2585, labels_JMP_FORWARD);
  (2586, labels_ADD_LONG_NO_OVERFLOW); (2611, labels_ADD_LONG); (2636, labels_ADD_DOUBLE);
  (2661, labels_SUB_LONG_NO_OVERFLOW); (2686, labels_SUB_LONG); (2711, labels_SUB_DOUBLE);
  (2736, labels_MUL_LONG_NO_OVERFLOW); (2761, labels_MUL_LONG); (2786, labels_MUL_DOUBLE);
  (2811, labels_IS_EQUAL_LONG); (2886, labels_IS_EQUAL_DOUBLE); (2961, labels_IS_NOT_EQUAL_LONG);
  (3036, labels_IS_NOT_EQUAL_DOUBLE); (3111, labels_IS_IDENTICAL_EMPTY_ARRAY);
  (3114, labels_IS_NOT_IDENTICAL_EMPTY_ARRAY); (3117, labels_IS_IDENTICAL_NOTHROW);
  (3122, labels_IS_NOT_IDENTICAL_NOTHROW); (3127, labels_IS_SMALLER_LONG); (3202, labels_IS_SMALLER_DOUBLE);
  (3277, labels_IS_SMALLER_OR_EQUAL_LONG); (3352, labels_IS_SMALLER_OR_EQUAL_DOUBLE);
  (3427, labels_PRE_INC_LONG_NO_OVERFLOW); (3429, labels_PRE_INC_LONG);
  (3431, labels_PRE_DEC_LONG_NO_OVERFLOW); (3433, labels_PRE_DEC_LONG);
  (3435, labels_POST_INC_LONG_NO_OVERFLOW); (3436, labels_POST_INC_LONG);
  (3437, labels_POST_DEC_LONG_NO_OVERFLOW); (3438, labels_POST_DEC_LONG); (3439, labels_QM_ASSIGN_LONG);
  (3444, labels_QM_ASSIGN_DOUBLE); (3449, labels_QM_ASSIGN_NOREF)].

Definition zend_handlers_count : Z := 3494.

Fixpoint find_label (bs : list (Z * list label)) (i : Z) : option label :=
  match bs with
  | [] => None
  | (start, ls) :: bs => if (start <=? i) && (i <? start + Z.of_nat (length ls)) then ls !! Z.to_nat (i - start) else find_label bs i
  end.
(** [zend_opcode_handlers[i]]. *)
Definition zend_opcode_handlers (i : Z) : option label := find_label blocks i.

End Labels.
Export Labels.
