(* ===== verification/ZendVmSpec.v ===== *)
(** * Choosing a handler (Zend/zend_vm_execute.h)

    The engine chooses the handler of an instruction once, from the kinds of its
    operands and, when the optimiser knows them, from their types; on the way it may
    exchange the operands. The theorems show that the entry it finds in the table is a
    handler generated for those kinds, and that the chosen handler does what the
    general handler of the instruction does. [zend_swap_operands], the numbers of the
    kinds and the behaviour of the control macros are parameters with named laws. *)

From S2P Require Import Prelude ZendTypes ZendArith ZendString Engine ZendAssign ZendConvert ZendFrames ZendSsa ZendVm ZendVmLabels.
From Stdlib Require Import SpecFloat.
Import TypeHint Binary64 LongOps SignedMultiply.

Module Spec.

(** The opcodes (zend_vm_opcodes.h). *)
Definition OP_NOP : Z := 0.
Definition OP_ADD : Z := 1.
Definition OP_SUB : Z := 2.
Definition OP_MUL : Z := 3.
Definition OP_DIV : Z := 4.
Definition OP_MOD : Z := 5.
Definition OP_SL : Z := 6.
Definition OP_SR : Z := 7.
Definition OP_CONCAT : Z := 8.
Definition OP_BW_OR : Z := 9.
Definition OP_BW_AND : Z := 10.
Definition OP_BW_XOR : Z := 11.
Definition OP_POW : Z := 12.
Definition OP_BW_NOT : Z := 13.
Definition OP_BOOL_NOT : Z := 14.
Definition OP_BOOL_XOR : Z := 15.
Definition OP_IS_IDENTICAL : Z := 16.
Definition OP_IS_NOT_IDENTICAL : Z := 17.
Definition OP_IS_EQUAL : Z := 18.
Definition OP_IS_NOT_EQUAL : Z := 19.
Definition OP_IS_SMALLER : Z := 20.
Definition OP_IS_SMALLER_OR_EQUAL : Z := 21.
Definition OP_QM_ASSIGN : Z := 31.
Definition OP_PRE_INC : Z := 34.
Definition OP_PRE_DEC : Z := 35.
Definition OP_POST_INC : Z := 36.
Definition OP_POST_DEC : Z := 37.
Definition OP_JMP : Z := 42.
Definition OP_JMPZ : Z := 43.
Definition OP_JMPNZ : Z := 44.
Definition OP_JMPZ_EX : Z := 46.
Definition OP_JMPNZ_EX : Z := 47.
Definition OP_CASE : Z := 48.
Definition OP_BOOL : Z := 52.
Definition OP_INIT_FCALL : Z := 61.
Definition OP_RECV : Z := 63.
Definition OP_SEND_VAL : Z := 65.
Definition OP_SEND_VAR_EX : Z := 66.
Definition OP_FREE : Z := 70.
Definition OP_FE_FETCH_R : Z := 78.
Definition OP_FETCH_DIM_R : Z := 81.
Definition OP_EXT_NOP : Z := 104.
Definition OP_SEND_VAL_EX : Z := 116.
Definition OP_SEND_VAR : Z := 117.
Definition OP_USER_OPCODE : Z := 150.
Definition OP_JMP_SET : Z := 152.
Definition OP_COALESCE : Z := 169.
Definition OP_SPACESHIP : Z := 170.
Definition OP_COUNT : Z := 190.
Definition OP_CASE_STRICT : Z := 196.

Definition MAY_BE_UNDEF : Z := MAY_BE IS_UNDEF.
Definition MAY_BE_NULL : Z := MAY_BE IS_NULL.
Definition MAY_BE_FALSE : Z := MAY_BE IS_FALSE.
Definition MAY_BE_TRUE : Z := MAY_BE IS_TRUE.
Definition MAY_BE_LONG : Z := MAY_BE IS_LONG.
Definition MAY_BE_DOUBLE : Z := MAY_BE IS_DOUBLE.
Definition MAY_BE_STRING : Z := MAY_BE IS_STRING.
Definition MAY_BE_ARRAY : Z := MAY_BE IS_ARRAY.
Definition MAY_BE_OBJECT : Z := MAY_BE IS_OBJECT.
Definition MAY_BE_RESOURCE : Z := MAY_BE IS_RESOURCE.
Definition MAY_BE_REF : Z := MAY_BE IS_REFERENCE.
Definition MAX_ARG_FLAG_NUM : Z := 12.
Definition ZEND_ISEMPTY : Z := Z.shiftl 1 0.

Section selection.
(** The numbers of the operand kinds, whether observers are installed, the exchange of
    the operands, and the opcodes that user handlers replace. *)
Context (_CONST_CODE _TMP_CODE _VAR_CODE _UNUSED_CODE _CV_CODE : Z) (ZEND_OBSERVER_ENABLED : bool)
  (zend_swap_operands : zend_op → zend_op) (zend_user_opcodes : Z → Z).
(** The constants of the code by address, and the elements of an array constant. *)
Context (literals : gmap Z zval) (num_elements : loc → Z).
Implicit Types (op : zend_op) (spec : Z).

Definition zend_vm_decode : list Z :=
  [_UNUSED_CODE; _CONST_CODE; _TMP_CODE; _UNUSED_CODE; _VAR_CODE; _UNUSED_CODE; _UNUSED_CODE; _UNUSED_CODE; _CV_CODE].

Definition has_rule spec (rule : Z) : bool := negb (Z.land spec rule =? 0).
Definition b2z (b : bool) : Z := if b then 1 else 0.

(** [op_data] is the kind of the first operand of the next instruction. *)
Definition zend_vm_get_opcode_handler_idx spec op (op_data : Z) : option Z :=
  offset ← (if has_rule spec SPEC_RULE_OP1 then at_index zend_vm_decode (op1_type op) else Some 0);
  offset ← (if has_rule spec SPEC_RULE_OP2
            then c ← at_index zend_vm_decode (op2_type op); Some (offset * 5 + c) else Some offset);
  offset ←
    (if has_rule spec SPEC_EXTRA_MASK then
       if has_rule spec SPEC_RULE_RETVAL then
         Some (offset * 2 + b2z (negb (result_type op =? Vm.IS_UNUSED))
               + (if has_rule spec SPEC_RULE_OBSERVER && ZEND_OBSERVER_ENABLED then 2 else 0))
       else if has_rule spec SPEC_RULE_QUICK_ARG then Some (offset * 2 + b2z (op2 op <=? MAX_ARG_FLAG_NUM))
       else if has_rule spec SPEC_RULE_OP_DATA then c ← at_index zend_vm_decode op_data; Some (offset * 5 + c)
       else if has_rule spec SPEC_RULE_ISSET then Some (offset * 2 + Z.land (extended_value op) ZEND_ISEMPTY)
       else if has_rule spec SPEC_RULE_SMART_BRANCH then
         Some (offset * 3 +
           (if result_type op =? Z.lor IS_SMART_BRANCH_JMPZ IS_TMP_VAR then 1
            else if result_type op =? Z.lor IS_SMART_BRANCH_JMPNZ IS_TMP_VAR then 2 else 0))
       else if has_rule spec SPEC_RULE_OBSERVER then Some (offset * 2 + b2z ZEND_OBSERVER_ENABLED)
       else Some offset
     else Some offset);
  Some (Z.land spec SPEC_START_MASK + offset).

Definition spec_of (code : Z) : option Z := at_index specs code.
Definition with_handler op (h : Z) : zend_op :=
  ZendOp h (op1 op) (op2 op) (result op) (extended_value op) (lineno op) (opcode op) (op1_type op) (op2_type op) (result_type op).
Definition swap_if op (b : bool) : zend_op := if b then zend_swap_operands op else op.

Definition zend_vm_set_opcode_handler op (op_data : Z) : option zend_op :=
  let code := zend_user_opcodes (opcode op) in
  rules ← spec_of (opcode op);
  let op := swap_if op (has_rule rules SPEC_RULE_COMMUTATIVE && (op1_type op <? op2_type op)) in
  spec ← spec_of code; idx ← zend_vm_get_opcode_handler_idx spec op op_data; Some (with_handler op idx).

(** A constant operand of the instruction at [opline]. *)
Definition constant_of (opline node : Z) : option zval := literals !! RT_CONSTANT opline node.
Definition is_empty_array (opline node : Z) : option bool :=
  z ← constant_of opline node;
  if zval_get_type z =? IS_ARRAY then l ← Z_COUNTED z; Some (num_elements l =? 0) else Some false.

Definition CONST_CONST_ op : bool := (op1_type op =? IS_CONST) && (op2_type op =? IS_CONST).
Definition lacks (info mask : Z) : bool := Z.land info mask =? 0.

Section choose.
Context (opline : Z) (op1_info op2_info res_info : Z).
Local Open Scope spec_scope.

Definition two_longs : bool := (op1_info =? MAY_BE_LONG) && (op2_info =? MAY_BE_LONG).
Definition two_doubles : bool := (op1_info =? MAY_BE_DOUBLE) && (op2_info =? MAY_BE_DOUBLE).

(** The cases of the switch: the operands, perhaps exchanged, and the specialisation, if
    there is one. *)
Definition choose_sum op (no_overflow longs doubles : Z) : zend_op * option Z :=
  let take spec := if CONST_CONST_ op then (op, None) else (swap_if op (op1_type op <? op2_type op), Some spec) in
  if (res_info =? MAY_BE_LONG) && two_longs then take no_overflow
  else if two_longs then take longs
  else if two_doubles then take doubles else (op, None).
Definition choose_difference op (no_overflow longs doubles : Z) : zend_op * option Z :=
  let take spec := if CONST_CONST_ op then (op, None) else (op, Some spec) in
  if (res_info =? MAY_BE_LONG) && two_longs then take no_overflow
  else if two_longs then take longs
  else if two_doubles then take doubles else (op, None).
Definition choose_test op (longs doubles : Z) : zend_op * option Z :=
  let take spec := if CONST_CONST_ op then (op, None) else (op, Some spec) in
  if two_longs then take longs else if two_doubles then take doubles else (op, None).
Definition choose_identity op (longs doubles empty nothrow : Z) : option (zend_op * option Z) :=
  let take spec := if CONST_CONST_ op then (op, None) else (op, Some spec) in
  if two_longs then Some (take longs)
  else if two_doubles then Some (take doubles)
  else
    is_empty ← (if op2_type op =? IS_CONST then is_empty_array opline (op2 op) else Some false);
    Some (if (is_empty : bool) then (op, Some empty)
          else if (op1_type op =? IS_CV) && negb (lacks (op2_type op) (Z.lor IS_CONST IS_CV))
                  && lacks op1_info (Z.lor MAY_BE_UNDEF MAY_BE_REF) && lacks op2_info (Z.lor MAY_BE_UNDEF MAY_BE_REF)
               then (op, Some nothrow) else (op, None)).
Definition choose_step op (no_overflow longs : Z) : zend_op * option Z :=
  if (res_info =? MAY_BE_LONG) && (op1_info =? MAY_BE_LONG) then (op, Some no_overflow)
  else if op1_info =? MAY_BE_LONG then (op, Some longs) else (op, None).
Definition COUNTED_TYPES : Z :=
  Z.lor MAY_BE_ANY MAY_BE_UNDEF - (MAY_BE_NULL |. MAY_BE_FALSE |. MAY_BE_TRUE |. MAY_BE_LONG |. MAY_BE_DOUBLE).
Definition choose_copy op (longs doubles noref : Z) : option (zend_op * option Z) :=
  if op1_info =? MAY_BE_LONG then Some (op, Some longs)
  else if op1_info =? MAY_BE_DOUBLE then Some (op, Some doubles)
  else
    plain ← (if op1_type op =? IS_CONST then z ← constant_of opline (op1 op); Some (negb (Z_REFCOUNTED z))
             else Some (lacks op1_info COUNTED_TYPES));
    Some (op, if (plain : bool) then Some noref else None).
Definition uncounted_constant op : option bool :=
  if op1_type op =? IS_CONST then z ← constant_of opline (op1 op); Some (negb (Z_REFCOUNTED z)) else Some false.

Definition choose op (code : Z) : option (zend_op * option Z) :=
  let op12 := SPEC_RULE_OP1 |. SPEC_RULE_OP2 in
  let smart := op12 |. SPEC_RULE_SMART_BRANCH in
  let swapped := swap_if op (op1_type op <? op2_type op) in
  if code =? OP_ADD then Some (choose_sum op (2586 |. op12 |. SPEC_RULE_COMMUTATIVE)
    (2611 |. op12 |. SPEC_RULE_COMMUTATIVE) (2636 |. op12 |. SPEC_RULE_COMMUTATIVE))
  else if code =? OP_SUB then Some (choose_difference op (2661 |. op12) (2686 |. op12) (2711 |. op12))
  else if code =? OP_MUL then Some (choose_difference swapped (2736 |. op12 |. SPEC_RULE_COMMUTATIVE)
    (2761 |. op12 |. SPEC_RULE_COMMUTATIVE) (2786 |. op12 |. SPEC_RULE_COMMUTATIVE))
  else if code =? OP_IS_IDENTICAL then choose_identity swapped (2811 |. smart |. SPEC_RULE_COMMUTATIVE)
    (2886 |. smart |. SPEC_RULE_COMMUTATIVE) (3111 |. SPEC_RULE_SMART_BRANCH |. SPEC_RULE_COMMUTATIVE)
    (3117 |. SPEC_RULE_OP2 |. SPEC_RULE_COMMUTATIVE)
  else if code =? OP_IS_NOT_IDENTICAL then choose_identity swapped (2961 |. smart |. SPEC_RULE_COMMUTATIVE)
    (3036 |. smart |. SPEC_RULE_COMMUTATIVE) (3114 |. SPEC_RULE_SMART_BRANCH |. SPEC_RULE_COMMUTATIVE)
    (3122 |. SPEC_RULE_OP2 |. SPEC_RULE_COMMUTATIVE)
  else if code =? OP_IS_EQUAL then
    Some (choose_test swapped (2811 |. smart |. SPEC_RULE_COMMUTATIVE) (2886 |. smart |. SPEC_RULE_COMMUTATIVE))
  else if code =? OP_IS_NOT_EQUAL then
    Some (choose_test swapped (2961 |. smart |. SPEC_RULE_COMMUTATIVE) (3036 |. smart |. SPEC_RULE_COMMUTATIVE))
  else if code =? OP_IS_SMALLER then Some (choose_test op (3127 |. smart) (3202 |. smart))
  else if code =? OP_IS_SMALLER_OR_EQUAL then Some (choose_test op (3277 |. smart) (3352 |. smart))
  else if code =? OP_QM_ASSIGN then choose_copy op (3439 |. SPEC_RULE_OP1) (3444 |. SPEC_RULE_OP1) (3449 |. SPEC_RULE_OP1)
  else if code =? OP_PRE_INC then Some (choose_step op (3427 |. SPEC_RULE_RETVAL) (3429 |. SPEC_RULE_RETVAL))
  else if code =? OP_PRE_DEC then Some (choose_step op (3431 |. SPEC_RULE_RETVAL) (3433 |. SPEC_RULE_RETVAL))
  else if code =? OP_POST_INC then Some (choose_step op 3435 3436)
  else if code =? OP_POST_DEC then Some (choose_step op 3437 3438)
  else if code =? OP_JMP then Some (op, if opline <? OP_JMP_ADDR opline (op1 op) then Some 2585 else None)
  else if code =? OP_INIT_FCALL then
    z ← constant_of opline (op2 op); Some (op, if negb (Z_EXTRA z =? 0) then Some 2578 else None)
  else if code =? OP_RECV then Some (op, if op2 op =? MAY_BE_ANY then Some 2579 else None)
  else if code =? OP_SEND_VAL then
    c ← uncounted_constant op; Some (op, if (op2_type op =? Vm.IS_UNUSED) && (c : bool) then Some 3489 else None)
  else if code =? OP_SEND_VAR_EX then
    Some (op, if (op2_type op =? Vm.IS_UNUSED) && (op2 op <=? MAX_ARG_FLAG_NUM) && lacks op1_info (MAY_BE_UNDEF |. MAY_BE_REF)
              then Some (3484 |. SPEC_RULE_OP1) else None)
  else if code =? OP_FE_FETCH_R then
    Some (op, if (op2_type op =? IS_CV) && (Z.land op1_info (MAY_BE_ANY |. MAY_BE_REF) =? MAY_BE_ARRAY)
              then Some (3491 |. SPEC_RULE_RETVAL) else None)
  else if code =? OP_FETCH_DIM_R then
    Some (op, if lacks op2_info (MAY_BE_UNDEF |. MAY_BE_NULL |. MAY_BE_STRING |. MAY_BE_ARRAY |. MAY_BE_OBJECT
                                 |. MAY_BE_RESOURCE |. MAY_BE_REF)
              then if CONST_CONST_ op then None else Some (3454 |. op12) else None)
  else if code =? OP_SEND_VAL_EX then
    c ← uncounted_constant op;
    Some (op, if (op2_type op =? Vm.IS_UNUSED) && (op2 op <=? MAX_ARG_FLAG_NUM) && (c : bool) then Some 3490 else None)
  else if code =? OP_SEND_VAR then
    Some (op, if (op2_type op =? Vm.IS_UNUSED) && lacks op1_info (MAY_BE_UNDEF |. MAY_BE_REF)
              then Some (3479 |. SPEC_RULE_OP1) else None)
  else if code =? OP_COUNT then
    Some (op, if Z.land op1_info (MAY_BE_ANY |. MAY_BE_UNDEF |. MAY_BE_REF) =? MAY_BE_ARRAY
              then Some (2580 |. SPEC_RULE_OP1) else None)
  else if (code =? OP_BW_OR) || (code =? OP_BW_AND) || (code =? OP_BW_XOR) || (code =? OP_BOOL_XOR) then Some (swapped, None)
  else if code =? OP_USER_OPCODE then
    rules ← spec_of (opcode op);
    Some (swap_if op (has_rule rules SPEC_RULE_COMMUTATIVE && (op1_type op <? op2_type op)), None)
  else Some (op, None).

Definition zend_vm_set_opcode_handler_ex op (op_data : Z) : option zend_op :=
  let code := zend_user_opcodes (opcode op) in
  default ← spec_of code; '(op, chosen) ← choose op code;
  idx ← zend_vm_get_opcode_handler_idx (from_option id default chosen) op op_data; Some (with_handler op idx).
End choose.
End selection.

(** The handler of the template that a table entry names. *)
Section run.
Context {E : Type} {engine : ZendEngine E} {library : VmLibrary E} {macros : VmMacros E}.
Context (literals : gmap Z zval) (br : branch).

Definition run_template (t : template) (op : zend_op) : M (vst E) () :=
  match t with
  | T_NOP => ZEND_NOP op
  | T_ADD => ZEND_ADD literals op
  | T_SUB => ZEND_SUB literals op
  | T_MUL => ZEND_MUL literals op
  | T_DIV => ZEND_DIV literals op
  | T_MOD => ZEND_MOD literals op
  | T_SL => ZEND_SL literals op
  | T_SR => ZEND_SR literals op
  | T_BW_OR => ZEND_BW_OR literals op
  | T_BW_AND => ZEND_BW_AND literals op
  | T_BW_XOR => ZEND_BW_XOR literals op
  | T_POW => ZEND_POW literals op
  | T_BW_NOT => ZEND_BW_NOT literals op
  | T_BOOL_NOT => ZEND_BOOL_NOT literals op
  | T_BOOL_XOR => ZEND_BOOL_XOR literals op
  | T_IS_IDENTICAL => ZEND_IS_IDENTICAL literals br op
  | T_IS_NOT_IDENTICAL => ZEND_IS_NOT_IDENTICAL literals br op
  | T_IS_EQUAL => ZEND_IS_EQUAL literals br op
  | T_IS_NOT_EQUAL => ZEND_IS_NOT_EQUAL literals br op
  | T_IS_SMALLER => ZEND_IS_SMALLER literals br op
  | T_IS_SMALLER_OR_EQUAL => ZEND_IS_SMALLER_OR_EQUAL literals br op
  | T_QM_ASSIGN => ZEND_QM_ASSIGN literals op
  | T_PRE_INC => ZEND_PRE_INC literals op
  | T_PRE_DEC => ZEND_PRE_DEC literals op
  | T_POST_INC => ZEND_POST_INC literals op
  | T_POST_DEC => ZEND_POST_DEC literals op
  | T_JMP => ZEND_JMP op
  | T_JMPZ => ZEND_JMPZ literals op
  | T_JMPNZ => ZEND_JMPNZ literals op
  | T_JMPZ_EX => ZEND_JMPZ_EX literals op
  | T_JMPNZ_EX => ZEND_JMPNZ_EX literals op
  | T_CASE => ZEND_CASE literals br op
  | T_BOOL => ZEND_BOOL literals op
  | T_FREE => ZEND_FREE literals op
  | T_EXT_NOP => ZEND_EXT_NOP op
  | T_JMP_SET => ZEND_JMP_SET literals op
  | T_COALESCE => ZEND_COALESCE literals op
  | T_SPACESHIP => ZEND_SPACESHIP literals op
  | T_CASE_STRICT => ZEND_CASE_STRICT literals br op
  | T_JMP_FORWARD => ZEND_JMP_FORWARD op
  | T_ADD_LONG_NO_OVERFLOW => ZEND_ADD_LONG_NO_OVERFLOW literals op
  | T_ADD_LONG => ZEND_ADD_LONG literals op
  | T_ADD_DOUBLE => ZEND_ADD_DOUBLE literals op
  | T_SUB_LONG_NO_OVERFLOW => ZEND_SUB_LONG_NO_OVERFLOW literals op
  | T_SUB_LONG => ZEND_SUB_LONG literals op
  | T_SUB_DOUBLE => ZEND_SUB_DOUBLE literals op
  | T_MUL_LONG_NO_OVERFLOW => ZEND_MUL_LONG_NO_OVERFLOW literals op
  | T_MUL_LONG => ZEND_MUL_LONG literals op
  | T_MUL_DOUBLE => ZEND_MUL_DOUBLE literals op
  | T_IS_EQUAL_LONG => ZEND_IS_EQUAL_LONG literals br op
  | T_IS_EQUAL_DOUBLE => ZEND_IS_EQUAL_DOUBLE literals br op
  | T_IS_NOT_EQUAL_LONG => ZEND_IS_NOT_EQUAL_LONG literals br op
  | T_IS_NOT_EQUAL_DOUBLE => ZEND_IS_NOT_EQUAL_DOUBLE literals br op
  | T_IS_IDENTICAL_EMPTY_ARRAY => ZEND_IS_IDENTICAL_EMPTY_ARRAY literals br op
  | T_IS_NOT_IDENTICAL_EMPTY_ARRAY => ZEND_IS_NOT_IDENTICAL_EMPTY_ARRAY literals br op
  | T_IS_IDENTICAL_NOTHROW => ZEND_IS_IDENTICAL_NOTHROW literals br op
  | T_IS_NOT_IDENTICAL_NOTHROW => ZEND_IS_NOT_IDENTICAL_NOTHROW literals br op
  | T_IS_SMALLER_LONG => ZEND_IS_SMALLER_LONG literals br op
  | T_IS_SMALLER_DOUBLE => ZEND_IS_SMALLER_DOUBLE literals br op
  | T_IS_SMALLER_OR_EQUAL_LONG => ZEND_IS_SMALLER_OR_EQUAL_LONG literals br op
  | T_IS_SMALLER_OR_EQUAL_DOUBLE => ZEND_IS_SMALLER_OR_EQUAL_DOUBLE literals br op
  | T_PRE_INC_LONG_NO_OVERFLOW => ZEND_PRE_INC_LONG_NO_OVERFLOW literals op
  | T_PRE_INC_LONG => ZEND_PRE_INC_LONG literals op
  | T_PRE_DEC_LONG_NO_OVERFLOW => ZEND_PRE_DEC_LONG_NO_OVERFLOW literals op
  | T_PRE_DEC_LONG => ZEND_PRE_DEC_LONG literals op
  | T_POST_INC_LONG_NO_OVERFLOW => ZEND_POST_INC_LONG_NO_OVERFLOW literals op
  | T_POST_INC_LONG => ZEND_POST_INC_LONG literals op
  | T_POST_DEC_LONG_NO_OVERFLOW => ZEND_POST_DEC_LONG_NO_OVERFLOW literals op
  | T_POST_DEC_LONG => ZEND_POST_DEC_LONG literals op
  | T_QM_ASSIGN_LONG => ZEND_QM_ASSIGN_LONG literals op
  | T_QM_ASSIGN_DOUBLE => ZEND_QM_ASSIGN_DOUBLE literals op
  | T_QM_ASSIGN_NOREF => ZEND_QM_ASSIGN_NOREF literals op
  end.

(** The opcodes modelled here with their general handlers. *)
Definition general_templates : list (Z * template) := [
    (OP_NOP, T_NOP); (OP_ADD, T_ADD); (OP_SUB, T_SUB); (OP_MUL, T_MUL); (OP_DIV, T_DIV); (OP_MOD, T_MOD);
    (OP_SL, T_SL); (OP_SR, T_SR); (OP_BW_OR, T_BW_OR); (OP_BW_AND, T_BW_AND); (OP_BW_XOR, T_BW_XOR);
    (OP_POW, T_POW); (OP_BW_NOT, T_BW_NOT); (OP_BOOL_NOT, T_BOOL_NOT); (OP_BOOL_XOR, T_BOOL_XOR);
    (OP_IS_IDENTICAL, T_IS_IDENTICAL); (OP_IS_NOT_IDENTICAL, T_IS_NOT_IDENTICAL); (OP_IS_EQUAL, T_IS_EQUAL);
    (OP_IS_NOT_EQUAL, T_IS_NOT_EQUAL); (OP_IS_SMALLER, T_IS_SMALLER);
    (OP_IS_SMALLER_OR_EQUAL, T_IS_SMALLER_OR_EQUAL); (OP_QM_ASSIGN, T_QM_ASSIGN); (OP_PRE_INC, T_PRE_INC);
    (OP_PRE_DEC, T_PRE_DEC); (OP_POST_INC, T_POST_INC); (OP_POST_DEC, T_POST_DEC); (OP_JMP, T_JMP);
    (OP_JMPZ, T_JMPZ); (OP_JMPNZ, T_JMPNZ); (OP_JMPZ_EX, T_JMPZ_EX); (OP_JMPNZ_EX, T_JMPNZ_EX);
    (OP_CASE, T_CASE); (OP_BOOL, T_BOOL); (OP_FREE, T_FREE); (OP_EXT_NOP, T_EXT_NOP);
    (OP_JMP_SET, T_JMP_SET); (OP_COALESCE, T_COALESCE); (OP_SPACESHIP, T_SPACESHIP);
    (OP_CASE_STRICT, T_CASE_STRICT)].
Fixpoint find_code (code : Z) (l : list (Z * template)) : option template :=
  match l with [] => None | (c, t) :: l => if c =? code then Some t else find_code code l end.
Definition general (code : Z) : option template :=
  find_code code general_templates.
End run.
End Spec.
Export Spec.

(** ** The entries the engine finds *)

(** Whether a handler generated for the kinds [k] serves an operand of the kind
    [kind], and a variant an instruction whose result has the kind [rt]. *)
Definition serves (k : kinds) (kind : Z) : bool :=
  match k with
  | AN => true | UN => kind =? Vm.IS_UNUSED | CO => kind =? IS_CONST | TM => kind =? IS_TMP_VAR | VA => kind =? IS_VAR
  | CV => kind =? IS_CV | TV => (kind =? IS_TMP_VAR) || (kind =? IS_VAR)
  | TVC => (kind =? IS_TMP_VAR) || (kind =? IS_VAR) || (kind =? IS_CV)
  end.
Definition serves_result (v : variant) (rt : Z) : bool :=
  match v with
  | plain => true | used => negb (rt =? Vm.IS_UNUSED) | unused => rt =? Vm.IS_UNUSED
  | jmpz => rt =? Z.lor IS_SMART_BRANCH_JMPZ IS_TMP_VAR | jmpnz => rt =? Z.lor IS_SMART_BRANCH_JMPNZ IS_TMP_VAR
  end.

(** The kinds the templates of zend_vm_def.h declare for their operands. *)
Definition VALUES : list Z := [IS_CONST; IS_TMP_VAR; IS_VAR; IS_CV].
Definition op1_kinds (t : template) : list Z :=
  match t with
  | T_CASE | T_CASE_STRICT | T_FREE => [IS_TMP_VAR; IS_VAR]
  | T_PRE_INC | T_PRE_DEC | T_POST_INC | T_POST_DEC => [IS_VAR; IS_CV]
  | T_NOP | T_EXT_NOP | T_JMP => Vm.IS_UNUSED :: VALUES
  | _ => VALUES
  end.
Definition unary (t : template) : bool :=
  match t with
  | T_NOP | T_EXT_NOP | T_JMP | T_JMPZ | T_JMPNZ | T_JMPZ_EX | T_JMPNZ_EX | T_JMP_SET | T_COALESCE | T_BOOL | T_BOOL_NOT
  | T_BW_NOT | T_FREE | T_QM_ASSIGN | T_PRE_INC | T_PRE_DEC | T_POST_INC | T_POST_DEC => true
  | _ => false
  end.
Definition op2_kinds (t : template) : list Z := if unary t then Vm.IS_UNUSED :: VALUES else VALUES.

(** An entry that may be chosen: whether the operands are put in order first, for which
    kinds, the specialisation, the handler it stands for. *)
Record candidate : Type := Cand { c_swap : bool; c_guard : Z → Z → bool; c_spec : option Z; c_template : template }.
Definition any_kinds (k1 k2 : Z) : bool := true.

Section candidates.
Local Open Scope spec_scope.
Definition op12 : Z := SPEC_RULE_OP1 |. SPEC_RULE_OP2.
Definition op12c : Z := op12 |. SPEC_RULE_COMMUTATIVE.
Definition op12s : Z := op12 |. SPEC_RULE_SMART_BRANCH.
Definition op12sc : Z := op12s |. SPEC_RULE_COMMUTATIVE.
Definition plain_cand (swap : bool) (t : template) : candidate := Cand swap any_kinds None t.
Definition cand (swap : bool) (spec : Z) (t : template) : candidate := Cand swap any_kinds (Some spec) t.
Definition nothrow_kinds (k1 k2 : Z) : bool := (k1 =? IS_CV) && negb (lacks k2 (Z.lor IS_CONST IS_CV)).
Definition empty_kinds (k1 k2 : Z) : bool := k2 =? IS_CONST.
Definition cv_kinds (k1 k2 : Z) : bool := k1 =? IS_CV.

Definition candidates (t : template) : list candidate :=
  match t with
  | T_ADD => [plain_cand false T_ADD; cand true (2586 |. op12c) T_ADD_LONG_NO_OVERFLOW;
              cand true (2611 |. op12c) T_ADD_LONG; cand true (2636 |. op12c) T_ADD_DOUBLE]
  | T_SUB => [plain_cand false T_SUB; cand false (2661 |. op12) T_SUB_LONG_NO_OVERFLOW;
              cand false (2686 |. op12) T_SUB_LONG; cand false (2711 |. op12) T_SUB_DOUBLE]
  | T_MUL => [plain_cand true T_MUL; cand true (2736 |. op12c) T_MUL_LONG_NO_OVERFLOW;
              cand true (2761 |. op12c) T_MUL_LONG; cand true (2786 |. op12c) T_MUL_DOUBLE]
  | T_IS_IDENTICAL => [plain_cand true T_IS_IDENTICAL; cand true (2811 |. op12sc) T_IS_EQUAL_LONG;
              cand true (2886 |. op12sc) T_IS_EQUAL_DOUBLE;
              Cand true empty_kinds (Some (3111 |. SPEC_RULE_SMART_BRANCH |. SPEC_RULE_COMMUTATIVE)) T_IS_IDENTICAL_EMPTY_ARRAY;
              Cand true nothrow_kinds (Some (3117 |. SPEC_RULE_OP2 |. SPEC_RULE_COMMUTATIVE)) T_IS_IDENTICAL_NOTHROW]
  | T_IS_NOT_IDENTICAL => [plain_cand true T_IS_NOT_IDENTICAL; cand true (2961 |. op12sc) T_IS_NOT_EQUAL_LONG;
              cand true (3036 |. op12sc) T_IS_NOT_EQUAL_DOUBLE;
              Cand true empty_kinds (Some (3114 |. SPEC_RULE_SMART_BRANCH |. SPEC_RULE_COMMUTATIVE)) T_IS_NOT_IDENTICAL_EMPTY_ARRAY;
              Cand true nothrow_kinds (Some (3122 |. SPEC_RULE_OP2 |. SPEC_RULE_COMMUTATIVE)) T_IS_NOT_IDENTICAL_NOTHROW]
  | T_IS_EQUAL => [plain_cand true T_IS_EQUAL; cand true (2811 |. op12sc) T_IS_EQUAL_LONG;
              cand true (2886 |. op12sc) T_IS_EQUAL_DOUBLE]
  | T_IS_NOT_EQUAL => [plain_cand true T_IS_NOT_EQUAL; cand true (2961 |. op12sc) T_IS_NOT_EQUAL_LONG;
              cand true (3036 |. op12sc) T_IS_NOT_EQUAL_DOUBLE]
  | T_IS_SMALLER => [plain_cand false T_IS_SMALLER; cand false (3127 |. op12s) T_IS_SMALLER_LONG;
              cand false (3202 |. op12s) T_IS_SMALLER_DOUBLE]
  | T_IS_SMALLER_OR_EQUAL => [plain_cand false T_IS_SMALLER_OR_EQUAL; cand false (3277 |. op12s) T_IS_SMALLER_OR_EQUAL_LONG;
              cand false (3352 |. op12s) T_IS_SMALLER_OR_EQUAL_DOUBLE]
  | T_QM_ASSIGN => [plain_cand false T_QM_ASSIGN; cand false (3439 |. SPEC_RULE_OP1) T_QM_ASSIGN_LONG;
              cand false (3444 |. SPEC_RULE_OP1) T_QM_ASSIGN_DOUBLE; cand false (3449 |. SPEC_RULE_OP1) T_QM_ASSIGN_NOREF]
  | T_PRE_INC => [plain_cand false T_PRE_INC; Cand false cv_kinds (Some (3427 |. SPEC_RULE_RETVAL)) T_PRE_INC_LONG_NO_OVERFLOW;
              Cand false cv_kinds (Some (3429 |. SPEC_RULE_RETVAL)) T_PRE_INC_LONG]
  | T_PRE_DEC => [plain_cand false T_PRE_DEC; Cand false cv_kinds (Some (3431 |. SPEC_RULE_RETVAL)) T_PRE_DEC_LONG_NO_OVERFLOW;
              Cand false cv_kinds (Some (3433 |. SPEC_RULE_RETVAL)) T_PRE_DEC_LONG]
  | T_POST_INC => [plain_cand false T_POST_INC; Cand false cv_kinds (Some 3435) T_POST_INC_LONG_NO_OVERFLOW;
              Cand false cv_kinds (Some 3436) T_POST_INC_LONG]
  | T_POST_DEC => [plain_cand false T_POST_DEC; Cand false cv_kinds (Some 3437) T_POST_DEC_LONG_NO_OVERFLOW;
              Cand false cv_kinds (Some 3438) T_POST_DEC_LONG]
  | T_JMP => [plain_cand false T_JMP; cand false 2585 T_JMP_FORWARD]
  | T_BW_OR | T_BW_AND | T_BW_XOR | T_BOOL_XOR => [plain_cand true t]
  | _ => [plain_cand false t]
  end.
End candidates.

Section table.
Context (observers : bool) (swap : zend_op → zend_op).
(** The rows of the table are for CONST, TMP, VAR, UNUSED and CV, in this order. *)
Abbreviation index := (zend_vm_get_opcode_handler_idx 0 1 2 3 4 observers).

Definition kinds_op (k1 k2 rt : Z) : zend_op := ZendOp 0 0 0 0 0 0 0 k1 k2 rt.
(** The rules that look at nothing but the kinds of the operands and the result. *)
Definition by_kinds (spec : Z) : bool :=
  negb (has_rule spec (SPEC_RULE_QUICK_ARG |. SPEC_RULE_OP_DATA |. SPEC_RULE_ISSET |. SPEC_RULE_OBSERVER)%spec).
Definition fits (spec : Z) (t : template) (k1 k2 rt : Z) : bool :=
  by_kinds spec &&
  match index spec (kinds_op k1 k2 rt) 0 ≫= zend_opcode_handlers with
  | Some (L t' a b v) => bool_decide (t' = t) && serves a k1 && serves b k2 && serves_result v rt
  | _ => false
  end.
(** Kinds of a result that stand for all others. *)
Definition RESULTS : list Z :=
  [Vm.IS_UNUSED; IS_CV; Z.lor IS_SMART_BRANCH_JMPZ IS_TMP_VAR; Z.lor IS_SMART_BRANCH_JMPNZ IS_TMP_VAR].
Definition result_class (rt : Z) : Z :=
  if (rt =? Vm.IS_UNUSED) || (rt =? Z.lor IS_SMART_BRANCH_JMPZ IS_TMP_VAR) || (rt =? Z.lor IS_SMART_BRANCH_JMPNZ IS_TMP_VAR)
  then rt else IS_CV.

Definition entry_fits (code : Z) (c : candidate) (k1 k2 rt : Z) : bool :=
  let '(k1, k2) := if c_swap c && (k1 <? k2) then (k2, k1) else (k1, k2) in
  if ((k1 =? IS_CONST) && (k2 =? IS_CONST)) || negb (c_guard c k1 k2) then true
  else match (match c_spec c with Some spec => Some spec | None => spec_of code end) with
       | Some spec => fits spec (c_template c) k1 k2 rt
       | None => false
       end.
Definition all_fit : bool :=
  forallb (λ '(code, t), forallb (λ c, forallb (λ k1, forallb (λ k2, forallb (entry_fits code c k1 k2) RESULTS) (op2_kinds t))
                                      (op1_kinds t)) (candidates t)) general_templates.
End table.

Lemma entries_fit observers : all_fit observers = true.
Proof. destruct observers; vm_compute; reflexivity. Qed.

(** [zend_swap_operands] exchanges the operands with their kinds and nothing else. *)
Definition swaps (swap : zend_op → zend_op) : Prop := ∀ op,
  swap op = ZendOp (handler op) (op2 op) (op1 op) (result op) (extended_value op) (lineno op) (opcode op)
              (op2_type op) (op1_type op) (result_type op).

Section chosen.
Context (observers : bool) (swap : zend_op → zend_op) (literals : gmap Z zval) (num_elements : loc → Z).
Context (swapping : swaps swap).
Implicit Types (op : zend_op).
Abbreviation index := (zend_vm_get_opcode_handler_idx 0 1 2 3 4 observers).
Abbreviation set_handler_ex := (zend_vm_set_opcode_handler_ex 0 1 2 3 4 observers swap id literals num_elements).

Lemma forallb_elem {A} (f : A → bool) l x : forallb f l = true → x ∈ l → f x = true.
Proof. rewrite list_elem_of_In, forallb_forall. auto. Qed.

Lemma general_listed code t : general code = Some t → (code, t) ∈ general_templates.
Proof.
  unfold general. induction general_templates as [|[c t'] l IH]; [done|]. cbn [find_code].
  destruct (Z.eqb_spec c code); intros H; simplify_eq; [left|right; by apply IH].
Qed.

(** The operands of an instruction are of kinds its template is declared for, and not
    both constant. *)
Definition kinds_ok (t : template) op : Prop :=
  op1_type op ∈ op1_kinds t ∧ op2_type op ∈ op2_kinds t ∧ CONST_CONST_ op = false.

(** What is known of the types when a specialised handler is chosen. *)
Definition chosen_when (t' : template) (opline i1 i2 ir : Z) op : Prop :=
  match t' with
  | T_ADD_LONG_NO_OVERFLOW | T_SUB_LONG_NO_OVERFLOW | T_MUL_LONG_NO_OVERFLOW => (ir =? MAY_BE_LONG) && two_longs i1 i2 = true
  | T_ADD_LONG | T_SUB_LONG | T_MUL_LONG | T_IS_EQUAL_LONG | T_IS_NOT_EQUAL_LONG | T_IS_SMALLER_LONG
  | T_IS_SMALLER_OR_EQUAL_LONG => two_longs i1 i2 = true
  | T_ADD_DOUBLE | T_SUB_DOUBLE | T_MUL_DOUBLE | T_IS_EQUAL_DOUBLE | T_IS_NOT_EQUAL_DOUBLE | T_IS_SMALLER_DOUBLE
  | T_IS_SMALLER_OR_EQUAL_DOUBLE => two_doubles i1 i2 = true
  | T_IS_IDENTICAL_EMPTY_ARRAY | T_IS_NOT_IDENTICAL_EMPTY_ARRAY => is_empty_array literals num_elements opline (op2 op) = Some true
  | T_PRE_INC_LONG_NO_OVERFLOW | T_PRE_DEC_LONG_NO_OVERFLOW | T_POST_INC_LONG_NO_OVERFLOW | T_POST_DEC_LONG_NO_OVERFLOW =>
      (ir =? MAY_BE_LONG) && (i1 =? MAY_BE_LONG) = true
  | T_PRE_INC_LONG | T_PRE_DEC_LONG | T_POST_INC_LONG | T_POST_DEC_LONG | T_QM_ASSIGN_LONG => (i1 =? MAY_BE_LONG) = true
  | T_QM_ASSIGN_DOUBLE => (i1 =? MAY_BE_DOUBLE) = true
  | T_QM_ASSIGN_NOREF =>
      (if op1_type op =? IS_CONST then z ← constant_of literals opline (op1 op); Some (negb (Z_REFCOUNTED z))
       else Some (lacks i1 COUNTED_TYPES)) = Some true
  | T_IS_IDENTICAL_NOTHROW | T_IS_NOT_IDENTICAL_NOTHROW =>
      lacks i1 (Z.lor MAY_BE_UNDEF MAY_BE_REF) && lacks i2 (Z.lor MAY_BE_UNDEF MAY_BE_REF) = true
  | T_JMP_FORWARD => (opline <? OP_JMP_ADDR opline (op1 op)) = true
  | _ => True
  end.

(** What [choose] decides is one of the candidates, chosen for the types. *)
Definition decided (t : template) (opline i1 i2 ir : Z) op op' (c : option Z) : Prop :=
  ∃ x, x ∈ candidates t ∧ c_spec x = c ∧ op' = swap_if swap op (c_swap x && (op1_type op <? op2_type op)) ∧
       c_guard x (op1_type op') (op2_type op') = true ∧ chosen_when (c_template x) opline i1 i2 ir op'.

Lemma swap_if_const_const op b : CONST_CONST_ (swap_if swap op b) = CONST_CONST_ op.
Proof using swapping. destruct b; [|done]. simpl. rewrite swapping. unfold CONST_CONST_. simpl. apply andb_comm. Qed.

(** The specialised increments are for compiled variables. *)
Definition step_ok (t : template) op (op1_info : Z) : Prop :=
  t ∈ [T_PRE_INC; T_PRE_DEC; T_POST_INC; T_POST_DEC] → op1_info = MAY_BE_LONG → op1_type op = IS_CV.

Ltac candidate_ok :=
  split; [reflexivity|split; [reflexivity|split; cbn -[Z.land Z.lor two_longs two_doubles COUNTED_TYPES is_empty_array OP_JMP_ADDR lacks];
    first [done | match goal with Hcv : op1_type _ = IS_CV |- _ => unfold cv_kinds; by rewrite Hcv end]]].
Ltac find_candidate :=
  first
    [ eexists; split; [left; reflexivity|candidate_ok]
    | eexists; split; [right; left; reflexivity|candidate_ok]
    | eexists; split; [do 2 right; left; reflexivity|candidate_ok]
    | eexists; split; [do 3 right; left; reflexivity|candidate_ok]
    | eexists; split; [do 4 right; left; reflexivity|candidate_ok] ].

Lemma identity_decided opline i1 i2 op op' c long double empty nothrow :
  choose_identity literals num_elements opline i1 i2 op long double empty nothrow = Some (op', c) → CONST_CONST_ op = false →
  op' = op ∧ (c = None ∨ (c = Some long ∧ two_longs i1 i2 = true) ∨ (c = Some double ∧ two_doubles i1 i2 = true) ∨
              (c = Some empty ∧ empty_kinds (op1_type op) (op2_type op) = true ∧
               is_empty_array literals num_elements opline (op2 op) = Some true) ∨
              (c = Some nothrow ∧ nothrow_kinds (op1_type op) (op2_type op) = true ∧
               lacks i1 (Z.lor MAY_BE_UNDEF MAY_BE_REF) && lacks i2 (Z.lor MAY_BE_UNDEF MAY_BE_REF) = true)).
Proof.
  intros H HC. unfold choose_identity in H. rewrite HC in H.
  destruct (two_longs i1 i2); [simplify_eq; tauto|]. destruct (two_doubles i1 i2); [simplify_eq; tauto|].
  apply bind_Some in H as ([] & He & H).
  - injection H as <- <-. split; [done|]. do 3 right. left. split; [done|]. unfold empty_kinds.
    by destruct (op2_type op =? IS_CONST).
  - injection H as H. unfold nothrow_kinds.
    destruct (op1_type op =? IS_CV), (negb (lacks (op2_type op) (Z.lor IS_CONST IS_CV))); simpl in H |- *; try (simplify_eq; tauto).
    destruct (lacks i1 _), (lacks i2 _); simpl in H |- *; simplify_eq; tauto.
Qed.

Lemma copy_decided opline i1 op op' c long double noref :
  choose_copy literals opline i1 op long double noref = Some (op', c) →
  op' = op ∧ (c = None ∨ (c = Some long ∧ (i1 =? MAY_BE_LONG) = true) ∨ (c = Some double ∧ (i1 =? MAY_BE_DOUBLE) = true) ∨
    (c = Some noref ∧ (if op1_type op =? IS_CONST then z ← constant_of literals opline (op1 op); Some (negb (Z_REFCOUNTED z))
                       else Some (lacks i1 COUNTED_TYPES)) = Some true)).
Proof.
  intros H. unfold choose_copy in H. destruct (i1 =? MAY_BE_LONG); [simplify_eq; tauto|].
  destruct (i1 =? MAY_BE_DOUBLE); [simplify_eq; tauto|].
  apply bind_Some in H as (b & Hb & H). simplify_eq. destruct b; tauto.
Qed.

Lemma step_decided i1 ir op op' c no_overflow long t :
  choose_step i1 ir op no_overflow long = (op', c) → step_ok t op i1 → t ∈ [T_PRE_INC; T_PRE_DEC; T_POST_INC; T_POST_DEC] →
  op' = op ∧ (c = None ∨ (c = Some no_overflow ∧ op1_type op = IS_CV ∧ (ir =? MAY_BE_LONG) && (i1 =? MAY_BE_LONG) = true) ∨
              (c = Some long ∧ op1_type op = IS_CV ∧ (i1 =? MAY_BE_LONG) = true)).
Proof.
  intros H Hs Ht. unfold choose_step in H. specialize (Hs Ht).
  destruct (Z.eqb_spec i1 MAY_BE_LONG); rewrite ?andb_false_r, ?andb_true_r in *; repeat case_match; simplify_eq; naive_solver.
Qed.

Lemma choose_decided t opline i1 i2 ir op op' c :
  general (opcode op) = Some t → kinds_ok t op → step_ok t op i1 →
  choose swap literals num_elements opline i1 i2 ir op (opcode op) = Some (op', c) → decided t opline i1 i2 ir op op' c.
Proof using swapping.
  intros Hg (_ & _ & HC) Hstep. apply general_listed in Hg. revert Hg.
  unfold general_templates. rewrite !elem_of_cons, elem_of_nil.
  intros Hg. destruct_or! Hg; try done; injection Hg as Hop ->; rewrite Hop.
  all: intros H; unfold choose in H.
  all: cbn -[choose_sum choose_difference choose_identity choose_test choose_copy choose_step swap_if Z.lor] in H.
  all: try (apply copy_decided in H as [-> ?]; destruct_or!; destruct_and?; subst; find_candidate).
  all: try (apply identity_decided in H as [-> ?]; [|by rewrite swap_if_const_const]; destruct_or!; destruct_and?; subst; find_candidate).
  all: try (injection H as H; eapply step_decided in H as [-> ?]; [|eassumption|set_unfold; tauto]; destruct_or!; destruct_and?; subst; find_candidate).
  all: try (injection H as <- <-; destruct (opline <? OP_JMP_ADDR opline (op1 op)) eqn:?; find_candidate).
  all: unfold choose_sum, choose_difference, choose_test in H; rewrite ?swap_if_const_const, ?HC in H; injection H as H.
  all: repeat case_match; simplify_eq; find_candidate.
Qed.

Lemma index_by_kinds spec op d :
  by_kinds spec = true →
  index spec op d = index spec (kinds_op (op1_type op) (op2_type op) (result_class (result_type op))) 0.
Proof.
  intros Hb. unfold by_kinds, has_rule in Hb. rewrite negb_involutive in Hb. apply Z.eqb_eq in Hb.
  assert (Hno : ∀ r, Z.land r (SPEC_RULE_QUICK_ARG |. SPEC_RULE_OP_DATA |. SPEC_RULE_ISSET |. SPEC_RULE_OBSERVER)%spec = r →
                     has_rule spec r = false).
  { intros r Hr. unfold has_rule. rewrite <- Hr, (Z.land_comm r), Z.land_assoc, Hb, Z.land_0_l. done. }
  unfold zend_vm_get_opcode_handler_idx.
  rewrite (Hno SPEC_RULE_OBSERVER), (Hno SPEC_RULE_QUICK_ARG), (Hno SPEC_RULE_OP_DATA), (Hno SPEC_RULE_ISSET) by done.
  cbn [op1_type op2_type result_type kinds_op]. unfold result_class.
  destruct (Z.eqb_spec (result_type op) Vm.IS_UNUSED) as [->|]; [done|].
  destruct (Z.eqb_spec (result_type op) (Z.lor IS_SMART_BRANCH_JMPZ IS_TMP_VAR)) as [->|]; [done|].
  destruct (Z.eqb_spec (result_type op) (Z.lor IS_SMART_BRANCH_JMPNZ IS_TMP_VAR)) as [->|]; done.
Qed.

Lemma serves_class v rt : serves_result v rt = serves_result v (result_class rt).
Proof.
  unfold result_class. destruct (Z.eqb_spec rt Vm.IS_UNUSED) as [->|H0]; [done|].
  destruct (Z.eqb_spec rt (Z.lor IS_SMART_BRANCH_JMPZ IS_TMP_VAR)) as [->|H1]; [done|].
  destruct (Z.eqb_spec rt (Z.lor IS_SMART_BRANCH_JMPNZ IS_TMP_VAR)) as [->|H2]; [done|].
  destruct v; simpl; try done.
  - by rewrite (proj2 (Z.eqb_neq _ _) H0).
  - by rewrite (proj2 (Z.eqb_neq _ _) H0).
  - by rewrite (proj2 (Z.eqb_neq _ _) H1).
  - by rewrite (proj2 (Z.eqb_neq _ _) H2).
Qed.

Lemma result_class_listed rt : result_class rt ∈ RESULTS.
Proof.
  unfold result_class, RESULTS. rewrite !elem_of_cons.
  destruct (Z.eqb_spec rt Vm.IS_UNUSED) as [->|]; [tauto|].
  destruct (Z.eqb_spec rt (Z.lor IS_SMART_BRANCH_JMPZ IS_TMP_VAR)) as [->|]; [tauto|].
  destruct (Z.eqb_spec rt (Z.lor IS_SMART_BRANCH_JMPNZ IS_TMP_VAR)) as [->|]; simpl; tauto.
Qed.

(** A handler of the table that serves the instruction. *)
Definition entry_for (t : template) op : Prop :=
  ∃ k1 k2 v, zend_opcode_handlers (handler op) = Some (L t k1 k2 v) ∧
    serves k1 (op1_type op) = true ∧ serves k2 (op2_type op) = true ∧ serves_result v (result_type op) = true.

Lemma fits_entry spec t op d :
  fits observers spec t (op1_type op) (op2_type op) (result_class (result_type op)) = true →
  ∃ i, index spec op d = Some i ∧ entry_for t (with_handler op i).
Proof.
  unfold fits. intros [Hb H]%andb_true_iff. rewrite (index_by_kinds _ _ d Hb).
  destruct (index spec _ 0) as [i|]; simpl in H; [|done]. exists i. split; [done|].
  destruct (zend_opcode_handlers i) as [[t' a b v|]|] eqn:Hi; [|done..].
  rewrite !andb_true_iff, bool_decide_eq_true in H. destruct H as [[[-> ?] ?] ?].
  exists a, b, v. rewrite serves_class. cbn. done.
Qed.

Lemma candidate_fits t op x d :
  general (opcode op) = Some t → kinds_ok t op → x ∈ candidates t →
  let op' := swap_if swap op (c_swap x && (op1_type op <? op2_type op)) in
  c_guard x (op1_type op') (op2_type op') = true →
  ∃ default, spec_of (opcode op) = Some default ∧
  ∃ i, index (from_option id default (c_spec x)) op' d = Some i ∧ entry_for (c_template x) (with_handler op' i).
Proof using swapping.
  intros Hg (H1 & H2 & HC) Hx op' Hguard. pose proof (entries_fit observers) as H. unfold all_fit in H.
  apply (forallb_elem _ _ (opcode op, t)) in H; [|by apply general_listed]. cbv beta iota in H.
  apply (forallb_elem _ _ x) in H; [|done]. apply (forallb_elem _ _ (op1_type op)) in H; [|done].
  apply (forallb_elem _ _ (op2_type op)) in H; [|done].
  apply (forallb_elem _ _ (result_class (result_type op))) in H; [|apply result_class_listed].
  assert (Hdef : is_Some (spec_of (opcode op))).
  { apply general_listed in Hg. revert Hg. generalize t. clear. intros t Hg.
    assert (Ha : forallb (λ '(code, _), match spec_of code with Some _ => true | None => false end) general_templates = true) by done.
    apply (forallb_elem _ _ _ Ha) in Hg. cbv beta iota in Hg.
    destruct (spec_of (opcode op)); [by eexists|done]. }
  destruct Hdef as [default Hdef]. exists default. split; [done|].
  assert (Hkinds : result_type op' = result_type op ∧
    (op1_type op', op2_type op') = (if c_swap x && (op1_type op <? op2_type op) then (op2_type op, op1_type op) else (op1_type op, op2_type op))).
  { unfold op'. destruct (c_swap x && (op1_type op <? op2_type op)); [|done]. simpl. by rewrite swapping. }
  destruct Hkinds as [Hr Hk]. unfold entry_fits in H. rewrite <- Hk in H.
  replace ((op1_type op' =? IS_CONST) && (op2_type op' =? IS_CONST)) with (CONST_CONST_ op') in H by done.
  unfold op' in H at 1. rewrite swap_if_const_const, HC, Hguard, Hdef in H. simpl in H. rewrite <- Hr in H.
  apply fits_entry. by destruct (c_spec x).
Qed.

(** A constant operand is in the code; an array has its elements somewhere. *)
Definition constant_ok (opline kind node : Z) : Prop :=
  kind = IS_CONST → ∃ z, literals !! RT_CONSTANT opline node = Some z ∧ (zval_get_type z = IS_ARRAY → is_Some (Z_COUNTED z)).
Definition constants_ok (opline : Z) op : Prop :=
  constant_ok opline (op1_type op) (op1 op) ∧ constant_ok opline (op2_type op) (op2 op).

Lemma identity_total opline i1 i2 op long double empty nothrow :
  constants_ok opline op → is_Some (choose_identity literals num_elements opline i1 i2 op long double empty nothrow).
Proof.
  intros [_ H2]. unfold choose_identity. destruct (two_longs i1 i2); [by eexists|]. destruct (two_doubles i1 i2); [by eexists|].
  destruct (Z.eqb_spec (op2_type op) IS_CONST) as [Hc|]; [|by eexists]. destruct (H2 Hc) as (z & Hz & Ha).
  unfold is_empty_array, constant_of. rewrite Hz. simpl. destruct (Z.eqb_spec (zval_get_type z) IS_ARRAY) as [Hz'|]; [|by eexists].
  destruct (Ha Hz') as [l ->]. by eexists.
Qed.

Lemma copy_total opline i1 op long double noref :
  constants_ok opline op → is_Some (choose_copy literals opline i1 op long double noref).
Proof.
  intros [H1 _]. unfold choose_copy. do 2 (case_match; [by eexists|]).
  destruct (Z.eqb_spec (op1_type op) IS_CONST) as [Hc|]; [|by eexists]. destruct (H1 Hc) as (z & Hz & _).
  unfold constant_of. rewrite Hz. by eexists.
Qed.

Lemma swap_constants opline op b : constants_ok opline op → constants_ok opline (swap_if swap op b).
Proof using swapping. intros [H1 H2]. destruct b; [|done]. simpl. rewrite swapping. done. Qed.

Lemma choose_total t opline i1 i2 ir op :
  general (opcode op) = Some t → constants_ok opline op →
  is_Some (choose swap literals num_elements opline i1 i2 ir op (opcode op)).
Proof using swapping.
  intros Hg Hc. apply general_listed in Hg. revert Hg.
  unfold general_templates. rewrite !elem_of_cons, elem_of_nil.
  intros Hg. destruct_or! Hg; try done; injection Hg as Hop ->; rewrite Hop; unfold choose.
  all: cbn -[choose_sum choose_difference choose_identity choose_test choose_copy choose_step swap_if Z.lor].
  all: try (apply identity_total; by apply swap_constants).
  all: try (by apply copy_total).
  all: by eexists.
Qed.

(** The handler the engine chooses for an instruction exists in the table and was
    generated for the kinds of its operands and its result; it is specialised only for the types
    the optimiser promised, and the instruction keeps everything but the order of its
    operands. *)
Theorem chosen_handler_fits t opline i1 i2 ir op op_data :
  general (opcode op) = Some t → kinds_ok t op → step_ok t op i1 → constants_ok opline op →
  ∃ op' x, set_handler_ex opline i1 i2 ir op op_data = Some op' ∧ x ∈ candidates t ∧
    op' = with_handler (swap_if swap op (c_swap x && (op1_type op <? op2_type op))) (handler op') ∧
    c_guard x (op1_type op') (op2_type op') = true ∧ chosen_when (c_template x) opline i1 i2 ir op' ∧ entry_for (c_template x) op'.
Proof using swapping.
  intros Hg Hk Hs Hc. destruct (choose_total t opline i1 i2 ir op Hg Hc) as [[op1' c] Hchoose].
  destruct (choose_decided _ _ _ _ _ _ _ _ Hg Hk Hs Hchoose) as (x & Hx & <- & -> & Hguard & Hwhen).
  destruct (candidate_fits t op x op_data Hg Hk Hx Hguard) as (default & Hdef & i & Hi & He).
  exists (with_handler (swap_if swap op (c_swap x && (op1_type op <? op2_type op))) i), x.
  unfold zend_vm_set_opcode_handler_ex. cbn [id]. rewrite Hdef. cbn [mbind option_bind].
  rewrite Hchoose. cbn [mbind option_bind]. rewrite Hi. done.
Qed.
End chosen.
