(* ===== verification/ZendVmTable.v ===== *)
(** * The table of handlers (Zend/zend_vm_execute.h)

    Every instruction is given an index into one table of 3494 entries: a part of the
    table per opcode and per specialisation, and in it an entry per combination of what
    that part looks at. The theorem shows that the parts do not meet and that the index
    in a part says everything its rules look at, so an entry is never shared by
    instructions that need different handlers. *)

From S2P Require Import Prelude ZendTypes ZendArith ZendString Engine ZendAssign ZendConvert ZendFrames ZendSsa ZendVm ZendVmLabels ZendVmSpec.

(** ** The parts of the table *)

(** The specialisations [zend_vm_set_opcode_handler_ex] can choose. *)
Section parts.
Local Open Scope spec_scope.
Definition type_specs : list Z :=
  [2578; 2579; 2580 |. SPEC_RULE_OP1; 2585; 2586 |. op12c; 2611 |. op12c; 2636 |. op12c; 2661 |. op12; 2686 |. op12; 2711 |. op12;
   2736 |. op12c; 2761 |. op12c; 2786 |. op12c; 2811 |. op12sc; 2886 |. op12sc; 2961 |. op12sc; 3036 |. op12sc;
   3111 |. SPEC_RULE_SMART_BRANCH |. SPEC_RULE_COMMUTATIVE; 3114 |. SPEC_RULE_SMART_BRANCH |. SPEC_RULE_COMMUTATIVE;
   3117 |. SPEC_RULE_OP2 |. SPEC_RULE_COMMUTATIVE; 3122 |. SPEC_RULE_OP2 |. SPEC_RULE_COMMUTATIVE;
   3127 |. op12s; 3202 |. op12s; 3277 |. op12s; 3352 |. op12s; 3427 |. SPEC_RULE_RETVAL; 3429 |. SPEC_RULE_RETVAL;
   3431 |. SPEC_RULE_RETVAL; 3433 |. SPEC_RULE_RETVAL; 3435; 3436; 3437; 3438; 3439 |. SPEC_RULE_OP1; 3444 |. SPEC_RULE_OP1;
   3449 |. SPEC_RULE_OP1; 3454 |. op12; 3479 |. SPEC_RULE_OP1; 3484 |. SPEC_RULE_OP1; 3489; 3490; 3491 |. SPEC_RULE_RETVAL].
End parts.
Definition all_specs : list Z := specs ++ type_specs.

Definition part_start (spec : Z) : Z := Z.land spec SPEC_START_MASK.
(** The combinations of what the rules of [spec] look at. *)
Definition part_size (spec : Z) : Z :=
  (if has_rule spec SPEC_RULE_OP1 then 5 else 1) * (if has_rule spec SPEC_RULE_OP2 then 5 else 1) *
  (if has_rule spec SPEC_RULE_RETVAL then if has_rule spec SPEC_RULE_OBSERVER then 4 else 2
   else if has_rule spec SPEC_RULE_QUICK_ARG then 2
   else if has_rule spec SPEC_RULE_OP_DATA then 5
   else if has_rule spec SPEC_RULE_ISSET then 2
   else if has_rule spec SPEC_RULE_SMART_BRANCH then 3
   else if has_rule spec SPEC_RULE_OBSERVER then 2 else 1).

(** A part has one rule beyond the kinds of the operands at most, but for the handlers
    that look at observers and at whether the result is used. *)
Definition EXTRA_RULES : list Z :=
  [SPEC_RULE_RETVAL; SPEC_RULE_QUICK_ARG; SPEC_RULE_OP_DATA; SPEC_RULE_ISSET; SPEC_RULE_SMART_BRANCH].
Definition extra_rules (spec : Z) : list Z := filter (λ r, has_rule spec r = true) EXTRA_RULES.
Definition part_ok (spec : Z) : bool :=
  (0 <=? spec) && (part_start spec + part_size spec <=? zend_handlers_count) && (length (extra_rules spec) <=? 1)%nat &&
  implb (negb (length (extra_rules spec) =? 0)%nat || has_rule spec SPEC_RULE_OBSERVER) (has_rule spec SPEC_EXTRA_MASK).
Definition apart (spec spec' : Z) : bool :=
  (spec =? spec') || (part_start spec + part_size spec <=? part_start spec') || (part_start spec' + part_size spec' <=? part_start spec).

Lemma parts_ok : forallb part_ok all_specs = true.
Proof. vm_compute. reflexivity. Qed.
Lemma parts_apart : forallb (λ spec, forallb (apart spec) all_specs) all_specs = true.
Proof. vm_compute. reflexivity. Qed.

(** ** What an index says *)

(** The number of an operand kind in the table. *)
Definition kind_code (k : Z) : option Z := at_index (zend_vm_decode 0 1 2 3 4) k.
Definition is_branch (jump : Z) (op : zend_op) : bool := result_type op =? Z.lor jump IS_TMP_VAR.

(** The two instructions are alike in everything the rules of [spec] look at; [d] and [d']
    are the kinds of the first operand of the instructions that follow. *)
Record alike (spec : Z) (op : zend_op) (d : Z) (op' : zend_op) (d' : Z) : Prop := {
  alike_op1 : has_rule spec SPEC_RULE_OP1 = true → kind_code (op1_type op) = kind_code (op1_type op');
  alike_op2 : has_rule spec SPEC_RULE_OP2 = true → kind_code (op2_type op) = kind_code (op2_type op');
  alike_used : has_rule spec SPEC_RULE_RETVAL = true → (result_type op =? Vm.IS_UNUSED) = (result_type op' =? Vm.IS_UNUSED);
  alike_argument : has_rule spec SPEC_RULE_QUICK_ARG = true → (op2 op <=? MAX_ARG_FLAG_NUM) = (op2 op' <=? MAX_ARG_FLAG_NUM);
  alike_data : has_rule spec SPEC_RULE_OP_DATA = true → kind_code d = kind_code d';
  alike_isset : has_rule spec SPEC_RULE_ISSET = true →
    Z.land (extended_value op) ZEND_ISEMPTY = Z.land (extended_value op') ZEND_ISEMPTY;
  alike_branch : has_rule spec SPEC_RULE_SMART_BRANCH = true →
    is_branch IS_SMART_BRANCH_JMPZ op = is_branch IS_SMART_BRANCH_JMPZ op' ∧
    is_branch IS_SMART_BRANCH_JMPNZ op = is_branch IS_SMART_BRANCH_JMPNZ op' }.

Lemma one_branch op : is_branch IS_SMART_BRANCH_JMPZ op = true → is_branch IS_SMART_BRANCH_JMPNZ op = false.
Proof. unfold is_branch. by intros ->%Z.eqb_eq. Qed.

Section index.
Context (observers : bool).
Abbreviation index := (zend_vm_get_opcode_handler_idx 0 1 2 3 4 observers).
Implicit Types (op : zend_op).

Lemma kind_code_bounds k c : kind_code k = Some c → 0 <= c <= 4.
Proof.
  unfold kind_code, at_index. case_decide; [|done]. intros Hc%list_elem_of_lookup_2. unfold zend_vm_decode in Hc.
  rewrite !elem_of_cons, elem_of_nil in Hc. lia.
Qed.
Lemma isempty_bounds x : 0 <= Z.land x ZEND_ISEMPTY <= 1.
Proof.
  unfold ZEND_ISEMPTY. change (Z.shiftl 1 0) with (Z.ones 1). rewrite Z.land_ones by lia.
  pose proof (Z.mod_pos_bound x (2 ^ 1)). lia.
Qed.
Lemma b2z_bounds b : 0 <= b2z b <= 1.
Proof. by destruct b. Qed.
Lemma b2z_inj a b : b2z a = b2z b → a = b.
Proof. by destruct a, b. Qed.

(** The index as digits: the kinds of the operands, and what the one other rule looks at. *)
Definition digit1 spec op : option Z := if has_rule spec SPEC_RULE_OP1 then kind_code (op1_type op) else Some 0.
Definition digit2 spec op : option Z := if has_rule spec SPEC_RULE_OP2 then kind_code (op2_type op) else Some 0.
Definition radix2 spec : Z := if has_rule spec SPEC_RULE_OP2 then 5 else 1.
Inductive extra_digit spec op d : Z → Z → Prop :=
| used_digit :
    has_rule spec SPEC_RULE_RETVAL = true →
    extra_digit spec op d 2 (b2z (negb (result_type op =? Vm.IS_UNUSED)) + (if has_rule spec SPEC_RULE_OBSERVER && observers then 2 else 0))
| argument_digit :
    has_rule spec SPEC_RULE_RETVAL = false → has_rule spec SPEC_RULE_QUICK_ARG = true →
    extra_digit spec op d 2 (b2z (op2 op <=? MAX_ARG_FLAG_NUM))
| data_digit c :
    has_rule spec SPEC_RULE_RETVAL = false → has_rule spec SPEC_RULE_QUICK_ARG = false → has_rule spec SPEC_RULE_OP_DATA = true →
    kind_code d = Some c → extra_digit spec op d 5 c
| isset_digit :
    has_rule spec SPEC_RULE_RETVAL = false → has_rule spec SPEC_RULE_QUICK_ARG = false → has_rule spec SPEC_RULE_OP_DATA = false →
    has_rule spec SPEC_RULE_ISSET = true → extra_digit spec op d 2 (Z.land (extended_value op) ZEND_ISEMPTY)
| branch_digit :
    has_rule spec SPEC_RULE_RETVAL = false → has_rule spec SPEC_RULE_QUICK_ARG = false → has_rule spec SPEC_RULE_OP_DATA = false →
    has_rule spec SPEC_RULE_ISSET = false → has_rule spec SPEC_RULE_SMART_BRANCH = true →
    extra_digit spec op d 3 (if is_branch IS_SMART_BRANCH_JMPZ op then 1 else if is_branch IS_SMART_BRANCH_JMPNZ op then 2 else 0)
| observer_digit :
    has_rule spec SPEC_RULE_RETVAL = false → has_rule spec SPEC_RULE_QUICK_ARG = false → has_rule spec SPEC_RULE_OP_DATA = false →
    has_rule spec SPEC_RULE_ISSET = false → has_rule spec SPEC_RULE_SMART_BRANCH = false → has_rule spec SPEC_RULE_OBSERVER = true →
    extra_digit spec op d 2 (b2z observers)
| no_digit :
    has_rule spec SPEC_RULE_RETVAL = false → has_rule spec SPEC_RULE_QUICK_ARG = false → has_rule spec SPEC_RULE_OP_DATA = false →
    has_rule spec SPEC_RULE_ISSET = false → has_rule spec SPEC_RULE_SMART_BRANCH = false → has_rule spec SPEC_RULE_OBSERVER = false →
    extra_digit spec op d 1 0.

Lemma extra_masked spec r : Z.land r SPEC_EXTRA_MASK = r → has_rule spec SPEC_EXTRA_MASK = false → has_rule spec r = false.
Proof.
  unfold has_rule. intros Hr H%negb_false_iff%Z.eqb_eq. rewrite <- Hr, (Z.land_comm r), Z.land_assoc, H, Z.land_0_l. done.
Qed.

Lemma index_digits spec op d i :
  index spec op d = Some i →
  ∃ c1 c2 r x, digit1 spec op = Some c1 ∧ digit2 spec op = Some c2 ∧ extra_digit spec op d r x ∧
    i = part_start spec + ((c1 * radix2 spec + c2) * r + x).
Proof.
  intros Hi. unfold zend_vm_get_opcode_handler_idx in Hi. change (at_index _) with kind_code in Hi.
  apply bind_Some in Hi as (c1 & H1 & Hi). apply bind_Some in Hi as (o & H2 & Hi). apply bind_Some in Hi as (o' & H3 & Hi).
  injection Hi as <-.
  assert (∃ c2, digit2 spec op = Some c2 ∧ o = c1 * radix2 spec + c2) as (c2 & Hc2 & ->).
  { unfold digit2, radix2. destruct (has_rule spec SPEC_RULE_OP2); [apply bind_Some in H2 as (c & Hc & H2)|]; simplify_eq;
      eexists; (split; [done|lia]). }
  enough (∃ r x, extra_digit spec op d r x ∧ o' = (c1 * radix2 spec + c2) * r + x) as (r & x & Hx & ->) by (exists c1, c2, r, x; done).
  clear H2 Hc2. revert H3. generalize (c1 * radix2 spec + c2). intros o H3.
  destruct (has_rule spec SPEC_EXTRA_MASK) eqn:Hm.
  2: { injection H3 as <-. exists 1, 0. split; [|lia]. constructor; by apply extra_masked. }
  destruct (has_rule spec SPEC_RULE_RETVAL) eqn:?; [injection H3 as <-; eexists _, _; split; [by apply used_digit|lia]|].
  destruct (has_rule spec SPEC_RULE_QUICK_ARG) eqn:?; [injection H3 as <-; eexists _, _; split; [by apply argument_digit|lia]|].
  destruct (has_rule spec SPEC_RULE_OP_DATA) eqn:?.
  { apply bind_Some in H3 as (c & Hc & H3). injection H3 as <-. eexists _, _. split; [by apply data_digit|lia]. }
  destruct (has_rule spec SPEC_RULE_ISSET) eqn:?; [injection H3 as <-; eexists _, _; split; [by apply isset_digit|lia]|].
  destruct (has_rule spec SPEC_RULE_SMART_BRANCH) eqn:?; [injection H3 as <-; eexists _, _; split; [by apply branch_digit|unfold is_branch; lia]|].
  destruct (has_rule spec SPEC_RULE_OBSERVER) eqn:?; injection H3 as <-; eexists _, _;
    (split; [first [by apply observer_digit|by apply no_digit]|lia]).
Qed.

Lemma digit_bounds (rule : bool) k c : (if rule then kind_code k else Some 0) = Some c → 0 <= c < if rule then 5 else 1.
Proof. destruct rule; [intros Hc%kind_code_bounds; lia|intros [= <-]; lia]. Qed.

(** An index lies in the part of its rules. *)
Lemma index_in_part spec op d i :
  index spec op d = Some i → part_start spec <= i < part_start spec + part_size spec.
Proof.
  intros (c1 & c2 & r & x & H1%digit_bounds & H2%digit_bounds & Hx & ->)%index_digits. unfold part_size. fold (radix2 spec) in *.
  pose proof (isempty_bounds (extended_value op)) as E1. pose proof (b2z_bounds (negb (result_type op =? Vm.IS_UNUSED))) as E2.
  pose proof (b2z_bounds (op2 op <=? MAX_ARG_FLAG_NUM)) as E3. pose proof (b2z_bounds observers) as E4.
  set (k := if has_rule spec SPEC_RULE_OP1 then 5 else 1) in *.
  assert (Hr : radix2 spec = 5 ∨ radix2 spec = 1) by (unfold radix2; destruct (has_rule spec SPEC_RULE_OP2); tauto).
  assert (Ho : 0 <= c1 * radix2 spec + c2 < k * radix2 spec) by (destruct Hr as [Hr|Hr]; rewrite Hr in *; lia).
  revert Ho. generalize (c1 * radix2 spec + c2) (k * radix2 spec). intros o m Ho.
  destruct Hx as [Ha|Ha Hb|c Ha Hb Hc Hd%kind_code_bounds|Ha Hb Hc Hd|Ha Hb Hc Hd He|Ha Hb Hc Hd He Hf|Ha Hb Hc Hd He Hf];
    rewrite ?Ha, ?Hb, ?Hc, ?Hd, ?He, ?Hf; repeat case_match; simpl; lia.
Qed.

(** The digits can be read off an index. *)
Lemma index_digits_unique o r x o' r' x' spec op d op' d' :
  extra_digit spec op d r x → extra_digit spec op' d' r' x' → o * r + x = o' * r' + x' → r = r' ∧ o = o' ∧ x = x'.
Proof.
  intros H1 H2 Heq.
  pose proof (isempty_bounds (extended_value op)). pose proof (isempty_bounds (extended_value op')).
  pose proof (b2z_bounds (negb (result_type op =? Vm.IS_UNUSED))). pose proof (b2z_bounds (negb (result_type op' =? Vm.IS_UNUSED))).
  pose proof (b2z_bounds (op2 op <=? MAX_ARG_FLAG_NUM)). pose proof (b2z_bounds (op2 op' <=? MAX_ARG_FLAG_NUM)).
  destruct H1; inversion H2; subst; try congruence; try lia;
    repeat match goal with Hk : kind_code _ = Some _ |- _ => apply kind_code_bounds in Hk end; try lia.
  split; [done|]. repeat case_match; lia.
Qed.

Lemma one_extra_rule spec r r' :
  part_ok spec = true → r ∈ EXTRA_RULES → r' ∈ EXTRA_RULES → has_rule spec r = true → has_rule spec r' = true → r = r'.
Proof.
  intros Hok Hr Hr' H H'. unfold part_ok in Hok. rewrite !andb_true_iff in Hok. destruct Hok as [[_ Hl%Nat.leb_le] _].
  assert (Hin : r ∈ extra_rules spec) by (by apply list_elem_of_filter).
  assert (Hin' : r' ∈ extra_rules spec) by (by apply list_elem_of_filter).
  destruct (extra_rules spec) as [|a [|b l]]; [by apply elem_of_nil in Hin| |simpl in Hl; lia].
  apply list_elem_of_singleton in Hin, Hin'. congruence.
Qed.

Ltac two_rules :=
  exfalso; match goal with
  | Hok : part_ok ?s = true, A : has_rule ?s ?a = true, B : has_rule ?s ?b = true |- _ =>
      let H := fresh in
      assert (H : a = b) by (apply (one_extra_rule s a b Hok); [unfold EXTRA_RULES; rewrite !elem_of_cons; tauto..|exact A|exact B]);
      discriminate H
  end.

(** In its part, an index says what the rules look at. *)
Lemma index_alike spec op d op' d' i :
  part_ok spec = true → index spec op d = Some i → index spec op' d' = Some i → alike spec op d op' d'.
Proof.
  intros Hok (c1 & c2 & r & x & H1 & H2 & Hx & ->)%index_digits (c1' & c2' & r' & x' & H1' & H2' & Hx' & Heq)%index_digits.
  apply Z.add_reg_l, eq_sym in Heq. destruct (index_digits_unique _ _ _ _ _ _ _ _ _ _ _ Hx' Hx Heq) as (-> & Ho & ->).
  pose proof (digit_bounds _ _ _ H1). pose proof (digit_bounds _ _ _ H1'). pose proof (digit_bounds _ _ _ H2). pose proof (digit_bounds _ _ _ H2').
  unfold digit1, digit2, radix2 in *.
  assert (c1 = c1' ∧ c2 = c2') as [<- <-] by (destruct (has_rule spec SPEC_RULE_OP2); lia).
  split; intros Hr.
  1,2: rewrite Hr in *; congruence.
  all: destruct Hx; inversion Hx'; subst; try congruence; try two_rules; try lia.
  - assert (Hb : b2z (negb (result_type op =? Vm.IS_UNUSED)) = b2z (negb (result_type op' =? Vm.IS_UNUSED))) by lia.
    apply b2z_inj in Hb. by destruct (result_type op =? _), (result_type op' =? _).
  - by apply b2z_inj.
  - pose proof (one_branch op). pose proof (one_branch op'). repeat case_match; simplify_eq; naive_solver.
Qed.
End index.

(** ** Who shares an entry *)

Section table.
Context (observers : bool) (swap : zend_op → zend_op) (user_opcodes : Z → Z) (literals : gmap Z zval) (num_elements : loc → Z).
Implicit Types (op : zend_op).
Abbreviation set_handler := (zend_vm_set_opcode_handler 0 1 2 3 4 observers swap user_opcodes).
Abbreviation set_handler_ex := (zend_vm_set_opcode_handler_ex 0 1 2 3 4 observers swap user_opcodes literals num_elements).

(** [op] was given its handler, as [op'], by the rules [spec]: from the kinds of the
    operands, or also from what the optimiser knows of their types. *)
Inductive given op (d : Z) : Z → zend_op → Prop :=
| given_by_kinds spec op' :
    spec_of (user_opcodes (opcode op)) = Some spec → set_handler op d = Some op' → given op d spec op'
| given_by_types opline i1 i2 ir default op1 chosen op' :
    spec_of (user_opcodes (opcode op)) = Some default →
    choose swap literals num_elements opline i1 i2 ir op (user_opcodes (opcode op)) = Some (op1, chosen) →
    set_handler_ex opline i1 i2 ir op d = Some op' → given op d (from_option id default chosen) op'.

Lemma spec_listed code spec : spec_of code = Some spec → spec ∈ all_specs.
Proof. unfold spec_of, at_index. case_decide; [|done]. intros Hs%list_elem_of_lookup_2. apply elem_of_app. by left. Qed.

Lemma chosen_listed opline i1 i2 ir op code op' spec :
  choose swap literals num_elements opline i1 i2 ir op code = Some (op', Some spec) → spec ∈ type_specs.
Proof.
  assert (Hlist : ∀ spec, bool_decide (spec ∈ type_specs) = true → spec ∈ type_specs) by (intros ?; apply bool_decide_eq_true).
  unfold choose. intros H.
  repeat match type of H with
  | (if ?code =? ?c then _ else _) = _ => destruct (code =? c); [|]
  end.
  all: unfold choose_sum, choose_difference, choose_test, choose_identity, choose_copy, choose_step in H.
  all: repeat match type of H with
  | (_ ≫= _) = Some _ => apply bind_Some in H as (? & _ & H)
  | (if ?b then _ else _) = _ => destruct b
  end.
  all: injection H as H; repeat case_match; simplify_eq; apply Hlist; vm_compute; reflexivity.
Qed.

Lemma given_index op d spec op' :
  given op d spec op' → spec ∈ all_specs ∧ zend_vm_get_opcode_handler_idx 0 1 2 3 4 observers spec op' d = Some (handler op').
Proof.
  intros [spec' op1 Hspec Hset|opline i1 i2 ir default op1 chosen op2 Hspec Hchoose Hset].
  - split; [by eapply spec_listed|]. unfold zend_vm_set_opcode_handler in Hset. apply bind_Some in Hset as (rules & _ & Hset).
    rewrite Hspec in Hset. apply bind_Some in Hset as (? & [= <-] & Hset). apply bind_Some in Hset as (i & Hi & [= <-]). exact Hi.
  - split.
    { destruct chosen; [apply elem_of_app; right; by eapply chosen_listed|by eapply spec_listed]. }
    unfold zend_vm_set_opcode_handler_ex in Hset. rewrite Hspec, Hchoose in Hset. cbn [mbind option_bind] in Hset.
    apply bind_Some in Hset as (i & Hi & [= <-]). exact Hi.
Qed.

Lemma parts_of spec spec' : spec ∈ all_specs → spec' ∈ all_specs → part_ok spec = true ∧ apart spec spec' = true.
Proof.
  intros H H'. split; [by apply (forallb_elem _ _ _ parts_ok)|].
  pose proof (forallb_elem _ _ _ parts_apart H) as Ha. cbv beta in Ha. by apply (forallb_elem _ _ _ Ha).
Qed.

(** An instruction whose operands, result and opcode are what the compiler emits. *)
Definition emitted op (d : Z) : Prop :=
  0 <= opcode op < 256 ∧ 0 <= user_opcodes (opcode op) < 256 ∧ 0 <= op1_type op <= 8 ∧ 0 <= op2_type op <= 8 ∧ 0 <= d <= 8.

Lemma kind_code_total k : 0 <= k <= 8 → is_Some (kind_code k).
Proof. intros Hk. unfold kind_code, at_index. rewrite decide_True by lia. apply lookup_lt_is_Some_2. simpl. lia. Qed.

Lemma index_total spec op d :
  0 <= op1_type op <= 8 → 0 <= op2_type op <= 8 → 0 <= d <= 8 →
  is_Some (zend_vm_get_opcode_handler_idx 0 1 2 3 4 observers spec op d).
Proof.
  intros [c1 H1]%kind_code_total [c2 H2]%kind_code_total [c3 H3]%kind_code_total. unfold zend_vm_get_opcode_handler_idx.
  change (at_index _) with kind_code. rewrite H1, H2, H3.
  destruct (has_rule spec SPEC_RULE_OP1), (has_rule spec SPEC_RULE_OP2); simpl; repeat case_match; by eexists.
Qed.

Lemma spec_total code : 0 <= code < 256 → is_Some (spec_of code).
Proof. intros H. unfold spec_of, at_index. rewrite decide_True by lia. apply lookup_lt_is_Some_2. change (length specs) with 256%nat. lia. Qed.

Lemma handler_given op d : swaps swap → emitted op d → ∃ spec op', given op d spec op'.
Proof.
  intros Hsw (H0 & Hu & H1 & H2 & Hd). destruct (spec_total _ H0) as [rules Hr], (spec_total _ Hu) as [spec Hs].
  set (op1 := swap_if swap op (has_rule rules SPEC_RULE_COMMUTATIVE && (op1_type op <? op2_type op))).
  assert (is_Some (zend_vm_get_opcode_handler_idx 0 1 2 3 4 observers spec op1 d)) as [i Hi].
  { apply index_total; [..|done]; unfold op1, swap_if; (case_match; [|done]); rewrite (Hsw op); done. }
  exists spec, (with_handler op1 i). constructor; [done|]. unfold zend_vm_set_opcode_handler. rewrite Hr, Hs. cbn [mbind option_bind].
  fold op1. by rewrite Hi.
Qed.

(** C39: An instruction of any opcode and any kinds of operands, with any user
    opcodes and with or without observers, can be given a handler, and the index
    it is given, from the kinds of its operands or also from what is known of
    their types, is inside the table. The index tells instructions apart: two of
    them share an entry only when they were given it by the same rules, those of
    an opcode or of a specialisation, and are alike in everything these rules look
    at: the kinds of the operands and of the data that follows, whether the result
    is used, whether the argument has a quick flag, isset or empty, and the branch
    that follows. *)
Theorem handler_index_identifies :
  swaps swap →
  (∀ op d, emitted op d → ∃ spec op', given op d spec op') ∧
  (∀ x d spec x', given x d spec x' → 0 <= handler x' < zend_handlers_count) ∧
  (∀ x d spec x' y e spec' y', given x d spec x' → given y e spec' y' → handler x' = handler y' → spec = spec' ∧ alike spec x' d y' e).
Proof.
  intros Hsw. split_and!.
  - intros op d. by apply handler_given.
  - intros x d spec x' [Hin Hi]%given_index. destruct (parts_of _ _ Hin Hin) as [Hok _].
    apply index_in_part in Hi. unfold part_ok in Hok. rewrite !andb_true_iff, !Z.leb_le in Hok.
    assert (0 <= part_start spec) by (apply Z.land_nonneg; left; tauto). lia.
  - intros x d spec x' y e spec' y' [Hin Hi]%given_index [Hin' Hi']%given_index Heq. rewrite <- Heq in Hi'.
    destruct (parts_of _ _ Hin Hin') as [Hok Hap]. pose proof (index_in_part _ _ _ _ _ Hi). pose proof (index_in_part _ _ _ _ _ Hi').
    assert (spec = spec') as <- by (unfold apart in Hap; lia). split; [done|]. by eapply index_alike.
Qed.
End table.
