(* ===== verification/ZendVmRuns.v ===== *)
(** * Specialised handlers do the work of the general ones

    An instruction whose handler was chosen for the types of its operands, perhaps with
    its operands exchanged, is compared with the general handler on the instruction as
    it was: they leave the same machine, except for the instruction saved in the frame,
    which only some handlers save. [VmLaws] is what the control macros and the library
    functions are relied on for. *)

From S2P Require Import Prelude ZendTypes ZendArith ZendString Engine ZendAssign ZendConvert ZendFrames ZendSsa ZendVm ZendVmLabels ZendVmSpec.
From Stdlib Require Import SpecFloat.
Import TypeHint Binary64 LongOps SignedMultiply.

(** ** Equality but for the saved instruction *)

Definition same_but_saved {E} (s s' : vst E) : Prop := with_EX_opline 0 s = with_EX_opline 0 s'.
Definition same_outcome {E A} (x y : outcome (vst E) A) : Prop :=
  match x, y with
  | Ret a s, Ret b s' => a = b ∧ same_but_saved s s'
  | Bail s, Bail s' => same_but_saved s s'
  | Undef, Undef => True
  | _, _ => False
  end.

#[global] Instance same_but_saved_equivalence {E} : Equivalence (@same_but_saved E).
Proof. split; unfold same_but_saved; [done|by intros ??|intros ???; congruence]. Qed.
#[global] Instance same_outcome_equivalence {E A} : Equivalence (@same_outcome E A).
Proof.
  split.
  - by intros [].
  - by intros [] []; simpl; intros; destruct_and?; subst.
  - intros [] [] [] H1 H2; simpl in *; destruct_and?; subst; try done; split_and?; try done; by etrans.
Qed.

Lemma same_saved {E} (s s' : vst E) p : same_but_saved s s' → with_EX_opline p s = with_EX_opline p s'.
Proof. destruct s, s'. unfold same_but_saved, with_EX_opline. simpl. intros. by simplify_eq. Qed.
Lemma saved_same {E} (s : vst E) p : same_but_saved (with_EX_opline p s) s.
Proof. done. Qed.

(** A computation that does not look at the saved instruction. *)
Definition ignores_saved {E A} (m : M (vst E) A) : Prop := ∀ s s', same_but_saved s s' → same_outcome (m s) (m s').

(** ** What is relied on *)

(** A number an operand holds. *)
Definition num (z : zval) : option number :=
  match z_value z with
  | VLval l => if (Z_TYPE_INFO z =? IS_LONG) && in_s64 l then Some (NLong l) else None
  | VDval b => if Z_TYPE_INFO z =? IS_DOUBLE then Some (NDouble (double_of_bits b)) else None
  | _ => None
  end.

Class VmLaws (E : Type) {library : VmLibrary E} {macros : VmMacros E} : Prop := {
  next_ignores : ignores_saved (@ZEND_VM_NEXT_OPCODE E macros);
  branch_ignores br b : ignores_saved (@ZEND_VM_SMART_BRANCH E macros br b false);
  jump_ignores a : ignores_saved (@ZEND_VM_JMP_EX E macros a false);
  ptr_ptr_ignores n : ignores_saved (@get_zval_ptr_ptr_var E macros n);
  branch_true br s : ZEND_VM_SMART_BRANCH_TRUE br s = ZEND_VM_SMART_BRANCH br true false s;
  branch_false br s : ZEND_VM_SMART_BRANCH_FALSE br s = ZEND_VM_SMART_BRANCH br false false s;
  (** nothing to check without an exception *)
  branch_unchecked br b s : EG_exception (es_priv (eng s)) = false →
    ZEND_VM_SMART_BRANCH br b true s = ZEND_VM_SMART_BRANCH br b false s;
  (** a jump looks at interrupts, and sets the instruction *)
  jump_uninterrupted a s : EG_vm_interrupt (es_priv (eng s)) = false → ZEND_VM_JMP_EX a false s = Ret () (with_opline a s);
  (** temporaries and variables are slots of the frame *)
  tmp_slot n s : get_zval_ptr_tmp n s = Ret (PVar (ZEND_CALL_VAR (execute_data s) n)) s;
  var_slot n s : get_zval_ptr_var n s = Ret (PVar (ZEND_CALL_VAR (execute_data s) n)) s;
  (** values that are defined and no references need no looking through *)
  var_deref_plain n s z : vm_mem s !! ZEND_CALL_VAR (execute_data s) n = Some z → Z_ISREF z = false →
    get_zval_ptr_var_deref n s = Ret (PVar (ZEND_CALL_VAR (execute_data s) n)) s;
  cv_deref_plain n s z : vm_mem s !! ZEND_CALL_VAR (execute_data s) n = Some z → Z_ISREF z = false → Z_ISUNDEF z = false →
    get_zval_ptr_cv_deref_BP_VAR_R n s = Ret (PVar (ZEND_CALL_VAR (execute_data s) n)) s;
  tmpvarcv_plain kind n s z : vm_mem s !! ZEND_CALL_VAR (execute_data s) n = Some z → Z_ISREF z = false → Z_ISUNDEF z = false →
    get_zval_ptr_tmpvarcv kind n s = Ret (PVar (ZEND_CALL_VAR (execute_data s) n)) s;
  cv_defined n s z : vm_mem s !! ZEND_CALL_VAR (execute_data s) n = Some z → Z_ISUNDEF z = false →
    get_zval_ptr_cv_BP_VAR_R n s = Ret (PVar (ZEND_CALL_VAR (execute_data s) n)) s;
  (** [xor] of two integers stores a boolean, the same in either order *)
  xor_longs literals r p1 p2 s z1 z2 a b :
    load literals p1 s = Ret z1 s → load literals p2 s = Ret z2 s → num z1 = Some (NLong a) → num z2 = Some (NLong b) →
    ∃ c : bool, binary_function boolean_xor_function (PVar r) p1 p2 s = update literals (PVar r) (λ z, ZVAL_BOOL z c) s ∧
                binary_function boolean_xor_function (PVar r) p2 p1 s = update literals (PVar r) (λ z, ZVAL_BOOL z c) s;
  (** [===] on numbers, and in either order on what is not two arrays *)
  identical_longs z1 z2 a b e : zval_get_type z1 = IS_LONG → zval_get_type z2 = IS_LONG → Z_LVAL z1 = Some a → Z_LVAL z2 = Some b →
    zend_is_identical z1 z2 e = Ret (a =? b) e;
  identical_doubles z1 z2 a b e : zval_get_type z1 = IS_DOUBLE → zval_get_type z2 = IS_DOUBLE →
    Z_DVAL_BITS z1 = Some a → Z_DVAL_BITS z2 = Some b → zend_is_identical z1 z2 e = Ret (SFeqb (double_of_bits a) (double_of_bits b)) e;
  identical_sym z1 z2 e : zval_get_type z1 ≠ IS_ARRAY ∨ zval_get_type z2 ≠ IS_ARRAY →
    zend_is_identical z1 z2 e = zend_is_identical z2 z1 e;
  (** of two arrays one of which is empty, both have to be *)
  identical_empty z1 z2 l1 l2 e : zval_get_type z1 = IS_ARRAY → zval_get_type z2 = IS_ARRAY →
    Z_COUNTED z1 = Some l1 → Z_COUNTED z2 = Some l2 →
    zend_hash_num_elements (es_priv e) l1 = 0 ∨ zend_hash_num_elements (es_priv e) l2 = 0 →
    zend_is_identical z1 z2 e = Ret (zend_hash_num_elements (es_priv e) l1 =? zend_hash_num_elements (es_priv e) l2) e;
  (** comparing never throws *)
  identical_quiet z1 z2 e b e' : zend_is_identical z1 z2 e = Ret b e' → EG_exception (es_priv e') = EG_exception (es_priv e) }.

(** ** Operands that are numbers *)

(** Operations and tests on two numbers. *)
Definition on_numbers {A} (on_longs : Z → Z → A) (on_doubles : double → double → A) (m n : number) : A :=
  match m, n with
  | NLong a, NLong b => on_longs a b
  | NLong a, NDouble e => on_doubles (of_long a) e
  | NDouble d, NLong b => on_doubles d (of_long b)
  | NDouble d, NDouble e => on_doubles d e
  end.
Definition arith (long_op : Z → Z → number) (double_op : double → double → double) : number → number → number :=
  on_numbers long_op (λ d e, NDouble (double_op d e)).

Lemma num_cases z n : num z = Some n →
  (Z_TYPE_INFO z = IS_LONG ∧ ∃ l, z_value z = VLval l ∧ n = NLong l ∧ in_s64 l = true) ∨
  (Z_TYPE_INFO z = IS_DOUBLE ∧ ∃ b, z_value z = VDval b ∧ n = NDouble (double_of_bits b)).
Proof.
  unfold num. intros H. destruct (z_value z); try done.
  - left. destruct (Z.eqb_spec (Z_TYPE_INFO z) IS_LONG); [|done]. destruct (in_s64 lval) eqn:?; simplify_eq/=. eauto 8.
  - right. destruct (Z.eqb_spec (Z_TYPE_INFO z) IS_DOUBLE); simplify_eq. eauto.
Qed.

Lemma long_type z : Z_TYPE_INFO z = IS_LONG → zval_get_type z = IS_LONG.
Proof. unfold zval_get_type. by intros ->. Qed.
Lemma double_type z : Z_TYPE_INFO z = IS_DOUBLE → zval_get_type z = IS_DOUBLE.
Proof. unfold zval_get_type. by intros ->. Qed.

Section numbers.
Context {E : Type} {engine : ZendEngine E} {library : VmLibrary E} {macros : VmMacros E} {laws : VmLaws E}.
Context (literals : gmap Z zval) (br : branch).
Implicit Types (op : zend_op) (s : vst E) (z : zval).

Definition ptr_of s (kind node : Z) : zptr :=
  if kind =? IS_CONST then PConst (RT_CONSTANT (opline s) node) else PVar (ZEND_CALL_VAR (execute_data s) node).
Definition operand s (kind node : Z) : option zval :=
  if kind =? IS_CONST then literals !! RT_CONSTANT (opline s) node else vm_mem s !! ZEND_CALL_VAR (execute_data s) node.

Lemma bind_ret {A B} (m : M (vst E) A) (f : A → M (vst E) B) s a s' : m s = Ret a s' → (m ≫= f) s = f a s'.
Proof. intros H. unfold mbind, M_bind. by rewrite H. Qed.

Lemma bind_ext {A B} (m m' : M (vst E) A) (f : A → M (vst E) B) s : m s = m' s → (m ≫= f) s = (m' ≫= f) s.
Proof. intros H. unfold mbind, M_bind. by rewrite H. Qed.
Lemma bind_assoc_at {A B C} (m : M (vst E) A) (f : A → M (vst E) B) (g : B → M (vst E) C) s :
  ((m ≫= f) ≫= g) s = (m ≫= λ a, f a ≫= g) s.
Proof. unfold mbind, M_bind. by destruct (m s). Qed.

Lemma get_merged s kind node : get_undef_merged kind node s = Ret (ptr_of s kind node) s.
Proof. unfold get_undef_merged, ptr_of. by destruct (kind =? IS_CONST). Qed.
Lemma get_tmpvar s kind node : get_undef_tmpvar kind node s = Ret (ptr_of s kind node) s.
Proof using laws. unfold get_undef_tmpvar, ptr_of. repeat case_match; try done. by rewrite var_slot. Qed.
Lemma get_each s kind node : get_undef_each kind node s = Ret (ptr_of s kind node) s.
Proof using laws. unfold get_undef_each, ptr_of. repeat case_match; rewrite ?tmp_slot, ?var_slot; done. Qed.
Lemma load_operand s kind node z : operand s kind node = Some z → load literals (ptr_of s kind node) s = Ret z s.
Proof.
  unfold operand, ptr_of. destruct (kind =? IS_CONST); intros H; unfold load; [by rewrite H|].
  unfold mbind, M_bind, gets. by rewrite H.
Qed.

Lemma load_type_info s p z : load literals p s = Ret z s → Z_TYPE_INFO_P literals p s = Ret (Z_TYPE_INFO z) s.
Proof. intros H. unfold Z_TYPE_INFO_P. by rewrite (bind_ret _ _ _ _ _ H). Qed.
Lemma load_type s p z : load literals p s = Ret z s → Z_TYPE_P literals p s = Ret (zval_get_type z) s.
Proof. intros H. unfold Z_TYPE_P. by rewrite (bind_ret _ _ _ _ _ H). Qed.
Lemma load_lval s p z l : load literals p s = Ret z s → z_value z = VLval l → Z_LVAL_P literals p s = Ret l s.
Proof. intros H Hz. unfold Z_LVAL_P. rewrite (bind_ret _ _ _ _ _ H). unfold Z_LVAL. by rewrite Hz. Qed.
Lemma load_dval s p z b : load literals p s = Ret z s → z_value z = VDval b → Z_DVAL_P literals p s = Ret (double_of_bits b) s.
Proof.
  intros H Hz. unfold Z_DVAL_P. rewrite (bind_ret _ _ _ _ _ H). unfold Z_DVAL_BITS. by rewrite Hz.
Qed.

(** What is done with the result of an operation on two numbers. *)
Definition number_result op (n : number) : M (vst E) () :=
  r ← EX_VAR (result op); store_number literals r n;; ZEND_VM_NEXT_OPCODE.

Ltac run1 :=
  match goal with
  | H : load literals ?p ?s = Ret ?z ?s |- context [mbind _ (Z_TYPE_INFO_P literals ?p) ?s] =>
      rewrite (bind_ret _ _ s _ s (load_type_info _ _ _ H))
  | H : load literals ?p ?s = Ret ?z ?s |- context [mbind _ (Z_TYPE_P literals ?p) ?s] =>
      rewrite (bind_ret _ _ s _ s (load_type _ _ _ H))
  | H : load literals ?p ?s = Ret ?z ?s, Hz : z_value ?z = VLval _ |- context [mbind _ (Z_LVAL_P literals ?p) ?s] =>
      rewrite (bind_ret _ _ s _ s (load_lval _ _ _ _ H Hz))
  | H : load literals ?p ?s = Ret ?z ?s, Hz : z_value ?z = VDval _ |- context [mbind _ (Z_DVAL_P literals ?p) ?s] =>
      rewrite (bind_ret _ _ s _ s (load_dval _ _ _ _ H Hz))
  | H : load literals ?p ?s = Ret ?z ?s |- context [mbind _ (load literals ?p) ?s] => rewrite (bind_ret _ _ s _ s H)
  | |- context [mbind _ (get_undef_merged ?k ?n) ?s] => rewrite (bind_ret _ _ s _ s (get_merged s k n))
  | |- context [mbind _ (get_undef_tmpvar ?k ?n) ?s] => rewrite (bind_ret _ _ s _ s (get_tmpvar s k n))
  | |- context [mbind _ (get_undef_each ?k ?n) ?s] => rewrite (bind_ret _ _ s _ s (get_each s k n))
  | |- context [mbind _ (EX_VAR ?n) ?s] =>
      rewrite (bind_ret (EX_VAR n) _ s (PVar (ZEND_CALL_VAR (execute_data s) n)) s eq_refl)
  end.
Ltac run := repeat (run1; cbn beta).
Ltac type_words :=
  repeat match goal with
    | H : Z_TYPE_INFO ?z = _ |- context [Z_TYPE_INFO ?z] => rewrite H
    | H : Z_TYPE_INFO ?z = IS_LONG |- context [zval_get_type ?z] => rewrite (long_type z H)
    | H : Z_TYPE_INFO ?z = IS_DOUBLE |- context [zval_get_type ?z] => rewrite (double_type z H)
    end;
  cbn [Z.eqb Pos.eqb IS_LONG IS_DOUBLE].

Section two_numbers.
Context (op : zend_op) (s : vst E) (z1 z2 : zval) (m n : number).
Context (H1 : operand s (op1_type op) (op1 op) = Some z1) (H2 : operand s (op2_type op) (op2 op) = Some z2)
  (Hm : num z1 = Some m) (Hn : num z2 = Some n).

Lemma arith_numbers long_op double_op helper :
  CONST_CONST op = false →
  arith_handler literals long_op double_op helper op s = number_result op (arith long_op double_op m n) s.
Proof using H1 H2 Hm Hn.
  intros HC. apply load_operand in H1, H2. unfold arith_handler. run. rewrite HC.
  destruct (num_cases _ _ Hm) as [(T1 & a & V1 & -> & _)|(T1 & a & V1 & ->)], (num_cases _ _ Hn) as [(T2 & b & V2 & -> & _)|(T2 & b & V2 & ->)].
  all: run; type_words; run; type_words; run; unfold double_result, number_result; run; done.
Qed.

Lemma smart_branch b t : smart br b t = ZEND_VM_SMART_BRANCH br b false t.
Proof using laws. clear H1 H2 Hm Hn. destruct b; simpl; [apply branch_true|apply branch_false]. Qed.

Lemma order_numbers long_test double_test helper :
  CONST_CONST op = false →
  order_handler literals br long_test double_test helper op s =
    ZEND_VM_SMART_BRANCH br (on_numbers long_test double_test m n) false s.
Proof using laws H1 H2 Hm Hn.
  intros HC. apply load_operand in H1, H2. unfold order_handler, compare_numbers. run. rewrite HC.
  destruct (num_cases _ _ Hm) as [(T1 & a & V1 & -> & _)|(T1 & a & V1 & ->)], (num_cases _ _ Hn) as [(T2 & b & V2 & -> & _)|(T2 & b & V2 & ->)].
  all: run; type_words; run; type_words; run; apply smart_branch.
Qed.

Lemma equal_numbers long_test double_test test helper :
  CONST_CONST op = false →
  equal_handler literals br long_test double_test test helper op s =
    ZEND_VM_SMART_BRANCH br (on_numbers long_test double_test m n) false s.
Proof using laws H1 H2 Hm Hn.
  intros HC. apply load_operand in H1, H2. unfold equal_handler, compare_numbers. run. rewrite HC.
  destruct (num_cases _ _ Hm) as [(T1 & a & V1 & -> & _)|(T1 & a & V1 & ->)], (num_cases _ _ Hn) as [(T2 & b & V2 & -> & _)|(T2 & b & V2 & ->)].
  all: run; type_words; run; type_words; run; apply smart_branch.
Qed.

(** The specialised handlers on the same operands. *)
Lemma longs_numbers long_op a b :
  m = NLong a → n = NLong b → longs_handler literals long_op op s = number_result op (long_op a b) s.
Proof using H1 H2 Hm Hn.
  intros -> ->. apply load_operand in H1, H2. unfold longs_handler, number_result. run.
  destruct (num_cases _ _ Hm) as [(T1 & ? & V1 & ? & _)|(T1 & ? & V1 & ?)], (num_cases _ _ Hn) as [(T2 & ? & V2 & ? & _)|(T2 & ? & V2 & ?)];
    simplify_eq. run. done.
Qed.
Lemma no_overflow_numbers long_op a b :
  m = NLong a → n = NLong b → in_s64 (long_op a b) = true →
  no_overflow_handler literals long_op op s = number_result op (NLong (long_op a b)) s.
Proof using H1 H2 Hm Hn.
  intros -> -> Hin. apply load_operand in H1, H2. unfold no_overflow_handler, number_result. run.
  destruct (num_cases _ _ Hm) as [(T1 & ? & V1 & ? & _)|(T1 & ? & V1 & ?)], (num_cases _ _ Hn) as [(T2 & ? & V2 & ? & _)|(T2 & ? & V2 & ?)];
    simplify_eq. run. unfold c_long. by rewrite Hin.
Qed.
Lemma doubles_numbers double_op d e :
  m = NDouble d → n = NDouble e → doubles_handler literals double_op op s = number_result op (NDouble (double_op d e)) s.
Proof using H1 H2 Hm Hn.
  intros -> ->. apply load_operand in H1, H2. unfold doubles_handler, number_result. run.
  destruct (num_cases _ _ Hm) as [(T1 & ? & V1 & ? & _)|(T1 & ? & V1 & ?)], (num_cases _ _ Hn) as [(T2 & ? & V2 & ? & _)|(T2 & ? & V2 & ?)];
    simplify_eq. run. done.
Qed.
Lemma test_longs_numbers long_test a b :
  m = NLong a → n = NLong b → test_longs_handler literals br long_test op s = ZEND_VM_SMART_BRANCH br (long_test a b) false s.
Proof using H1 H2 Hm Hn.
  intros -> ->. apply load_operand in H1, H2. unfold test_longs_handler. run.
  destruct (num_cases _ _ Hm) as [(T1 & ? & V1 & ? & _)|(T1 & ? & V1 & ?)], (num_cases _ _ Hn) as [(T2 & ? & V2 & ? & _)|(T2 & ? & V2 & ?)];
    simplify_eq. run. done.
Qed.
Lemma test_doubles_numbers double_test d e :
  m = NDouble d → n = NDouble e → test_doubles_handler literals br double_test op s = ZEND_VM_SMART_BRANCH br (double_test d e) false s.
Proof using H1 H2 Hm Hn.
  intros -> ->. apply load_operand in H1, H2. unfold test_doubles_handler. run.
  destruct (num_cases _ _ Hm) as [(T1 & ? & V1 & ? & _)|(T1 & ? & V1 & ?)], (num_cases _ _ Hn) as [(T2 & ? & V2 & ? & _)|(T2 & ? & V2 & ?)];
    simplify_eq. run. done.
Qed.
Lemma long_handler_numbers fast helper a b k :
  m = NLong a → n = NLong b → CONST_CONST op = false → fast op a b = Some k → long_handler literals fast helper op s = k s.
Proof using H1 H2 Hm Hn.
  intros -> -> HC Hf. apply load_operand in H1, H2. unfold long_handler. run. rewrite HC.
  destruct (num_cases _ _ Hm) as [(T1 & ? & V1 & ? & _)|(T1 & ? & V1 & ?)], (num_cases _ _ Hn) as [(T2 & ? & V2 & ? & _)|(T2 & ? & V2 & ?)];
    simplify_eq. run; type_words; run; type_words; run. by rewrite Hf.
Qed.
End two_numbers.

(** *** Identity *)

Definition plain (z : zval) : Prop := Z_ISREF z = false ∧ Z_ISUNDEF z = false.
(** Nothing is freed: the operand is no temporary, or its value is not counted. *)
Definition unfreed (kind : Z) (z : zval) : Prop := Z.land kind IS_TMP_OR_VAR = 0 ∨ Z_REFCOUNTED z = false.

Lemma num_plain z n : num z = Some n → plain z ∧ Z_REFCOUNTED z = false.
Proof.
  intros [(T & _)|(T & _)]%num_cases; unfold plain, Z_ISREF, Z_ISUNDEF, Z_REFCOUNTED, Z_TYPE_FLAGS, zval_get_type; by rewrite T.
Qed.

Lemma operand_saved s kind node p : operand (with_EX_opline p s) kind node = operand s kind node.
Proof. done. Qed.

Lemma get_deref_plain s kind node z :
  kind ∈ VALUES → operand s kind node = Some z → plain z → get_deref kind node s = Ret (ptr_of s kind node) s.
Proof using laws.
  unfold operand, ptr_of, get_deref. intros Hk H [Hr Hu].
  destruct (Z.eqb_spec kind IS_CONST) as [->|Hc]; [done|].
  destruct (Z.eqb_spec kind IS_TMP_VAR) as [->|Ht]; [apply tmp_slot|].
  destruct (Z.eqb_spec kind IS_VAR) as [->|Hv]; [by eapply var_deref_plain|by eapply cv_deref_plain].
Qed.

Lemma free_unfreed s kind node z :
  (kind =? IS_CONST) = false → operand s kind node = Some z → unfreed kind z → FREE_OP literals kind node s = Ret () s.
Proof.
  unfold operand, FREE_OP, free_ptr. intros -> H Hu. run.
  destruct (Z.eqb_spec (Z.land kind IS_TMP_OR_VAR) 0) as [|Hn]; [done|]. destruct Hu as [|Hu]; [done|].
  assert (Hl : load literals (PVar (ZEND_CALL_VAR (execute_data s) node)) s = Ret z s).
  { unfold load, mbind, M_bind, gets. by rewrite H. }
  run. unfold on_engine, zval_ptr_dtor_nogc. rewrite Hu. cbn. by destruct s.
Qed.
Lemma free_operand s kind node z :
  operand s kind node = Some z → unfreed kind z → FREE_OP literals kind node s = Ret () s.
Proof.
  destruct (kind =? IS_CONST) eqn:Hc; [|by apply free_unfreed]. intros _ _. apply Z.eqb_eq in Hc as ->. done.
Qed.

(** *** Exclusive or *)

Lemma load_slot s a z : vm_mem s !! a = Some z → load literals (PVar a) s = Ret z s.
Proof. intros H. unfold load, mbind, M_bind, gets. by rewrite H. Qed.
Lemma update_slot s a z f :
  vm_mem s !! a = Some z → update literals (PVar a) f s = Ret () (with_mem (<[a := f z]> (vm_mem s)) s).
Proof.
  intros H. unfold update. rewrite (bind_ret _ _ _ _ _ (load_slot _ _ _ H)). unfold store, mbind, M_bind, gets. by rewrite H.
Qed.

Lemma get_ptr_plain s kind node z :
  operand s kind node = Some z → plain z → get_ptr kind node s = Ret (ptr_of s kind node) s.
Proof using laws.
  unfold operand, ptr_of, get_ptr. intros H [_ Hu]. destruct (kind =? IS_CONST); [done|].
  case_match; [by rewrite var_slot|by eapply cv_defined].
Qed.
(** An operand that may have been overwritten by an uncounted result is not freed. *)
Lemma free_after_update s a v kind node z :
  operand s kind node = Some z → Z_REFCOUNTED z = false → Z_REFCOUNTED v = false →
  FREE_OP literals kind node (with_mem (<[a := v]> (vm_mem s)) s) = Ret () (with_mem (<[a := v]> (vm_mem s)) s).
Proof.
  intros Hz Hr Hv. set (s' := with_mem _ s). destruct (Z.eqb_spec kind IS_CONST) as [->|Hc]; [done|].
  assert (∃ z', operand s' kind node = Some z' ∧ Z_REFCOUNTED z' = false) as (z' & Hz' & Hr').
  { unfold operand in *. rewrite (proj2 (Z.eqb_neq _ _) Hc) in *. simpl.
    destruct (decide (a = ZEND_CALL_VAR (execute_data s) node)) as [->|Hne]; [rewrite lookup_insert_eq; eauto|].
    rewrite lookup_insert_ne by done. eauto. }
  eapply free_unfreed; [by apply Z.eqb_neq|exact Hz'|by right].
Qed.

Lemma xor_runs op s z1 z2 a b (c : bool) :
  operand s (op1_type op) (op1 op) = Some z1 → operand s (op2_type op) (op2 op) = Some z2 →
  num z1 = Some (NLong a) → num z2 = Some (NLong b) →
  let s1 := with_EX_opline (opline s) s in let r := PVar (ZEND_CALL_VAR (execute_data s) (result op)) in
  binary_function boolean_xor_function r (ptr_of s (op1_type op) (op1 op)) (ptr_of s (op2_type op) (op2 op)) s1 =
    update literals r (λ z, ZVAL_BOOL z c) s1 →
  ZEND_BOOL_XOR literals op s = (update literals r (λ z, ZVAL_BOOL z c);; ZEND_VM_NEXT_OPCODE_CHECK_EXCEPTION) s1.
Proof using laws.
  intros H1 H2 N1 N2 s1 r Hx. destruct (num_plain _ _ N1) as [P1 R1], (num_plain _ _ N2) as [P2 R2]. unfold ZEND_BOOL_XOR, library_handler.
  rewrite (bind_ret SAVE_OPLINE _ s () s1 eq_refl). cbn beta.
  change (operand s1 (op1_type op) (op1 op) = Some z1) in H1. change (operand s1 (op2_type op) (op2 op) = Some z2) in H2.
  rewrite (bind_ret _ _ s1 _ s1 (get_ptr_plain _ _ _ _ H1 P1)). cbn beta. rewrite (bind_ret _ _ s1 _ s1 (get_ptr_plain _ _ _ _ H2 P2)).
  run. rewrite (bind_ext _ (update literals r (λ z, ZVAL_BOOL z c)) _ s1 Hx). set (f := λ z, ZVAL_BOOL z c).
  destruct (vm_mem s1 !! ZEND_CALL_VAR (execute_data s1) (result op)) as [z|] eqn:Hr.
  - assert (Hf : Z_REFCOUNTED (f z) = false) by (unfold f; by destruct c).
    rewrite !(bind_ret _ _ _ _ _ (update_slot _ _ _ f Hr)).
    rewrite (bind_ret (FREE_OP _ _ _) _ _ () _ (free_after_update _ _ (f z) _ _ _ H1 R1 Hf)). cbn beta.
    rewrite (bind_ret (FREE_OP _ _ _) _ _ () _ (free_after_update _ _ (f z) _ _ _ H2 R2 Hf)). done.
  - unfold r, update, load, mbind, M_bind, gets. change (execute_data s) with (execute_data s1). by rewrite Hr.
Qed.

(** A comparison in the engine, then the branch. *)
Definition branch_on (m : M (es E) bool) s : outcome (vst E) () :=
  match m (eng s) with
  | Ret b e => ZEND_VM_SMART_BRANCH br b false (with_eng e s)
  | Bail e => Bail (with_eng e s)
  | Undef => Undef
  end.

Lemma identical_general op s z1 z2 (f : zval → zval → M (es E) bool) :
  op1_type op ∈ VALUES → op2_type op ∈ VALUES →
  operand s (op1_type op) (op1 op) = Some z1 → operand s (op2_type op) (op2 op) = Some z2 →
  plain z1 → plain z2 → unfreed (op1_type op) z1 → unfreed (op2_type op) z2 →
  EG_exception (es_priv (eng s)) = false →
  (∀ e b e', f z1 z2 e = Ret b e' → EG_exception (es_priv e') = EG_exception (es_priv e)) →
  same_outcome (identical_handler literals br f true op s) (branch_on (f z1 z2) s).
Proof using laws.
  intros K1 K2 H1 H2 P1 P2 U1 U2 Hex Hq. unfold identical_handler.
  rewrite (bind_ret SAVE_OPLINE _ s () (with_EX_opline (opline s) s) eq_refl). cbn beta.
  set (s1 := with_EX_opline (opline s) s). change (operand s1 (op1_type op) (op1 op) = Some z1) in H1.
  change (operand s1 (op2_type op) (op2 op) = Some z2) in H2.
  rewrite (bind_ret _ _ s1 _ s1 (get_deref_plain _ _ _ _ K1 H1 P1)). cbn beta.
  rewrite (bind_ret _ _ s1 _ s1 (get_deref_plain _ _ _ _ K2 H2 P2)). cbn beta.
  rewrite (bind_ret _ _ s1 _ s1 (load_operand _ _ _ _ H1)). cbn beta.
  rewrite (bind_ret _ _ s1 _ s1 (load_operand _ _ _ _ H2)). cbn beta.
  unfold branch_on. destruct (f z1 z2 (eng s)) as [b e|e|] eqn:Hf.
  - set (s2 := with_eng e s1).
    rewrite (bind_ret (on_engine (f z1 z2)) _ s1 b s2) by (unfold on_engine; change (eng s1) with (eng s); by rewrite Hf).
    cbn beta. change (operand s2 (op1_type op) (op1 op) = Some z1) in H1. change (operand s2 (op2_type op) (op2 op) = Some z2) in H2.
    rewrite (bind_ret _ _ s2 _ s2 (free_operand _ _ _ _ H1 U1)). cbn beta.
    rewrite (bind_ret _ _ s2 _ s2 (free_operand _ _ _ _ H2 U2)). cbn beta.
    rewrite branch_unchecked by (change (EG_exception (es_priv e) = false); rewrite (Hq _ _ _ Hf); done).
    by apply branch_ignores.
  - unfold on_engine, mbind at 1, M_bind. change (eng s1) with (eng s). by rewrite Hf.
  - unfold on_engine, mbind at 1, M_bind. change (eng s1) with (eng s). by rewrite Hf.
Qed.

(** Values [===] compares in either order: not two arrays, or one of them is empty. The
    comparison of two arrays with elements may end differently in either order when they
    contain themselves. *)
Definition comparable (e : E) (z1 z2 : zval) : Prop :=
  zval_get_type z1 = IS_ARRAY → zval_get_type z2 = IS_ARRAY →
  ∃ l1 l2, Z_COUNTED z1 = Some l1 ∧ Z_COUNTED z2 = Some l2 ∧ (zend_hash_num_elements e l1 = 0 ∨ zend_hash_num_elements e l2 = 0).

Lemma identical_comm z1 z2 e :
  comparable (es_priv e) z1 z2 → fast_is_identical_function z1 z2 e = fast_is_identical_function z2 z1 e.
Proof using laws.
  intros H. unfold fast_is_identical_function. rewrite (Z.eqb_sym (zval_get_type z2)).
  destruct (Z.eqb_spec (zval_get_type z1) (zval_get_type z2)) as [Ht|]; [|done]. simpl. rewrite Ht. case_match; [done|].
  destruct (decide (zval_get_type z2 = IS_ARRAY)) as [Ha|]; [|apply identical_sym; by right]. rewrite <- Ht in Ha.
  destruct (H Ha) as (l1 & l2 & H1 & H2 & Hn); [congruence|].
  rewrite (identical_empty z1 z2 l1 l2), (identical_empty z2 z1 l2 l1) by (congruence || tauto). f_equal. apply Z.eqb_sym.
Qed.
Lemma not_identical_negates z1 z2 e :
  fast_is_not_identical_function z1 z2 e = (b ← fast_is_identical_function z1 z2; mret (negb b)) e.
Proof. unfold fast_is_identical_function, fast_is_not_identical_function. repeat case_match; done. Qed.
Lemma fast_identical_quiet z1 z2 e b e' :
  fast_is_identical_function z1 z2 e = Ret b e' → EG_exception (es_priv e') = EG_exception (es_priv e).
Proof using laws.
  unfold fast_is_identical_function. repeat case_match; [by injection 1 as <- <-..|apply identical_quiet].
Qed.
Lemma fast_not_identical_quiet z1 z2 e b e' :
  fast_is_not_identical_function z1 z2 e = Ret b e' → EG_exception (es_priv e') = EG_exception (es_priv e).
Proof using laws.
  rewrite not_identical_negates. unfold mbind, M_bind. destruct (fast_is_identical_function z1 z2 e) eqn:H; [|done..].
  injection 1 as <- <-. by eapply fast_identical_quiet.
Qed.

(** On numbers, two integers or two doubles can be identical. *)
Definition identical_numbers (m n : number) : bool :=
  match m, n with NLong a, NLong b => a =? b | NDouble d, NDouble e => SFeqb d e | _, _ => false end.
Lemma identical_on_numbers z1 z2 m n e :
  num z1 = Some m → num z2 = Some n → fast_is_identical_function z1 z2 e = Ret (identical_numbers m n) e.
Proof using laws.
  intros [(T1 & a & V1 & -> & _)|(T1 & a & V1 & ->)]%num_cases [(T2 & b & V2 & -> & _)|(T2 & b & V2 & ->)]%num_cases;
    unfold fast_is_identical_function; type_words; try done.
  - apply identical_longs; [by apply long_type..|unfold Z_LVAL; by rewrite V1|unfold Z_LVAL; by rewrite V2].
  - apply identical_doubles; [by apply double_type..|unfold Z_DVAL_BITS; by rewrite V1|unfold Z_DVAL_BITS; by rewrite V2].
Qed.

Lemma branch_on_value (m : M (es E) bool) b s : m (eng s) = Ret b (eng s) → branch_on m s = ZEND_VM_SMART_BRANCH br b false s.
Proof. unfold branch_on. intros ->. by destruct s. Qed.

Lemma nothrow_runs op s z1 z2 (test : bool → bool) :
  (op1_type op =? IS_CONST) = false → operand s (op1_type op) (op1 op) = Some z1 → operand s (op2_type op) (op2 op) = Some z2 →
  nothrow_handler literals br test op s = branch_on (b ← fast_is_identical_function z1 z2; mret (test b)) s.
Proof.
  intros K1 H1 H2. unfold nothrow_handler. run. unfold operand in H1. rewrite K1 in H1. apply load_operand in H2.
  assert (Hl : load literals (PVar (ZEND_CALL_VAR (execute_data s) (op1 op))) s = Ret z1 s).
  { unfold load, mbind, M_bind, gets. by rewrite H1. }
  run. unfold branch_on, on_engine, mbind, M_bind. by destruct (fast_is_identical_function z1 z2 (eng s)).
Qed.

(** *** Increments and decrements of compiled variables *)

Lemma in_s64_small (l : Z) : in_s64 l = true → s64 l = l.
Proof. intros H. apply s64_spec. by apply in_s64_spec. Qed.

Lemma update_ext p f g s : (∀ z, f z = g z) → update literals p f s = update literals p g s.
Proof. intros H. unfold update, mbind, M_bind. destruct (load literals p s); [by rewrite H|done..]. Qed.

Section step.
Context (op : zend_op) (s : vst E) (z : zval) (l : Z).
Context (Hop : op1_type op = IS_CV) (Hz : operand s (op1_type op) (op1 op) = Some z) (Hl : num z = Some (NLong l)).

Local Lemma variable : vm_mem s !! ZEND_CALL_VAR (execute_data s) (op1 op) = Some z ∧ Z_TYPE_INFO z = IS_LONG ∧ z_value z = VLval l.
Proof using Hop Hz Hl.
  rewrite Hop in Hz. split; [done|]. destruct (num_cases _ _ Hl) as [(T & a & V & Hn & _)|(T & a & V & Hn)]; simplify_eq. done.
Qed.

Lemma pre_step fast helper : pre_handler literals fast helper op s = pre_long_handler literals fast op s.
Proof using Hop Hz Hl.
  destruct variable as (Hs & T & V). unfold pre_handler, pre_long_handler, get_ptr_ptr. rewrite Hop.
  change (IS_CV =? IS_VAR) with false. cbv iota. run. apply load_slot in Hs. run; type_words; run. done.
Qed.
Lemma post_step fast helper : post_handler literals fast helper op s = post_long_handler literals fast op s.
Proof using Hop Hz Hl.
  destruct variable as (Hs & T & V). unfold post_handler, post_long_handler, get_ptr_ptr. rewrite Hop.
  change (IS_CV =? IS_VAR) with false. cbv iota. run. apply load_slot in Hs. run; type_words; run. done.
Qed.

Lemma pre_step_fits fast step :
  in_s64 (step l) = true → fast l = NLong (step l) →
  pre_no_overflow_handler literals step op s = pre_long_handler literals fast op s.
Proof using Hop Hz Hl.
  intros Hin Hf. destruct variable as (Hs & T & V). unfold pre_no_overflow_handler, pre_long_handler. run.
  pose proof (load_slot _ _ _ Hs) as Hload. run. unfold c_long. rewrite Hin, Hf. cbn [need].
  rewrite (bind_ret (mret (step l)) _ s (step l) s eq_refl). cbn beta. unfold store_number_in_place, store_lval.
  rewrite !(bind_ret _ _ _ _ _ (update_slot _ _ _ _ Hs)). cbn beta.
  set (s' := with_mem _ s). assert (Hs' : vm_mem s' !! ZEND_CALL_VAR (execute_data s) (op1 op) = Some (Zval (VLval (step l)) (Z_TYPE_INFO z) (Z_EXTRA z))).
  { apply lookup_insert_eq. }
  destruct (RETURN_VALUE_USED op); [|done]. apply bind_ext. run. apply load_slot in Hs'. unfold copy_value.
  change (execute_data s') with (execute_data s). unfold Z_LVAL_P. rewrite !bind_assoc_at.
  rewrite (bind_ret _ _ _ _ _ Hs'), (bind_ret _ _ _ _ _ Hs'). apply update_ext. intros z'. unfold ZVAL_COPY_VALUE. cbn. by rewrite T.
Qed.
Lemma post_step_fits fast step :
  in_s64 (step l) = true → fast l = NLong (step l) →
  post_no_overflow_handler literals step op s = post_long_handler literals fast op s.
Proof using Hop Hz Hl.
  intros Hin Hf. destruct variable as (Hs & T & V). unfold post_no_overflow_handler, post_long_handler. run.
  pose proof (load_slot _ _ _ Hs) as Hload. run.
  unfold store_long. destruct (vm_mem s !! ZEND_CALL_VAR (execute_data s) (result op)) as [r|] eqn:Hr.
  - rewrite !(bind_ret _ _ _ _ _ (update_slot _ _ _ _ Hr)). cbn beta. set (s' := with_mem _ s).
    assert (Hs' : ∃ z', load literals (PVar (ZEND_CALL_VAR (execute_data s) (op1 op))) s' = Ret z' s' ∧ z_value z' = VLval l).
    { destruct (decide (ZEND_CALL_VAR (execute_data s) (result op) = ZEND_CALL_VAR (execute_data s) (op1 op))) as [Heq|Hne].
      - exists (ZVAL_LONG r l). split; [|done]. apply load_slot. cbn. rewrite Heq. apply lookup_insert_eq.
      - exists z. split; [|done]. apply load_slot. cbn. by rewrite lookup_insert_ne. }
    destruct Hs' as (z' & Hs' & V'). run. unfold c_long. by rewrite Hin, Hf.
  - unfold update, load, mbind, M_bind, gets. by rewrite Hr.
Qed.
End step.

(** *** Copies *)

Lemma heap_unchanged s : with_eng (with_heap (es_heap (eng s)) (eng s)) s = s.
Proof. by destruct s as [????[]]. Qed.

Lemma copy_uncounted op s z :
  op1_type op ∈ VALUES → operand s (op1_type op) (op1 op) = Some z → plain z → Z_OPT_REFCOUNTED z = false →
  ZEND_QM_ASSIGN literals op s =
    (copy_value literals (PVar (ZEND_CALL_VAR (execute_data s) (result op))) (ptr_of s (op1_type op) (op1 op));; ZEND_VM_NEXT_OPCODE) s.
Proof using laws.
  intros K H [Hr Hu] Hc. unfold ZEND_QM_ASSIGN. run. pose proof (load_operand _ _ _ _ H) as Hl. run.
  change (zval_get_type z =? IS_UNDEF) with (Z_ISUNDEF z). rewrite Hu, andb_false_r. apply bind_ext.
  destruct (vm_mem s !! ZEND_CALL_VAR (execute_data s) (result op)) as [r|] eqn:Hres; cycle 1.
  { assert (Hno : load literals (PVar (ZEND_CALL_VAR (execute_data s) (result op))) s = Undef).
    { unfold load, mbind, M_bind, gets. by rewrite Hres. }
    assert (Hcopy : copy_value literals (PVar (ZEND_CALL_VAR (execute_data s) (result op))) (ptr_of s (op1_type op) (op1 op)) s = Undef).
    { unfold copy_value. run. unfold update, mbind at 1, M_bind. by rewrite Hno. }
    rewrite Hcopy. destruct (op1_type op =? IS_CV); [unfold mbind at 1, M_bind; by rewrite Hno|].
    destruct (op1_type op =? IS_VAR); [run; by rewrite Hr|]. unfold mbind, M_bind. by rewrite Hcopy. }
  pose proof (load_slot _ _ _ Hres) as Hlr.
  assert (Hcopy : copy_value literals (PVar (ZEND_CALL_VAR (execute_data s) (result op))) (ptr_of s (op1_type op) (op1 op)) s =
                  Ret () (with_mem (<[ZEND_CALL_VAR (execute_data s) (result op) := ZVAL_COPY_VALUE r z]> (vm_mem s)) s)).
  { unfold copy_value. run. by rewrite (update_slot s _ r (λ z0, ZVAL_COPY_VALUE z0 z) Hres). }
  rewrite Hcopy. destruct (op1_type op =? IS_CV).
  - run. rewrite (bind_ret (on_engine (heap_op (ZVAL_COPY_DEREF r z))) _ s (ZVAL_COPY_VALUE r z) s).
    + unfold store, mbind, M_bind, gets. by rewrite Hres.
    + unfold on_engine, heap_op, ZVAL_COPY_DEREF. rewrite Hc. cbn. by rewrite heap_unchanged.
  - destruct (op1_type op =? IS_VAR); [run; by rewrite Hr|].
    rewrite (bind_ret _ _ _ _ _ Hcopy). destruct (op1_type op =? IS_CONST); [|done].
    unfold addref_slot. erewrite bind_ret; [|apply load_slot, lookup_insert_eq].
    replace (Z_OPT_REFCOUNTED (ZVAL_COPY_VALUE r z)) with (Z_OPT_REFCOUNTED z) by done. by rewrite Hc.
Qed.

Lemma copy_noref op s z :
  operand s (op1_type op) (op1 op) = Some z →
  ZEND_QM_ASSIGN_NOREF literals op s =
    (copy_value literals (PVar (ZEND_CALL_VAR (execute_data s) (result op))) (ptr_of s (op1_type op) (op1 op));; ZEND_VM_NEXT_OPCODE) s.
Proof. intros H. unfold ZEND_QM_ASSIGN_NOREF. run. done. Qed.
Lemma copy_long op s z l :
  operand s (op1_type op) (op1 op) = Some z → num z = Some (NLong l) →
  ZEND_QM_ASSIGN_LONG literals op s = ZEND_QM_ASSIGN_NOREF literals op s.
Proof.
  intros H [(T & a & V & Hn & _)|(T & a & V & Hn)]%num_cases; simplify_eq.
  unfold ZEND_QM_ASSIGN_LONG, ZEND_QM_ASSIGN_NOREF. run. pose proof (load_operand _ _ _ _ H) as Hl. run. apply bind_ext.
  unfold copy_value. run. apply update_ext. intros r. unfold ZVAL_COPY_VALUE, ZVAL_LONG, set_value. by rewrite T, V.
Qed.
Lemma copy_double op s z d :
  operand s (op1_type op) (op1 op) = Some z → num z = Some (NDouble d) →
  ZEND_QM_ASSIGN_DOUBLE literals op s = ZEND_QM_ASSIGN_NOREF literals op s.
Proof.
  intros H [(T & a & V & Hn & _)|(T & a & V & Hn)]%num_cases; simplify_eq.
  unfold ZEND_QM_ASSIGN_DOUBLE, ZEND_QM_ASSIGN_NOREF. run. pose proof (load_operand _ _ _ _ H) as Hl. run.
  unfold Z_DVAL_BITS. rewrite V. cbn [need]. rewrite (bind_ret (mret a) _ s a s eq_refl). cbn beta. apply bind_ext.
  unfold copy_value. run. apply update_ext. intros r. unfold ZVAL_COPY_VALUE, ZVAL_DOUBLE, set_value. by rewrite T, V.
Qed.
End numbers.

(** ** Operations that commute *)

Lemma SFadd_comm d e : dadd d e = dadd e d.
Proof.
  unfold dadd, SFadd. destruct d as [[]|[]| |s1 m1 e1], e as [[]|[]| |s2 m2 e2]; try done.
  rewrite (Z.min_comm e2 e1), Z.add_comm. done.
Qed.
Lemma SFmul_comm d e : dmul d e = dmul e d.
Proof.
  unfold dmul, SFmul. destruct d as [s1|s1| |s1 m1 e1], e as [s2|s2| |s2 m2 e2]; try done; try (by rewrite xorb_comm).
  by rewrite xorb_comm, Pos.mul_comm, Z.add_comm.
Qed.
Lemma SFeqb_comm d e : SFeqb d e = SFeqb e d.
Proof.
  unfold SFeqb, SFcompare. destruct d as [[]|[]| |[] m1 e1], e as [[]|[]| |[] m2 e2]; try done.
  all: rewrite (Z.compare_antisym e1 e2); destruct (e1 ?= e2); simpl; try done.
  all: change (Pos.compare_cont Eq m1 m2) with (m1 ?= m2)%positive; change (Pos.compare_cont Eq m2 m1) with (m2 ?= m1)%positive.
  all: rewrite (Pos.compare_antisym m1 m2); by destruct (m1 ?= m2)%positive.
Qed.
Lemma add_comm_long a b : fast_long_add_function_builtin a b = fast_long_add_function_builtin b a.
Proof. unfold fast_long_add_function_builtin. by rewrite (Z.add_comm b a), (SFadd_comm (of_long b)). Qed.
Lemma mul_comm_long a b : mul_builtin a b = mul_builtin b a.
Proof. unfold mul_builtin. by rewrite (Z.mul_comm b a), (SFmul_comm (of_long b)). Qed.

Lemma on_numbers_comm {A} (f : Z → Z → A) g m n :
  (∀ a b, f a b = f b a) → (∀ d e, g d e = g e d) → on_numbers f g m n = on_numbers f g n m.
Proof. intros Hf Hg. destruct m, n; simpl; auto. Qed.
