(* ===== verification/ZendVmSame.v ===== *)
(** * The chosen handler does what the general handler does

    An instruction is given its handler by [zend_vm_set_opcode_handler_ex], which may
    exchange the operands. On the values the optimiser promised, running the handler that
    the table holds leaves the machine as the general handler of the instruction would,
    but for the instruction saved in the frame. *)

From S2P Require Import Prelude ZendTypes ZendArith ZendString Engine ZendAssign ZendConvert ZendFrames ZendSsa ZendVm ZendVmLabels ZendVmSpec ZendVmRuns.
From Stdlib Require Import SpecFloat.
Import TypeHint Binary64 LongOps SignedMultiply.

(** The type word of a scalar has no flags, a reference is counted, and the value is of
    its type. *)
Record well_formed (z : zval) : Prop := {
  wf_type : zval_get_type z <= IS_REFERENCE;
  wf_scalar : zval_get_type z <= IS_DOUBLE → Z_TYPE_INFO z = zval_get_type z;
  wf_reference : Z_ISREF z = true → Z_REFCOUNTED z = true;
  wf_long : zval_get_type z = IS_LONG → ∃ l, num z = Some (NLong l);
  wf_double : zval_get_type z = IS_DOUBLE → ∃ d, num z = Some (NDouble d);
  wf_array : zval_get_type z = IS_ARRAY → is_Some (Z_COUNTED z) }.

Lemma may_be_only t t' : 0 <= t → 0 <= t' → Z.testbit (MAY_BE t) t' = true → t' = t.
Proof.
  unfold MAY_BE. intros H H'. rewrite Z.shiftl_1_l, Z.pow2_bits_eqb by done. by intros ->%Z.eqb_eq.
Qed.
Lemma type_nonneg z : 0 <= zval_get_type z.
Proof. unfold zval_get_type. apply Z.land_nonneg. lia. Qed.

Section same.
Context {E : Type} {engine : ZendEngine E} {library : VmLibrary E} {macros : VmMacros E} {laws : VmLaws E}.
Context (observers : bool) (swap : zend_op → zend_op) (literals : gmap Z zval) (num_elements : loc → Z) (br : branch).
Context (swapping : swaps swap).
Implicit Types (op : zend_op) (s : vst E) (z : zval).

(** What the optimiser says of an operand is true of its value. *)
Definition typed s (kind node info : Z) : Prop :=
  ∃ z, operand literals s kind node = Some z ∧ well_formed z ∧ Z.testbit info (zval_get_type z) = true.
Definition typed1 s op (info : Z) : Prop := typed s (op1_type op) (op1 op) info.
Definition typed2 s op (info : Z) : Prop := typed s (op2_type op) (op2 op) info.

Definition numbers_at s op (m n : number) : Prop :=
  ∃ z1 z2, operand literals s (op1_type op) (op1 op) = Some z1 ∧ operand literals s (op2_type op) (op2 op) = Some z2 ∧
           num z1 = Some m ∧ num z2 = Some n.

Lemma typed_long s kind node : typed s kind node MAY_BE_LONG → ∃ z l, operand literals s kind node = Some z ∧ num z = Some (NLong l).
Proof.
  intros (z & Hz & Hw & Ht). apply may_be_only in Ht; [|done|apply type_nonneg].
  destruct (wf_long _ Hw Ht) as [l Hl]. eauto.
Qed.
Lemma typed_double s kind node : typed s kind node MAY_BE_DOUBLE → ∃ z d, operand literals s kind node = Some z ∧ num z = Some (NDouble d).
Proof.
  intros (z & Hz & Hw & Ht). apply may_be_only in Ht; [|done|apply type_nonneg].
  destruct (wf_double _ Hw Ht) as [d Hd]. eauto.
Qed.
Lemma typed_longs s op i1 i2 :
  typed1 s op i1 → typed2 s op i2 → two_longs i1 i2 = true → ∃ a b, numbers_at s op (NLong a) (NLong b).
Proof.
  intros H1 H2 [->%Z.eqb_eq ->%Z.eqb_eq]%andb_true_iff. apply typed_long in H1 as (z1 & a & ? & ?), H2 as (z2 & b & ? & ?).
  exists a, b, z1, z2. done.
Qed.
Lemma typed_doubles s op i1 i2 :
  typed1 s op i1 → typed2 s op i2 → two_doubles i1 i2 = true → ∃ d e, numbers_at s op (NDouble d) (NDouble e).
Proof.
  intros H1 H2 [->%Z.eqb_eq ->%Z.eqb_eq]%andb_true_iff. apply typed_double in H1 as (z1 & d & ? & ?), H2 as (z2 & e & ? & ?).
  exists d, e, z1, z2. done.
Qed.

(** *** Exchanged operands *)

Definition comm_if (b : bool) {A B} (f : A → A → B) : Prop := b = true → ∀ x y, f x y = f y x.
Definition in_order {A} (b : bool) (m n : A) : A * A := if b then (n, m) else (m, n).

Lemma numbers_swap s op b m n :
  numbers_at s op m n → numbers_at s (swap_if swap op b) (in_order b m n).1 (in_order b m n).2.
Proof using swapping.
  intros (z1 & z2 & ? & ? & ? & ?). destruct b; simpl; [rewrite swapping|]; [exists z2, z1|exists z1, z2]; done.
Qed.
Lemma result_swap op b n : number_result literals (swap_if swap op b) n =@{M (vst E) ()} number_result literals op n.
Proof using swapping. destruct b; [|done]. simpl. by rewrite swapping. Qed.
Lemma const_swap op b : CONST_CONST (swap_if swap op b) = CONST_CONST op.
Proof using swapping. apply (swap_if_const_const swap swapping). Qed.
Lemma comm_order {A B} b (f : A → A → B) m n : comm_if b f → f (in_order b m n).1 (in_order b m n).2 = f m n.
Proof. intros H. destruct b; [by apply H|done]. Qed.

Lemma arith_at s op m n long_op double_op helper :
  numbers_at s op m n → CONST_CONST op = false →
  arith_handler literals long_op double_op helper op s = number_result literals op (arith long_op double_op m n) s.
Proof. intros (z1 & z2 & ? & ? & ? & ?). by eapply arith_numbers. Qed.

Section commutes.
Context (s : vst E) (op : zend_op) (b : bool) (HC : CONST_CONST op = false).

Lemma arith_swapped m n long_op double_op helper :
  numbers_at s op m n → comm_if b long_op → comm_if b double_op →
  arith_handler literals long_op double_op helper (swap_if swap op b) s = arith_handler literals long_op double_op helper op s.
Proof using HC swapping.
  intros H Hl Hd. rewrite (arith_at _ op m n) by done.
  rewrite (arith_at _ (swap_if swap op b) _ _ _ _ _ (numbers_swap _ _ _ _ _ H)) by (by rewrite const_swap).
  rewrite result_swap. f_equal. apply comm_order. intros Hb x y. apply on_numbers_comm; [by apply Hl|].
  intros d e. by rewrite (Hd Hb).
Qed.
Lemma longs_same x y long_op double_op helper :
  numbers_at s op (NLong x) (NLong y) → comm_if b long_op →
  longs_handler literals long_op (swap_if swap op b) s = arith_handler literals long_op double_op helper op s.
Proof using HC swapping.
  intros H Hl. rewrite (arith_at _ _ _ _ _ _ _ H) by done. simpl. apply numbers_swap with (b := b) in H as (z1 & z2 & ? & ? & ? & ?).
  rewrite <- (comm_order b long_op x y Hl), <- (result_swap op b). destruct b; by eapply longs_numbers.
Qed.
Lemma no_overflow_same x y (f : Z → Z → Z) long_op double_op helper :
  numbers_at s op (NLong x) (NLong y) → comm_if b f → in_s64 (f x y) = true → long_op x y = NLong (f x y) →
  no_overflow_handler literals f (swap_if swap op b) s = arith_handler literals long_op double_op helper op s.
Proof using HC swapping.
  intros H Hf Hin Hl. rewrite (arith_at _ _ _ _ _ _ _ H) by done. simpl. rewrite Hl.
  apply numbers_swap with (b := b) in H as (z1 & z2 & ? & ? & ? & ?).
  rewrite <- (comm_order b f x y Hf) in *. rewrite <- (result_swap op b). destruct b; by eapply no_overflow_numbers.
Qed.
Lemma doubles_same x y long_op double_op helper :
  numbers_at s op (NDouble x) (NDouble y) → comm_if b double_op →
  doubles_handler literals double_op (swap_if swap op b) s = arith_handler literals long_op double_op helper op s.
Proof using HC swapping.
  intros H Hl. rewrite (arith_at _ _ _ _ _ _ _ H) by done. simpl. apply numbers_swap with (b := b) in H as (z1 & z2 & ? & ? & ? & ?).
  rewrite <- (comm_order b double_op x y Hl), <- (result_swap op b). destruct b; by eapply doubles_numbers.
Qed.

Lemma test_longs_same x y long_test :
  numbers_at s op (NLong x) (NLong y) → comm_if b long_test →
  test_longs_handler literals br long_test (swap_if swap op b) s = ZEND_VM_SMART_BRANCH br (long_test x y) false s.
Proof using swapping.
  intros H Hl. apply numbers_swap with (b := b) in H as (z1 & z2 & ? & ? & ? & ?).
  rewrite <- (comm_order b long_test x y Hl). destruct b; by eapply test_longs_numbers.
Qed.
Lemma test_doubles_same x y double_test :
  numbers_at s op (NDouble x) (NDouble y) → comm_if b double_test →
  test_doubles_handler literals br double_test (swap_if swap op b) s = ZEND_VM_SMART_BRANCH br (double_test x y) false s.
Proof using swapping.
  intros H Hl. apply numbers_swap with (b := b) in H as (z1 & z2 & ? & ? & ? & ?).
  rewrite <- (comm_order b double_test x y Hl). destruct b; by eapply test_doubles_numbers.
Qed.
Lemma equal_at m n long_test double_test test helper :
  numbers_at s op m n →
  equal_handler literals br long_test double_test test helper op s =
    ZEND_VM_SMART_BRANCH br (on_numbers long_test double_test m n) false s.
Proof using HC laws. intros (z1 & z2 & ? & ? & ? & ?). by eapply equal_numbers. Qed.
Lemma order_at m n long_test double_test helper :
  numbers_at s op m n →
  order_handler literals br long_test double_test helper op s =
    ZEND_VM_SMART_BRANCH br (on_numbers long_test double_test m n) false s.
Proof using HC laws. intros (z1 & z2 & ? & ? & ? & ?). by eapply order_numbers. Qed.
Lemma long_at x y fast helper k :
  numbers_at s op (NLong x) (NLong y) → fast op x y = Some k → long_handler literals fast helper op s = k s.
Proof using HC. intros (z1 & z2 & ? & ? & ? & ?). by eapply long_handler_numbers. Qed.
End commutes.

Lemma equal_swapped s op b m n long_test double_test test helper :
  CONST_CONST op = false → numbers_at s op m n → comm_if b long_test → comm_if b double_test →
  equal_handler literals br long_test double_test test helper (swap_if swap op b) s =
  equal_handler literals br long_test double_test test helper op s.
Proof using swapping laws.
  intros HC H Hl Hd. rewrite (equal_at _ op HC m n) by done.
  rewrite (equal_at _ (swap_if swap op b) (eq_trans (const_swap _ _) HC) _ _ _ _ _ _ (numbers_swap _ _ _ _ _ H)).
  f_equal. apply comm_order. intros Hb ??. apply on_numbers_comm; [by apply Hl|by apply Hd].
Qed.
Lemma long_swapped s op b x y (f : Z → Z → Z) helper :
  CONST_CONST op = false → numbers_at s op (NLong x) (NLong y) → comm_if b f →
  long_handler literals (λ op a b, Some (long_result literals op (f a b))) helper (swap_if swap op b) s =
  long_handler literals (λ op a b, Some (long_result literals op (f a b))) helper op s.
Proof using swapping.
  intros HC H Hf. rewrite (long_at _ _ HC x y _ _ _ H eq_refl). apply numbers_swap with (b := b) in H.
  rewrite <- (comm_order b f x y Hf).
  assert (HC' : CONST_CONST (swap_if swap op b) = false) by (by rewrite const_swap).
  destruct b; (rewrite (long_at _ _ HC' _ _ _ _ _ H eq_refl); simpl; rewrite ?swapping; done).
Qed.

(** *** Identity *)

(** The operands are defined and no references, and nothing is freed. *)
Record plain_operands s op (z1 z2 : zval) : Prop := {
  po_op1 : operand literals s (op1_type op) (op1 op) = Some z1;
  po_op2 : operand literals s (op2_type op) (op2 op) = Some z2;
  po_plain1 : ZendVmRuns.plain z1; po_plain2 : ZendVmRuns.plain z2;
  po_unfreed1 : unfreed (op1_type op) z1; po_unfreed2 : unfreed (op2_type op) z2 }.
(** They are of the kinds that hold values, and no exception is pending. *)
Record identity_usual s op (z1 z2 : zval) : Prop := {
  iu_kind1 : op1_type op ∈ VALUES; iu_kind2 : op2_type op ∈ VALUES;
  iu_operands : plain_operands s op z1 z2;
  iu_quiet : EG_exception (es_priv (eng s)) = false }.

Lemma identity_swap s op b z1 z2 :
  identity_usual s op z1 z2 → identity_usual s (swap_if swap op b) (in_order b z1 z2).1 (in_order b z1 z2).2.
Proof using swapping. intros [?? [] ?]. destruct b; simpl; [rewrite swapping|]; (split; [done|done|by split|done]). Qed.

Lemma branch_on_ext (m m' : M (es E) bool) s : m (eng s) = m' (eng s) → branch_on br m s = branch_on br m' s.
Proof. unfold branch_on. by intros ->. Qed.

(** The two tests, and what is asked of them. *)
Section test.
Context (f : zval → zval → M (es E) bool) (test : bool → bool).
Context (f_tests : ∀ z1 z2 e, f z1 z2 e = (b ← fast_is_identical_function z1 z2; mret (test b)) e).

Local Lemma test_comm z1 z2 e : comparable (es_priv e) z1 z2 → f z1 z2 e = f z2 z1 e.
Proof using laws f_tests. intros H. rewrite !f_tests. unfold mbind, M_bind. by rewrite identical_comm. Qed.
Local Lemma test_quiet z1 z2 e b e' : f z1 z2 e = Ret b e' → EG_exception (es_priv e') = EG_exception (es_priv e).
Proof using laws f_tests.
  rewrite f_tests. unfold mbind, M_bind. destruct (fast_is_identical_function z1 z2 e) eqn:H; [|done..].
  injection 1 as <- <-. by eapply fast_identical_quiet.
Qed.
Local Lemma test_order b z1 z2 e :
  (b = true → comparable (es_priv e) z1 z2) → f (in_order b z1 z2).1 (in_order b z1 z2).2 e = f z1 z2 e.
Proof using laws f_tests. intros H. destruct b; [symmetry; by apply test_comm, H|done]. Qed.

Lemma identity_branch s op z1 z2 :
  identity_usual s op z1 z2 → same_outcome (identical_handler literals br f true op s) (branch_on br (f z1 z2) s).
Proof using laws f_tests. intros [?? [] ?]. apply identical_general; try done. intros e b e'. apply test_quiet. Qed.

Lemma identity_swapped s op b z1 z2 :
  identity_usual s op z1 z2 → (b = true → comparable (es_priv (eng s)) z1 z2) →
  same_outcome (identical_handler literals br f true (swap_if swap op b) s) (identical_handler literals br f true op s).
Proof using laws f_tests swapping.
  intros H Hb. rewrite (identity_branch _ _ _ _ H), (identity_branch _ _ _ _ (identity_swap _ _ b _ _ H)).
  by rewrite (branch_on_ext _ (f z1 z2)) by by apply test_order.
Qed.

Lemma identity_value s op z1 z2 m n :
  identity_usual s op z1 z2 → num z1 = Some m → num z2 = Some n →
  same_outcome (ZEND_VM_SMART_BRANCH br (test (identical_numbers m n)) false s) (identical_handler literals br f true op s).
Proof using laws f_tests.
  intros H Hm Hn. rewrite (identity_branch _ _ _ _ H), (branch_on_value _ _ (test (identical_numbers m n))); [done|].
  rewrite f_tests. unfold mbind, M_bind. by rewrite (identical_on_numbers _ _ m n).
Qed.

Lemma identity_nothrow s op b z1 z2 :
  identity_usual s op z1 z2 → (b = true → comparable (es_priv (eng s)) z1 z2) → op1_type (swap_if swap op b) = IS_CV →
  same_outcome (nothrow_handler literals br test (swap_if swap op b) s) (identical_handler literals br f true op s).
Proof using laws f_tests swapping.
  intros H Hb Hk. rewrite (identity_branch _ _ _ _ H). apply identity_swap with (b := b) in H as [?? [] ?].
  rewrite (nothrow_runs _ _ _ _ (in_order b z1 z2).1 (in_order b z1 z2).2); [|by rewrite Hk|done..].
  by rewrite (branch_on_ext _ (f z1 z2)) by (rewrite <- f_tests; by apply test_order).
Qed.

(** Constants have the elements they had when the handlers were chosen. *)
Definition constants_kept s : Prop :=
  ∀ a z l, literals !! a = Some z → Z_COUNTED z = Some l → zend_hash_num_elements (es_priv (eng s)) l = num_elements l.

Lemma identity_empty s op b z1 z2 :
  identity_usual s op z1 z2 → (b = true → comparable (es_priv (eng s)) z1 z2) →
  well_formed z1 → well_formed z2 → CONST_CONST op = false → constants_kept s →
  op2_type (swap_if swap op b) = IS_CONST → is_empty_array literals num_elements (opline s) (op2 (swap_if swap op b)) = Some true →
  same_outcome (empty_array_handler literals br test (swap_if swap op b) s) (identical_handler literals br f true op s).
Proof using laws f_tests swapping.
  intros H Hb W1 W2 HC Hkept K2 He. rewrite (identity_branch _ _ _ _ H). apply identity_swap with (b := b) in H as [k1 _ [O1 O2 [R1 U1] _ F1 _] Hq].
  assert (W : well_formed (in_order b z1 z2).1) by (by destruct b).
  rewrite <- (const_swap op b) in HC. unfold CONST_CONST in HC. rewrite K2 in HC. rewrite (branch_on_ext _ _ s (eq_sym (test_order b z1 z2 (eng s) Hb))).
  revert k1 O1 O2 R1 U1 F1 W HC K2 He. generalize (swap_if swap op b). intros op'. destruct (in_order b z1 z2) as [y1 y2]. simpl.
  intros k1 O1 O2 R1 U1 F1 W HC K2 He. rewrite K2 in O2. unfold operand at 1 in O2. simpl in O2.
  unfold is_empty_array, constant_of in He. rewrite O2 in He. simpl in He.
  destruct (Z.eqb_spec (zval_get_type y2) IS_ARRAY) as [T2|]; [|done]. destruct (Z_COUNTED y2) as [l2|] eqn:C2; [|done].
  injection He as He%Z.eqb_eq. rewrite andb_true_r in HC. pose proof (load_operand _ _ _ _ _ O1) as L1.
  unfold operand in O1. unfold ptr_of in L1. rewrite HC in O1, L1.
  unfold empty_array_handler. rewrite (bind_ret _ _ _ _ _ (tmpvarcv_plain _ _ _ _ O1 R1 U1)). rewrite (bind_ret _ _ _ _ _ L1).
  rewrite (bind_ret get _ s s s eq_refl).
  set (v := (zval_get_type y1 =? IS_ARRAY) && match Z_COUNTED y1 with Some l => zend_hash_num_elements (es_priv (eng s)) l =? 0 | None => false end).
  rewrite (bind_ret _ _ s v s); cycle 1.
  { unfold v. destruct (Z.eqb_spec (zval_get_type y1) IS_ARRAY) as [T1|]; [|done]. destruct (wf_array _ W T1) as [l1 ->]. done. }
  rewrite (bind_ret (FREE_OP _ _ _) _ s () s); cycle 1.
  { eapply free_operand; [|exact F1]. unfold operand. by rewrite HC. }
  rewrite (branch_on_value _ _ (test v)); [done|]. rewrite f_tests. unfold mbind, M_bind, fast_is_identical_function, v. rewrite T2.
  destruct (Z.eqb_spec (zval_get_type y1) IS_ARRAY) as [T1|]; [|done]. destruct (wf_array _ W T1) as [l1 C1]. rewrite C1, T1. simpl.
  rewrite (identical_empty _ _ l1 l2) by (done || right; by rewrite (Hkept _ _ _ O2 C2)). by rewrite (Hkept _ _ _ O2 C2), He.
Qed.
End test.

(** Numbers, and values that the information says are defined and no references, are
    plain; there is nothing to free in them, or they are no temporaries. *)
Lemma numbers_plain s op m n : numbers_at s op m n → ∃ z1 z2, plain_operands s op z1 z2.
Proof.
  intros (z1 & z2 & H1 & H2 & [P1 R1]%num_plain & [P2 R2]%num_plain). exists z1, z2. split; try done; by right.
Qed.
Lemma lacks_plain i z :
  Z.testbit i (zval_get_type z) = true → lacks i (Z.lor MAY_BE_UNDEF MAY_BE_REF) = true → ZendVmRuns.plain z.
Proof.
  intros Ht Hl%Z.eqb_eq. assert (Hb : Z.testbit (Z.lor MAY_BE_UNDEF MAY_BE_REF) (zval_get_type z) = false).
  { apply (f_equal (λ x, Z.testbit x (zval_get_type z))) in Hl. by rewrite Z.land_spec, Ht, Z.bits_0 in Hl. }
  split; [unfold Z_ISREF|unfold Z_ISUNDEF]; apply Z.eqb_neq; intros Hz; by rewrite Hz in Hb.
Qed.

Lemma cv_or_const k : k ∈ VALUES → negb (lacks k (Z.lor IS_CONST IS_CV)) = true → Z.land k IS_TMP_OR_VAR = 0.
Proof. unfold VALUES. rewrite !elem_of_cons, elem_of_nil. intros H. by destruct_or! H; subst. Qed.

(** *** Copies *)

Lemma number_uncounted z n : num z = Some n → Z_OPT_REFCOUNTED z = false.
Proof. intros [(T & _)|(T & _)]%num_cases; unfold Z_OPT_REFCOUNTED; by rewrite T. Qed.

Lemma copy_number s op z n :
  op1_type op ∈ VALUES → operand literals s (op1_type op) (op1 op) = Some z → num z = Some n →
  ZEND_QM_ASSIGN_NOREF literals op s = ZEND_QM_ASSIGN literals op s.
Proof using laws.
  intros K H Hn. rewrite (copy_noref _ _ _ _ H), (copy_uncounted _ _ _ _ K H); [done|by apply (num_plain _ _ Hn)|by eapply number_uncounted].
Qed.

Lemma digit t : 0 <= t < 10 → t = 0 ∨ t = 1 ∨ t = 2 ∨ t = 3 ∨ t = 4 ∨ t = 5 ∨ t = 6 ∨ t = 7 ∨ t = 8 ∨ t = 9.
Proof. lia. Qed.

(** The types of an operand whose information lacks the counted ones, and which is no
    reference. *)
Lemma lacks_counted i1 z :
  well_formed z → Z.testbit i1 (zval_get_type z) = true → lacks i1 COUNTED_TYPES = true → Z_ISREF z = false →
  ZendVmRuns.plain z ∧ Z_OPT_REFCOUNTED z = false.
Proof.
  intros W Ht Hl Hr. apply Z.eqb_eq in Hl. assert (H : Z.testbit COUNTED_TYPES (zval_get_type z) = false).
  { apply (f_equal (λ x, Z.testbit x (zval_get_type z))) in Hl. rewrite Z.land_spec, Ht, Z.bits_0 in Hl. done. }
  pose proof (type_nonneg z) as H0. pose proof (wf_type _ W) as H1. unfold Z_ISREF in Hr. apply Z.eqb_neq in Hr.
  assert (Hs : 1 <= zval_get_type z <= 5).
  { assert (Hd : 0 <= zval_get_type z < 10) by (unfold IS_REFERENCE in *; lia). apply digit in Hd.
    destruct_or! Hd; rewrite Hd in *; first [done|lia]. }
  assert (Hz : Z_TYPE_INFO z = zval_get_type z) by (apply (wf_scalar _ W); unfold IS_DOUBLE; lia).
  unfold ZendVmRuns.plain, Z_ISREF, Z_ISUNDEF, Z_OPT_REFCOUNTED, Z_TYPE_FLAGS. rewrite Hz.
  assert (Hd : 0 <= zval_get_type z < 10) by lia. apply digit in Hd. destruct_or! Hd; rewrite Hd in *; first [done|lia].
Qed.

(** *** The equivalence *)

Definition fits (f : Z → Z → Z) s ir op : Prop :=
  ir = MAY_BE_LONG → ∀ a b, numbers_at s op (NLong a) (NLong b) → in_s64 (f a b) = true.
Definition step_fits (f : Z → Z) s ir op : Prop :=
  ir = MAY_BE_LONG → ∀ z l, operand literals s (op1_type op) (op1 op) = Some z → num z = Some (NLong l) → in_s64 (f l) = true.
Definition exchanged op : bool := op1_type op <? op2_type op.

(** The second operand is a constant empty array. *)
Definition against_empty s op : Prop :=
  op2_type op = IS_CONST ∧ is_empty_array literals num_elements (opline s) (op2 op) = Some true.

(** What the choice of a handler relies on. The optimiser's information is true of the
    operands, and a result that is promised to be an integer fits. Beyond that:
    - operands that are exchanged are numbers, integers for the bit operations and [xor];
      for others the order shows in what is reported of undefined variables, in the order
      in which temporaries are destroyed, and in the operators of objects;
    - the operands of [===] that are exchanged, or one of which is the constant [[]], are
      plain: the handler for [[]] does not look for an exception that the report of an
      undefined variable, or a destructor, may have thrown;
    - no exception is pending at [===], and no interrupt at a forward jump, which is not
      where they are looked for;
    - information that allows a reference allows counted values, and constants are defined. *)
Definition usual (t : template) s (i1 i2 ir : Z) op : Prop :=
  match t with
  | T_ADD => typed1 s op i1 ∧ typed2 s op i2 ∧ fits Z.add s ir op
  | T_SUB => typed1 s op i1 ∧ typed2 s op i2 ∧ fits Z.sub s ir op
  | T_MUL => typed1 s op i1 ∧ typed2 s op i2 ∧ fits Z.mul s ir op ∧ (exchanged op = true → ∃ m n, numbers_at s op m n)
  | T_IS_EQUAL | T_IS_NOT_EQUAL => typed1 s op i1 ∧ typed2 s op i2 ∧ (exchanged op = true → ∃ m n, numbers_at s op m n)
  | T_IS_SMALLER | T_IS_SMALLER_OR_EQUAL => typed1 s op i1 ∧ typed2 s op i2
  | T_IS_IDENTICAL | T_IS_NOT_IDENTICAL =>
      typed1 s op i1 ∧ typed2 s op i2 ∧ constants_kept s ∧ EG_exception (es_priv (eng s)) = false ∧
      (exchanged op = true ∨ against_empty s op →
         ∃ z1 z2, plain_operands s op z1 z2 ∧ (exchanged op = true → comparable (es_priv (eng s)) z1 z2))
  | T_BW_OR | T_BW_AND | T_BW_XOR | T_BOOL_XOR => exchanged op = true → ∃ a b, numbers_at s op (NLong a) (NLong b)
  | T_PRE_INC | T_POST_INC => typed1 s op i1 ∧ step_fits (λ l, l + 1) s ir op
  | T_PRE_DEC | T_POST_DEC => typed1 s op i1 ∧ step_fits (λ l, l - 1) s ir op
  | T_QM_ASSIGN =>
      typed1 s op i1 ∧ (Z.testbit i1 IS_REFERENCE = true → lacks i1 COUNTED_TYPES = false) ∧
      (op1_type op = IS_CONST → ∀ z, operand literals s (op1_type op) (op1 op) = Some z → Z_ISUNDEF z = false)
  | T_JMP => (opline s <? OP_JMP_ADDR (opline s) (op1 op)) = true → EG_vm_interrupt (es_priv (eng s)) = false
  | _ => True
  end.

Abbreviation run := (run_template literals br).

Lemma fits_stored (f : Z → Z → Z) (d : Z → Z → double) a b :
  in_s64 (f a b) = true → (if negb (in_s64 (f a b)) then NDouble (d a b) else NLong (s64 (f a b))) = NLong (f a b).
Proof. intros H. by rewrite H, in_s64_small. Qed.

Lemma comm_false {A B} (f : A → A → B) : comm_if false f.
Proof. by intros ?. Qed.
Lemma comm_always {A B} b (f : A → A → B) : (∀ x y, f x y = f y x) → comm_if b f.
Proof. by intros ??. Qed.
Hint Resolve comm_false : core.
Hint Extern 1 (comm_if _ _) => apply comm_always : core.
Hint Resolve Z.add_comm Z.mul_comm add_comm_long mul_comm_long SFadd_comm SFmul_comm SFeqb_comm Z.eqb_sym
  Z.lor_comm Z.land_comm Z.lxor_comm : core.
Hint Extern 1 (negb _ = negb _) => f_equal : core.

Section arithmetic.
Context (long_op : Z → Z → number) (double_op : double → double → double) (f : Z → Z → Z) (b : bool).
Context (helper : zend_op → zptr → zptr → M (vst E) ()).
Context (comm_long : comm_if b long_op) (comm_double : comm_if b double_op) (comm_f : comm_if b f).
Context (long_fits : ∀ x y, in_s64 (f x y) = true → long_op x y = NLong (f x y)).
Context (s : vst E) (op : zend_op) (i1 i2 ir : Z).
Context (HC : CONST_CONST op = false) (T1 : typed1 s op i1) (T2 : typed2 s op i2).

Lemma arithmetic_longs :
  two_longs i1 i2 = true →
  longs_handler literals long_op (swap_if swap op b) s = arith_handler literals long_op double_op helper op s.
Proof using swapping HC T1 T2 comm_long. intros H. destruct (typed_longs _ _ _ _ T1 T2 H) as (x & y & Hn). by eapply longs_same. Qed.
Lemma arithmetic_no_overflow :
  (ir =? MAY_BE_LONG) && two_longs i1 i2 = true → fits f s ir op →
  no_overflow_handler literals f (swap_if swap op b) s = arith_handler literals long_op double_op helper op s.
Proof using swapping HC T1 T2 comm_f long_fits.
  intros [Hr%Z.eqb_eq H]%andb_true_iff Hf. destruct (typed_longs _ _ _ _ T1 T2 H) as (x & y & Hn).
  specialize (Hf Hr _ _ Hn). eapply no_overflow_same; eauto.
Qed.
Lemma arithmetic_doubles :
  two_doubles i1 i2 = true →
  doubles_handler literals double_op (swap_if swap op b) s = arith_handler literals long_op double_op helper op s.
Proof using swapping HC T1 T2 comm_double. intros H. destruct (typed_doubles _ _ _ _ T1 T2 H) as (x & y & Hn). by eapply doubles_same. Qed.
End arithmetic.

Section tests.
Context (long_test : Z → Z → bool) (double_test : double → double → bool) (b : bool).
Context (comm_long : comm_if b long_test) (comm_double : comm_if b double_test).
Context (s : vst E) (op : zend_op) (i1 i2 : Z).
Context (HC : CONST_CONST op = false) (T1 : typed1 s op i1) (T2 : typed2 s op i2).

Lemma equal_longs test helper :
  two_longs i1 i2 = true →
  test_longs_handler literals br long_test (swap_if swap op b) s =
  equal_handler literals br long_test double_test test helper op s.
Proof using laws swapping HC T1 T2 comm_long.
  intros H. destruct (typed_longs _ _ _ _ T1 T2 H) as (x & y & Hn). rewrite (equal_at _ _ HC _ _ _ _ _ _ Hn). by apply test_longs_same.
Qed.
Lemma equal_doubles test helper :
  two_doubles i1 i2 = true →
  test_doubles_handler literals br double_test (swap_if swap op b) s =
  equal_handler literals br long_test double_test test helper op s.
Proof using laws swapping HC T1 T2 comm_double.
  intros H. destruct (typed_doubles _ _ _ _ T1 T2 H) as (x & y & Hn). rewrite (equal_at _ _ HC _ _ _ _ _ _ Hn). by apply test_doubles_same.
Qed.
Lemma order_longs helper :
  two_longs i1 i2 = true →
  test_longs_handler literals br long_test (swap_if swap op b) s = order_handler literals br long_test double_test helper op s.
Proof using laws swapping HC T1 T2 comm_long.
  intros H. destruct (typed_longs _ _ _ _ T1 T2 H) as (x & y & Hn). rewrite (order_at _ _ HC _ _ _ _ _ Hn). by apply test_longs_same.
Qed.
Lemma order_doubles helper :
  two_doubles i1 i2 = true →
  test_doubles_handler literals br double_test (swap_if swap op b) s = order_handler literals br long_test double_test helper op s.
Proof using laws swapping HC T1 T2 comm_double.
  intros H. destruct (typed_doubles _ _ _ _ T1 T2 H) as (x & y & Hn). rewrite (order_at _ _ HC _ _ _ _ _ Hn). by apply test_doubles_same.
Qed.

Context (K1 : op1_type op ∈ VALUES) (K2 : op2_type op ∈ VALUES) (quiet : EG_exception (es_priv (eng s)) = false).

(** Whatever the numbers, the general handler compares them. *)
Local Lemma identity_numbers f test m n :
  (∀ z1 z2 e, f z1 z2 e = (b ← fast_is_identical_function z1 z2; mret (test b)) e) → numbers_at s op m n →
  same_outcome (ZEND_VM_SMART_BRANCH br (test (identical_numbers m n)) false s) (identical_handler literals br f true op s).
Proof using laws K1 K2 quiet.
  intros Hf Hn. destruct (numbers_plain _ _ _ _ Hn) as (z1 & z2 & Hp). destruct Hn as (y1 & y2 & H1 & H2 & N1 & N2).
  rewrite (po_op1 _ _ _ _ Hp) in H1. rewrite (po_op2 _ _ _ _ Hp) in H2. simplify_eq.
  by apply (identity_value f test Hf s op y1 y2 m n).
Qed.
Lemma identity_longs f test :
  (∀ z1 z2 e, f z1 z2 e = (b ← fast_is_identical_function z1 z2; mret (test b)) e) →
  (∀ x y, long_test x y = test (x =? y)) → two_longs i1 i2 = true →
  same_outcome (test_longs_handler literals br long_test (swap_if swap op b) s) (identical_handler literals br f true op s).
Proof using laws swapping T1 T2 comm_long K1 K2 quiet.
  intros Hf Hl H. destruct (typed_longs _ _ _ _ T1 T2 H) as (x & y & Hn). rewrite (test_longs_same _ _ _ x y), Hl by done.
  by apply (identity_numbers f test (NLong x) (NLong y)).
Qed.
Lemma identity_doubles f test :
  (∀ z1 z2 e, f z1 z2 e = (b ← fast_is_identical_function z1 z2; mret (test b)) e) →
  (∀ x y, double_test x y = test (SFeqb x y)) → two_doubles i1 i2 = true →
  same_outcome (test_doubles_handler literals br double_test (swap_if swap op b) s) (identical_handler literals br f true op s).
Proof using laws swapping T1 T2 comm_double K1 K2 quiet.
  intros Hf Hl H. destruct (typed_doubles _ _ _ _ T1 T2 H) as (x & y & Hn). rewrite (test_doubles_same _ _ _ x y), Hl by done.
  by apply (identity_numbers f test (NDouble x) (NDouble y)).
Qed.
End tests.

(** The instruction as the chosen handler sees it does what the general handler does. *)
Definition same_as (t : template) s (i1 i2 ir : Z) op (x : candidate) : Prop :=
  let op' := swap_if swap op (c_swap x && exchanged op) in
  c_guard x (op1_type op') (op2_type op') = true → chosen_when literals num_elements (c_template x) (opline s) i1 i2 ir op' →
  same_outcome (run (c_template x) op' s) (run t op s).

Section cases.
Context (s : vst E) (i1 i2 ir : Z) (op : zend_op).

Lemma same_eq t x :
  (let op' := swap_if swap op (c_swap x && exchanged op) in
   c_guard x (op1_type op') (op2_type op') = true → chosen_when literals num_elements (c_template x) (opline s) i1 i2 ir op' →
   run (c_template x) op' s = run t op s) → same_as t s i1 i2 ir op x.
Proof. intros H Hg Hw. by rewrite H. Qed.

Lemma unchanged t : same_as t s i1 i2 ir op (plain_cand false t).
Proof. apply same_eq. done. Qed.
Lemma unexchanged t : exchanged op = false → same_as t s i1 i2 ir op (plain_cand true t).
Proof. intros H. apply same_eq. intros op' _ _. unfold op'. simpl. by rewrite H. Qed.

Ltac each_candidate := unfold candidates; repeat apply List.Forall_cons; try apply List.Forall_nil.

Lemma sum_same :
  CONST_CONST op = false → usual T_ADD s i1 i2 ir op → Forall (same_as T_ADD s i1 i2 ir op) (candidates T_ADD).
Proof using laws swapping.
  intros HC (T1 & T2 & Hf). each_candidate; [apply unchanged|apply same_eq; intros op' _ Hw; simpl in Hw..].
  - apply (arithmetic_no_overflow _ _ _ _ _ (comm_always _ _ Z.add_comm) (fits_stored Z.add _) _ _ _ _ _ HC T1 T2 Hw Hf).
  - apply (arithmetic_longs _ _ _ _ (comm_always _ _ add_comm_long) _ _ _ _ HC T1 T2 Hw).
  - apply (arithmetic_doubles _ _ _ _ (comm_always _ _ SFadd_comm) _ _ _ _ HC T1 T2 Hw).
Qed.
Lemma difference_same :
  CONST_CONST op = false → usual T_SUB s i1 i2 ir op → Forall (same_as T_SUB s i1 i2 ir op) (candidates T_SUB).
Proof using laws swapping.
  intros HC (T1 & T2 & Hf). each_candidate; [apply unchanged|apply same_eq; intros op' _ Hw; simpl in Hw..].
  - apply (arithmetic_no_overflow _ _ _ false _ (comm_false _) (fits_stored Z.sub _) _ _ _ _ _ HC T1 T2 Hw Hf).
  - apply (arithmetic_longs _ _ false _ (comm_false _) _ _ _ _ HC T1 T2 Hw).
  - apply (arithmetic_doubles _ _ false _ (comm_false _) _ _ _ _ HC T1 T2 Hw).
Qed.
Lemma product_same :
  CONST_CONST op = false → usual T_MUL s i1 i2 ir op → Forall (same_as T_MUL s i1 i2 ir op) (candidates T_MUL).
Proof using laws swapping.
  intros HC (T1 & T2 & Hf & Hx). each_candidate; [|apply same_eq; intros op' _ Hw; simpl in Hw..].
  - destruct (exchanged op) eqn:He; [|by apply unexchanged]. destruct (Hx eq_refl) as (m & n & Hn).
    apply same_eq. intros op' _ _. eapply arith_swapped; eauto.
  - apply (arithmetic_no_overflow _ _ _ _ _ (comm_always _ _ Z.mul_comm) (fits_stored Z.mul _) _ _ _ _ _ HC T1 T2 Hw Hf).
  - apply (arithmetic_longs _ _ _ _ (comm_always _ _ mul_comm_long) _ _ _ _ HC T1 T2 Hw).
  - apply (arithmetic_doubles _ _ _ _ (comm_always _ _ SFmul_comm) _ _ _ _ HC T1 T2 Hw).
Qed.

Lemma equality_same t :
  t = T_IS_EQUAL ∨ t = T_IS_NOT_EQUAL → CONST_CONST op = false → usual t s i1 i2 ir op → Forall (same_as t s i1 i2 ir op) (candidates t).
Proof using laws swapping.
  intros [->| ->] HC (T1 & T2 & Hx); (each_candidate; [|apply same_eq; intros op' _ Hw; simpl in Hw..]).
  1,4: destruct (exchanged op) eqn:He; [destruct (Hx eq_refl) as (m & n & Hn); apply same_eq; intros op' _ _; eapply equal_swapped; eauto|by apply unexchanged].
  1,3: eapply equal_longs; eauto.
  all: eapply equal_doubles; eauto.
Qed.
Lemma order_same t :
  t = T_IS_SMALLER ∨ t = T_IS_SMALLER_OR_EQUAL → CONST_CONST op = false → usual t s i1 i2 ir op → Forall (same_as t s i1 i2 ir op) (candidates t).
Proof using laws swapping.
  intros [->| ->] HC (T1 & T2); (each_candidate; [apply unchanged|apply same_eq; intros op' _ Hw; simpl in Hw..]).
  1,3: eapply (order_longs _ _ false); eauto.
  all: eapply (order_doubles _ _ false); eauto.
Qed.
Lemma bits_same t :
  t = T_BW_OR ∨ t = T_BW_AND ∨ t = T_BW_XOR → CONST_CONST op = false → usual t s i1 i2 ir op →
  Forall (same_as t s i1 i2 ir op) (candidates t).
Proof using swapping.
  intros Ht HC Hx. destruct (exchanged op) eqn:He.
  - destruct_or! Ht; subst; (each_candidate; apply same_eq; intros op' _ _; destruct (Hx He) as (a & b & Hn); eapply long_swapped; eauto).
  - destruct_or! Ht; subst; (each_candidate; by apply unexchanged).
Qed.

Section identity.
Context (f : zval → zval → M (es E) bool) (test : bool → bool) (HC : CONST_CONST op = false).
Context (f_tests : ∀ z1 z2 e, f z1 z2 e = (b ← fast_is_identical_function z1 z2; mret (test b)) e).
Context (K1 : op1_type op ∈ VALUES) (K2 : op2_type op ∈ VALUES) (Hu : usual T_IS_IDENTICAL s i1 i2 ir op).

Lemma plain_same : same_outcome (identical_handler literals br f true (swap_if swap op (exchanged op)) s) (identical_handler literals br f true op s).
Proof using laws swapping f_tests K1 K2 Hu.
  destruct Hu as (T1 & T2 & Hk & Hq & Hp). destruct (exchanged op) eqn:Hx; [|done].
  destruct Hp as (z1 & z2 & Hpo & Hc); [by left|]. apply (identity_swapped f test f_tests s op true z1 z2); [by split|done].
Qed.
Lemma empty_same :
  let op' := swap_if swap op (exchanged op) in
  op2_type op' = IS_CONST → is_empty_array literals num_elements (opline s) (op2 op') = Some true →
  same_outcome (empty_array_handler literals br test op' s) (identical_handler literals br f true op s).
Proof using laws swapping f_tests K1 K2 Hu HC.
  destruct Hu as ((y1 & O1 & W1 & _) & (y2 & O2 & W2 & _) & Hk & Hq & Hp). intros op' K He.
  destruct Hp as (z1 & z2 & Hpo & Hc); [unfold op' in *; destruct (exchanged op); [by left|by right]|].
  rewrite (po_op1 _ _ _ _ Hpo) in O1. rewrite (po_op2 _ _ _ _ Hpo) in O2. simplify_eq.
  apply (identity_empty f test f_tests s op (exchanged op) y1 y2); try done; by split.
Qed.
Lemma nothrow_same :
  let op' := swap_if swap op (exchanged op) in
  nothrow_kinds (op1_type op') (op2_type op') = true →
  lacks i1 (Z.lor MAY_BE_UNDEF MAY_BE_REF) && lacks i2 (Z.lor MAY_BE_UNDEF MAY_BE_REF) = true →
  same_outcome (nothrow_handler literals br test op' s) (identical_handler literals br f true op s).
Proof using laws swapping f_tests K1 K2 Hu.
  destruct Hu as ((y1 & O1 & W1 & B1) & (y2 & O2 & W2 & B2) & Hk & Hq & Hp). intros op' [Hg%Z.eqb_eq Hg2]%andb_true_iff [L1 L2]%andb_true_iff.
  assert (∃ z1 z2, plain_operands s op z1 z2 ∧ (exchanged op = true → comparable (es_priv (eng s)) z1 z2)) as (z1 & z2 & Hpo & Hc).
  { unfold op' in *. destruct (exchanged op) eqn:Hx; [apply Hp; by left|]. simpl in Hg, Hg2. exists y1, y2. split; [|done].
    split; try done; [by eapply lacks_plain|by eapply lacks_plain|left; by rewrite Hg|left]. by apply cv_or_const. }
  apply (identity_nothrow f test f_tests s op (exchanged op) z1 z2); [by split|done|exact Hg].
Qed.
End identity.

Lemma identical_tests z1 z2 (e : es E) : fast_is_identical_function z1 z2 e = (b ← fast_is_identical_function z1 z2; mret (id b)) e.
Proof. unfold mbind, M_bind. by destruct (fast_is_identical_function z1 z2 e). Qed.
Lemma identical_same :
  kinds_ok T_IS_IDENTICAL op → usual T_IS_IDENTICAL s i1 i2 ir op → Forall (same_as T_IS_IDENTICAL s i1 i2 ir op) (candidates T_IS_IDENTICAL).
Proof using laws swapping.
  intros (K1 & K2 & HC) Hu. pose proof Hu as (T1 & T2 & _ & Hq & _). each_candidate; intros Hg Hw; simpl in Hg, Hw.
  - by apply (plain_same _ id identical_tests).
  - eapply (identity_longs _ (exchanged op)); eauto using identical_tests.
  - eapply (identity_doubles _ (exchanged op)); eauto using identical_tests.
  - apply (empty_same _ id); eauto using identical_tests. by apply Z.eqb_eq.
  - apply (nothrow_same _ id); eauto using identical_tests.
Qed.
Lemma not_identical_same :
  kinds_ok T_IS_NOT_IDENTICAL op → usual T_IS_NOT_IDENTICAL s i1 i2 ir op →
  Forall (same_as T_IS_NOT_IDENTICAL s i1 i2 ir op) (candidates T_IS_NOT_IDENTICAL).
Proof using laws swapping.
  intros (K1 & K2 & HC) Hu. pose proof Hu as (T1 & T2 & _ & Hq & _). each_candidate; intros Hg Hw; simpl in Hg, Hw.
  - by apply (plain_same _ negb not_identical_negates).
  - eapply (identity_longs _ (exchanged op)); eauto using not_identical_negates.
  - eapply (identity_doubles _ (exchanged op)); eauto using not_identical_negates.
  - apply (empty_same _ negb); eauto using not_identical_negates. by apply Z.eqb_eq.
  - apply (nothrow_same _ negb); eauto using not_identical_negates.
Qed.

Lemma step_same t :
  t ∈ [T_PRE_INC; T_PRE_DEC; T_POST_INC; T_POST_DEC] → usual t s i1 i2 ir op → Forall (same_as t s i1 i2 ir op) (candidates t).
Proof.
  rewrite !elem_of_cons, elem_of_nil. intros Ht Hu. destruct_or! Ht; try done; subst; destruct Hu as [T1 Hf];
    (each_candidate; [apply unchanged|apply same_eq; intros op' Hg Hw; simpl in Hg, Hw, op'; unfold op'; apply Z.eqb_eq in Hg..]).
  all: try apply andb_true_iff in Hw as [Hr%Z.eqb_eq Hw]; apply Z.eqb_eq in Hw; subst i1;
    destruct (typed_long _ _ _ T1) as (z & l & Hz & Hl); simpl.
  2,4: symmetry; by eapply pre_step.
  4,6: symmetry; by eapply post_step.
  1,2: etrans; [eapply pre_step_fits|symmetry; eapply pre_step]; eauto; apply (fits_stored (λ l _, _) (λ _ _, _) l l); eauto.
  all: etrans; [eapply post_step_fits|symmetry; eapply post_step]; eauto; apply (fits_stored (λ l _, _) (λ _ _, _) l l); eauto.
Qed.

Lemma copy_same :
  op1_type op ∈ VALUES → usual T_QM_ASSIGN s i1 i2 ir op → Forall (same_as T_QM_ASSIGN s i1 i2 ir op) (candidates T_QM_ASSIGN).
Proof using laws.
  intros K (T1 & Href & Hdef). each_candidate; [apply unchanged|apply same_eq; intros op' _ Hw; simpl in Hw, op'; unfold op' in *; simpl..].
  - apply Z.eqb_eq in Hw as ->. destruct (typed_long _ _ _ T1) as (z & l & Hz & Hl). etrans; [by eapply copy_long|by eapply copy_number].
  - apply Z.eqb_eq in Hw as ->. destruct (typed_double _ _ _ T1) as (z & l & Hz & Hl). etrans; [by eapply copy_double|by eapply copy_number].
  - destruct T1 as (z & Hz & W & Ht). rewrite (copy_noref _ _ _ _ Hz). symmetry.
    enough (ZendVmRuns.plain z ∧ Z_OPT_REFCOUNTED z = false) as [??] by (by eapply copy_uncounted).
    destruct (Z.eqb_spec (op1_type op) IS_CONST) as [Hc|Hc].
    + specialize (Hdef Hc _ Hz). unfold operand in Hz. rewrite Hc in Hz. simpl in Hz. unfold constant_of in Hw. rewrite Hz in Hw.
      injection Hw as Hw%negb_true_iff. rewrite opt_refcounted. split; [|done]. split; [|done].
      pose proof (wf_reference _ W). destruct (Z_ISREF z); [|done]. naive_solver.
    + injection Hw as Hw. eapply lacks_counted; eauto. destruct (Z_ISREF z) eqn:Hr; [|done]. unfold Z_ISREF in Hr.
      apply Z.eqb_eq in Hr. rewrite Hr in Ht. naive_solver congruence.
Qed.

Lemma jump_same : usual T_JMP s i1 i2 ir op → Forall (same_as T_JMP s i1 i2 ir op) (candidates T_JMP).
Proof using laws.
  intros H. each_candidate; [apply unchanged|apply same_eq; intros op' _ Hw; simpl]. unfold ZEND_JMP.
  rewrite (bind_ret get _ s s s eq_refl), jump_uninterrupted by by apply H. done.
Qed.

Lemma xor_same : usual T_BOOL_XOR s i1 i2 ir op → Forall (same_as T_BOOL_XOR s i1 i2 ir op) (candidates T_BOOL_XOR).
Proof using laws swapping.
  intros Hx. destruct (exchanged op) eqn:He; [|each_candidate; by apply unexchanged].
  each_candidate. apply same_eq. intros op' _ _. unfold op'. simpl. rewrite He. destruct (Hx He) as (a & b & z1 & z2 & H1 & H2 & N1 & N2).
  destruct (xor_longs literals (ZEND_CALL_VAR (execute_data s) (result op)) (ptr_of s (op1_type op) (op1 op)) (ptr_of s (op2_type op) (op2 op))
    (with_EX_opline (opline s) s) z1 z2 a b) as (c & Hc & Hc'); [by apply (load_operand literals (with_EX_opline (opline s) s))..|done|done|].
  rewrite (xor_runs _ op s z1 z2 a b c) by done. unfold swap_if. rewrite swapping. by rewrite (xor_runs _ _ s z2 z1 b a c).
Qed.

Lemma candidates_same t :
  kinds_ok t op → usual t s i1 i2 ir op → Forall (same_as t s i1 i2 ir op) (candidates t).
Proof using laws swapping.
  intros Hk Hu. pose proof Hk as (K1 & _ & HC). destruct t; try (apply List.Forall_cons; [apply unchanged|apply List.Forall_nil]).
  all: first [by apply sum_same|by apply difference_same|by apply product_same|by apply identical_same|by apply not_identical_same
    |by apply copy_same|by apply jump_same|by apply xor_same|each_candidate; by apply unexchanged|idtac].
  all: first [apply equality_same; tauto|apply order_same; tauto|apply bits_same; tauto|apply step_same; [set_unfold; tauto|done]].
Qed.
End cases.

Lemma with_handler_swap op b h : swap_if swap (with_handler op h) b = with_handler (swap_if swap op b) h.
Proof using swapping. destruct b; [|done]. simpl. by rewrite !swapping. Qed.

Lemma usual_handler t s i1 i2 ir op h : usual t s i1 i2 ir op → usual t s i1 i2 ir (with_handler op h).
Proof.
  destruct t; try done; intros (T1 & T2 & Hk & Hq & Hp); (split_and!; [done..|]);
    (intros Hx; destruct (Hp Hx) as (z1 & z2 & [] & Hc); exists z1, z2; split; [by split|done]).
Qed.

(** What [chosen_handler_same] says, for use by the execution of whole programs. *)
Lemma chosen_same t s i1 i2 ir op op_data :
  general (opcode op) = Some t → kinds_ok t op → step_ok t op i1 → constants_ok literals (opline s) op → usual t s i1 i2 ir op →
  ∃ op' t', zend_vm_set_opcode_handler_ex 0 1 2 3 4 observers swap id literals num_elements (opline s) i1 i2 ir op op_data = Some op' ∧
    entry_for t' op' ∧ same_outcome (run t' op' s) (run t (with_handler op (handler op')) s).
Proof using laws swapping.
  intros Hg Hk Hs Hc Hu. destruct (chosen_handler_fits observers swap literals num_elements swapping t _ i1 i2 ir op op_data Hg Hk Hs Hc)
    as (op' & x & Hset & Hx & Hop & Hguard & Hwhen & He).
  exists op', (c_template x). split; [done|]. split; [done|].
  pose proof (candidates_same s i1 i2 ir (with_handler op (handler op')) t Hk (usual_handler _ _ _ _ _ _ _ Hu)) as Hall.
  rewrite Forall_forall in Hall. specialize (Hall x (proj1 (list_elem_of_In _ _) Hx)). unfold same_as in Hall.
  rewrite with_handler_swap in Hall. change (exchanged (with_handler op (handler op'))) with (op1_type op <? op2_type op) in Hall.
  rewrite <- Hop in Hall. by apply Hall.
Qed.

(** C27: The handler the engine chooses for an instruction of a modelled opcode
    without a user opcode handler does what the general handler of the instruction
    does: running the table's entry, with the operands perhaps exchanged, gives
    the result, the error or the abort of the general handler on the instruction
    as it was, and the same machine but for the instruction saved in the frame.
    The operands are of kinds the opcode is declared for, not both constant, their
    constants are in the code, and an increment known to be of an integer is of a
    compiled variable. Beyond that it relies on the optimiser's information being
    true of the operands, and a result promised to be an integer fitting; on
    exchanged operands being numbers for products, == and !=, integers for the bit
    operations and xor, and for === and !== defined values that are no references
    and need not be freed, and not two arrays with elements; on the same of
    operands compared with the constant empty array; on no exception pending at
    === and !==, and no interrupt at a forward jump; and, for copies, on constants
    being defined and on information that allows a reference allowing counted
    values. *)
Theorem chosen_handler_same t s i1 i2 ir op op_data :
  general (opcode op) = Some t → kinds_ok t op → step_ok t op i1 → constants_ok literals (opline s) op → usual t s i1 i2 ir op →
  ∃ op' t', zend_vm_set_opcode_handler_ex 0 1 2 3 4 observers swap id literals num_elements (opline s) i1 i2 ir op op_data = Some op' ∧
    entry_for t' op' ∧ same_outcome (run t' op' s) (run t (with_handler op (handler op')) s).
Proof using laws swapping. apply chosen_same. Qed.
End same.
