(* ===== verification/ZendVmExec.v ===== *)
(** * Execution (Zend/zend_vm_execute.h)

    The loop that runs the handlers of the instructions, one after the other, for code
    whose handlers were chosen when it was compiled, and how opcache stores a handler. The
    theorems show that the loop does what an interpreter of the opcodes does, for every
    number of instructions, and that a stored handler is found again. *)

From S2P Require Import Prelude ZendTypes ZendArith ZendString Engine ZendAssign ZendConvert ZendFrames ZendSsa ZendVm ZendVmLabels ZendVmSpec ZendVmRuns ZendVmSame.
From Stdlib Require Import SpecFloat.
Import TypeHint Binary64 LongOps SignedMultiply.

(** ** Handlers that do not look at the saved instruction *)

Section ignores.
Context {E : Type}.
Implicit Types (s : vst E).

Lemma same_fields s s' :
  same_but_saved s s' → execute_data s = execute_data s' ∧ opline s = opline s' ∧ vm_mem s = vm_mem s' ∧ eng s = eng s'.
Proof. destruct s, s'. unfold same_but_saved, with_EX_opline. simpl. intros. by simplify_eq. Qed.

Lemma ignores_bind {A B} (m : M (vst E) A) (f : A → M (vst E) B) :
  ignores_saved m → (∀ a, ignores_saved (f a)) → ignores_saved (m ≫= f).
Proof.
  intros Hm Hf s s' Hs. specialize (Hm s s' Hs). unfold mbind, M_bind. destruct (m s), (m s'); simpl in Hm; destruct_and?; subst; try done.
  by apply Hf.
Qed.
(** After the instruction is saved, everything is the same. *)
Lemma ignores_save {B} (f : () → M (vst E) B) : ignores_saved (SAVE_OPLINE ≫= f).
Proof.
  intros s s' Hs. unfold mbind, M_bind, SAVE_OPLINE, modify. destruct (same_fields _ _ Hs) as (_ & Ho & _). rewrite Ho.
  by rewrite (same_saved _ _ (opline s') Hs).
Qed.
Lemma ignores_ret {A} (a : A) : ignores_saved (mret a : M (vst E) A).
Proof. by intros s s' Hs. Qed.
Lemma ignores_undef {A} : ignores_saved (undef : M (vst E) A).
Proof. by intros s s' Hs. Qed.
Lemma ignores_need {A} (o : option A) : ignores_saved (need o : M (vst E) A).
Proof. destruct o; [apply ignores_ret|apply ignores_undef]. Qed.
Lemma ignores_gets {A} (f : vst E → A) : (∀ s s', same_but_saved s s' → f s = f s') → ignores_saved (gets f).
Proof. intros Hf s s' Hs. unfold gets. simpl. by rewrite (Hf s s'). Qed.
Lemma ignores_get {B} (f : vst E → M (vst E) B) :
  (∀ s s', same_but_saved s s' → f s = f s') → (∀ s, ignores_saved (f s)) → ignores_saved (get ≫= f).
Proof. intros Hf Hi s s' Hs. unfold mbind, M_bind. simpl. rewrite (Hf s s' Hs). by apply Hi. Qed.
Lemma ignores_engine {A} (m : M (es E) A) : ignores_saved (on_engine m).
Proof.
  intros s s' Hs. unfold on_engine. destruct (same_fields _ _ Hs) as (H1 & H2 & H3 & H4). rewrite H4.
  destruct s, s'; simpl in *; subst. destruct (m _); done.
Qed.
Lemma ignores_mem m : ignores_saved (modify (with_mem m) : M (vst E) ()).
Proof.
  intros s s' Hs. destruct (same_fields _ _ Hs) as (H1 & H2 & H3 & H4). destruct s, s'; simpl in *; subst. done.
Qed.
Lemma ignores_if {A} (b : bool) (m n : M (vst E) A) : ignores_saved m → ignores_saved n → ignores_saved (if b then m else n).
Proof. by destruct b. Qed.
End ignores.

Create HintDb ignores discriminated.

Section handlers.
Context {E : Type} {engine : ZendEngine E} {library : VmLibrary E} {macros : VmMacros E} {laws : VmLaws E}.
Context (literals : gmap Z zval) (br : branch).
Implicit Types (op : zend_op) (p : zptr).

Lemma slot_ignores n : ignores_saved (EX_VAR n : M (vst E) zptr).
Proof. apply ignores_gets. intros s s' (-> & _)%same_fields. done. Qed.
Lemma const_ignores n : ignores_saved (CONST n : M (vst E) zptr).
Proof. apply ignores_gets. intros s s' (_ & -> & _)%same_fields. done. Qed.
Lemma target_ignores op : ignores_saved (jump_target op : M (vst E) Z).
Proof. apply ignores_gets. intros s s' (_ & -> & _)%same_fields. done. Qed.
Lemma mem_ignores : ignores_saved (gets vm_mem : M (vst E) (gmap Z zval)).
Proof. apply ignores_gets. by intros s s' (_ & _ & -> & _)%same_fields. Qed.
Lemma load_ignores p : ignores_saved (load literals p : M (vst E) zval).
Proof.
  destruct p; simpl; [apply ignores_bind; [apply mem_ignores|intros; apply ignores_need]|apply ignores_need| |apply ignores_ret].
  apply ignores_get; [|intros; apply ignores_need]. intros s s' (_ & _ & _ & ->)%same_fields. done.
Qed.
Lemma store_ignores p z : ignores_saved (store p z : M (vst E) ()).
Proof.
  destruct p; simpl; [|apply ignores_undef|apply ignores_engine|apply ignores_undef].
  apply ignores_bind; [apply mem_ignores|intros m]. apply ignores_bind; [apply ignores_need|intros _; apply ignores_mem].
Qed.
Lemma tmp_ignores n : ignores_saved (get_zval_ptr_tmp n : M (vst E) zptr).
Proof using laws. intros s s' Hs. rewrite !tmp_slot. destruct (same_fields _ _ Hs) as (-> & _). done. Qed.
Lemma var_ignores n : ignores_saved (get_zval_ptr_var n : M (vst E) zptr).
Proof using laws. intros s s' Hs. rewrite !var_slot. destruct (same_fields _ _ Hs) as (-> & _). done. Qed.
Lemma smart_ignores b : ignores_saved (smart br b : M (vst E) ()).
Proof using laws. intros s s' Hs. rewrite !smart_branch. by apply branch_ignores. Qed.

Hint Resolve ignores_save ignores_ret ignores_undef ignores_need ignores_engine slot_ignores const_ignores target_ignores
  load_ignores store_ignores tmp_ignores var_ignores smart_ignores : ignores.
Hint Extern 1 (ignores_saved _) => first [apply next_ignores|apply branch_ignores|apply jump_ignores|apply ptr_ptr_ignores] : ignores.
Ltac ignore :=
  repeat first
    [ progress (eauto 1 with ignores nocore)
    | apply ignores_bind; [|intros ?]
    | match goal with |- ignores_saved (if ?b then _ else _) => destruct b end
    | match goal with |- ignores_saved (match ?o with _ => _ end) => destruct o eqn:? end
    | progress cbn zeta ].

Lemma update_ignores p f : ignores_saved (update literals p f : M (vst E) ()).
Proof. unfold update. ignore. Qed.
Lemma lval_ignores p : ignores_saved (Z_LVAL_P literals p : M (vst E) Z).
Proof. unfold Z_LVAL_P. ignore. Qed.
Lemma dval_ignores p : ignores_saved (Z_DVAL_P literals p : M (vst E) double).
Proof. unfold Z_DVAL_P. ignore. Qed.
Lemma type_ignores p : ignores_saved (Z_TYPE_P literals p : M (vst E) Z).
Proof. unfold Z_TYPE_P. ignore. Qed.
Lemma type_info_ignores p : ignores_saved (Z_TYPE_INFO_P literals p : M (vst E) Z).
Proof. unfold Z_TYPE_INFO_P. ignore. Qed.
Lemma merged_ignores k n : ignores_saved (get_undef_merged k n : M (vst E) zptr).
Proof. unfold get_undef_merged. ignore. Qed.
Lemma tmpvar_ignores k n : ignores_saved (get_undef_tmpvar k n : M (vst E) zptr).
Proof using laws. unfold get_undef_tmpvar. ignore. Qed.
Lemma each_ignores k n : ignores_saved (get_undef_each k n : M (vst E) zptr).
Proof using laws. unfold get_undef_each. ignore. Qed.
Lemma ptr_ignores k n : ignores_saved (get_ptr_ptr k n : M (vst E) zptr).
Proof using laws. unfold get_ptr_ptr. ignore. Qed.
Hint Resolve update_ignores lval_ignores dval_ignores type_ignores type_info_ignores merged_ignores tmpvar_ignores each_ignores
  ptr_ignores : ignores.

Lemma free_ignores k p : ignores_saved (free_ptr literals k p : M (vst E) ()).
Proof. unfold free_ptr. ignore. Qed.
Lemma free_str_ignores k p : ignores_saved (free_str literals k p : M (vst E) ()).
Proof. unfold free_str. ignore. Qed.
Lemma copy_value_ignores p q : ignores_saved (copy_value literals p q : M (vst E) ()).
Proof. unfold copy_value. ignore. Qed.
Lemma addref_ignores p : ignores_saved (addref_slot literals p : M (vst E) ()).
Proof. unfold addref_slot. ignore. Qed.
Lemma leave_ignores l p : ignores_saved (leave_reference literals l p : M (vst E) ()).
Proof. unfold leave_reference. apply ignores_bind; [ignore|intros rc]. destruct (rc =? 0); [ignore|apply addref_ignores]. Qed.
Lemma number_ignores p n : ignores_saved (store_number literals p n : M (vst E) ()).
Proof. destruct n; simpl; unfold store_long, store_double; ignore. Qed.
Lemma in_place_ignores p n : ignores_saved (store_number_in_place literals p n : M (vst E) ()).
Proof. destruct n; simpl; unfold store_lval, store_double; ignore. Qed.
Lemma long_result_ignores op l : ignores_saved (long_result literals op l : M (vst E) ()).
Proof using laws. unfold long_result, store_long. ignore. Qed.
Hint Resolve free_ignores free_str_ignores copy_value_ignores addref_ignores leave_ignores number_ignores in_place_ignores
  long_result_ignores : ignores.

Lemma arith_ignores f g helper op :
  (∀ p q, ignores_saved (helper op p q)) → ignores_saved (arith_handler literals f g helper op : M (vst E) ()).
Proof using laws. intros H. unfold arith_handler, double_result, store_double. ignore. Qed.
Lemma long_handler_ignores fast helper op :
  (∀ p q, ignores_saved (helper op p q)) → (∀ a b k, fast op a b = Some k → ignores_saved k) →
  ignores_saved (long_handler literals fast helper op : M (vst E) ()).
Proof using laws.
  intros H Hf. unfold long_handler. ignore; by eapply Hf.
Qed.
Lemma numbers_ignore (type : zptr → M (vst E) Z) f g helper other op p q :
  (∀ p, ignores_saved (type p)) → (∀ p q, ignores_saved (helper op p q)) → (∀ t, ignores_saved (other t)) →
  ignores_saved (compare_numbers literals br type f g helper other op p q).
Proof using laws. intros Ht Hh Ho. unfold compare_numbers. ignore. Qed.
Lemma strings_ignore (free : M (vst E) ()) test helper op p q t :
  ignores_saved free → (∀ p q, ignores_saved (helper op p q)) →
  ignores_saved (compare_strings literals br free test helper op p q t).
Proof using laws. intros Hf Hh. unfold compare_strings. ignore. Qed.
Lemma report_ignores op k : ignores_saved (report_undefined op k : M (vst E) ()).
Proof. unfold report_undefined. ignore. Qed.
Hint Resolve report_ignores : ignores.

Lemma binary_helper_ignores f op p q : ignores_saved (binary_helper literals f op p q : M (vst E) ()).
Proof. unfold binary_helper. ignore. Qed.
Lemma compare_helper_ignores free test op p q : ignores_saved (compare_helper literals br free test op p q : M (vst E) ()).
Proof. unfold compare_helper. ignore. Qed.
Hint Resolve binary_helper_ignores compare_helper_ignores : ignores.

Lemma order_handler_ignores f g test op : ignores_saved (order_handler literals br f g (compare_helper literals br true test) op).
Proof using laws.
  unfold order_handler. apply ignores_bind; [ignore|intros p]. apply ignores_bind; [ignore|intros q].
  case_match; [ignore|]. apply numbers_ignore; intros; ignore.
Qed.
Lemma equal_handler_ignores f g test test' op : ignores_saved (equal_handler literals br f g test (compare_helper literals br true test') op).
Proof using laws.
  unfold equal_handler. apply ignores_bind; [ignore|intros p]. apply ignores_bind; [ignore|intros q].
  case_match; [ignore|]. apply numbers_ignore; intros; ignore. apply strings_ignore; intros; ignore.
Qed.
Lemma case_ignores op : ignores_saved (ZEND_CASE literals br op).
Proof using laws.
  unfold ZEND_CASE, zend_case_helper. apply ignores_bind; [ignore|intros p]. apply ignores_bind; [ignore|intros q].
  apply numbers_ignore; intros; ignore. apply strings_ignore; intros; unfold FREE_OP; ignore.
Qed.
Lemma mod_ignores op : ignores_saved (ZEND_MOD literals op).
Proof using laws.
  apply long_handler_ignores; [intros; unfold zend_mod_helper; ignore|]. intros a b k [= <-]. unfold zend_mod_by_zero_helper. ignore.
Qed.
Lemma shift_ignores op : ignores_saved (ZEND_SL literals op) ∧ ignores_saved (ZEND_SR literals op).
Proof using laws.
  split; (apply long_handler_ignores; [intros; unfold zend_shift_left_helper, zend_shift_right_helper; ignore|]);
    intros a b k; case_match; intros; simplify_eq; ignore.
Qed.
Lemma bits_ignore f g op : ignores_saved (long_handler literals (λ op a b, Some (long_result literals op (f a b))) (binary_helper literals g) op).
Proof using laws. apply long_handler_ignores; [intros; ignore|]. intros a b k [= <-]. ignore. Qed.
Lemma bw_not_ignores op : ignores_saved (ZEND_BW_NOT literals op).
Proof using laws. unfold ZEND_BW_NOT, zend_bw_not_helper. ignore. Qed.
Lemma bool_ignores f op : ignores_saved (bool_handler literals f op).
Proof using laws. unfold bool_handler. ignore. Qed.
Lemma jmp_ignores op : ignores_saved (ZEND_JMP op).
Proof using laws. apply ignores_get; [|intros; ignore]. intros s s' (_ & -> & _)%same_fields. done. Qed.
Lemma jump_handler_ignores f op : ignores_saved (jump_handler literals f op).
Proof using laws. unfold jump_handler. ignore. Qed.
Lemma jumps_ex_ignore op : ignores_saved (ZEND_JMPZ_EX literals op) ∧ ignores_saved (ZEND_JMPNZ_EX literals op).
Proof using laws. unfold ZEND_JMPZ_EX, ZEND_JMPNZ_EX. split; ignore. Qed.
Lemma pre_ignores f g op : ignores_saved (pre_handler literals f (pre_helper literals g) op).
Proof using laws. unfold pre_handler, pre_helper. ignore. Qed.
Lemma post_ignores f g op : ignores_saved (post_handler literals f (post_helper literals g) op).
Proof using laws. unfold post_handler, post_helper, store_long. ignore. Qed.
Lemma copy_ignores op : ignores_saved (ZEND_QM_ASSIGN literals op).
Proof using laws. unfold ZEND_QM_ASSIGN. ignore. Qed.

(** The general handlers leave machines that agree but for the saved instruction in
    machines that agree. *)
Lemma general_ignores t op : general (opcode op) = Some t → ignores_saved (run_template literals br t op).
Proof using laws.
  intros H. apply general_listed in H. revert H. unfold general_templates. rewrite !elem_of_cons, elem_of_nil.
  intros H. destruct_or! H; try done; injection H as _ ->; simpl.
  all: lazymatch goal with
    | |- ignores_saved (ZEND_NOP _) => apply next_ignores
    | |- ignores_saved (ZEND_EXT_NOP _) => apply next_ignores
    | |- ignores_saved (ZEND_ADD _ _) => apply arith_ignores; intros; apply binary_helper_ignores
    | |- ignores_saved (ZEND_SUB _ _) => apply arith_ignores; intros; apply binary_helper_ignores
    | |- ignores_saved (ZEND_MUL _ _) => apply arith_ignores; intros; apply binary_helper_ignores
    | |- ignores_saved (ZEND_MOD _ _) => apply mod_ignores
    | |- ignores_saved (ZEND_SL _ _) => apply shift_ignores
    | |- ignores_saved (ZEND_SR _ _) => apply shift_ignores
    | |- ignores_saved (ZEND_BW_NOT _ _) => apply bw_not_ignores
    | |- ignores_saved (ZEND_IS_EQUAL _ _ _) => apply equal_handler_ignores
    | |- ignores_saved (ZEND_IS_NOT_EQUAL _ _ _) => apply equal_handler_ignores
    | |- ignores_saved (ZEND_IS_SMALLER _ _ _) => apply order_handler_ignores
    | |- ignores_saved (ZEND_IS_SMALLER_OR_EQUAL _ _ _) => apply order_handler_ignores
    | |- ignores_saved (ZEND_CASE _ _ _) => apply case_ignores
    | |- ignores_saved (ZEND_JMP _) => apply jmp_ignores
    | |- ignores_saved (ZEND_JMPZ_EX _ _) => apply jumps_ex_ignore
    | |- ignores_saved (ZEND_JMPNZ_EX _ _) => apply jumps_ex_ignore
    | |- ignores_saved (ZEND_QM_ASSIGN _ _) => apply copy_ignores
    | |- _ => first [apply ignores_save|apply bits_ignore|apply bool_ignores|apply jump_handler_ignores|apply pre_ignores|apply post_ignores]
    end.
Qed.
End handlers.

(** ** The loop *)

Section loop.
Context {E : Type} {engine : ZendEngine E} {library : VmLibrary E} {macros : VmMacros E} {laws : VmLaws E}.
Context (observers : bool) (swap : zend_op → zend_op) (literals : gmap Z zval) (num_elements : loc → Z).
Context (swapping : swaps swap).
(** The branch that follows the instruction at an address, the end of the process on
    an entry of the table that is no handler, and the optimiser's information on the
    operands and the result of the instruction at an address. *)
Context (branch_at : Z → branch) (invalid_opcode : M (es E) ()) (info1 info2 info_res : Z → Z).
Implicit Types (s : vst E) (code : gmap Z zend_op).

(** [(opline->handler)(execute_data, opline)]. *)
Definition call_handler (p : Z) (op : zend_op) : M (vst E) () :=
  l ← need (zend_opcode_handlers (handler op));
  match l with
  | L t _ _ _ => run_template literals (branch_at p) t op
  | NULL => SAVE_OPLINE;; on_engine invalid_opcode
  end.
Definition dispatch code : M (vst E) () := p ← gets opline; op ← need (code !! p); call_handler p op.
(** [n] rounds of the loop of [execute_ex]. *)
Fixpoint execute_ex_loop code (n : nat) : M (vst E) () :=
  match n with O => mret () | S n => dispatch code;; execute_ex_loop code n end.

(** What the instructions mean: the general handler of each opcode. *)
Definition interpret code : M (vst E) () :=
  p ← gets opline; op ← need (code !! p); t ← need (general (opcode op)); run_template literals (branch_at p) t op.
Fixpoint interpret_loop code (n : nat) : M (vst E) () :=
  match n with O => mret () | S n => interpret code;; interpret_loop code n end.

(** [code'] is [code] with the handlers the engine chose; the handler word of [code] is
    that of [code'], and never looked at. *)
Definition prepared code code' : Prop := ∀ p op, code !! p = Some op → ∃ op' d,
  zend_vm_set_opcode_handler_ex 0 1 2 3 4 observers swap id literals num_elements p (info1 p) (info2 p) (info_res p) op d = Some op' ∧
  code' !! p = Some op' ∧ handler op = handler op'.

(** The instruction the machine is at is of one of the opcodes modelled, and what its
    handler is relied on for holds. *)
Definition proper code s : Prop := ∃ op t,
  code !! opline s = Some op ∧ general (opcode op) = Some t ∧ kinds_ok t op ∧ step_ok t op (info1 (opline s)) ∧
  constants_ok literals (opline s) op ∧
  usual literals num_elements t s (info1 (opline s)) (info2 (opline s)) (info_res (opline s)) op.

Lemma usual_saved t s s' i1 i2 ir op :
  same_but_saved s s' → usual literals num_elements t s i1 i2 ir op → usual literals num_elements t s' i1 i2 ir op.
Proof.
  intros (H1 & H2 & H3 & H4)%same_fields. destruct s as [a b c m e], s' as [a' b' c' m' e']. simpl in *. subst.
  destruct t; try done; intros (T1 & T2 & Hk & Hq & Hp); (split_and!; [done..|]);
    (intros Hx; destruct (Hp Hx) as (z1 & z2 & [] & Hc); exists z1, z2; split; [by split|done]).
Qed.

Lemma same_word op h : handler op = h → with_handler op h = op.
Proof. destruct op. by intros <-. Qed.

(** One round. *)
Lemma dispatch_same code code' s s' :
  prepared code code' → proper code s → same_but_saved s s' → same_outcome (dispatch code' s') (interpret code s).
Proof using laws swapping.
  intros Hp (op & t & Hop & Hg & Hk & Hs & Hc & Hu) Hsame. pose proof (same_fields _ _ Hsame) as (_ & Ho & _).
  destruct (Hp _ _ Hop) as (op' & d & Hset & Hop' & Hh). rewrite Ho in *.
  eapply usual_saved in Hu; [|exact Hsame].
  destruct (chosen_same observers swap literals num_elements (branch_at (opline s')) swapping t s' _ _ _ op d Hg Hk Hs Hc Hu)
    as (op'' & t' & Hset' & (k1 & k2 & v & Hl & _) & Hrun).
  rewrite Hset in Hset'. injection Hset' as <-. rewrite <- Hh, same_word in Hrun by done.
  unfold dispatch, interpret, call_handler. rewrite !(bind_ret (gets opline) _ _ _ _ eq_refl). rewrite Ho, Hop, Hop'. cbn [need].
  rewrite (bind_ret (mret op') _ s' op' s' eq_refl), (bind_ret (mret op) _ s op s eq_refl). rewrite Hl, Hg. cbn [need].
  rewrite (bind_ret (mret (L t' k1 k2 v)) _ s' _ s' eq_refl), (bind_ret (mret t) _ s t s eq_refl).
  rewrite Hrun. symmetry. by apply general_ignores.
Qed.

Lemma loops_same code code' n : ∀ s s',
  prepared code code' → same_but_saved s s' →
  (∀ k t, (k < n)%nat → interpret_loop code k s = Ret () t → proper code t) →
  same_outcome (execute_ex_loop code' n s') (interpret_loop code n s).
Proof using laws swapping.
  induction n as [|n IH]; intros s s' Hp Hs Hall; simpl; [done|].
  assert (Hprop : proper code s) by (apply (Hall 0%nat); [lia|done]).
  pose proof (dispatch_same _ _ _ _ Hp Hprop Hs) as H1. unfold mbind, M_bind.
  destruct (dispatch code' s') as [[] t'|t'|] eqn:H1', (interpret code s) as [[] t|t|] eqn:H2; simpl in H1; destruct_and?; try done.
  apply IH; [done|by symmetry|]. intros k u Hk Hu. apply (Hall (S k)); [lia|]. simpl. unfold mbind, M_bind. by rewrite H2.
Qed.

(** C26: The loop of the engine on a program whose handlers were chosen for the
    types of its operands refines an interpreter that runs the general handler of
    each opcode: after any number of instructions the two have returned, aborted
    or failed alike and left the same machine, but for the instruction saved in
    the frame. It holds for programs of the modelled opcodes without user opcode
    handlers, as long as the instruction and the state before it, wherever the
    interpreter gets, are as chosen_handler_same asks for: the operands are of
    declared kinds and not both constant, the optimiser's information is true
    there, exchanged operands are numbers (plain values for ===), operands
    compared with the constant empty array are plain, no exception is pending at
    ===, and no interrupt at a forward jump. *)
Theorem execution_refines code code' n s :
  prepared code code' → (∀ k t, (k < n)%nat → interpret_loop code k s = Ret () t → proper code t) →
  same_outcome (execute_ex_loop code' n s) (interpret_loop code n s).
Proof using laws swapping. intros Hp. by apply loops_same. Qed.
End loop.

(** ** Storing handlers *)

Module Serialiser.
Section serialiser.
(** The addresses of the entries of the table, and the hash table from addresses to
    numbers: [zend_hash_index_add] of the library leaves a key that is there alone. *)
Context (handlers : Z → Z) (zend_hash_index_add : gmap Z Z → Z → Z → gmap Z Z).
Context (index_add : ∀ m k v, zend_hash_index_add m k v = match m !! k with Some _ => m | None => <[k := v]> m end).
Implicit Types (op : zend_op) (m : gmap Z Z).

Definition add_handlers (count : Z) : gmap Z Z := foldl (λ m i, zend_hash_index_add m (handlers i) i) ∅ (seqZ 0 count).
Definition init_opcode_serialiser : gmap Z Z := add_handlers zend_handlers_count.
(** The static [zend_handlers_table]; [handler op] is an address here, and a number
    once stored. *)
Definition the_table (tb : option (gmap Z Z)) : gmap Z Z := match tb with Some m => m | None => init_opcode_serialiser end.
Definition zend_serialize_opcode_handler op (tb : option (gmap Z Z)) : option (zend_op * option (gmap Z Z)) :=
  let m := the_table tb in i ← m !! handler op; Some (with_handler op i, Some m).
Definition zend_deserialize_opcode_handler op : zend_op := with_handler op (handlers (handler op)).
Definition zend_vm_dtor (tb : option (gmap Z Z)) : option (gmap Z Z) := None.

Definition table_ok (tb : option (gmap Z Z)) : Prop := tb = None ∨ tb = Some init_opcode_serialiser.

Lemma added_first (n : nat) : ∀ a m, 0 <= a → (∀ k j, m !! k = Some j → 0 <= j < a ∧ handlers j = k) → ∀ i, 0 <= i < a + Z.of_nat n →
  (i < a → ∃ j, m !! handlers i = Some j ∧ j <= i) →
  ∃ j, foldl (λ m i, zend_hash_index_add m (handlers i) i) m (seqZ a (Z.of_nat n)) !! handlers i = Some j ∧ 0 <= j <= i ∧ handlers j = handlers i.
Proof using index_add.
  induction n as [|n IH]; intros a m Ha Hm i Hi Hold.
  - destruct Hold as (j & Hj & Hle); [lia|]. exists j. destruct (Hm _ _ Hj). simpl. split; [done|]. split; [lia|done].
  - rewrite Nat2Z.inj_succ, <- Z.add_1_l, seqZ_app by lia. cbn [foldl app seqZ seq fmap list_fmap].
    rewrite foldl_app. cbn. replace (a + 0) with a by lia. replace (a + 1) with (Z.succ a) by lia.
    set (m' := zend_hash_index_add m (handlers a) a).
    assert (Hm' : ∀ k j, m' !! k = Some j → (m !! k = Some j) ∨ (j = a ∧ handlers a = k)).
    { unfold m'. rewrite index_add. intros k j. destruct (m !! handlers a) eqn:E; [tauto|].
      destruct (decide (handlers a = k)) as [<-|Hne]; [rewrite lookup_insert_eq; intros; simplify_eq; tauto|rewrite lookup_insert_ne by done; tauto]. }
    apply (IH (Z.succ a) m'); [lia| |lia|].
    + intros k j [H|[-> <-]]%Hm'; [destruct (Hm _ _ H); split; [lia|done]|split; [lia|done]].
    + intros Hlt. unfold m'. rewrite index_add. destruct (decide (i = a)) as [->|Hne].
      * destruct (m !! handlers a) eqn:E; [|exists a; rewrite lookup_insert_eq; split; [done|lia]]. destruct (Hm _ _ E). eexists; split; [done|lia].
      * destruct Hold as (j & Hj & Hle); [lia|]. exists j. split; [|done]. destruct (m !! handlers a) eqn:E; [done|].
        rewrite lookup_insert_ne; [done|]. intros Heq. rewrite Heq in E. congruence.
Qed.

Lemma first_entry c i : 0 <= i < c →
  ∃ j, add_handlers c !! handlers i = Some j ∧ 0 <= j <= i ∧ handlers j = handlers i.
Proof using index_add.
  intros Hi. unfold add_handlers. rewrite <- (Z2Nat.id c) by lia. apply (added_first (Z.to_nat c) 0 ∅); [lia| |lia..].
  intros k j. by rewrite lookup_empty.
Qed.

(** Storing the handler of an instruction as a number and restoring it from the
    number gives the instruction back, whether or not the table of the serialiser was
    built before; the number is inside the table, and it is the first of the entries that
    share the handler. *)
Theorem serialised_handler_restored op tb i :
  table_ok tb → 0 <= i < zend_handlers_count → handler op = handlers i →
  ∃ op' tb', zend_serialize_opcode_handler op tb = Some (op', tb') ∧ table_ok tb' ∧
    0 <= handler op' <= i ∧ zend_deserialize_opcode_handler op' = op.
Proof using index_add.
  intros Htb Hi Hop. assert (Ht : the_table tb = init_opcode_serialiser) by (by destruct Htb as [->| ->]).
  destruct (first_entry zend_handlers_count i Hi) as (j & Hj & Hle & Heq).
  unfold zend_serialize_opcode_handler. cbv zeta. rewrite Ht, Hop. unfold init_opcode_serialiser. rewrite Hj. exists (with_handler op j), (Some (add_handlers zend_handlers_count)).
  split; [reflexivity|]. split; [unfold table_ok, init_opcode_serialiser; right; reflexivity|]. split; [exact Hle|]. unfold zend_deserialize_opcode_handler.
  cbn [handler with_handler]. rewrite Heq, <- Hop. by destruct op.
Qed.
End serialiser.
End Serialiser.

(** ** Jump targets and constants (zend_compile.h) *)

(** The compiler numbers instructions and constants; at run time they are at 32-bit
    offsets from the instruction that names them. *)
Module PassTwo.
Import HashLayout.
Definition ZEND_OPLINE_TO_OFFSET (opline target : Z) : Z := target - opline.
Definition ZEND_OPLINE_NUM_TO_OFFSET (opcodes opline num : Z) : Z := opcodes + num * sizeof_zend_op - opline.
Definition ZEND_OFFSET_TO_OPLINE (base offset : Z) : Z := base + s32 offset.
Definition ZEND_OFFSET_TO_OPLINE_NUM (opcodes base offset : Z) : Z := (ZEND_OFFSET_TO_OPLINE base offset - opcodes) / sizeof_zend_op.
Definition ZEND_SET_OP_JMP_ADDR (opline val : Z) : Z := u32 (ZEND_OPLINE_TO_OFFSET opline val).
Definition ZEND_PASS_TWO_UPDATE_JMP_TARGET (opcodes opline node : Z) : Z := u32 (ZEND_OPLINE_NUM_TO_OFFSET opcodes opline node).
Definition ZEND_PASS_TWO_UNDO_JMP_TARGET (opcodes opline node : Z) : Z := u32 (ZEND_OFFSET_TO_OPLINE_NUM opcodes opline node).
Definition CT_CONSTANT_EX (literals num : Z) : Z := literals + num * sizeof_zval.
Definition ZEND_PASS_TWO_UPDATE_CONSTANT (literals opline node : Z) : Z := u32 (CT_CONSTANT_EX literals node - opline).
Definition ZEND_PASS_TWO_UNDO_CONSTANT (literals opline node : Z) : Z := u32 ((RT_CONSTANT opline node - literals) / sizeof_zval).

Lemma s32_u32 z : - 2 ^ 31 <= z < 2 ^ 31 → s32 (u32 z) = z.
Proof.
  intros Hz. unfold s32, sint, u32. rewrite Z.mod_mod by lia. destruct (Z.le_gt_cases 0 z).
  - rewrite Z.mod_small by lia. destruct (Z.ltb_spec z (2 ^ (32 - 1))); lia.
  - replace (z mod 2 ^ 32) with (z + 2 ^ 32) by (symmetry; rewrite <- (Z.mod_add z 1) by lia; apply Z.mod_small; lia).
    destruct (Z.ltb_spec (z + 2 ^ 32) (2 ^ (32 - 1))); lia.
Qed.

(** Where the code and its constants lie within 2 GB of each other, a jump or a constant
    written by the second pass is found at run time where the compiler put it, and the
    pass can be undone. *)
Theorem pass_two_resolves opcodes literals opline target num :
  0 <= target < 2 ^ 26 → 0 <= num < 2 ^ 27 →
  - 2 ^ 31 <= opcodes + target * sizeof_zend_op - opline < 2 ^ 31 → - 2 ^ 31 <= CT_CONSTANT_EX literals num - opline < 2 ^ 31 →
  OP_JMP_ADDR opline (ZEND_PASS_TWO_UPDATE_JMP_TARGET opcodes opline target) = opcodes + target * sizeof_zend_op ∧
  ZEND_PASS_TWO_UNDO_JMP_TARGET opcodes opline (ZEND_PASS_TWO_UPDATE_JMP_TARGET opcodes opline target) = target ∧
  OP_JMP_ADDR opline (ZEND_SET_OP_JMP_ADDR opline (opcodes + target * sizeof_zend_op)) = opcodes + target * sizeof_zend_op ∧
  RT_CONSTANT opline (ZEND_PASS_TWO_UPDATE_CONSTANT literals opline num) = CT_CONSTANT_EX literals num ∧
  ZEND_PASS_TWO_UNDO_CONSTANT literals opline (ZEND_PASS_TWO_UPDATE_CONSTANT literals opline num) = num.
Proof.
  intros Ht Hn Hj Hc.
  assert (Hjmp : ∀ z, - 2 ^ 31 <= z - opline < 2 ^ 31 → opline + s32 (u32 (z - opline)) = z) by (intros z ?; rewrite s32_u32 by lia; lia).
  unfold OP_JMP_ADDR, RT_CONSTANT, ZEND_PASS_TWO_UNDO_JMP_TARGET, ZEND_PASS_TWO_UNDO_CONSTANT, ZEND_OFFSET_TO_OPLINE_NUM, ZEND_OFFSET_TO_OPLINE,
    ZEND_PASS_TWO_UPDATE_JMP_TARGET, ZEND_PASS_TWO_UPDATE_CONSTANT, ZEND_SET_OP_JMP_ADDR, ZEND_OPLINE_NUM_TO_OFFSET, ZEND_OPLINE_TO_OFFSET, RT_CONSTANT.
  rewrite !Hjmp by done. unfold CT_CONSTANT_EX, u32.
  replace (opcodes + target * sizeof_zend_op - opcodes) with (target * sizeof_zend_op) by lia.
  replace (literals + num * sizeof_zval - literals) with (num * sizeof_zval) by lia.
  rewrite !Z.div_mul by done. split_and!; try done; apply Z.mod_small; lia.
Qed.
End PassTwo.
