(* ===== verification/ZendVmNumbers.v ===== *)
(** * Numbers in the virtual machine (Zend/zend_vm_def.h)

    What the arithmetic handlers leave in the slot of their result, for operands that
    are integers, and that a number stored in a slot is read back as it was. *)

From S2P Require Import Prelude ZendTypes ZendArith ZendString Engine ZendAssign ZendConvert ZendFrames ZendSsa ZendVm ZendVmLabels ZendVmSpec ZendVmRuns ZendVmSame.
From Stdlib Require Import SpecFloat.
Import TypeHint Binary64 LongOps SignedMultiply.

(** ** Numbers in slots *)

(** The words of a double: sign, exponent and fraction. *)
Lemma bits_fields (s : bool) e f : 0 <= e < 2 ^ 11 → 0 <= f < 2 ^ 52 →
  let b := sign_bits s + e * 2 ^ 52 + f in
  Z.testbit b 63 = s ∧ Z.land (Z.shiftr b 52) 0x7ff = e ∧ Z.land b (Z.ones 52) = f.
Proof.
  intros He Hf b. unfold b. rewrite Z.testbit_eqb by lia. change 0x7ff with (Z.ones 11).
  rewrite !Z.land_ones, Z.shiftr_div_pow2 by lia.
  assert (H52 : (sign_bits s + e * 2 ^ 52 + f) / 2 ^ 52 = (if s then 2 ^ 11 else 0) + e).
  { replace (sign_bits s + e * 2 ^ 52 + f) with (((if s then 2 ^ 11 else 0) + e) * 2 ^ 52 + f) by (unfold sign_bits; destruct s; lia).
    rewrite Z.div_add_l by lia. rewrite (Z.div_small f) by lia. lia. }
  split; [|split].
  - replace (2 ^ 63) with (2 ^ 52 * 2 ^ 11) by lia. rewrite <- Z.div_div, H52 by lia. destruct s.
    + replace (2 ^ 11 + e) with (1 * 2 ^ 11 + e) by lia. by rewrite Z.div_add_l, (Z.div_small e) by lia.
    + by rewrite Z.div_small by lia.
  - rewrite H52. destruct s; [|apply Z.mod_small; lia]. replace (2 ^ 11 + e) with (e + 1 * 2 ^ 11) by lia.
    rewrite Z.mod_add by lia. apply Z.mod_small. lia.
  - replace (sign_bits s + e * 2 ^ 52 + f) with (f + ((if s then 2 ^ 11 else 0) + e) * 2 ^ 52) by (unfold sign_bits; destruct s; lia).
    rewrite Z.mod_add by lia. apply Z.mod_small. lia.
Qed.

Lemma finite_fields m e : bounded 53 1024 m e = true →
  (Z.pos m < 2 ^ 52 ∧ e = -1074) ∨ (2 ^ 52 <= Z.pos m < 2 ^ 53 ∧ -1074 <= e <= 971).
Proof.
  unfold bounded, canonical_mantissa, fexp, emin. intros [H1%Z.eqb_eq H2%Z.leb_le]%andb_true_iff.
  pose proof (digits_bounds m) as Hd. set (k := Z.pos (digits2_pos m)) in *.
  assert (Hk : k <= 53) by lia. destruct (Z.eq_dec k 53) as [Hk53|Hk53]; [right|left].
  - rewrite Hk53 in Hd, H1. split; lia.
  - assert (2 ^ k <= 2 ^ 52) by (apply Z.pow_le_mono_r; lia). split; lia.
Qed.

Lemma bits_round_trip d : valid_binary 53 1024 d = true → double_of_bits (bits_of_double d) = d.
Proof.
  intros Hv. destruct d as [s|s| |s m e]; [by destruct s|by destruct s|done|]. cbn [valid_binary] in Hv.
  apply finite_fields in Hv. unfold bits_of_double. destruct Hv as [[Hm ->]|[Hm He]].
  - rewrite (proj2 (Z.ltb_lt _ _) Hm). destruct (bits_fields s 0 (Z.pos m)) as (H1 & H2 & H3); [lia|lia|].
    rewrite Z.mul_0_l, Z.add_0_r in H1, H2, H3. unfold double_of_bits. by rewrite H1, H2, H3.
  - rewrite (proj2 (Z.ltb_ge _ _)) by lia. destruct (bits_fields s (e + 1075) (Z.pos m - 2 ^ 52)) as (H1 & H2 & H3); [lia|lia|].
    rewrite <- Z.add_assoc in H1, H2, H3. unfold double_of_bits. rewrite H1, H2, H3.
    rewrite !(proj2 (Z.eqb_neq _ _)) by lia. replace (2 ^ 52 + (Z.pos m - 2 ^ 52)) with (Z.pos m) by lia. f_equal. lia.
Qed.

(** What [ZVAL_LONG] and [ZVAL_DOUBLE] leave in a slot. *)
Definition ZVAL_NUMBER (z : zval) (n : number) : zval :=
  match n with NLong l => ZVAL_LONG z l | NDouble d => ZVAL_DOUBLE z (bits_of_double d) end.
Definition number_ok (n : number) : Prop :=
  match n with NLong l => in_s64 l = true | NDouble d => valid_binary 53 1024 d = true end.

Lemma stored_number z n : number_ok n → num (ZVAL_NUMBER z n) = Some n.
Proof.
  destruct n as [l|d]; simpl; intros H; unfold num; cbn; [by rewrite H|by rewrite bits_round_trip].
Qed.

Section integers.
Context {E : Type} {engine : ZendEngine E} {library : VmLibrary E} {macros : VmMacros E}.
Context (literals : gmap Z zval) (s : vst E) (op : zend_op) (a b : Z) (old : zval).

(** The handler stores [n] in the slot of the result and goes on. *)
Definition delivers (m : M (vst E) ()) (n : number) : Prop :=
  m s = ZEND_VM_NEXT_OPCODE (with_mem (<[ZEND_CALL_VAR (execute_data s) (result op) := ZVAL_NUMBER old n]> (vm_mem s)) s).

Context (H : numbers_at literals s op (NLong a) (NLong b)) (HC : CONST_CONST op = false).
Context (Hold : vm_mem s !! ZEND_CALL_VAR (execute_data s) (result op) = Some old).

Lemma number_delivered n : delivers (number_result literals op n) n.
Proof using Hold.
  unfold delivers, number_result. rewrite (bind_ret (EX_VAR (result op)) _ s _ s eq_refl).
  destruct n; simpl; unfold store_long, store_double; by rewrite (bind_ret _ _ _ _ _ (update_slot literals s _ _ _ Hold)).
Qed.
Lemma long_delivered fast helper l :
  fast op a b = Some (long_result literals op l) → delivers (long_handler literals fast helper op) (NLong l).
Proof using H HC Hold.
  intros Hf. unfold delivers. rewrite (long_at _ _ _ HC _ _ _ _ _ H Hf). apply (number_delivered (NLong l)).
Qed.

Lemma operands_range : in_s64 a = true ∧ in_s64 b = true.
Proof using H.
  destruct H as (z1 & z2 & _ & _ & [(_ & x & _ & Hx & Ha)|(_ & x & _ & Hx)]%num_cases & [(_ & y & _ & Hy & Hb)|(_ & y & _ & Hy)]%num_cases);
    simplify_eq. done.
Qed.

Lemma rem_defined : b ≠ 0 → b ≠ -1 → c_rem a b = Some (Z.rem a b).
Proof using H.
  intros H0 H1. unfold c_rem. rewrite (proj2 (Z.eqb_neq _ _) H0). destruct operands_range as [Ha%in_s64_spec Hb%in_s64_spec].
  assert (Hq : in_s64 (Z.quot a b) = true); [|by rewrite Hq].
  apply in_s64_spec.
  destruct (Z.eq_dec b 1) as [->|Hb1]; [rewrite Z.quot_1_r; lia|]. assert (2 <= Z.abs b) by lia.
  assert (Z.abs (Z.quot a b) * Z.abs b <= Z.abs a).
  { rewrite <- Z.quot_abs, Z.mul_comm by done. apply Z.mul_quot_le; lia. }
  nia.
Qed.

(** C28: On two integers the arithmetic handlers deliver what the language
    promises: sums, differences and products are the exact integer when it fits
    and the operation on doubles otherwise; the remainder truncates, is 0 for the
    divisor -1 even where the quotient would not fit, and is never undefined; a
    shift by less than the width wraps to the left and divides, rounding down, to
    the right; the bit operations are those of two's complement. A division by
    zero throws. *)
Theorem integer_operators :
  delivers (ZEND_ADD literals op) (php_number (a + b) (dadd (of_long a) (of_long b))) ∧
  delivers (ZEND_SUB literals op) (php_number (a - b) (dsub (of_long a) (of_long b))) ∧
  delivers (ZEND_MUL literals op) (php_number (a * b) (dmul (of_long a) (of_long b))) ∧
  (b ≠ 0 → delivers (ZEND_MOD literals op) (NLong (Z.rem a b))) ∧
  (b = 0 → ZEND_MOD literals op s = zend_mod_by_zero_helper literals op s) ∧
  (0 <= b < 64 → delivers (ZEND_SL literals op) (NLong (s64 (a * 2 ^ b))) ∧ delivers (ZEND_SR literals op) (NLong (a / 2 ^ b))) ∧
  delivers (ZEND_BW_OR literals op) (NLong (Z.lor a b)) ∧
  delivers (ZEND_BW_AND literals op) (NLong (Z.land a b)) ∧
  delivers (ZEND_BW_XOR literals op) (NLong (Z.lxor a b)).
Proof using H HC Hold.
  assert (Hsum : ∀ f g helper, delivers (arith_handler literals f g helper op) (f a b)).
  { intros f g helper. unfold delivers. rewrite (arith_at _ _ _ _ _ _ _ _ H HC). apply number_delivered. }
  assert (Hphp : ∀ z d, (if negb (in_s64 z) then NDouble d else NLong (s64 z)) = php_number z d).
  { intros z d. unfold php_number. destruct (in_s64 z) eqn:Hz; [|done]. simpl. by rewrite in_s64_small. }
  split; [rewrite <- Hphp; apply Hsum|]. split; [rewrite <- Hphp; apply Hsum|]. split; [rewrite <- Hphp; apply Hsum|].
  split; [|split; [|split; [|by repeat split; apply long_delivered]]].
  - intros Hb. unfold delivers, ZEND_MOD. erewrite (long_at _ _ _ HC _ _ _ _ _ H eq_refl). rewrite (proj2 (Z.eqb_neq _ _) Hb).
    destruct (Z.eqb_spec b (-1)) as [Hm|Hm].
    + rewrite Hm. change (-1) with (- (1)). rewrite Z.rem_opp_r, Z.rem_1_r by lia. apply (number_delivered (NLong 0)).
    + rewrite rem_defined by done. cbn [need]. rewrite (bind_ret (mret (Z.rem a b)) _ s _ s eq_refl). apply (number_delivered (NLong (Z.rem a b))).
  - intros Hb. unfold ZEND_MOD. erewrite (long_at _ _ _ HC _ _ _ _ _ H eq_refl). by rewrite Hb.
  - intros Hb. assert (Hr : shift_in_range b = true) by (unfold shift_in_range, u64; rewrite Z.mod_small by lia; lia).
    split; apply long_delivered; rewrite Hr; do 2 f_equal.
    + rewrite Z.shiftl_mul_pow2 by lia. unfold s64, sint, u64. by rewrite Z.mod_mod, Z.mul_mod_idemp_l by lia.
    + by rewrite Z.shiftr_div_pow2 by lia.
Qed.
End integers.

(** ** Ranges the optimiser inferred *)

Section ranges.
Context {E : Type} {engine : ZendEngine E} {library : VmLibrary E} {macros : VmMacros E}.
Context (literals : gmap Z zval) (var_info : option (list zend_ssa_var_info)) (env : Z → Z).
Implicit Types (s : vst E) (op : zend_op).

Lemma no_overflow_runs s op x1 x2 (f : Z → Z → Z) (d : Z → Z → double) double_op helper old :
  numbers_at literals s op (NLong x1) (NLong x2) → CONST_CONST op = false → in_s64 (f x1 x2) = true →
  vm_mem s !! ZEND_CALL_VAR (execute_data s) (result op) = Some old →
  no_overflow_handler literals f op s =
  arith_handler literals (λ a b, if negb (in_s64 (f a b)) then NDouble (d a b) else NLong (s64 (f a b))) double_op helper op s ∧
  delivers s op old (no_overflow_handler literals f op) (NLong (f x1 x2)).
Proof.
  intros H HC Hin Hold. rewrite (arith_at _ _ _ _ _ _ _ _ H HC). simpl. rewrite (fits_stored f d) by done.
  assert (Hrun : no_overflow_handler literals f op s = number_result literals op (NLong (f x1 x2)) s).
  { destruct H as (z1 & z2 & ? & ? & ? & ?). by eapply no_overflow_numbers. }
  split; [done|]. unfold delivers. rewrite Hrun. by apply number_delivered.
Qed.

(** C29: Where the ranges the optimiser recorded for two operands are true of
    their values, may neither underflow nor overflow and pass the overflow tests
    at their ends, the handlers that add and subtract without looking for an
    overflow are defined, and do exactly what the general handlers do. *)
Theorem inferred_ranges_specialise s op o1 o2 x1 x2 mn1 mx1 mn2 mx2 old :
  infos_true var_info env → operand_value env o1 x1 → operand_value env o2 x2 →
  recorded var_info o1 mn1 mx1 → recorded var_info o2 mn2 mx2 →
  numbers_at literals s op (NLong x1) (NLong x2) → CONST_CONST op = false →
  vm_mem s !! ZEND_CALL_VAR (execute_data s) (result op) = Some old →
  (zend_add_will_overflow mn1 mn2 = false → zend_add_will_overflow mx1 mx2 = false →
     ZEND_ADD_LONG_NO_OVERFLOW literals op s = ZEND_ADD literals op s ∧
     delivers s op old (ZEND_ADD_LONG_NO_OVERFLOW literals op) (NLong (x1 + x2))) ∧
  (zend_sub_will_overflow mn1 mx2 = false → zend_sub_will_overflow mx1 mn2 = false →
     ZEND_SUB_LONG_NO_OVERFLOW literals op s = ZEND_SUB literals op s ∧
     delivers s op old (ZEND_SUB_LONG_NO_OVERFLOW literals op) (NLong (x1 - x2))).
Proof.
  intros Hi Hx1 Hx2 Hr1 Hr2 Hn HC Hold. pose proof (recorded_range _ _ _ _ _ _ Hi Hx1 Hr1). pose proof (recorded_range _ _ _ _ _ _ Hi Hx2 Hr2).
  split; [rewrite !add_will_overflow_exact by lia|rewrite !sub_will_overflow_exact by lia];
    rewrite !negb_false_iff, !in_s64_spec; intros H1 H2; apply (no_overflow_runs _ _ x1 x2); try done; apply in_s64_spec; lia.
Qed.
End ranges.
