(* ===== verification/ZendVmWitnesses.v ===== *)
(** * The virtual machine on a concrete program

    A small machine that keeps the laws of [VmLaws], and the properties of the virtual
    machine on a loop body, [5 + $i; ++$i;] and the jump back. *)

From S2P Require Import Prelude ZendTypes ZendArith ZendString Engine ModelEngine ZendAssign ZendConvert ZendFrames ZendSsa ZendVm ZendVmLabels ZendVmSpec ZendVmTable ZendVmRuns ZendVmSame ZendVmExec ZendVmNumbers.
From Stdlib Require Import SpecFloat.
Import TypeHint Binary64 LongOps SignedMultiply.

Abbreviation E0 := (gset positive).
#[local] Instance engine0 : ZendEngine E0 := model (Config (lit "ok") true SUCCESS true).

(** [===] of the small library: integers, doubles, and arrays, which are all empty. *)
Definition identical0 (z1 z2 : zval) : bool :=
  if (zval_get_type z1 =? IS_LONG) && (zval_get_type z2 =? IS_LONG) then
    match Z_LVAL z1, Z_LVAL z2 with Some a, Some b => a =? b | _, _ => false end
  else if (zval_get_type z1 =? IS_DOUBLE) && (zval_get_type z2 =? IS_DOUBLE) then
    match Z_DVAL_BITS z1, Z_DVAL_BITS z2 with Some a, Some b => SFeqb (double_of_bits a) (double_of_bits b) | _, _ => false end
  else (zval_get_type z1 =? IS_ARRAY) && (zval_get_type z2 =? IS_ARRAY).

#[local] Instance library0 : VmLibrary E0 := {|
  binary_function f r _ _ := match f with boolean_xor_function => update ∅ r (λ z, ZVAL_BOOL z false) | _ => mret () end;
  bitwise_not_function _ _ := mret ();
  increment_function _ := mret ();
  decrement_function _ := mret ();
  zend_incdec_typed_ref _ _ _ := mret ();
  ZEND_REF_HAS_TYPE_SOURCES _ _ := false;
  zend_compare _ _ := mret 0;
  zend_is_identical z1 z2 := mret (identical0 z1 z2);
  zendi_smart_streq _ _ := mret false;
  zend_hash_num_elements _ _ := 0;
  Z_RES_HANDLE _ _ := 0;
  has_std_cast _ _ := true;
  zend_object_is_true _ _ := true;
  zend_error _ := mret ();
  zend_throw_modulo_by_zero := mret ();
  EG_exception _ := false;
  EG_vm_interrupt _ := false |}.

Definition next0 : M (vst E0) () := modify (λ s, with_opline (opline s + sizeof_zend_op) s).
Definition slot0 (n : Z) : M (vst E0) zptr := gets (λ s, PVar (ZEND_CALL_VAR (execute_data s) n)).
(** A comparison that is followed by a jump skips its result. *)
Definition smart0 (br : branch) (b : bool) : M (vst E0) () := modify (λ s,
  if br_type br =? Z.lor IS_SMART_BRANCH_JMPZ IS_TMP_VAR
  then with_opline (if b then opline s + 2 * sizeof_zend_op else br_target br) s
  else with_opline (opline s + sizeof_zend_op)
         (with_mem (<[ZEND_CALL_VAR (execute_data s) (br_result br) := ZVAL_BOOL zval_uninit b]> (vm_mem s)) s)).
#[local] Instance macros0 : VmMacros E0 := {|
  ZEND_VM_NEXT_OPCODE := next0;
  ZEND_VM_NEXT_OPCODE_CHECK_EXCEPTION := next0;
  ZEND_VM_JMP_EX a _ := modify (with_opline a);
  ZEND_VM_JMP a := modify (with_opline a);
  ZEND_VM_SMART_BRANCH br b _ := smart0 br b;
  ZEND_VM_SMART_BRANCH_TRUE br := smart0 br true;
  ZEND_VM_SMART_BRANCH_FALSE br := smart0 br false;
  ZVAL_UNDEFINED_OP1 _ := mret PUninit;
  ZVAL_UNDEFINED_OP2 _ := mret PUninit;
  get_zval_ptr_tmp := slot0;
  get_zval_ptr_var := slot0;
  get_zval_ptr_ptr_var := slot0;
  get_zval_ptr_cv_BP_VAR_R := slot0;
  get_zval_ptr_cv_BP_VAR_IS := slot0;
  get_zval_ptr_var_deref := slot0;
  get_zval_ptr_cv_deref_BP_VAR_R := slot0;
  get_zval_ptr_tmpvarcv _ := slot0 |}.

Lemma modify_ignores (f : vst E0 → vst E0) :
  (∀ s s', same_but_saved s s' → same_but_saved (f s) (f s')) → ignores_saved (modify f).
Proof. intros Hf s s' Hs. split; [done|by apply Hf]. Qed.
Lemma slot0_ignores n : ignores_saved (slot0 n).
Proof. apply ignores_gets. by intros s s' (-> & _)%same_fields. Qed.
Lemma identical0_sym z1 z2 : identical0 z1 z2 = identical0 z2 z1.
Proof.
  unfold identical0. rewrite (andb_comm (zval_get_type z2 =? IS_LONG)), (andb_comm (zval_get_type z2 =? IS_DOUBLE)),
    (andb_comm (zval_get_type z2 =? IS_ARRAY)).
  case_match; [case_match; case_match; try done; apply Z.eqb_sym|]. case_match; [|done]. case_match; case_match; try done. apply SFeqb_comm.
Qed.

#[local] Instance laws0 : VmLaws E0.
Proof.
  split; try done.
  all: try (intros literals r p1 p2 s z1 z2 a b _ _ _ _; by exists false).
  - apply modify_ignores. intros s s' (? & ? & ? & ?)%same_fields. destruct s, s'; simpl in *; by subst.
  - intros br b. apply modify_ignores. intros s s' (? & ? & ? & ?)%same_fields. destruct s, s'; simpl in *; subst. by destruct (_ =? _).
  - intros a. apply modify_ignores. intros s s' (? & ? & ? & ?)%same_fields. destruct s, s'; simpl in *; by subst.
  - apply slot0_ignores.
  - intros z1 z2 a b e T1 T2 H1 H2. simpl. unfold identical0. by rewrite T1, T2, H1, H2.
  - intros z1 z2 a b e T1 T2 H1 H2. simpl. unfold identical0. by rewrite T1, T2, H1, H2.
  - intros z1 z2 e _. simpl. by rewrite identical0_sym.
  - intros z1 z2 l1 l2 e T1 T2 _ _ _. simpl. unfold identical0. by rewrite T1, T2.
Qed.

(** ** [5 + $i; ++$i;] *)

Definition lit5 : gmap Z zval := {[1500 := ZVAL_LONG zval_uninit 5]}.
Definition mem0 : gmap Z zval := {[280 := ZVAL_LONG zval_uninit 7; 296 := zval_uninit]}.
Definition s0 : vst E0 := VSt 200 1000 0 mem0 es0.
Definition swap0 (op : zend_op) : zend_op :=
  ZendOp (handler op) (op2 op) (op1 op) (result op) (extended_value op) (lineno op) (opcode op) (op2_type op) (op1_type op) (result_type op).
Lemma swap0_swaps : swaps swap0.
Proof. done. Qed.

Definition add0 (h : Z) : zend_op := ZendOp h 500 80 96 0 1 OP_ADD IS_CONST IS_CV IS_TMP_VAR.
Definition inc0 (h : Z) : zend_op := ZendOp h 80 0 0 0 1 OP_PRE_INC IS_CV Vm.IS_UNUSED Vm.IS_UNUSED.
Definition jmp0 (h : Z) : zend_op := ZendOp h 4294967232 0 0 0 1 OP_JMP Vm.IS_UNUSED Vm.IS_UNUSED Vm.IS_UNUSED.
Definition info0 (p : Z) : Z := MAY_BE_LONG.
Definition no_branch (p : Z) : branch := Branch 0 0 0.
Abbreviation choose0 p op :=
  (zend_vm_set_opcode_handler_ex 0 1 2 3 4 false swap0 id lit5 (λ _, 0) p MAY_BE_LONG MAY_BE_LONG MAY_BE_LONG op 0).

(** The sum gets the handler that does not look for an overflow, with its operands
    exchanged, and the increment likewise. *)
Example chosen_handlers :
  (handler <$> choose0 1000 (add0 0), handler <$> choose0 1032 (inc0 0), handler <$> choose0 1064 (jmp0 0)) =
  (Some 2606, Some 3427, Some 1255).
Proof. vm_compute. reflexivity. Qed.

Lemma long_well_formed l : in_s64 l = true → well_formed (ZVAL_LONG zval_uninit l).
Proof. intros H. split; try done. intros _. exists l. unfold num. simpl. by rewrite H. Qed.

(** The machine at an instruction of the program, with [i] in [$i]. *)
Definition at_add (s : vst E0) : Prop :=
  execute_data s = 200 ∧ opline s = 1000 ∧ ∃ i, vm_mem s !! 280 = Some (ZVAL_LONG zval_uninit i) ∧ in_s64 i = true ∧ in_s64 (5 + i) = true.

Lemma add_usual s h : at_add s → usual lit5 (λ _, 0) T_ADD s MAY_BE_LONG MAY_BE_LONG MAY_BE_LONG (add0 h).
Proof.
  intros (He & Ho & i & Hi & Hr & Hs). assert (H2 : operand lit5 s IS_CV 80 = Some (ZVAL_LONG zval_uninit i)).
  { unfold operand, ZEND_CALL_VAR. by rewrite He. }
  assert (H1 : operand lit5 s IS_CONST 500 = Some (ZVAL_LONG zval_uninit 5)) by (unfold operand, RT_CONSTANT; by rewrite Ho).
  split; [|split].
  - exists (ZVAL_LONG zval_uninit 5). split; [done|]. split; [by apply long_well_formed|done].
  - exists (ZVAL_LONG zval_uninit i). split; [done|]. split; [by apply long_well_formed|done].
  - intros _ a b (z1 & z2 & O1 & O2 & N1 & N2). simpl in O1, O2. rewrite H1 in O1. rewrite H2 in O2. simplify_eq.
    unfold num in N1, N2. simpl in N1, N2. rewrite Hr in N2. simplify_eq. done.
Qed.
Lemma add_kinds h : kinds_ok T_ADD (add0 h).
Proof. split; [|split; [|done]]; apply (bool_decide_unpack _); by vm_compute. Qed.
Lemma add_constants h : constants_ok lit5 1000 (add0 h).
Proof. split; intros Hk; [|done]. exists (ZVAL_LONG zval_uninit 5). by vm_compute. Qed.
Lemma no_step t op i : t ∉ [T_PRE_INC; T_PRE_DEC; T_POST_INC; T_POST_DEC] → step_ok t op i.
Proof. by intros H ?. Qed.
Lemma at_add0 : at_add s0.
Proof. split; [done|]. split; [done|]. by exists 7. Qed.

(** The sum runs in the specialised handler and leaves 12. *)
Lemma chosen_handler_same_witness :
  ∃ op' t', choose0 1000 (add0 0) = Some op' ∧ entry_for t' op' ∧ handler op' = 2606 ∧
    ∃ s', run_template lit5 (no_branch 1000) t' op' s0 = Ret () s' ∧ vm_mem s' !! 296 = Some (ZVAL_LONG zval_uninit 12).
Proof.
  destruct (chosen_handler_same false swap0 lit5 (λ _, 0) (no_branch 1000) swap0_swaps T_ADD s0 MAY_BE_LONG MAY_BE_LONG MAY_BE_LONG (add0 0) 0)
    as (op' & t' & Hset & He & Hrun).
  - reflexivity.
  - apply add_kinds.
  - apply no_step. apply (bool_decide_unpack _). by vm_compute.
  - apply (add_constants 0).
  - apply add_usual, at_add0.
  - exists op', t'. split; [exact Hset|]. split; [exact He|]. pose proof Hset as Hset'. vm_compute in Hset'. injection Hset' as <-.
    split; [done|]. destruct (run_template lit5 _ t' _ s0) as [[] s'|s'|] eqn:Hr; [|by exfalso; vm_compute in Hrun..].
    exists s'. split; [done|]. destruct Hrun as [_ Hs]. apply same_fields in Hs as (_ & _ & -> & _). by vm_compute.
Defined.

(** *** The loop *)

Definition code0 : gmap Z zend_op := {[1000 := add0 2606; 1032 := inc0 3427; 1064 := jmp0 1255]}.
Definition code1 : gmap Z zend_op := {[1000 := swap0 (add0 2606); 1032 := inc0 3427; 1064 := jmp0 1255]}.
Abbreviation interpreted := (interpret_loop lit5 no_branch code0).

Lemma prepared0 : prepared false swap0 lit5 (λ _, 0) info0 info0 info0 code0 code1.
Proof.
  intros p op Hop. unfold code0 in Hop. rewrite !lookup_insert_Some, lookup_singleton_Some in Hop.
  destruct Hop as [[<- <-]|[_ [[<- <-]|[_ [<- <-]]]]]; eexists _, 0; (split; [vm_compute; reflexivity|]); split; reflexivity.
Qed.

Lemma add_proper s : at_add s → proper lit5 (λ _, 0) info0 info0 info0 code0 s.
Proof.
  intros H. pose proof H as (He & Ho & _). exists (add0 2606), T_ADD. rewrite Ho. split; [reflexivity|]. split; [reflexivity|].
  split; [apply add_kinds|]. split; [apply no_step; apply (bool_decide_unpack _); by vm_compute|].
  split; [apply add_constants|by apply add_usual].
Qed.
Lemma inc_proper s i :
  execute_data s = 200 → opline s = 1032 → vm_mem s !! 280 = Some (ZVAL_LONG zval_uninit i) → in_s64 i = true → in_s64 (i + 1) = true →
  proper lit5 (λ _, 0) info0 info0 info0 code0 s.
Proof.
  intros He Ho Hi Hr Hs. exists (inc0 3427), T_PRE_INC. rewrite Ho. split; [reflexivity|]. split; [reflexivity|].
  split; [split; [|split; [|done]]; apply (bool_decide_unpack _); by vm_compute|]. split; [done|]. split; [by split|].
  assert (H1 : operand lit5 s IS_CV 80 = Some (ZVAL_LONG zval_uninit i)) by (unfold operand, ZEND_CALL_VAR; by rewrite He).
  split.
  - exists (ZVAL_LONG zval_uninit i). split; [done|]. split; [by apply long_well_formed|done].
  - intros _ z l O1 N1. simpl in O1. rewrite H1 in O1. simplify_eq. unfold num in N1. simpl in N1. rewrite Hr in N1. by simplify_eq.
Qed.
Lemma jmp_proper s : opline s = 1064 → proper lit5 (λ _, 0) info0 info0 info0 code0 s.
Proof.
  intros Ho. exists (jmp0 1255), T_JMP. rewrite Ho. split; [reflexivity|]. split; [reflexivity|].
  split; [split; [|split; [|done]]; apply (bool_decide_unpack _); by vm_compute|].
  split; [apply no_step; apply (bool_decide_unpack _); by vm_compute|]. split; [by split|done].
Qed.

(** One round and the next sum: [5 + 7], [++$i], the jump back, [5 + 8]. *)
Lemma execution_refines_witness :
  same_outcome (execute_ex_loop lit5 no_branch (mret ()) code1 4 s0) (interpreted 4 s0) ∧
  ∃ s', execute_ex_loop lit5 no_branch (mret ()) code1 4 s0 = Ret () s' ∧ vm_mem s' !! 296 = Some (ZVAL_LONG zval_uninit 13) ∧ opline s' = 1032.
Proof.
  assert (H : same_outcome (execute_ex_loop lit5 no_branch (mret ()) code1 4 s0) (interpreted 4 s0)).
  { apply (execution_refines false swap0 lit5 (λ _, 0) swap0_swaps no_branch (mret ()) info0 info0 info0 code0 code1 4 s0 prepared0).
    intros k t Hk Ht. destruct k as [|[|[|[|k]]]]; [..|lia]; vm_compute in Ht; injection Ht as <-.
    - apply add_proper, at_add0.
    - by apply (inc_proper _ 7).
    - by apply jmp_proper.
    - apply add_proper. split; [done|]. split; [done|]. by exists 8. }
  split; [exact H|]. destruct (execute_ex_loop _ _ _ code1 4 s0) as [[] s'|s'|] eqn:Hr; [|by vm_compute in H..].
  exists s'. split; [done|]. destruct H as [_ (_ & Ho & Hm & _)%same_fields]. rewrite Ho, Hm. by vm_compute.
Defined.

(** *** The other properties *)

Lemma numbers0 h : numbers_at lit5 s0 (add0 h) (NLong 5) (NLong 7).
Proof. exists (ZVAL_LONG zval_uninit 5), (ZVAL_LONG zval_uninit 7). by vm_compute. Qed.

Lemma integer_operators_witness :
  (∃ s', ZEND_MOD lit5 (add0 0) s0 = Ret () s' ∧ vm_mem s' !! 296 = Some (ZVAL_LONG zval_uninit 5)) ∧
  (∃ s', ZEND_SL lit5 (add0 0) s0 = Ret () s' ∧ vm_mem s' !! 296 = Some (ZVAL_LONG zval_uninit 640)).
Proof.
  destruct (integer_operators lit5 s0 (add0 0) 5 7 zval_uninit (numbers0 0) eq_refl eq_refl) as (_ & _ & _ & Hmod & _ & Hsl & _).
  split.
  - rewrite Hmod by lia. eexists. split; [reflexivity|]. by vm_compute.
  - rewrite (proj1 (Hsl (conj (Zle_bool_imp_le 0 7 eq_refl) (eq_refl : 7 < 64)))). eexists. split; [reflexivity|]. by vm_compute.
Defined.

(** [$i] is known to be between 0 and 9. *)
Definition ten : option (list zend_ssa_var_info) := Some [VarInfo true (Range 0 9 false false)].
Lemma inferred_ranges_specialise_witness :
  ZEND_ADD_LONG_NO_OVERFLOW lit5 (add0 0) s0 = ZEND_ADD lit5 (add0 0) s0 ∧ ∃ s', ZEND_ADD lit5 (add0 0) s0 = Ret () s'.
Proof.
  destruct (inferred_ranges_specialise lit5 ten (λ _, 7) s0 (add0 0) (Operand IS_CONST (ZVAL_LONG zval_uninit 5) (-1)) (Operand IS_CV zval_uninit 0)
              5 7 5 5 0 9 zval_uninit) as [H _].
  - split; [intros; lia|]. intros infos v info [= <-] Hv _. pose proof (at_index_bound _ _ _ Hv) as Hb. cbn [length] in Hb.
    assert (v = 0) as -> by lia. injection Hv as <-. by vm_compute.
  - by vm_compute.
  - reflexivity.
  - by vm_compute.
  - by vm_compute.
  - apply numbers0.
  - reflexivity.
  - reflexivity.
  - split; [apply H; reflexivity|]. eexists. vm_compute. reflexivity.
Defined.

(** [5 + $i] and [$i + 5] share an entry, and an increment has another. *)
Definition add1 (h : Z) : zend_op := ZendOp h 80 500 96 0 1 OP_ADD IS_CV IS_CONST IS_TMP_VAR.
Lemma handler_index_identifies_witness :
  let given0 := given false swap0 id lit5 (λ _, 0) in
  (∃ spec, given0 (add0 0) 0 spec (swap0 (add0 2606)) ∧ given0 (add1 0) 0 spec (add1 2606) ∧ alike spec (swap0 (add0 2606)) 0 (add1 2606) 0) ∧
  (∃ spec op', given0 (inc0 0) 0 spec op' ∧ 0 <= handler op' < zend_handlers_count).
Proof.
  intros given0. destruct (handler_index_identifies false swap0 id lit5 (λ _, 0) swap0_swaps) as (Hall & Hin & Hsame).
  assert (Hx : given0 (add0 0) 0 (Z.lor 2586 op12c) (swap0 (add0 2606))).
  { apply (given_by_types _ _ _ _ _ (add0 0) 0 1000 MAY_BE_LONG MAY_BE_LONG MAY_BE_LONG (Z.lor 1 op12) (swap0 (add0 0)) (Some (Z.lor 2586 op12c)));
      vm_compute; reflexivity. }
  assert (Hy : given0 (add1 0) 0 (Z.lor 2586 op12c) (add1 2606)).
  { apply (given_by_types _ _ _ _ _ (add1 0) 0 1000 MAY_BE_LONG MAY_BE_LONG MAY_BE_LONG (Z.lor 1 op12) (add1 0) (Some (Z.lor 2586 op12c)));
      vm_compute; reflexivity. }
  split.
  - exists (Z.lor 2586 op12c). split; [exact Hx|]. split; [exact Hy|]. by apply (Hsame _ _ _ _ _ _ _ _ Hx Hy).
  - destruct (Hall (inc0 0) 0) as (spec & op' & Hi); [by vm_compute|]. exists spec, op'. split; [exact Hi|exact (Hin _ _ _ _ Hi)].
Defined.

(** A table in which every handler has two entries. *)
Definition index_add0 (m : gmap Z Z) (k v : Z) : gmap Z Z := match m !! k with Some _ => m | None => <[k := v]> m end.
Lemma serialised_handler_restored_witness :
  let handlers i := 4096 + 16 * (i / 2) in let op := jmp0 (handlers 1255) in
  ∃ op' tb', Serialiser.zend_serialize_opcode_handler handlers index_add0 op None = Some (op', tb') ∧
    0 <= handler op' <= 1255 ∧ Serialiser.zend_deserialize_opcode_handler handlers op' = op.
Proof.
  intros handlers op.
  destruct (Serialiser.serialised_handler_restored handlers index_add0 (λ _ _ _, eq_refl) op None 1255) as (op' & tb' & H1 & _ & H2 & H3).
  - by left.
  - unfold zend_handlers_count. lia.
  - reflexivity.
  - exists op', tb'. auto.
Defined.

Lemma chosen_handler_fits_witness :
  ∃ op' x, choose0 1032 (inc0 0) = Some op' ∧ entry_for (c_template x) op' ∧ handler op' = 3427.
Proof.
  destruct (chosen_handler_fits false swap0 lit5 (λ _, 0) swap0_swaps T_PRE_INC 1032 MAY_BE_LONG MAY_BE_LONG MAY_BE_LONG (inc0 0) 0)
    as (op' & x & H & _ & _ & _ & _ & He).
  - reflexivity.
  - split; [|split; [|done]]; apply (bool_decide_unpack _); by vm_compute.
  - done.
  - by split.
  - exists op', x. split; [exact H|]. split; [exact He|]. vm_compute in H. injection H as <-. reflexivity.
Defined.
