(* ===== verification/ZendExecWitnesses.v ===== *)
(** * Calls, assignments and searches on concrete values

    The properties of ZendCase, ZendAssign and ZendFrames at concrete inputs where
    their hypotheses hold: the tables of ASCII, a small heap, a machine stack whose
    pages come from an allocator that never looks back. *)

From S2P Require Import Prelude ZendTypes ZendArith ZendString ZendOperators ZendCase ZendArena ZendBufferWitnesses Engine ModelEngine.
From S2P Require Import ZendAssign ZendConvert ZendSsa ZendFrames ZendObjects.
Import HashLayout.

(** ** Case *)

Definition ascii_lower (b : byte) : byte := if (65 <=? uchar b) && (uchar b <=? 90) then char_of (uchar b + 32) else b.
Definition ascii_upper (b : byte) : byte := if (97 <=? uchar b) && (uchar b <=? 122) then char_of (uchar b - 32) else b.
#[local] Instance ascii_maps : CaseMaps := { zend_tolower_map := ascii_lower; zend_toupper_map := ascii_upper }.
#[local] Instance ascii_laws : CaseLaws.
Proof. split; intros b; by destruct b. Qed.

Lemma memnistr_witness :
  ∃ r, zend_memnistr (lit "Content-Type") (lit "TYPE") = Some r ∧
    first_occurrence_ci (lit "Content-Type") (lit "TYPE") r ∧ r = Some 8.
Proof.
  destruct (memnistr_finds (lit "Content-Type") (lit "TYPE")) as (r&H1&H2). exists r. split; [exact H1|]. split; [exact H2|].
  vm_compute in H1. by injection H1.
Defined.

Lemma strnlen_witness : ∃ n, zend_strnlen (lit "ab" ++ [NUL; NUL]) 0 4 = Some n ∧ n = 2.
Proof.
  destruct (strnlen_counts (lit "ab" ++ [NUL; NUL]) 0 4) as (n&H&_); [lia|lia|by vm_compute|].
  exists n. split; [exact H|]. vm_compute in H. by injection H.
Defined.

(** ** Assignment *)

(** Strings at 3 and 5, and at 4 a reference to the second. *)
Definition cell : zval := ZVAL_REF zval_uninit 4.
Definition text3 : zval := ZVAL_NEW_STR zval_uninit 3.
Definition text5 : zval := ZVAL_NEW_STR zval_uninit 5.
Definition some_heap (n3 n4 : Z) : zheap :=
  {[3%positive := with_refcount (new_string (lit "new") false) n3;
    4%positive := Counted n4 GC_REFERENCE (BReference text5);
    5%positive := new_string (lit "old") false]}.
Definition at_work (h : zheap) : mes := with_heap h es0.
Definition no_others : loc → nat := λ _, 0%nat.

Lemma some_heap_refs n3 n4 : heap_refs (some_heap n3 n4) = {[+ 5%positive +]}.
Proof. by vm_compute. Qed.
Lemma some_heap_3 n3 n4 : some_heap n3 n4 !! 3%positive = Some (with_refcount (new_string (lit "new") false) n3).
Proof. done. Qed.
Lemma some_heap_4 n3 n4 : some_heap n3 n4 !! 4%positive = Some (Counted n4 GC_REFERENCE (BReference text5)).
Proof. done. Qed.
Lemma some_heap_5 n3 n4 : some_heap n3 n4 !! 5%positive = Some (new_string (lit "old") false).
Proof. done. Qed.
Lemma some_heap_exact (n3 n4 : nat) X :
  Z.of_nat n3 < 2 ^ 32 → Z.of_nat n4 < 2 ^ 32 →
  (∀ l, multiplicity l X = if decide (l = 3%positive) then n3 else if decide (l = 4%positive) then n4 else 0%nat) →
  exact no_others (some_heap (Z.of_nat n3) (Z.of_nat n4)) X.
Proof.
  intros H3 H4 HX l. rewrite multiplicity_disj_union, some_heap_refs, HX. unfold no_others.
  destruct (decide (l = 3%positive)) as [->|N3]; [rewrite some_heap_3, multiplicity_singleton_ne by done; cbn; lia|].
  destruct (decide (l = 4%positive)) as [->|N4]; [rewrite some_heap_4, multiplicity_singleton_ne by done; cbn; lia|].
  destruct (decide (l = 5%positive)) as [->|N5]; [rewrite some_heap_5, multiplicity_singleton_eq; cbn; lia|].
  rewrite multiplicity_singleton_ne by done. unfold some_heap. by rewrite !lookup_insert_ne, lookup_singleton_ne by done.
Qed.
Lemma some_heap_room n3 n4 : n3 + 1 < 2 ^ 32 → n4 + 1 < 2 ^ 32 → room (some_heap n3 n4).
Proof.
  intros H3 H4. unfold room, some_heap. intros l o.
  rewrite !lookup_insert_Some, lookup_singleton_Some.
  intros [(_&<-)|(_&[(_&<-)|(_&_&<-)])]; cbn; lia.
Qed.

Lemma text_ok h l : value_ok h (ZVAL_NEW_STR zval_uninit l).
Proof. split; [by eexists|done]. Qed.
Lemma cell_ok n3 n4 : value_ok (some_heap n3 n4) cell.
Proof. split; [by eexists|]. intros _. split; [done|]. exists 4%positive, text5. split_and!; [done|done|by eexists|done]. Qed.

Ltac count_concrete :=
  intros l; rewrite !multiplicity_disj_union;
  repeat case_decide; subst; rewrite ?multiplicity_singleton_eq, ?multiplicity_singleton_ne by done;
  rewrite ?multiplicity_empty; try done.

(** [$t = $r] where [$r] refers to a string: the variable gets the string. *)
Lemma copy_keeps_counts_witness :
  ∃ v h', behind (some_heap 1 2) cell = Some v ∧
    zend_copy_to_variable false zval_uninit cell IS_CV (some_heap 1 2) = Some (ZVAL_COPY_VALUE zval_uninit v, h') ∧
    exact no_others h' ({[+ 3; 4; 4 +]}%positive ⊎ zrefs v) ∧ keeps (some_heap 1 2) h'.
Proof.
  apply (copy_keeps_counts false no_others (some_heap 1 2) {[+ 3; 4; 4 +]}%positive zval_uninit cell IS_CV).
  - split; [by right; right; right|]. split; [apply cell_ok|]. by intros [|].
  - apply (some_heap_exact 1 2); [lia|lia|]. change (consumed IS_CV cell) with (∅ : gmultiset loc). count_concrete.
  - intros _. change (zrefs cell) with ({[+ 4%positive +]} : gmultiset loc). multiset_solver.
  - apply some_heap_room; lia.
Defined.

(** [$r = $s] where [$r] refers to a string that nobody else holds: the string is
    destroyed, and [$r] still refers. *)
Lemma assign_keeps_counts_witness :
  ∃ v (s1 s2 : mes) variable' garbage, behind (some_heap 1 2) text3 = Some v ∧
    zend_assign_to_variable_ex (λ _, false) (λ _ _ _ _, undef) true cell text3
      IS_CV false (at_work (some_heap 1 2)) = Ret (variable', garbage) s1 ∧
    zend_assign_to_variable (engine := base (Config [] true 0 true)) (λ _, false) (λ _ _ _ _, undef) true cell text3
      IS_CV false (at_work (some_heap 1 2)) =
      (finish_release (engine := base (Config [] true 0 true)) garbage;; mret variable') s2 ∧
    exact no_others (es_heap s2) ({[+ 3; 4 +]}%positive ⊎ zrefs variable') ∧ garbage = Some 5%positive.
Proof.
  destruct (assign_keeps_counts (engine := base (Config [] true 0 true)) (λ _, false) (λ _ _ _ _, undef) (λ _ _ _ _, undef)
    no_others true {[+ 3; 4 +]}%positive cell text3 IS_CV false (at_work (some_heap 1 2)))
    as (v&s1&s2&variable'&garbage&H1&H2&H3&H4&H5&_).
  - split; [by right; right; right|]. split; [apply text_ok|]. by intros [|].
  - apply cell_ok.
  - done.
  - apply (some_heap_exact 1 2); [lia|lia|]. change (consumed IS_CV text3) with (∅ : gmultiset loc).
    change (zrefs cell) with ({[+ 4%positive +]} : gmultiset loc). count_concrete.
  - intros _. change (zrefs text3) with ({[+ 3%positive +]} : gmultiset loc). multiset_solver.
  - apply some_heap_room; lia.
  - exists v, s1, s2, variable', garbage. split_and!; [exact H1|exact H2|exact H4|exact H5|].
    vm_compute in H2. congruence.
Defined.

Lemma unwrap_witness :
  ∃ h', zend_unwrap_reference cell (some_heap 1 1) = Some (ZVAL_COPY_VALUE cell text5, h') ∧
    exact no_others h' ({[+ 3%positive +]} ⊎ zrefs text5) ∧ keeps (some_heap 1 1) h' ∧ h' !! 4%positive = None.
Proof.
  destruct (unwrap_keeps_counts no_others (some_heap 1 1) {[+ 3%positive +]} cell 4 text5) as (h'&H1&H2&H3&H4);
    [done|done|done|done|by eexists| | |].
  - change (zrefs cell) with ({[+ 4%positive +]} : gmultiset loc). apply (some_heap_exact 1 1); [lia|lia|]. count_concrete.
  - apply some_heap_room; lia.
  - exists h'. split_and!; [exact H1|exact H2|exact H3|]. apply H4. intros o. rewrite some_heap_4. by intros [= <-].
Defined.

(** ** Call frames *)

(** A new page of 256 KiB, or larger for a larger frame. *)
Definition page_size (size : Z) : Z := Z.max (256 * 1024) (size + ZEND_VM_STACK_HEADER_SLOTS * sizeof_zval).
Definition extend_stack (size : Z) (st : vm) : option (Z * vm) :=
  match vm_stack st with
  | [] => None
  | prev :: rest =>
      let old := VmPage (pg_base prev) (vm_stack_top st) (pg_end prev) :: rest in
      match zend_vm_stack_new_page bump (page_block <$> old) (page_size size) old with
      | Some (p :: pages) => Some (pg_top p, Vm (pg_top p + size) (pg_end p) (p :: pages) (vm_frames st) (vm_slots st))
      | _ => None
      end
  end.

Lemma extend_stack_extends : extends extend_stack.
Proof.
  intros size st call st' Hs. unfold extend_stack. destruct (vm_stack st) as [|prev rest]; [done|].
  unfold zend_vm_stack_new_page. destruct (bump _ (page_size size)) as [a|] eqn:Hb; [|done]. cbn [mbind option_bind].
  intros [= <- <-]. assert (Hp : 0 < page_size size) by (unfold page_size; lia).
  destruct (bump_allocates _ _ _ Hp Hb) as (H0&H1&_&H2). unfold page_size in *.
  change (ZEND_VM_STACK_HEADER_SLOTS * sizeof_zval) with 32 in *. eexists (VmPage a _ _), prev, rest.
  split; [done|]. split; [done|]. unfold page_ok, ZEND_VM_STACK_ELEMENTS, page_block.
  change (ZEND_VM_STACK_HEADER_SLOTS * sizeof_zval) with 32. cbn [pg_base pg_end pg_top].
  split_and!; try lia. eapply list.Forall_impl; [exact H2|]. intros b. unfold disjoint_blocks, m_end. simpl. lia.
Qed.

(** A first page with 20 slots to spare, and two functions. *)
Definition page0 : zend_vm_page := VmPage 4096 4128 (4128 + 20 * 16).
Definition vm0 : vm := Vm 4128 (4128 + 20 * 16) [page0] ∅ ∅.
Definition user_function : zend_function := Function_ ZEND_USER_FUNCTION 0 None 2 3 4.
Definition internal_function : zend_function := Function_ ZEND_INTERNAL_FUNCTION 0 None 1 0 0.

Lemma vm0_ok : vm_ok 4128 (page_block page0) vm0 [].
Proof.
  split_and!; [|by vm_compute|done|by eexists _, _]. apply stacked_bottom; [by vm_compute|done].
Qed.
Lemma user_call_ok : op_ok (Enter 0 user_function 3 None).
Proof. split_and!; [by vm_compute|done|by left]. Qed.
Lemma internal_call_ok : op_ok (Enter 0 internal_function 1 None).
Proof. split_and!; [by vm_compute|done|by left]. Qed.

(** The second call needs a page of its own. *)
Definition three_calls : list vm_op :=
  [Enter 0 user_function 3 None; Enter 0 user_function 3 None; Enter 0 internal_function 1 None; Leave; Leave; Leave].

Lemma calls_and_returns_witness :
  nested 0 three_calls = Some 0%nat ∧
  match do_ops extend_stack three_calls vm0 [] with
  | Some (Some (st', calls)) => calls = [] ∧ vm_stack_top st' = 4128 ∧ page_block <$> vm_stack st' = [page_block page0]
  | _ => False
  end.
Proof.
  split; [done|].
  pose proof (calls_and_returns extend_stack extend_stack_extends 4128 (page_block page0) three_calls vm0 0 vm0_ok) as H.
  destruct (do_ops extend_stack three_calls vm0 []) as [[[st' calls]|]|] eqn:E.
  - destruct H as (Hl&_&Hr); [repeat constructor; apply user_call_ok || apply internal_call_ok|done|].
    destruct (Hr eq_refl) as (Ht&_&Hb). split; [by apply nil_length_inv|]. split; [exact Ht|exact Hb].
  - vm_compute in E. discriminate E.
  - apply H; [repeat constructor; apply user_call_ok || apply internal_call_ok|done].
Defined.

Lemma push_then_free_witness :
  ∃ call st', zend_vm_stack_push_call_frame extend_stack 0 user_function 3 None vm0 = Some (Some (call, st')) ∧
  ∃ freed st'', zend_vm_stack_free_call_frame call st' = Some (freed, st'') ∧ vm_stack_top st'' = 4128.
Proof.
  destruct (zend_vm_stack_push_call_frame extend_stack 0 user_function 3 None vm0) as [[[call st']|]|] eqn:E;
    [|vm_compute in E; discriminate E..].
  exists call, st'. split; [done|].
  destruct (push_then_free extend_stack extend_stack_extends 4128 (page_block page0) 0 user_function 3 None vm0 [] call st')
    as (_&_&freed&st''&H1&_&H2&_); [exact vm0_ok|exact user_call_ok|exact E|].
  exists freed, st''. split; [exact H1|exact H2].
Defined.

Lemma frame_has_room_witness :
  zend_vm_calc_used_stack 3 user_function = 13 * 16 ∧ slot_inside 4128 (13 * 16) 7 ∧ EX_VAR_TO_NUM (EX_NUM_TO_VAR 3) = 3.
Proof.
  destruct (frame_has_room user_function 3 4128) as (H1&_&H2&H3); [by vm_compute|].
  split; [exact H1|]. split; [|by apply H3]. destruct (H2 eq_refl) as (_&_&H). apply (H 0). by vm_compute.
Defined.

(** Two strings passed to an internal function. *)
Definition call_with_two : zend_execute_data := ExecuteData internal_function (Zval (VPtr None) 0 2).
Definition vm_args : vm :=
  Vm 4320 4448 [page0] {[4128 := call_with_two]} {[ZEND_CALL_ARG 4128 1 := text3; ZEND_CALL_ARG 4128 2 := text5]}.
Lemma arguments_released_witness :
  zend_vm_stack_free_args (engine := base (Config [] true 0 true)) 4128 vm_args (at_work (some_heap 1 1))
  = for_each (zval_ptr_dtor_nogc (engine := base (Config [] true 0 true))) [text3; text5] (at_work (some_heap 1 1)).
Proof.
  apply (arguments_released vm_args 4128 call_with_two [text3; text5] (at_work (some_heap 1 1))); [done|done|by vm_compute|done|].
  by vm_compute.
Defined.

Lemma frame_grows_witness :
  ∃ st st' f, zend_vm_stack_push_call_frame extend_stack 0 user_function 3 None vm0 = Some (Some (4128, st)) ∧
    zend_vm_stack_extend_call_frame (λ _ _ _ _, None) 4128 3 2 st = Some (4128, st') ∧
    vm_ok 4128 (page_block page0) st' [f] ∧ vm_stack_top st' = 4128 + 15 * 16.
Proof.
  destruct (zend_vm_stack_push_call_frame extend_stack 0 user_function 3 None vm0) as [[[call st]|]|] eqn:E;
    [|vm_compute in E; discriminate E..].
  assert (Hok : vm_ok 4128 (page_block page0) st [Live 4128 (13 * 16) (4128 + 20 * 16) false]).
  { pose proof E as E'. vm_compute in E'. injection E' as <- <-.
    split_and!; [|by vm_compute|constructor; [by eexists|done]|by eexists _, _].
    apply (stacked_frame 4128 (page_block page0) 4128 page0 [] [] (13 * 16)); [|lia|by vm_compute].
    apply stacked_bottom; [by vm_compute|done]. }
  destruct (frame_grows (λ _ _ _ _, None) 4128 (page_block page0) st _ [] 3 2 Hok) as (st'&H1&H2&H3&_); [lia|..].
  { vm_compute in E. by injection E as <- <-. }
  assert (Hc : call = 4128) by (vm_compute in E; congruence). subst call.
  eexists st, st', _. split; [done|]. split; [exact H1|]. split; [exact H2|exact H3].
Defined.

(** ** Conversions *)

(** 2.5, and a NaN among the values. *)
Definition two_and_a_half : SpecFloat.spec_float := double_of_bits 0x4004000000000000.
Lemma double_to_long_witness :
  zend_dval_to_lval (λ _, 0) two_and_a_half = Some (2, []) ∧
  zend_dval_to_lval_safe (λ _, 0) two_and_a_half = Some (2, [zend_incompatible_double_to_long_error two_and_a_half]) ∧
  zend_dval_to_lval_safe (λ _, 0) (Binary64.of_long (-7)) = Some (-7, []).
Proof.
  destruct (double_to_long (λ _, 0) two_and_a_half) as (_&H1&_&H2); [by vm_compute|].
  destruct (H1 2) as (H3&_&_&reports&H4&_&H5); [by exists 2; vm_compute|done|].
  split; [exact H3|]. split; [|apply H2; lia]. rewrite H4, H5; [done|].
  intros (q&_&Hq&Hs). vm_compute in Hs. subst q. vm_compute in Hq. discriminate Hq.
Defined.

Lemma truth_value_witness :
  ∃ reports, i_zend_is_true (λ _, 0) (λ _, 0) (λ _, true) (λ _, true) 2 cell (some_heap 1 1) = Some (true, reports).
Proof.
  destruct (truth_value (λ _, 0) (λ _, 0) (λ _, true) (λ _, true) cell (some_heap 1 1) (PText (lit "old"))) as (reports&H&_).
  - right. exists 4%positive, text5. split_and!; [done|done|done|]. split; [done|].
    exists 5%positive, (new_string (lit "old") false). split_and!; [done|done|apply new_string_ok].
  - exists reports. exact H.
Defined.

(** ** Objects *)

(** Three buckets with one object; handle 1 is free. *)
Definition store3 : zend_objects_store := Store [0x7000; SET_OBJ_BUCKET_NUMBER (-1); 0x7040] 3 3 1.
Lemma freed_handles_witness :
  ∃ s', free_all [2; 0] store3 = Some s' ∧ free_handles s' [0; 2; 1] ∧ free_list_head s' = 0.
Proof.
  destruct (freed_handles_listed [2; 0] store3 [1]) as (s'&H1&H2&_).
  - split; [|by vm_compute]. split; [done|]. split; [by vm_compute|]. eexists. by split_and!.
  - apply (bool_decide_unpack _). by vm_compute.
  - intros h. rewrite !elem_of_cons. intros [->|[->|[]%not_elem_of_nil]]; by vm_compute.
  - exists s'. split; [exact H1|]. split; [exact H2|]. vm_compute in H1. by injection H1 as <-.
Defined.

(** A class with two properties. *)
Definition class2 : zend_class_entry := Class_ 8 0 2 [None; Some 5%positive].
Lemma object_has_room_witness :
  zend_object_alloc (λ _, Some 4096) 56 class2 = Some (4096, 72, 0) ∧
  zend_get_property_info_for_slot_self (λ _ _, None) 4096 class2 (property_slot 4096 56 1) = Some (Some 5%positive).
Proof.
  pose proof (object_has_room (λ _, Some 4096) 56 class2) as H. split; [by vm_compute|].
  destruct H as (_&_&_&_&H&_); [by vm_compute|by vm_compute|done|].
  destruct (H (λ _ _, None) 1) as (info&Hi&H1); [by vm_compute|]. injection Hi as <-. exact H1.
Defined.

(** ** Static single assignment *)

(** Variable 0 is used by the instructions 2 and 0. *)
Definition ssa3 : zend_ssa :=
  MkSsa [] [SsaOp 0 (-1) (-1) (-1) (-1) (-1) (-1) (-1) (-1); SsaOp 1 (-1) (-1) (-1) (-1) (-1) (-1) (-1) (-1);
            SsaOp 1 0 (-1) (-1) (-1) (-1) (-1) 0 (-1)] [SsaVar 0 2 None] ∅.
(** The body forgets the links of the instruction. *)
Definition unlink (u : Z) (ssa : zend_ssa) : option zend_ssa :=
  o ← set_index (ops ssa) u (SsaOp (-1) (-1) (-1) (-1) (-1) (-1) (-1) (-1) (-1)); Some (with_ops o ssa).

Lemma unlink_local : local_body unlink.
Proof.
  intros u ssa ssa' v. unfold unlink, set_index. destruct (decide _) as [Hu|]; [|done]. cbn. intros [= <-] Hne.
  unfold at_index. destruct (decide (0 <= v)); [|done]. cbn [with_ops ops]. apply list_lookup_insert_ne. lia.
Qed.
Lemma foreach_use_witness :
  FOREACH_USE unlink 0 ssa3 = run_over unlink [2; 0] ssa3 ∧ ∃ ssa', FOREACH_USE unlink 0 ssa3 = Some ssa'.
Proof.
  destruct (foreach_use_visits unlink ssa3 0 [2; 0]) as [H _].
  - exists (SsaVar 0 2 None). split; [done|]. split; [|split].
    + split; [done|]. split; [lia|]. exists 0. split; [done|]. split; [done|]. split; [lia|]. by exists (-1).
    + apply (bool_decide_unpack _). by vm_compute.
    + intros u. rewrite !elem_of_cons, elem_of_nil. split.
      * intros [->|[->|[]]]; eexists; (split; [reflexivity|]); unfold uses; cbn; auto.
      * intros (op&Hop&Hu). pose proof (at_index_bound _ _ _ Hop) as Hb. cbn [ssa3 ops length] in Hb.
        assert (u = 0 ∨ u = 1 ∨ u = 2) as [->|[->| ->]] by lia; auto. vm_compute in Hop. injection Hop as <-.
        destruct Hu as [Hu|[Hu|Hu]]; discriminate Hu.
  - exact unlink_local.
  - split; [exact H|]. eexists. vm_compute. reflexivity.
Defined.

(** [$i + 1] where [$i] is known to be between 0 and 9. *)
Definition nine : option (list zend_ssa_var_info) := Some [VarInfo true (Range 0 9 false false)].
Lemma inferred_ranges_witness :
  LongOps.fast_long_add_function 7 1 = Binary64.NLong 8 ∧ zend_add_will_overflow 9 1 = false.
Proof.
  destruct (inferred_ranges_sound nine (λ _, 7) (Operand IS_CV zval_uninit 0) (Operand IS_CONST (ZVAL_LONG zval_uninit 1) (-1)) 7 1 0 9 1 1)
    as (H&_).
  - split; [intros; lia|]. intros infos v info [= <-] Hv _. pose proof (at_index_bound _ _ _ Hv) as Hb. cbn [length] in Hb.
    assert (v = 0) as -> by lia. injection Hv as <-. by vm_compute.
  - done.
  - by vm_compute.
  - by vm_compute.
  - by vm_compute.
  - split; [|by vm_compute]. apply H; by vm_compute.
Defined.
