(* ===== verification/ZendWitnesses.v ===== *)
(** * The header layer on concrete values

    Each property of the inline functions at a concrete input where its
    hypotheses hold. *)

From S2P Require Import Prelude ZendTypes ZendArith ZendString ZendSeparate ZendParams ZendBitset Engine ModelEngine.
Import HashLayout Bitset.

(** A string object shared by [n] holders, alone in its heap. *)
Definition shared (bs : bytes) (n : Z) : zend_refcounted := with_refcount (new_string bs false) n.
Definition heap1 (bs : bytes) (n : Z) : zheap := {[3%positive := shared bs n]}.
Definition str3 : zval := ZVAL_NEW_STR zval_uninit 3.

Lemma shared_ok bs n : zstr_ok bs (shared bs n).
Proof. apply new_string_ok. Qed.

(** *** Words and layouts *)

Lemma recursion_protection_witness :
  let '(pg', w') := ZEND_GUARD_OR_GC_PROTECT_RECURSION (Some 0) ZEND_GUARD_RECURSION_JSON GC_OBJECT in
  ZEND_GUARD_OR_GC_IS_RECURSIVE pg' ZEND_GUARD_RECURSION_JSON w' = true ∧
  ZEND_GUARD_OR_GC_UNPROTECT_RECURSION pg' ZEND_GUARD_RECURSION_JSON w' = (Some 0, GC_OBJECT).
Proof.
  pose proof (recursion_protection (Some 0) ZEND_GUARD_RECURSION_JSON GC_OBJECT) as H.
  destruct (ZEND_GUARD_OR_GC_PROTECT_RECURSION _ _ _) as [pg' w'].
  destruct H as (H1&_&_&_&H2); [by right; right; left|by vm_compute..|].
  split; [exact H1|apply H2; reflexivity].
Defined.

Lemma table_16 : table_size 16.
Proof. exists 4. split; [lia|done]. Qed.

Lemma table_layout_witness :
  table_size 16 ∧ HT_HASH_SIZE (HT_SIZE_TO_MASK 16) = 128 ∧ HT_SIZE_EX 16 (HT_SIZE_TO_MASK 16) = 640.
Proof.
  split; [exact table_16|]. destruct (table_layout_fits 16 table_16) as (_&H1&H2&_).
  split; [exact H1|exact H2].
Defined.

Lemma hash_slot_witness :
  - HT_HASH_SIZE (HT_SIZE_TO_MASK 16) <= HT_HASH_EX_offset (Z.lor 12345 (HT_SIZE_TO_MASK 16)) <= -4.
Proof. apply (hash_slot_in_bounds 16 12345 table_16). lia. Defined.

Lemma hash_reset_witness :
  HT_HASH_RESET (HT_SIZE_TO_MASK 16) (replicate 32 7) = Some (replicate 32 HT_INVALID_IDX).
Proof. apply (hash_reset_clears 16 (replicate 32 7) table_16). reflexivity. Defined.

(** *** Counted values *)

Lemma copy_then_release_witness :
  ∃ z' h', ZVAL_COPY zval_uninit str3 (heap1 (lit "ab") 1) = Some (z', h') ∧ z_value z' = z_value str3 ∧
    zval_get_type z' = zval_get_type str3 ∧ Z_TRY_DELREF_P z' h' = Some (heap1 (lit "ab") 1).
Proof.
  apply (copy_then_release zval_uninit str3 (heap1 (lit "ab") 1)). intros _.
  exists 3%positive, (shared (lit "ab") 1). by split_and!.
Defined.

Lemma separate_string_witness :
  ∃ z' h' n on, SEPARATE_STRING str3 (heap1 (lit "ab") 2) = Some (z', h') ∧ Z_COUNTED z' = Some n ∧
    h' !! n = Some on ∧ zstr_ok (lit "ab") on ∧ gc_refcount on = 1 ∧
    (gc_refcount (shared (lit "ab") 2) = 1 → z' = str3 ∧ h' = heap1 (lit "ab") 2) ∧
    (1 < gc_refcount (shared (lit "ab") 2) → heap1 (lit "ab") 2 !! n = None ∧
       h' = <[3%positive := with_refcount (shared (lit "ab") 2) (gc_refcount (shared (lit "ab") 2) - 1)]>
              (<[n := on]> (heap1 (lit "ab") 2))).
Proof.
  apply (separate_string_exclusive str3 3 (shared (lit "ab") 2) (lit "ab") (heap1 (lit "ab") 2));
    [reflexivity..|apply shared_ok|by vm_compute|reflexivity|by vm_compute].
Defined.

(** An array duplicated as an empty one. *)
Definition empty_array : zend_refcounted := Counted 1 GC_ARRAY BOther.
Definition dup_empty (a : loc) (h : zheap) : option (loc * zheap) := Some (halloc empty_array h).

Lemma dup_empty_law : dup_law dup_empty.
Proof.
  intros a o h Ha _. destruct (halloc empty_array h) as [l h'] eqn:Hl. unfold dup_empty. rewrite Hl.
  apply halloc_fresh in Hl as [Hn ->]. exists l, empty_array, (<[l := empty_array]> h).
  split_and!; [done|done|apply lookup_insert_eq|done|done|]. by rewrite lookup_insert_ne by congruence.
Qed.

Definition arr3 : zval := ZVAL_ARR zval_uninit 3.
Definition heap_arr : zheap := {[3%positive := with_refcount empty_array 2]}.

Lemma separate_zval_witness :
  ∃ z' h', SEPARATE_ZVAL dup_empty arr3 heap_arr = Some (z', h') ∧ zval_get_type z' = IS_ARRAY ∧
    Z_ISREF z' = false ∧ exclusive z' h'.
Proof.
  destruct (separate_zval_exclusive dup_empty dup_empty_law arr3 arr3 3 empty_array heap_arr)
    as (z'&h'&H1&H2&H3&H4&_).
  - split; [reflexivity|]. split; [reflexivity|]. intros _. exists 3%positive, (with_refcount empty_array 2).
    by split_and!.
  - exists z', h'. by split_and!.
Defined.

Lemma string_release_agree_witness :
  let s := with_heap (heap1 (lit "ab") 2) es0 in
  let s' := with_heap (<[3%positive := with_refcount (shared (lit "ab") 2) 1]> (heap1 (lit "ab") 2)) s in
  @i_zval_ptr_dtor _ (model (Config [] true SUCCESS true)) str3 s = Ret () s' ∧
  @heap_do (gset positive) (zend_string_release 3) s = Ret () s'.
Proof.
  intros s s'.
  destruct (@string_release_agree _ (model (Config [] true SUCCESS true)) str3 3 (shared (lit "ab") 2) s)
    as (_&H1&_&_&_&_&H2); [reflexivity..|by vm_compute|]. split; [exact H1|exact H2].
Defined.

(** *** Strings *)

Lemma string_size_witness : ZSTR_HEADER_SIZE + 5 + 1 <= zstr_alloc_size 5 < 2 ^ 64 ∧ (8 | zstr_alloc_size 5).
Proof. split; apply (string_size_bound 5); by vm_compute. Defined.

Lemma string_init_release_witness :
  ∃ s heap' o, zend_string_init (lit "hi") true ∅ = Some (s, heap') ∧
    (∅ : zheap) !! s = None ∧ heap' = <[s := o]> ∅ ∧
    zstr_ok (lit "hi") o ∧ gc_refcount o = 1 ∧ ZSTR_IS_INTERNED o = false ∧ has_flag o IS_STR_PERSISTENT = true ∧
    zend_string_release s heap' = Some ∅ ∧ zend_string_release_ex s true heap' = Some ∅.
Proof. apply (string_init_release (lit "hi") true ∅). by vm_compute. Defined.

Lemma string_realloc_witness :
  ∃ s' heap' o', zend_string_realloc 3 9 false (heap1 (lit "abc") 1) = Some (s', heap') ∧
    heap' !! s' = Some o' ∧ gc_refcount o' = 1 ∧ zstr_holds (lit "abc") 9 10 o' ∧
    zend_string_extend 3 9 false (heap1 (lit "abc") 1) = Some (s', heap').
Proof.
  destruct (string_realloc_keeps 3 (shared (lit "abc") 1) (lit "abc") 9 false (heap1 (lit "abc") 1))
    as (s'&h'&o'&H1&H2&H3&H4&_&H5&_);
    [reflexivity|apply shared_ok|by vm_compute|by vm_compute|].
  exists s', h', o'. split_and!; [exact H1|exact H2|exact H3|exact H4|apply H5; by vm_compute].
Defined.

Lemma string_comparison_witness :
  zend_string_equals 3 4 (<[4%positive := shared (lit "abd") 1]> (heap1 (lit "abc") 1)) = Some false ∧
  zend_string_starts_with (shared (lit "abc") 1) (shared (lit "abd") 1) = Some false.
Proof.
  destruct (string_comparison 3 4 (shared (lit "abc") 1) (shared (lit "abd") 1) (lit "abc") (lit "abd")
    (<[4%positive := shared (lit "abd") 1]> (heap1 (lit "abc") 1))) as (H1&_&_&H2);
    [reflexivity..|apply shared_ok|apply shared_ok|].
  split; [rewrite H1|rewrite H2]; by vm_compute.
Defined.

(** *** Parameters *)

(** Conversions that refuse everything. *)
Definition no_conversions : Slow := {|
  zend_parse_arg_bool_slow := λ _ _, None;
  zend_flf_parse_arg_bool_slow := λ _ _, None;
  zend_parse_arg_long_slow := λ _ _, None;
  zend_flf_parse_arg_long_slow := λ _ _, None;
  zend_parse_arg_double_slow := λ _ _, None;
  zend_parse_arg_number_slow := λ _ _, None;
  zend_parse_arg_number_or_str_slow := λ _ _, None;
  zend_parse_arg_str_slow := λ _ _, None;
  zend_flf_parse_arg_str_slow := λ _ _, None;
  zend_parse_arg_str_or_long_slow := λ _ _, None;
  zend_is_iterable := λ _, false;
  instanceof_function := λ _ _, false;
  object_ce := λ l, l;
  zend_lookup_class_of := λ _, None |}.

Lemma parse_parameters_witness :
  let r := @Zpp.Z_PARAM_LONG_EX no_conversions false false in
  let f := Zpp.Frame [ZVAL_LONG zval_uninit 5; str3] false ∅ in
  Zpp.ZEND_PARSE_PARAMETERS_EX 0 1 2 (lines_of [r] [r]) f = settle (judge f 1 [r; r] (Zpp.f_args f)) ∧
  settle (judge f 1 [r; r] (Zpp.f_args f))
  = Some (Zpp.Failed Zpp.ZPP_ERROR_WRONG_ARG
            [Zpp.ParameterError Zpp.ZPP_ERROR_WRONG_ARG 2 Zpp.Z_EXPECTED_LONG (Some str3)]).
Proof.
  intros r f. split; [|by vm_compute].
  apply (parse_parameters_judges [r] [r] f); [|reflexivity].
  assert (Hr : reports_refusal r) by (by left).
  apply (Forall_cons_2 _ _ _ Hr), (Forall_cons_2 _ _ _ Hr), Forall_nil_2.
Defined.

Lemma fast_path_witness :
  ∃ d, Zpp.p_parse (@param_of no_conversions KLong false) (ZVAL_LONG zval_uninit 5) 1 ∅ = Accepted d ∧
       holds d (ZVAL_LONG zval_uninit 5).
Proof.
  apply (@fast_path_types no_conversions KLong false (ZVAL_LONG zval_uninit 5) 1 ∅); [|reflexivity].
  split_and!; [by eexists|done|]. by intros [?|[?|[?|?]]].
Defined.

Lemma path_witness :
  @Zpp.zend_parse_arg_path_str no_conversions str3 false 1 (heap1 (lit "a.php") 1) = Accepted (Some 3%positive) ∧
  @Zpp.zend_parse_arg_path_str no_conversions str3 false 1 (heap1 (lit "a" ++ [NUL]) 1) = Refused.
Proof.
  split.
  - apply (@path_without_nul no_conversions str3 3 (shared (lit "a.php") 1) (lit "a.php") false 1
      (heap1 (lit "a.php") 1)); [reflexivity..|apply shared_ok|]. by apply (bool_decide_unpack _).
  - apply (@path_without_nul no_conversions str3 3 (shared (lit "a" ++ [NUL]) 1) (lit "a" ++ [NUL]) false 1
      (heap1 (lit "a" ++ [NUL]) 1)); [reflexivity..|apply shared_ok|]. by right; left.
Defined.

(** *** Arithmetic *)

Lemma safe_address_witness :
  SafeAddress.zend_safe_address_aarch64 (2 ^ 63) 2 1 = SafeAddress.safe_address 64 (2 ^ 63) 2 1.
Proof. apply (safe_address_variants false false (2 ^ 63) 2 1); by vm_compute. Defined.

Lemma signed_multiply_witness :
  SignedMultiply.mul_aarch64 (2 ^ 62) 2
  = Binary64.NDouble (Binary64.dmul (Binary64.of_long (2 ^ 62)) (Binary64.of_long 2)).
Proof. apply (signed_multiply_variants (2 ^ 62) 2); by vm_compute. Defined.

Lemma long_add_sub_witness :
  LongOps.fast_long_add_function (2 ^ 63 - 1) 1
  = LongOps.php_number (2 ^ 63)
      (Binary64.dadd (Binary64.of_long (2 ^ 63 - 1)) (Binary64.of_long 1)).
Proof. apply (long_add_sub_variants (2 ^ 63 - 1) 1); by vm_compute. Defined.

Lemma uint128_witness :
  let a := Uint128.U128 1 (2 ^ 64 - 1) in
  Uint128.value (Uint128.php_random_uint128_add a a) = Uint128.native_add (Uint128.value a) (Uint128.value a).
Proof. apply (uint128_emulation (Uint128.U128 1 (2 ^ 64 - 1)) (Uint128.U128 1 (2 ^ 64 - 1))); by vm_compute. Defined.

(** *** Bit sets *)

(** The set of 1 and 64. *)
Definition bits0 : list Z := [2; 1].

Lemma bits0_wf : wf_set bits0.
Proof. repeat (apply Forall_cons_2; [by vm_compute|]). apply Forall_nil_2. Qed.

Lemma bitset_algebra_witness :
  ∃ s, zend_bitset_union bits0 [5; 0] 2 = Some s ∧ combined 2 bits0 s (λ m, member bits0 m || member [5; 0] m).
Proof.
  assert (H5 : wf_set [5; 0]).
  { repeat (apply Forall_cons_2; [by vm_compute|]). apply Forall_nil_2. }
  assert (Hl : (2 ≤ length bits0 ∧ 2 ≤ length [5; 0] ∧ 2 ≤ length bits0 ∧ 2 ≤ length bits0)%nat) by (simpl; lia).
  pose proof (bitset_algebra bits0 [5; 0] bits0 bits0 2 bits0_wf H5 bits0_wf bits0_wf Hl) as H.
  do 4 apply Forall_cons_1 in H as [_ H]. apply Forall_cons_1 in H as [H _]. exact H.
Defined.

Lemma bitset_search_witness :
  zend_bitset_first bits0 2 = Some 1 ∧ zend_bitset_last bits0 2 = Some 64 ∧
  ∃ s, zend_bitset_pop_first bits0 2 = Some (1, s) ∧ updated bits0 s (λ m, negb (m =? 1) && member bits0 m).
Proof.
  destruct (bitset_search bits0 2 bits0_wf) as (f&l&Hf&Hl&[(->&_)|(_&_&_&_&_&Hs)]); [simpl; lia|lia|done|].
  assert (f = 1) as -> by (vm_compute in Hf; congruence). split; [exact Hf|]. split; [by vm_compute|exact Hs].
Defined.

Lemma bitset_iteration_witness :
  ZEND_BITSET_FOREACH bits0 2 = Some [1; 64] ∧ ZEND_BITSET_REVERSE_FOREACH bits0 2 = Some [64; 1] ∧
  ∃ l, ZEND_BITSET_FOREACH bits0 2 = Some l ∧ lists Z.lt bits0 0 128 l.
Proof.
  split; [by vm_compute|]. split; [by vm_compute|]. apply (bitset_iteration bits0 2 bits0_wf). simpl; lia.
Defined.
