(* ===== verification/PamNative.v ===== *)
(** * native/pam_php.c: statics, memory and the internal functions

    The file's static variables, the C heap its buffers live in, the module
    structure it fills, and every [static] function: the cached lookup of the
    runtime's methods, the call through it, the copy of a string result, the
    registration of the native functions and of the standard streams. *)

From S2P Require Import Prelude ZendTypes ZendArith ZendString ZendParams Engine.
Import ArgInfo.

(** ** Constants *)

Definition PAM_SUCCESS : Z := 0.
Definition PAM_EXECUTION_FAILURE : Z := 1.
Definition PAM_INITIALIZATION_FAILURE : Z := 70.

Definition PAM_NATIVE_ABI_VERSION : Z := 1.
Definition PAM_NATIVE_SUCCESS : Z := 0.
Definition PAM_NATIVE_FAILURE : Z := 1.
Definition PAM_NATIVE_INITIALIZATION_FAILURE : Z := 70.

(** ** Statics *)

(** The nine [zend_function *] statics, as the places a [zend_function **] of
    [pam_runtime_function] can point to. *)
Inductive slot : Type :=
| pam_server_config_function
| pam_runtime_info_function
| pam_runtime_metrics_function
| pam_runtime_diagnostics_function
| pam_routes_info_function
| pam_begin_http_dispatch_function
| pam_resume_http_dispatch_function
| pam_cancel_http_dispatch_function
| pam_dispatch_ws_function.

#[global] Instance slot_eq_dec : EqDecision slot.
Proof. solve_decision. Defined.

Record pam_statics : Type := Statics {
  pam_initialized : bool;
  pam_native_functions_registered : bool;
  pam_ini_entries : option loc;
  pam_runtime_class : option loc;
  pam_functions : slot → option loc }.

Definition statics0 : pam_statics := Statics false false None None (λ _, None).

Definition set_slot (c : slot) (f : option loc) (m : slot → option loc) : slot → option loc :=
  λ c', if decide (c' = c) then f else m c'.

(** ** The process *)

(** The statics, [php_embed_module], the C heap with the number of [malloc] calls
    so far, the caller's variables a C function writes through a pointer ([result],
    [*output], [*output_length]), and the engine. *)
Record world (E : Type) : Type := World {
  w_pam : pam_statics;
  w_module : sapi_module_struct;
  w_cheap : gmap loc block;
  w_mallocs : nat;
  w_sigpipe_ignored : bool;
  w_result : zval;
  w_output : option loc;
  w_output_length : Z;
  w_es : es E }.
Arguments World {E}.
Arguments w_pam {E}. Arguments w_module {E}. Arguments w_cheap {E}. Arguments w_mallocs {E}.
Arguments w_sigpipe_ignored {E}. Arguments w_result {E}. Arguments w_output {E}.
Arguments w_output_length {E}. Arguments w_es {E}.

Section native.
Context {E : Type} {engine : ZendEngine E} {host : Host}.
Implicit Type w : world E.

Definition with_pam p w : world E :=
  World p (w_module w) (w_cheap w) (w_mallocs w) (w_sigpipe_ignored w) (w_result w) (w_output w) (w_output_length w) (w_es w).
Definition with_module m w : world E :=
  World (w_pam w) m (w_cheap w) (w_mallocs w) (w_sigpipe_ignored w) (w_result w) (w_output w) (w_output_length w) (w_es w).
Definition with_cheap c n w : world E :=
  World (w_pam w) (w_module w) c n (w_sigpipe_ignored w) (w_result w) (w_output w) (w_output_length w) (w_es w).
Definition with_sigpipe_ignored w : world E :=
  World (w_pam w) (w_module w) (w_cheap w) (w_mallocs w) true (w_result w) (w_output w) (w_output_length w) (w_es w).
Definition with_result r w : world E :=
  World (w_pam w) (w_module w) (w_cheap w) (w_mallocs w) (w_sigpipe_ignored w) r (w_output w) (w_output_length w) (w_es w).
Definition with_output p n w : world E :=
  World (w_pam w) (w_module w) (w_cheap w) (w_mallocs w) (w_sigpipe_ignored w) (w_result w) p n (w_es w).
Definition with_es s w : world E :=
  World (w_pam w) (w_module w) (w_cheap w) (w_mallocs w) (w_sigpipe_ignored w) (w_result w) (w_output w) (w_output_length w) s.

Definition set_initialized (b : bool) w : world E :=
  let p := w_pam w in
  with_pam (Statics b (pam_native_functions_registered p) (pam_ini_entries p) (pam_runtime_class p) (pam_functions p)) w.
Definition set_registered (b : bool) w : world E :=
  let p := w_pam w in
  with_pam (Statics (pam_initialized p) b (pam_ini_entries p) (pam_runtime_class p) (pam_functions p)) w.
Definition set_pam_ini_entries (e : option loc) w : world E :=
  let p := w_pam w in
  with_pam (Statics (pam_initialized p) (pam_native_functions_registered p) e (pam_runtime_class p) (pam_functions p)) w.
Definition set_runtime_class (c : option loc) w : world E :=
  let p := w_pam w in
  with_pam (Statics (pam_initialized p) (pam_native_functions_registered p) (pam_ini_entries p) c (pam_functions p)) w.
Definition set_function (c : slot) (f : option loc) w : world E :=
  let p := w_pam w in
  with_pam (Statics (pam_initialized p) (pam_native_functions_registered p) (pam_ini_entries p) (pam_runtime_class p)
              (set_slot c f (pam_functions p))) w.
Definition set_module_ini_entries (e : option loc) w : world E :=
  let m := w_module w in
  with_module (SapiModule (sm_name m) (sm_pretty_name m) (sm_executable_location m)
                 (sm_php_ini_ignore m) (sm_php_ini_ignore_cwd m) e) w.
Definition set_module_names (n p : bytes) w : world E :=
  let m := w_module w in
  with_module (SapiModule n p (sm_executable_location m)
                 (sm_php_ini_ignore m) (sm_php_ini_ignore_cwd m) (sm_ini_entries m)) w.
Definition set_executable_location (e : option bytes) w : world E :=
  let m := w_module w in
  with_module (SapiModule (sm_name m) (sm_pretty_name m) e
                 (sm_php_ini_ignore m) (sm_php_ini_ignore_cwd m) (sm_ini_entries m)) w.
Definition set_ini_ignore (a b : Z) w : world E :=
  let m := w_module w in
  with_module (SapiModule (sm_name m) (sm_pretty_name m) (sm_executable_location m) a b (sm_ini_entries m)) w.

(** A call into the engine. *)
Definition eng {A} (m : M (es E) A) : M (world E) A := λ w,
  match m (w_es w) with
  | Ret a s => Ret a (with_es s w)
  | Bail s => Bail (with_es s w)
  | Undef => Undef
  end.
Definition sg (f : sapi_globals → sapi_globals) : M (world E) () :=
  eng (modify (λ s, with_SG (f (SG s)) s)).

(** *** The C heap *)

(** [malloc(size)]: a block of indeterminate bytes, or [NULL]. *)
Definition malloc (size : Z) : M (world E) (option loc) := λ w,
  let n := S (w_mallocs w) in
  if malloc_ok (w_mallocs w) size then
    let p := fresh (dom (w_cheap w)) in
    Ret (Some p) (with_cheap (<[p := replicate (Z.to_nat size) None]> (w_cheap w)) n w)
  else Ret None (with_cheap (w_cheap w) n w).

(** [free(p)]: [NULL] is allowed, a pointer that is not live is undefined. *)
Definition free (p : option loc) : M (world E) () := λ w,
  match p with
  | None => Ret () w
  | Some p =>
      match w_cheap w !! p with
      | Some _ => Ret () (with_cheap (delete p (w_cheap w)) (w_mallocs w) w)
      | None => Undef
      end
  end.

(** [memcpy(p + off, src, length src)]. *)
Definition memcpy (p : loc) (off : nat) (src : block) : M (world E) () := λ w,
  match w_cheap w !! p ≫= λ b, blk_write b off src with
  | Some b => Ret () (with_cheap (<[p := b]> (w_cheap w)) (w_mallocs w) w)
  | None => Undef
  end.

(** ** Guarded regions *)

(** The address of [__bailout], the jump buffer of the C function that is running. *)
Definition the_jmp_buf : loc := 1%positive.

Definition set_bailout (b : option loc) w : world E := with_es (with_bailout b (w_es w)) w.
Definition bailout_is (b : option loc) w : bool := bool_decide (eg_bailout (w_es w) = b).

(** [zend_first_try { body } zend_catch { handler } zend_end_try()] of
    Zend/zend.h. The assertions on [EG(bailout)] are assumptions of the compiler
    in a release build. *)
Definition zend_first_try {A} (body handler : M (world E) A) : M (world E) A := λ w,
  let w := set_bailout None w in
  let orig_bailout := eg_bailout (w_es w) in
  match body (set_bailout (Some the_jmp_buf) w) with
  | Ret a w' =>
      if bailout_is (Some the_jmp_buf) w' then Ret a (set_bailout orig_bailout w') else Undef
  | Bail w' =>
      if bailout_is (Some the_jmp_buf) w' then
        match handler (set_bailout orig_bailout w') with
        | Ret a w' => Ret a (set_bailout orig_bailout w')
        | o => o
        end
      else Undef
  | Undef => Undef
  end.

(** ** Native functions of the [Pam] runtime *)

(** Their signatures. *)
Definition arginfo_pam_native_abi_version : list zend_internal_arg_info :=
  [ZEND_BEGIN_ARG_WITH_RETURN_TYPE_INFO_EX 0 0 IS_LONG false].
Definition arginfo_pam_native_stream_fd : list zend_internal_arg_info :=
  [ZEND_BEGIN_ARG_WITH_RETURN_TYPE_MASK_EX 0 1 (Z.lor (TypeHint.MAY_BE IS_LONG) (TypeHint.MAY_BE IS_FALSE));
   ZEND_ARG_INFO 0 (lit "stream")].

(** What a native PHP function does: it throws an argument error, or it leaves a
    value in [return_value]. *)
Inductive php_return : Type :=
| ParametersNoneError
| ParameterErrors (reports : list Zpp.report)
| Returned (v : zval).

(** The call frame of a native function. *)
Definition call_frame (args : list zval) (extra_named : bool) w : Zpp.frame :=
  Zpp.Frame args extra_named (es_heap (w_es w)).

(** [PHP_FUNCTION(pam_native_abi_version)]. *)
Definition zif_pam_native_abi_version (args : list zval) (extra_named : bool) (return_value : zval)
    : M (world E) php_return :=
  w ← get;
  if negb (Zpp.ZEND_PARSE_PARAMETERS_NONE (call_frame args extra_named w)) then mret ParametersNoneError
  else mret (Returned (ZVAL_LONG return_value PAM_NATIVE_ABI_VERSION)).

Definition PHP_STREAM_AS_FD_FOR_SELECT : Z := 3.
Definition PHP_STREAM_CAST_INTERNAL : Z := 0x20000000.

(** [PHP_FUNCTION(pam_native_stream_fd)]; [php_stream_cast] gives its status and
    what it left in [file_descriptor]. *)
Definition zif_pam_native_stream_fd (args : list zval) (extra_named : bool) (return_value : zval)
    : M (world E) php_return :=
  w ← get;
  parsed ← need (Zpp.ZEND_PARSE_PARAMETERS_EX 0 1 1 [Zpp.One (Zpp.Z_PARAM_RESOURCE_EX false false)]
                   (call_frame args extra_named w));
  match parsed with
  | Zpp.Failed _ reports => mret (ParameterErrors reports)
  | Zpp.Parsed [Zpp.DZval (Some stream_value)] =>
      stream ← eng (zend_fetch_resource2_ex stream_value);
      match stream with
      | None => mret (Returned (ZVAL_FALSE return_value))
      | Some stream =>
          '(status, file_descriptor) ←
            eng (php_stream_cast stream (Z.lor PHP_STREAM_AS_FD_FOR_SELECT PHP_STREAM_CAST_INTERNAL));
          if negb (status =? SUCCESS) then mret (Returned (ZVAL_FALSE return_value))
          else if file_descriptor <? 0 then mret (Returned (ZVAL_FALSE return_value))
          else mret (Returned (ZVAL_LONG return_value file_descriptor))
      end
  | Zpp.Parsed _ => undef
  end.

(** [pam_native_functions[]], its end entry included; the engine looks at the
    names when it registers and unregisters them. *)
Definition pam_native_entries : list (option zend_function_entry) :=
  [Some (ZEND_FE (lit "pam_native_abi_version") arginfo_pam_native_abi_version);
   Some (ZEND_FE (lit "pam_native_stream_fd") arginfo_pam_native_stream_fd);
   None].
Definition pam_native_functions : list (option bytes) :=
  (λ e : option zend_function_entry, fe_name <$> e) <$> pam_native_entries.

Definition pam_unregister_native_functions : M (world E) () :=
  w ← get;
  if negb (pam_native_functions_registered (w_pam w)) then mret ()
  else
    eng (zend_unregister_functions pam_native_functions (Z.of_nat (length pam_native_functions) - 1));;
    modify (set_registered false).

Definition pam_native_abi_version : Z := PAM_NATIVE_ABI_VERSION.

(** ** The method cache *)

Definition pam_reset_runtime_cache : M (world E) () :=
  modify (set_runtime_class None);;
  modify (set_function pam_server_config_function None);;
  modify (set_function pam_runtime_info_function None);;
  modify (set_function pam_runtime_metrics_function None);;
  modify (set_function pam_runtime_diagnostics_function None);;
  modify (set_function pam_routes_info_function None);;
  modify (set_function pam_begin_http_dispatch_function None);;
  modify (set_function pam_resume_http_dispatch_function None);;
  modify (set_function pam_cancel_http_dispatch_function None);;
  modify (set_function pam_dispatch_ws_function None).

(** The chain of [strcmp] tests: the cache of a method and its name in the
    function table. *)
Definition method_slot (method : bytes) : option (slot * bytes) :=
  if decide (method = lit "serverConfig") then Some (pam_server_config_function, lit "serverconfig")
  else if decide (method = lit "runtimeInfo") then Some (pam_runtime_info_function, lit "runtimeinfo")
  else if decide (method = lit "runtimeMetrics") then Some (pam_runtime_metrics_function, lit "runtimemetrics")
  else if decide (method = lit "runtimeDiagnostics")
  then Some (pam_runtime_diagnostics_function, lit "runtimediagnostics")
  else if decide (method = lit "routesInfo") then Some (pam_routes_info_function, lit "routesinfo")
  else if decide (method = lit "beginHttpDispatch")
  then Some (pam_begin_http_dispatch_function, lit "beginhttpdispatch")
  else if decide (method = lit "resumeHttpDispatch")
  then Some (pam_resume_http_dispatch_function, lit "resumehttpdispatch")
  else if decide (method = lit "cancelHttpDispatch")
  then Some (pam_cancel_http_dispatch_function, lit "cancelhttpdispatch")
  else if decide (method = lit "dispatchWs") then Some (pam_dispatch_ws_function, lit "dispatchws")
  else None.

Definition runtime_class_name : bytes := lit "Pam\Internal\Runtime".

(** Find and keep the class; false when there is none. *)
Definition load_runtime_class : M (world E) bool :=
  w ← get;
  match pam_runtime_class (w_pam w) with
  | Some _ => mret true
  | None =>
      class_name ← eng (zend_string_init_m runtime_class_name false);
      ce ← eng (zend_lookup_class class_name);
      modify (set_runtime_class ce);;
      eng (heap_do (zend_string_release class_name));;
      mret (bool_decide (is_Some ce))
  end.

Definition pam_runtime_function (method : bytes) : M (world E) (option loc) :=
  match method_slot method with
  | None => mret None
  | Some (cache, normalized) =>
      w ← get;
      match pam_functions (w_pam w) cache with
      | Some f => mret (Some f)
      | None =>
          found ← load_runtime_class;
          if negb found then mret None
          else
            w ← get; ce ← need (pam_runtime_class (w_pam w));
            f ← eng (zend_hash_str_find_ptr ce normalized);
            modify (set_function cache f);;
            mret f
      end
  end.

(** [zend_call_known_function] writes the caller's [result]. *)
Definition call_known_function (f : loc) (ce : option loc) (params : list zval) : M (world E) () := λ w,
  let '(returned, r, s) := zend_call_known_function f ce (w_result w) params (w_es w) in
  let w' := with_result r (with_es s w) in
  if (returned : bool) then Ret () w' else Bail w'.

Definition pam_runtime_call (method : bytes) (parameters : list zval) : M (world E) Z :=
  function ← pam_runtime_function method;
  match function with
  | None => mret FAILURE
  | Some f =>
      w ← get;
      call_known_function f (pam_runtime_class (w_pam w)) parameters;;
      w ← get;
      mret (if Z_ISUNDEF (w_result w) then FAILURE else SUCCESS)
  end.

(** The string object a zval points to. *)
Definition result_string : M (world E) (Z * block) :=
  w ← get; l ← need (Z_COUNTED (w_result w)); o ← need (es_heap (w_es w) !! l);
  '(_, len, val) ← need (as_string o); mret (len, val).

Definition pam_copy_string_result : M (world E) Z :=
  w ← get;
  if negb (zval_get_type (w_result w) =? IS_STRING) then mret FAILURE
  else
    '(len, val) ← result_string;
    copy ← malloc (u64 (len + 1));
    match copy with
    | None => mret FAILURE
    | Some copy =>
        (if decide (Z.to_nat len ≤ length val)%nat then mret () else undef);;
        memcpy copy 0 (take (Z.to_nat len) val);;
        memcpy copy (Z.to_nat len) [Some NUL];;
        modify (with_output (Some copy) len);;
        mret SUCCESS
    end.

(** ** Constants and streams set up at initialisation *)

(** The value cell of a constant of the engine. *)
Definition constant_value (c : loc) : M (world E) zval :=
  w ← get; need (es_constants (w_es w) !! c).
Definition set_constant_value (c : loc) (v : zval) : M (world E) () :=
  eng (modify (λ s, with_constants (<[c := v]> (es_constants s)) s)).

Definition pam_set_php_binary (executable : option bytes) : M (world E) () :=
  match executable with
  | None => mret ()
  | Some executable =>
      name ← eng (zend_string_init_m (lit "PHP_BINARY") false);
      constant ← eng (zend_get_constant_ptr name);
      eng (heap_do (zend_string_release name));;
      match constant with
      | None => mret ()
      | Some constant =>
          old ← constant_value constant;
          eng (zval_ptr_dtor old);;
          str ← eng (zend_string_init_m executable true);
          w ← get;
          v ← need (ZVAL_STR old str (es_heap (w_es w)));
          set_constant_value constant v
      end
  end.

Definition PHP_STREAM_FLAG_NO_RSCR_DTOR_CLOSE : Z := 0x200.

Definition keep_open (stream : loc) : M (world E) () :=
  w ← get; p ← need (es_streams (w_es w) !! stream);
  eng (modify (with_streams (<[stream := Stream (stream_res p)
    (Z.lor (stream_flags p) PHP_STREAM_FLAG_NO_RSCR_DTOR_CLOSE) (stream_exposed p) (stream_data p)]>
    (es_streams (w_es w))))).

Definition close_if_open (stream : option loc) : M (world E) () :=
  match stream with None => mret () | Some p => eng (php_stream_close p) end.

(** [php_stream_to_zval (stream, &constant.value)], the flags cleared, the name
    interned, the constant registered; the result of the registration is unused. *)
Definition register_handle (stream : loc) (name : bytes) (constant_value : zval) : M (world E) zval :=
  v ← eng (php_stream_to_zval stream constant_value);
  let v := Zval (z_value v) (Z_TYPE_INFO v) 0 in
  name ← eng (zend_string_init_interned name);
  _ ← eng (zend_register_constant v name);
  mret v.

Definition pam_register_file_handles : M (world E) Z :=
  input ← eng (php_stream_open_wrapper (lit "php://stdin") (lit "rb"));
  output ← eng (php_stream_open_wrapper (lit "php://stdout") (lit "wb"));
  error ← eng (php_stream_open_wrapper (lit "php://stderr") (lit "wb"));
  match input, output, error with
  | Some input, Some output, Some error =>
      keep_open input;; keep_open output;; keep_open error;;
      v ← register_handle input (lit "STDIN") zval_uninit;
      v ← register_handle output (lit "STDOUT") v;
      _ ← register_handle error (lit "STDERR") v;
      mret SUCCESS
  | _, _, _ =>
      close_if_open input;; close_if_open output;; close_if_open error;;
      mret FAILURE
  end.

(** ** Starting the engine *)

Definition ini_defaults : bytes :=
  lit "html_errors=0" ++ [Byte.x0a] ++ lit "register_argc_argv=1" ++ [Byte.x0a] ++
  lit "implicit_flush=1" ++ [Byte.x0a] ++ lit "output_buffering=0" ++ [Byte.x0a] ++
  lit "max_execution_time=0" ++ [Byte.x0a] ++ lit "max_input_time=-1" ++ [Byte.x0a].

Definition SAPI_OPTION_NO_CHDIR : Z := 1.

(** [overrides == NULL ? 0 : strlen(overrides)] bytes of text. *)
Definition ini_overrides : bytes := default [] (getenv (lit "PAM_INI_ENTRIES")).

Definition drop_ini_entries : M (world E) () :=
  modify (set_module_ini_entries None);;
  w ← get; free (pam_ini_entries (w_pam w));;
  modify (set_pam_ini_entries None).

(** Module and request start-up, undone in reverse order on failure. *)
Definition start_engine (entries : loc) (argc : Z) (argv : list bytes) : M (world E) Z :=
  w ← get;
  status ← eng (module_startup (w_module w) (w_cheap w !! entries));
  if status =? FAILURE then drop_ini_entries;; mret FAILURE
  else
    sg (λ g, with_options (Z.lor (sg_options g) SAPI_OPTION_NO_CHDIR) g);;
    sg (with_args argc argv);;
    status ← eng php_request_startup;
    if status =? FAILURE then eng php_module_shutdown;; drop_ini_entries;; mret FAILURE
    else
      sg (with_headers_sent 1);;
      sg (with_no_headers 1);;
      eng (php_register_variable (lit "PHP_SELF") (lit "-"));;
      mret SUCCESS.

(** [argv] holds the [argc] arguments after the executable's name; it is never
    [NULL], being [argv + 1] of the caller. *)
Definition pam_embed_init (argc : Z) (argv : list bytes) : M (world E) Z :=
  let overrides := ini_overrides in
  let defaults_length := length ini_defaults in
  let overrides_length := length overrides in
  modify with_sigpipe_ignored;;
  eng zend_signal_startup;;
  eng sapi_startup;;
  entries ← malloc (u64 (Z.of_nat defaults_length + Z.of_nat overrides_length + 1));
  modify (set_pam_ini_entries entries);;
  match entries with
  | None => mret FAILURE
  | Some entries =>
      memcpy entries 0 (Some <$> ini_defaults);;
      (if (0 <? overrides_length)%nat
       then memcpy entries defaults_length (Some <$> overrides) else mret ());;
      memcpy entries (defaults_length + overrides_length) [Some NUL];;
      modify (set_module_ini_entries (Some entries));;
      (if bool_decide (getenv (lit "PAM_INI_IGNORE") = Some (lit "1"))
       then modify (set_ini_ignore 1 1) else mret ());;
      (if 0 <? argc then a0 ← need (head argv); modify (set_executable_location (Some a0)) else mret ());;
      start_engine entries argc argv
  end.

End native.

(** ** Theorems *)

(** *** The native functions keep their declared signatures *)
Section native_functions.
Context {E : Type} {engine : ZendEngine E}.
Implicit Types (w : world E) (args : list zval).

(** The value has the declared return type. *)
Definition returns (ai : list zend_internal_arg_info) (v : zval) : Prop :=
  ∃ t, return_type ai = Some t ∧ TypeHint.ZEND_TYPE_CONTAINS_CODE t (zval_get_type v) = true.

(** The call matches [pam_native_stream_fd(resource $stream)]. *)
Definition one_resource args : Prop := ∃ z, args = [z] ∧ zval_get_type z = IS_RESOURCE.

(** What is reported of any other call. *)
Definition argument_errors args : list Zpp.report :=
  match args with
  | [z] => [Zpp.ParameterError Zpp.ZPP_ERROR_WRONG_ARG 1 Zpp.Z_EXPECTED_RESOURCE (Some z)]
  | _ => [Zpp.CountError 1 1; Zpp.ParameterError Zpp.ZPP_ERROR_FAILURE 0 Zpp.Z_EXPECTED_LONG None]
  end.

Lemma parse_one_resource args extra w :
  let r := Zpp.ZEND_PARSE_PARAMETERS_EX 0 1 1 [Zpp.One (Zpp.Z_PARAM_RESOURCE_EX false false)]
             (call_frame args extra w) in
  (∀ z, args = [z] → zval_get_type z = IS_RESOURCE → r = Some (Zpp.Parsed [Zpp.DZval (Some z)])) ∧
  (¬ one_resource args → ∃ code, r = Some (Zpp.Failed code (argument_errors args))).
Proof.
  intros r. destruct args as [|z [|z' args]].
  - split; [done|intros _]. by eexists.
  - assert (Hr : r = Some (if zval_get_type z =? IS_RESOURCE then Zpp.Parsed [Zpp.DZval (Some z)]
                           else Zpp.Failed Zpp.ZPP_ERROR_WRONG_ARG (argument_errors [z]))).
    { subst r. cbv -[Z.eqb zval_get_type]. by destruct (Z.eqb (zval_get_type z) _). }
    rewrite Hr. destruct (Z.eqb_spec (zval_get_type z) IS_RESOURCE) as [Hz|Hz].
    + split; [by intros ? [= ->]|]. intros []. by exists z.
    + split; [by intros ? [= ->]|]. intros _. by eexists.
  - split; [done|intros _]. subst r. unfold Zpp.ZEND_PARSE_PARAMETERS_EX, Zpp.EX_NUM_ARGS.
    rewrite (proj2 (Z.ltb_lt 1 _)) by (simpl; lia). rewrite orb_true_r. by eexists.
Qed.

(** The descriptor behind a resource, by the engine: of the stream it is, if the cast of
    the stream succeeds with one. *)
Definition AS_FD : Z := 0x20000003.
Inductive descriptor (z : zval) (s : es E) : option Z → es E → Prop :=
| no_stream s' : zend_fetch_resource2_ex z s = Ret None s' → descriptor z s None s'
| no_descriptor p s1 st fd s' :
    zend_fetch_resource2_ex z s = Ret (Some p) s1 → php_stream_cast p AS_FD s1 = Ret (st, fd) s' →
    st ≠ SUCCESS ∨ fd < 0 → descriptor z s None s'
| the_descriptor p s1 fd s' :
    zend_fetch_resource2_ex z s = Ret (Some p) s1 → php_stream_cast p AS_FD s1 = Ret (SUCCESS, fd) s' →
    0 <= fd → descriptor z s (Some fd) s'.
(** The lookup or the cast does not return, but ends as [o]. *)
Definition cut_short (z : zval) (s : es E) (o : ∀ A, outcome (es E) A) : Prop :=
  zend_fetch_resource2_ex z s = o _ ∨
  ∃ p s1, zend_fetch_resource2_ex z s = Ret (Some p) s1 ∧ php_stream_cast p AS_FD s1 = o _.

Lemma stream_fd_resource z extra rv w :
  zval_get_type z = IS_RESOURCE →
  match zif_pam_native_stream_fd [z] extra rv w with
  | Ret r w' => ∃ d s', descriptor z (w_es w) d s' ∧ w' = with_es s' w ∧
      r = Returned (match d with Some fd => ZVAL_LONG rv fd | None => ZVAL_FALSE rv end)
  | Bail w' => ∃ s', w' = with_es s' w ∧ cut_short z (w_es w) (λ A, Bail s')
  | Undef => cut_short z (w_es w) (λ A, Undef)
  end.
Proof.
  intros Hz. destruct (parse_one_resource [z] extra w) as [Hy _]. unfold zif_pam_native_stream_fd, mbind, M_bind, get.
  rewrite (Hy z eq_refl Hz). unfold need, mret, M_ret, eng. change (Z.lor _ _) with AS_FD.
  destruct (zend_fetch_resource2_ex z (w_es w)) as [[stream|] s|s|] eqn:Hf.
  - simpl. destruct (php_stream_cast stream AS_FD s) as [[st fd] s'|s'|] eqn:Hc.
    + destruct (Z.eqb_spec st SUCCESS) as [->|Hst]; simpl; [destruct (Z.ltb_spec fd 0)|].
      * exists None, s'. split; [by eapply no_descriptor; [..|right]|done].
      * exists (Some fd), s'. split; [by eapply the_descriptor|done].
      * exists None, s'. split; [by eapply no_descriptor; [..|left]|done].
    + exists s'. split; [done|]. right. eauto.
    + right. eauto.
  - exists None, s. split; [by apply no_stream|done].
  - exists s. split; [done|]. by left.
  - by left.
Qed.

(** C22: pam_native_abi_version returns 1 and refuses arguments.
    pam_native_stream_fd with one resource returns the descriptor that the cast of
    its stream for select gives, when the resource is a stream, the cast succeeds
    and the descriptor is not negative, and false in every other case; it does not
    return only where the lookup of the stream or the cast does not. With other
    arguments it reports the wrong count, or that the argument is no resource, and
    changes nothing. What the two return has their declared return types. *)
Theorem native_functions_typed args extra rv w :
  (zif_pam_native_abi_version args extra rv w =
     Ret (match args with [] => Returned (ZVAL_LONG rv 1) | _ => ParametersNoneError end) w ∧
   returns arginfo_pam_native_abi_version (ZVAL_LONG rv 1)) ∧
  (¬ one_resource args → zif_pam_native_stream_fd args extra rv w = Ret (ParameterErrors (argument_errors args)) w) ∧
  (∀ z, args = [z] → zval_get_type z = IS_RESOURCE →
   match zif_pam_native_stream_fd args extra rv w with
   | Ret r w' => ∃ d s', descriptor z (w_es w) d s' ∧ w' = with_es s' w ∧
       let v := match d with Some fd => ZVAL_LONG rv fd | None => ZVAL_FALSE rv end in
       r = Returned v ∧ returns arginfo_pam_native_stream_fd v
   | Bail w' => ∃ s', w' = with_es s' w ∧ cut_short z (w_es w) (λ A, Bail s')
   | Undef => cut_short z (w_es w) (λ A, Undef)
   end).
Proof.
  split_and!.
  - by destruct args.
  - by eexists.
  - intros Hn. destruct (parse_one_resource args extra w) as [_ Hp]. destruct (Hp Hn) as [code Hc].
    unfold zif_pam_native_stream_fd, mbind, M_bind, get. by rewrite Hc.
  - intros z -> Hz. pose proof (stream_fd_resource z extra rv w Hz) as H.
    destruct (zif_pam_native_stream_fd [z] extra rv w) as [r w'|w'|]; [|done..].
    destruct H as (d & s' & Hd & -> & ->). exists d, s'. split; [done|]. split; [done|]. split; [done|].
    destruct d; by eexists.
Qed.

End native_functions.

(** *** Runs of the engine compose *)
Section runs.
Context {E : Type} {engine : ZendEngine E} {own : Ownership E}.
Implicit Types (s : es E) (R : gmultiset loc) (T : gset loc).

Lemma keeps_methods_refl s : keeps_methods s s.
Proof. by intros ce name zv. Qed.
Lemma keeps_methods_trans s s1 s2 : keeps_methods s s1 → keeps_methods s1 s2 → keeps_methods s s2.
Proof. intros H1 H2 ce name zv H. by apply H2, H1. Qed.

(** Only the heap and the globals [SG] other than the body changed. *)
Definition local_step s s' : Prop :=
  eg_bailout s' = eg_bailout s ∧ es_priv s' = es_priv s ∧
  request_body (SG s') = request_body (SG s).

Lemma heap_only_local s s' : heap_only s s' → local_step s s'.
Proof. by intros [h ->]. Qed.

Lemma ran_refl s R T : owned s R T → ran s R T s.
Proof.
  intros H. split; [done|]. split; [apply keeps_methods_refl|]. exists T. split; [done|apply body_step_refl].
Qed.

Lemma ran_local_l s s1 s2 R T : local_step s s1 → ran s1 R T s2 → ran s R T s2.
Proof.
  intros (Hb&Hp&Hr) (Hb'&Hk&T'&Ho&Hs). split; [congruence|]. split.
  { intros ce name zv. rewrite <- Hp. apply Hk. }
  exists T'. split; [done|]. unfold body_step in *. by rewrite <- Hr.
Qed.

Lemma ran_trans s s1 s2 R R' T :
  ran s R T s1 → (∀ T', owned s1 R T' → ran s1 R' T' s2) → ran s R' T s2.
Proof.
  intros (Hb&Hk&T'&Ho&Hs) H. destruct (H T' Ho) as (Hb'&Hk'&T2&Ho2&Hs2).
  split; [congruence|]. split; [by eapply keeps_methods_trans|].
  exists T2. split; [done|by eapply body_step_trans].
Qed.
End runs.

(** *** The world around a call *)
Section specs.
Context {E : Type} {engine : ZendEngine E} {own : Ownership E} {host : Host}.
Implicit Types (w : world E) (R : gmultiset loc) (T : gset loc).

Lemma wp_eng {A} (m : M (es E) A) Q B w :
  wp m (λ a s', Q a (with_es s' w)) (λ s', B (with_es s' w)) (w_es w) → wp (eng m) Q B w.
Proof. unfold wp, eng. by destruct (m (w_es w)). Qed.

(** Nothing changed but the engine and the method cache (and [result]). *)
Definition quiet w w' : Prop :=
  w_module w' = w_module w ∧ w_cheap w' = w_cheap w ∧ w_mallocs w' = w_mallocs w ∧
  w_output w' = w_output w ∧ w_output_length w' = w_output_length w ∧
  pam_initialized (w_pam w') = pam_initialized (w_pam w) ∧
  pam_native_functions_registered (w_pam w') = pam_native_functions_registered (w_pam w) ∧
  pam_ini_entries (w_pam w') = pam_ini_entries (w_pam w).

Lemma quiet_refl w : quiet w w.
Proof. done. Qed.
(** The name under which the function table knows the method of a slot. *)
Definition slot_name (c : slot) : bytes :=
  match c with
  | pam_server_config_function => lit "serverconfig"
  | pam_runtime_info_function => lit "runtimeinfo"
  | pam_runtime_metrics_function => lit "runtimemetrics"
  | pam_runtime_diagnostics_function => lit "runtimediagnostics"
  | pam_routes_info_function => lit "routesinfo"
  | pam_begin_http_dispatch_function => lit "beginhttpdispatch"
  | pam_resume_http_dispatch_function => lit "resumehttpdispatch"
  | pam_cancel_http_dispatch_function => lit "cancelhttpdispatch"
  | pam_dispatch_ws_function => lit "dispatchws"
  end.

Lemma method_slot_name method c n : method_slot method = Some (c, n) → n = slot_name c.
Proof. unfold method_slot. repeat case_decide; intros; by simplify_eq. Qed.

(** [f] is the method of slot [c] of the cached class. *)
Definition resolves (c : slot) (f : loc) w : Prop :=
  ∃ ce zv, pam_runtime_class (w_pam w) = Some ce ∧
    zend_hash_str_find ce (slot_name c) (es_priv (w_es w)) = Some zv ∧ z_value zv = VPtr (Some f).

(** Every cached pointer is the method it is cached for. *)
Definition cache_ok w : Prop := ∀ c f, pam_functions (w_pam w) c = Some f → resolves c f w.

Lemma cache_ok_ran w w' R T :
  cache_ok w → ran (w_es w) R T (w_es w') → w_pam w' = w_pam w → cache_ok w'.
Proof.
  intros Hc (_&Hk&_) Hp c f. rewrite Hp. intros (ce&zv&H1&H2&H3)%Hc.
  exists ce, zv. rewrite Hp. split_and!; [done|by apply Hk|done].
Qed.

Lemma cache_empty_without_class w c :
  cache_ok w → pam_runtime_class (w_pam w) = None → pam_functions (w_pam w) c = None.
Proof.
  intros Hc Hn. destruct (pam_functions (w_pam w) c) as [f|] eqn:Hf; [|done].
  apply Hc in Hf as (ce&zv&H&_). congruence.
Qed.
End specs.

Section calls.
Context {E : Type} {engine : ZendEngine E} {own : Ownership E} {laws : EngineLaws E} {host : Host}.
Implicit Types (w : world E) (R : gmultiset loc) (T : gset loc).

(** How a computation that looks the class up may be left by a bailout: at most
    the class name is lost, and only while the class is not cached. *)
Definition lookup_left w R T w' : Prop :=
  cache_ok w' ∧ quiet w w' ∧ w_result w' = w_result w ∧
  ∃ leak, ran (w_es w) (R ⊎ leak) T (w_es w') ∧ (size leak ≤ 1)%nat ∧
          (pam_runtime_class (w_pam w) ≠ None → leak = ∅).

Lemma runtime_class_name_fits : fits runtime_class_name.
Proof. by vm_compute. Qed.

Lemma load_runtime_class_spec w R T :
  owned (w_es w) R T → cache_ok w →
  wp load_runtime_class
     (λ found w', ran (w_es w) R T (w_es w') ∧ cache_ok w' ∧ quiet w w' ∧
                  w_result w' = w_result w ∧
                  pam_functions (w_pam w') = pam_functions (w_pam w) ∧
                  (found = true ↔ is_Some (pam_runtime_class (w_pam w'))))
     (lookup_left w R T) w.
Proof using laws.
  intros Ho Hc. unfold load_runtime_class. wp_step. wp_step. cbn beta.
  destruct (pam_runtime_class (w_pam w)) as [ce|] eqn:Hce.
  { wp_step. split_and!; auto using ran_refl, quiet_refl. rewrite Hce. split; eauto. }
  pose proof (λ c, cache_empty_without_class w c Hc Hce) as Hnone.
  wp_step. apply wp_eng. wp_use (string_init_spec _ _ _ _ _ Ho runtime_class_name_fits); cbn beta.
  2: { intros s' [-> _]. split_and!; [destruct w; done|by destruct w|done|].
       exists ∅. rewrite own_nothing, gmultiset_size_empty. split_and!; [by apply ran_refl|lia|done]. }
  intros name s1 (Ho1&Hh1&_&_). wp_step. apply wp_eng. simpl.
  wp_use (lookup_class_law name s1 _ _ Ho1); [multiset_solver|..]; cbn beta.
  2: { intros s2 Hr. split_and!; [|done..|].
       - intros c f. simpl. by rewrite Hnone.
       - exists {[+ name +]}. rewrite gmultiset_size_singleton. split_and!; [|lia|done].
         eapply ran_local_l; [by apply heap_only_local|done]. }
  intros ce s2 Hr. wp_step. wp_step. cbn beta. wp_step. apply wp_eng. simpl.
  pose proof Hr as (Hb&Hk&T2&Ho2&Hs2).
  wp_use (zend_string_release_spec _ _ _ _ Ho2); cbn beta; [|done].
  intros _ s3 (Ho3&Hh3&_). wp_step. split_and!; [| |done|done|done|].
  - eapply ran_local_l; [by apply heap_only_local|].
    destruct (heap_only_local s2 s3 Hh3) as (Hb3&Hp3&Hr3).
    change (ran s1 R T s3). split; [congruence|]. split; [intros c n zv H; rewrite Hp3; by apply Hk|].
    exists T2. split; [done|]. unfold body_step in *. by rewrite Hr3.
  - intros c f. simpl. by rewrite Hnone.
  - simpl. rewrite bool_decide_eq_true. done.
Qed.

Lemma find_ptr_spec ce name (s : es E) :
  wp (zend_hash_str_find_ptr ce name)
     (λ f s', s' = s ∧ ∀ p, f = Some p → ∃ zv, zend_hash_str_find ce name (es_priv s) = Some zv ∧
                                          z_value zv = VPtr (Some p)) never s.
Proof using laws.
  unfold zend_hash_str_find_ptr. wp_step. wp_step. cbn beta.
  destruct (zend_hash_str_find ce name (es_priv s)) as [zv|] eqn:Hf; [|by wp_step].
  destruct (function_ptr_law _ _ _ _ Hf) as [p Hp]. rewrite Hp. wp_step. split; [done|].
  intros ? [= <-]. eauto.
Qed.

Lemma pam_runtime_function_spec method w R T :
  owned (w_es w) R T → cache_ok w →
  wp (pam_runtime_function method)
     (λ f w', ran (w_es w) R T (w_es w') ∧ cache_ok w' ∧ quiet w w' ∧ w_result w' = w_result w ∧
              ∀ p, f = Some p → ∃ c, fst <$> method_slot method = Some c ∧ resolves c p w' ∧
                                     pam_functions (w_pam w') c = Some p ∧
                                     (pam_functions (w_pam w) c = Some p → w' = w))
     (lookup_left w R T) w.
Proof using laws.
  intros Ho Hc. unfold pam_runtime_function.
  destruct (method_slot method) as [[c n]|] eqn:Hm; [|wp_step; split_and!; auto using ran_refl, quiet_refl; done].
  apply method_slot_name in Hm as ->. wp_step. wp_step. cbn beta.
  destruct (pam_functions (w_pam w) c) as [f|] eqn:Hf.
  { wp_step. split_and!; auto using ran_refl, quiet_refl.
    intros p [= <-]. exists c. split_and!; auto. }
  wp_step. wp_use (load_runtime_class_spec _ _ _ Ho Hc); cbn beta; [|done].
  intros found w1 (Hr1&Hc1&Hq1&Hres1&Hfs1&Hfound). destruct found; simpl.
  2: { wp_step. split_and!; auto. done. }
  wp_step. wp_step. cbn beta. destruct Hfound as [Hfound _]. destruct (Hfound eq_refl) as [ce Hce].
  wp_step. eapply wp_need; [done|]. wp_step. apply wp_eng.
  wp_use (find_ptr_spec ce (slot_name c) (w_es w1)); cbn beta; [|done].
  intros f s2 [-> Hp]. wp_step. wp_step. wp_step. simpl.
  assert (Hcache : ∀ p, f = Some p → resolves c p (set_function c f (with_es (w_es w1) w1))).
  { intros p Hfp. destruct (Hp p Hfp) as (zv&?&?). exists ce, zv. done. }
  split_and!; [done| |done|done|].
  - intros c' f' Hf'. simpl in Hf'. unfold set_slot in Hf'. case_decide; subst.
    + by apply Hcache.
    + by apply Hc1.
  - intros p Hfp. exists c. split_and!; [done|by apply Hcache| |congruence].
    simpl. unfold set_slot. by rewrite decide_True.
Qed.
End calls.

Section results.
Context {E : Type} {engine : ZendEngine E} {own : Ownership E} {laws : EngineLaws E} {host : Host}.
Implicit Types (w : world E) (R : gmultiset loc) (T : gset loc).

Definition undef_result : zval := ZVAL_UNDEF zval_uninit.

(** The method [method] was found and called with exactly [ps]; the call returned
    the value now in [result]. A cached method is called in the state itself. *)
Definition called (method : bytes) (ps : list zval) w R T w' : Prop :=
  ∃ c f ce s, fst <$> method_slot method = Some c ∧ ran (w_es w) R T s ∧
    (∃ zv, zend_hash_str_find ce (slot_name c) (es_priv s) = Some zv ∧ z_value zv = VPtr (Some f)) ∧
    (pam_functions (w_pam w) c = Some f → s = w_es w) ∧
    zend_call_known_function f (Some ce) undef_result ps s = (true, w_result w', w_es w') ∧
    Z_ISUNDEF (w_result w') = false.

(** The steps that find the method [f] of the class [ce], ending in [s]: it is
    cached, or its class is, or the class is found by its name. *)
Inductive finds (method : bytes) w (f ce : loc) : es E → Prop :=
| finds_cached c :
    fst <$> method_slot method = Some c → pam_functions (w_pam w) c = Some f →
    pam_runtime_class (w_pam w) = Some ce → finds method w f ce (w_es w)
| finds_in_class c zv :
    fst <$> method_slot method = Some c → pam_functions (w_pam w) c = None →
    pam_runtime_class (w_pam w) = Some ce →
    zend_hash_str_find ce (slot_name c) (es_priv (w_es w)) = Some zv → z_value zv = VPtr (Some f) →
    finds method w f ce (w_es w)
| finds_class c zv l s1 s2 s3 :
    fst <$> method_slot method = Some c → pam_functions (w_pam w) c = None →
    pam_runtime_class (w_pam w) = None →
    zend_string_init_m runtime_class_name false (w_es w) = Ret l s1 →
    zend_lookup_class l s1 = Ret (Some ce) s2 → heap_do (zend_string_release l) s2 = Ret () s3 →
    zend_hash_str_find ce (slot_name c) (es_priv s3) = Some zv → z_value zv = VPtr (Some f) →
    finds method w f ce s3.

Lemma finds_function method w f ce s :
  finds method w f ce s →
  ∃ w', pam_runtime_function method w = Ret (Some f) w' ∧ w_es w' = s ∧ w_result w' = w_result w ∧
    w_mallocs w' = w_mallocs w ∧ pam_runtime_class (w_pam w') = Some ce.
Proof.
  unfold pam_runtime_function, load_runtime_class, zend_hash_str_find_ptr, eng, mbind, M_bind, get, mret, M_ret.
  intros Hf. destruct Hf as [c Hm Hf Hc|c zv Hm Hf Hc Hz Hv|c zv l s1 s2 s3 Hm Hf Hc H1 H2 H3 Hz Hv];
    (destruct (method_slot method) as [[c' n]|] eqn:Hn; [|done]); injection Hm as ->;
    apply method_slot_name in Hn as ->; rewrite Hf, ?Hc; cbn beta iota.
  - by exists w.
  - unfold modify. simpl. rewrite Hc. simpl. rewrite Hz, Hv. eexists. split; [done|]. by split_and!.
  - rewrite H1. simpl. rewrite H2. simpl. rewrite H3. simpl. rewrite Hz, Hv.
    eexists. split; [done|]. by split_and!.
Qed.

(** The call of [method] with [ps] returns [r], in [s]. *)
Definition returns_value (method : bytes) (ps : list zval) w (r : zval) (s : es E) : Prop :=
  ∃ f ce s1, finds method w f ce s1 ∧
    zend_call_known_function f (Some ce) undef_result ps s1 = (true, r, s) ∧ Z_ISUNDEF r = false.

Lemma returns_call method ps w r s :
  w_result w = undef_result → returns_value method ps w r s →
  ∃ w', pam_runtime_call method ps w = Ret SUCCESS w' ∧ w_result w' = r ∧ w_es w' = s ∧
        w_mallocs w' = w_mallocs w.
Proof.
  intros Hu (f&ce&s1&Hf&Hcall&Hr). destruct (finds_function _ _ _ _ _ Hf) as (w1&H1&Hs1&Hr1&Hm1&Hc1).
  unfold pam_runtime_call, call_known_function, mbind, M_bind, get. rewrite H1. cbn beta iota.
  rewrite Hr1, Hu, Hs1, Hc1, Hcall. cbn beta iota. simpl. rewrite Hr. eexists. by split.
Qed.

(** What a guarded call leaves behind, whichever way it ended. *)
Definition call_left w R T w' : Prop :=
  cache_ok w' ∧ quiet w w' ∧ plain_value (es_heap (w_es w')) (w_result w') ∧
  ∃ leak, ran (w_es w) (R ⊎ zrefs (w_result w') ⊎ leak) T (w_es w') ∧ (size leak ≤ 1)%nat ∧
          (pam_runtime_class (w_pam w) ≠ None → leak = ∅).

Lemma undef_plain h : plain_value h undef_result.
Proof. done. Qed.

Lemma lookup_left_call w R T w' :
  w_result w = undef_result → lookup_left w R T w' → call_left w R T w'.
Proof.
  intros Hu (Hc&Hq&Hr&leak&Hran&Hl&Hn). split_and!; [done|done|rewrite Hr, Hu; apply undef_plain|].
  exists leak. rewrite Hr, Hu. change (zrefs undef_result) with (∅ : gmultiset loc).
  by rewrite own_nothing.
Qed.

Lemma pam_runtime_call_spec method ps w R T :
  owned (w_es w) R T → cache_ok w → w_result w = undef_result →
  Forall (λ a, zrefs a ⊆ R) ps →
  wp (pam_runtime_call method ps)
     (λ st w', call_left w R T w' ∧
               (st = SUCCESS ∧ called method ps w R T w' ∨ st = FAILURE))
     (call_left w R T) w.
Proof using laws.
  intros Ho Hc Hu Hps. unfold pam_runtime_call. wp_step.
  wp_use (pam_runtime_function_spec method _ _ _ Ho Hc); cbn beta.
  2: intros w' H; by apply lookup_left_call.
  intros [f|] w1 (Hr1&Hc1&Hq1&Hres1&Hf1).
  2: { wp_step. split; [|by right]. apply lookup_left_call; [done|]. split_and!; auto.
       exists ∅. rewrite own_nothing, gmultiset_size_empty. split_and!; [done|lia|done]. }
  destruct (Hf1 f eq_refl) as (c&Hm&(ce&zv&Hce&Hzv&Hp)&_&Hcached).
  wp_step. wp_step. cbn beta. rewrite Hce. wp_step. unfold wp, call_known_function.
  rewrite Hres1, Hu. pose proof Hr1 as (_&_&T1&Ho1&_).
  assert (Hcall : call_left w R T
     (let '(_, r, s) := zend_call_known_function f (Some ce) undef_result ps (w_es w1) in
      with_result r (with_es s w1))).
  { pose proof (λ T', call_law f (Some ce) undef_result ps (w_es w1) R T') as Hlaw.
    destruct (zend_call_known_function f (Some ce) undef_result ps (w_es w1)) as [[ret r] s2].
    destruct (Hlaw T1 Ho1 Hps eq_refl) as [Hpl _].
    assert (Hran : ran (w_es w) (R ⊎ zrefs r) T s2).
    { eapply ran_trans; [done|]. intros T' Ho'. by apply (Hlaw T' Ho' Hps eq_refl). }
    split_and!; [|done..|].
    - eapply (cache_ok_ran w1 _ _ T1); [done| |done]. by apply (Hlaw T1 Ho1 Hps eq_refl).
    - exists ∅. cbn [w_result w_es with_result with_es]. rewrite own_nothing, gmultiset_size_empty. split_and!; [done|lia|done]. }
  destruct (zend_call_known_function f (Some ce) undef_result ps (w_es w1)) as [[ret r] s2] eqn:Ecall.
  destruct ret; [|done]. cbn [mbind M_bind get]. split; [done|]. simpl.
  destruct (Z_ISUNDEF r) eqn:Hund; [by right|left]. split; [done|].
  exists c, f, ce, (w_es w1). split_and!; eauto. intros Hf. by rewrite (Hcached Hf).
Qed.

(** A buffer with [bs] and its terminator was published, and is the only change to
    the C heap; or nothing was. *)
Definition published (bs : bytes) w w' : Prop :=
  ∃ p, w_cheap w !! p = None ∧ w_output w' = Some p ∧
       w_output_length w' = Z.of_nat (length bs) ∧
       w_cheap w' = <[p := (Some <$> bs) ++ [Some NUL]]> (w_cheap w).
Definition unpublished w w' : Prop :=
  w_cheap w' = w_cheap w ∧ w_output w' = w_output w ∧ w_output_length w' = w_output_length w.

(** The value is a string with the contents [bs]. *)
Definition string_is (bs : bytes) (r : zval) (s : es E) : Prop :=
  zval_get_type r = IS_STRING ∧
  ∃ l o, Z_COUNTED r = Some l ∧ es_heap s !! l = Some o ∧ zstr_bytes o = Some bs.
Definition result_is (bs : bytes) w : Prop := string_is bs (w_result w) (w_es w).

(** The next [malloc] has room for [bs] and a terminator. *)
Definition room_for (bs : bytes) w : Prop :=
  malloc_ok (w_mallocs w) (Z.of_nat (length bs) + 1) = true.

(** The call of [method] with [ps] returns the string [bs], and there is room for
    a copy of it. *)
Definition answers (method : bytes) (ps : list zval) (bs : bytes) w : Prop :=
  room_for bs w ∧ ∃ r s, returns_value method ps w r s ∧ string_is bs r s.

Lemma string_is_inj bs bs' r s : string_is bs r s → string_is bs' r s → bs = bs'.
Proof. intros (_&l&o&H1&H2&H3) (_&l'&o'&H1'&H2'&H3'). congruence. Qed.

(** The statics, the module, the result and the engine are the same. *)
Definition same_but_output w w' : Prop :=
  w_pam w' = w_pam w ∧ w_module w' = w_module w ∧ w_result w' = w_result w ∧ w_es w' = w_es w.

Lemma pam_copy_string_result_spec w :
  plain_value (es_heap (w_es w)) (w_result w) →
  wp pam_copy_string_result
     (λ st w', same_but_output w w' ∧
        (st = SUCCESS ∧ (∃ bs, result_is bs w ∧ published bs w w') ∨
         st = FAILURE ∧ unpublished w w' ∧ ∀ bs, result_is bs w → ¬ room_for bs w))
     never w.
Proof.
  intros Hpl. unfold pam_copy_string_result. wp_step. wp_step. cbn beta.
  unfold plain_value in Hpl. destruct (zval_get_type (w_result w) =? IS_STRING) eqn:Hty; simpl.
  2: { wp_step. split; [done|right]. split_and!; [done..|]. intros bs [Ht _]. by rewrite Ht in Hty. }
  destruct Hpl as (l&o&bs&Hl&Ho&_&Hok&Hfit&_).
  pose proof (zstr_ok_bytes _ _ Hok) as Hbytes. apply zstr_ok_val in Hok as (h&rest&Hb).
  assert (Hrs : result_string w = Ret (Z.of_nat (length bs), (Some <$> bs) ++ Some NUL :: rest) w).
  { unfold result_string, get, mbind, M_bind. rewrite Hl. simpl. rewrite Ho. simpl.
    unfold as_string. by rewrite Hb. }
  wp_step. unfold wp at 1. rewrite Hrs. wp_step. unfold fits, ZSTR_MAX_LEN in Hfit.
  change ZSTR_MAX_OVERHEAD with 32 in Hfit. rewrite u64_small by lia. unfold wp at 1, malloc.
  assert (Hres : result_is bs w) by (split; [by apply Z.eqb_eq|]; eauto).
  destruct (malloc_ok (w_mallocs w) (Z.of_nat (length bs) + 1)) eqn:Hroom.
  2: { wp_step. split; [done|right]. split_and!; [done..|]. intros bs' Hbs'.
       rewrite <- (string_is_inj _ _ _ _ Hres Hbs'). unfold room_for. by rewrite Hroom. }
  set (p := fresh (dom (w_cheap w))). assert (Hp : w_cheap w !! p = None) by apply not_elem_of_dom, is_fresh.
  rewrite Nat2Z.id, decide_True by (rewrite length_app, length_fmap; lia).
  rewrite take_app_length' by by rewrite length_fmap.
  wp_step. wp_step. wp_step. unfold wp at 1, memcpy. simpl. rewrite lookup_insert_eq. simpl.
  replace (Z.to_nat (Z.of_nat (length bs) + 1)) with (length bs + 1)%nat by lia.
  rewrite blk_write_fits by (rewrite length_fmap, length_replicate; lia). simpl. rewrite insert_insert_eq.
  wp_step. unfold wp at 1, memcpy. simpl. rewrite lookup_insert_eq. simpl.
  rewrite length_fmap, drop_replicate. replace (length bs + 1 - length bs)%nat with 1%nat by lia.
  rewrite blk_write_fits by (rewrite length_app, length_fmap; simpl; lia).
  rewrite take_app_length' by by rewrite length_fmap.
  rewrite drop_ge by (rewrite length_app, length_fmap; simpl; lia).
  wp_step. wp_step. wp_step. simpl. rewrite insert_insert_eq. split; [done|]. left. split; [done|].
  exists bs. split; [done|by exists p].
Qed.
End results.

(** *** Start-up *)
Section startup.
Context {E : Type} {engine : ZendEngine E} {own : Ownership E} {laws : EngineLaws E}
  {lifecycle : LifecycleLaws E} {host : Host}.
Implicit Types (w : world E) (R : gmultiset loc) (T : gset loc).

(** The constant [c] holds the path [executable] in a persistent string of its own. *)
Definition constant_is (executable : bytes) (c : loc) (s : es E) : Prop :=
  ∃ v l o, es_constants s !! c = Some v ∧ zval_get_type v = IS_STRING ∧ Z_COUNTED v = Some l ∧
    es_heap s !! l = Some o ∧ zstr_ok executable o ∧ gc_refcount o = 1 ∧
    has_flag o IS_STR_PERSISTENT = true.

Lemma php_binary_fits : fits (lit "PHP_BINARY").
Proof. by vm_compute. Qed.

Lemma plain_counted h v : plain_value h v → counted_ok v.
Proof.
  unfold plain_value, counted_ok. destruct (zval_get_type v =? IS_STRING); [|congruence].
  intros (l&_&_&->&_). eauto.
Qed.

(** Replace the value of an existing constant. *)
Lemma replace_constant_spec c v executable w T :
  owned (w_es w) ∅ T → es_constants (w_es w) !! c = Some v → plain_value (es_heap (w_es w)) v →
  fits executable →
  wp (old ← constant_value c; eng (zval_ptr_dtor old);;
      str ← eng (zend_string_init_m executable true);
      w ← get; v ← need (ZVAL_STR old str (es_heap (w_es w))); set_constant_value c v)
     (λ _ w', (∃ s', w' = with_es s' w) ∧ owned (w_es w') ∅ T ∧ constant_is executable c (w_es w'))
     (λ _, alloc_fails (E := E) (zstr_alloc_size (Z.of_nat (length executable)))) w.
Proof using laws.
  intros Ho Hv Hpl Hf. pose proof (owned_take_constant _ _ _ _ _ Ho Hv Hpl) as Ho1.
  rewrite own_left in Ho1. rewrite <- (own_left (zrefs v)) in Ho1.
  wp_step. unfold constant_value. wp_step. wp_step. cbn beta. eapply wp_need; [done|].
  wp_step. apply wp_eng.
  wp_use (zval_ptr_dtor_acc v _ _ _ _ Ho1 (plain_counted _ _ Hpl)); cbn beta; [|done].
  intros _ s2 [Ho2 [h2 ->]]. wp_step. apply wp_eng. cbn [w_es with_es].
  wp_use (string_init_acc executable true _ _ _ _ Ho2 Hf); cbn beta; [|by intros s' [_ ?]].
  intros l s3 (Ho3&[h3 ->]&_&Hl3). simpl in Hl3. wp_step. wp_step. cbn beta. wp_step.
  set (v' := set_value v (VCounted l) IS_STRING_EX).
  eapply (wp_need _ v').
  { unfold ZVAL_STR. simpl. by rewrite Hl3, lookup_insert_eq. }
  unfold set_constant_value. apply wp_eng. wp_step. split; [by eexists|]. split.
  - rewrite own_left in Ho3. simpl in *. rewrite <- (own_left {[+ l +]}) in Ho3.
    apply (owned_give_constant (with_heap h3 (w_es w)) c v' ∅ T Ho3).
  - exists v', l, (new_string executable true). simpl.
    rewrite lookup_insert_eq, Hl3, lookup_insert_eq. split_and!; try done. apply new_string_ok.
Qed.

(** A string only the caller holds is not the value of a constant. *)
Lemma plain_others name c v h' (s : es E) R T :
  owned s R T → name ∈ R → multiplicity name (const_refs (es_constants s)) = 0%nat →
  es_constants s !! c = Some v → plain_value (es_heap s) v →
  (∀ l, l ≠ name → h' !! l = es_heap s !! l) → plain_value h' v.
Proof.
  intros Ho Hn Hm Hv Hpl Hh. unfold plain_value in *.
  destruct (zval_get_type v =? IS_STRING); [|done].
  destruct Hpl as (l&o&bs&Hl&Hlo&Hrest). exists l, o, bs. split_and!; [done| |apply Hrest..].
  rewrite Hh; [done|]. intros ->.
  destruct (owned_object _ _ _ _ Ho Hn) as (o'&Ho'&_&Hi&_). simplify_eq.
  rewrite (const_refs_delete c v _ Hv), multiplicity_disj_union in Hm.
  destruct Hrest as (_&_&_&Hr). unfold zrefs in Hm. rewrite Hr, Hi, Hl in Hm. simpl in Hm.
  rewrite multiplicity_singleton_eq in Hm. lia.
Qed.

(** The constant named [PHP_BINARY], as the engine finds it on the way from [w] to
    [w'], holds [executable]; without one nothing changes. *)
Definition binary_set (executable : bytes) w w' : Prop :=
  ∃ name s s1 c, es_heap s !! name = Some (new_string (lit "PHP_BINARY") false) ∧
    zend_get_constant_ptr name s = Ret c s1 ∧
    match c with
    | Some c => constant_is executable c (w_es w')
    | None => es_constants (w_es w') = es_constants (w_es w)
    end.

Lemma pam_set_php_binary_spec executable w T :
  owned (w_es w) ∅ T → (∀ e, executable = Some e → fits e) →
  wp (pam_set_php_binary executable)
     (λ _ w', (∃ s', w' = with_es s' w) ∧ owned (w_es w') ∅ T ∧
        match executable with None => w' = w | Some e => binary_set e w w' end)
     (λ _, alloc_fails (E := E)
        (Z.max (zstr_alloc_size (Z.of_nat (length (lit "PHP_BINARY"))))
               (zstr_alloc_size (Z.of_nat (length (default [] executable)))))) w.
Proof using laws lifecycle.
  intros Ho Hf. destruct executable as [e|]; cbn [pam_set_php_binary].
  2: { wp_step. split_and!; [by exists (w_es w); destruct w|done|done]. }
  wp_step. apply wp_eng. wp_use (string_init_spec _ false _ _ _ Ho php_binary_fits); cbn beta.
  2: { intros s' [_ H]. eapply alloc_fails_mono; [|done]. lia. }
  intros name s1 (Ho1&[h1 ->]&Hfresh&Hname). rewrite own_left in Ho1. wp_step. apply wp_eng.
  assert (Hin : name ∈ ({[+ name +]} : gmultiset loc)) by by apply gmultiset_elem_of_singleton.
  pose proof (get_constant_law name _ _ _ Ho1 Hin) as Hlaw. apply wp_result in Hlaw.
  eapply wp_mono; [exact Hlaw|cbn beta..|by intros ? [? _]].
  intros c s2 [(Ho2&Hcs2&Hval) Hptr].
  assert (Hnm : es_heap (with_heap h1 (w_es w)) !! name = Some (new_string (lit "PHP_BINARY") false))
    by (rewrite Hname; apply lookup_insert_eq). wp_step. apply wp_eng.
  rewrite <- (own_left {[+ name +]}) in Ho2. simpl in Hcs2.
  assert (Hm : multiplicity name (const_refs (es_constants s2)) = 0%nat).
  { rewrite Hcs2. pose proof (proj1 Ho name) as Hc0. rewrite Hfresh in Hc0. by destruct Hc0 as (_&?&_). }
  wp_use (zend_string_release_spec _ _ _ _ Ho2); cbn beta; [|done].
  intros _ s3 (Ho3&[h3 ->]&Hoth). simpl in Hoth. destruct c as [c|].
  2: { wp_step. split_and!; [by eexists|done|]. by eexists name, _, s2, None. }
  destruct (Hval c eq_refl) as (v&Hv&Hpl).
  wp_use (replace_constant_spec c v e (with_es (with_heap h3 s2) w) T Ho3 Hv); cbn beta.
  - apply (plain_others name c v _ _ _ _ Ho2); [by rewrite own_left|done..].
  - by apply Hf.
  - intros _ w' ([s' ->]&Ho'&Hc'). split_and!; [by eexists|done|]. by eexists name, _, s2, (Some c).
  - intros _ H. eapply alloc_fails_mono; [|done]. simpl. lia.
Qed.
End startup.

(** [T] and the streams of a list of handles, all different. *)
Fixpoint opened (T : gset loc) (ps : list (option loc)) (T' : gset loc) : Prop :=
  match ps with
  | [] => T' = T
  | p :: ps => ∃ T1, opened T ps T1 ∧ match p with Some p => T' = T1 ∪ {[p]} ∧ p ∉ T1 | None => T' = T1 end
  end.

(** The order in which the handles were opened does not matter. *)
Lemma opened_swap T a b ps T' : opened T (a :: b :: ps) T' → opened T (b :: a :: ps) T'.
Proof.
  intros (T1&(T2&H2&Hb)&Ha).
  assert (∃ T3, match a with Some p => T3 = T2 ∪ {[p]} ∧ p ∉ T2 | None => T3 = T2 end ∧
                match b with Some p => T' = T3 ∪ {[p]} ∧ p ∉ T3 | None => T' = T3 end) as (T3&H3&H4).
  { destruct a as [a|], b as [b|]; destruct_and?; subst; eexists; split_and?; try done; try set_solver. }
  exists T3. split; [|done]. by exists T2.
Qed.

Lemma opened_perm T ps qs T' : ps ≡ₚ qs → opened T ps T' → opened T qs T'.
Proof.
  intros Hp. revert T'. induction Hp as [|a ps qs _ IH|a b ps|ps qs rs _ IH1 _ IH2]; intros T'; auto.
  - intros (T1&H1&Ha). exists T1. auto.
  - apply opened_swap.
Qed.

Section handles.
Context {E : Type} {engine : ZendEngine E} {own : Ownership E} {laws : EngineLaws E}
  {lifecycle : LifecycleLaws E} {host : Host}.
Implicit Types (w : world E) (R : gmultiset loc) (T : gset loc).

Lemma owned_stream (s : es E) R T p : owned s R T → p ∈ T → is_Some (es_streams s !! p).
Proof. intros (_&(Hd&_)&_) Hp. apply elem_of_dom. rewrite Hd. by apply elem_of_union_r. Qed.

(** Writing a field of an open stream. *)
Lemma owned_set_stream (s : es E) R T p st st' :
  owned s R T → es_streams s !! p = Some st → stream_res st' = stream_res st →
  owned (with_streams (<[p := st']> (es_streams s)) s) R T.
Proof.
  intros (Hc&(Hd&Hj&Hr)&Hs) Hp Hres. split_and!; [done| |done]. split_and!; [|done|].
  - simpl. rewrite dom_insert_L, <- Hd. apply elem_of_dom_2 in Hp.
    apply subseteq_union_1_L. by apply singleton_subseteq_l.
  - simpl. intros a b sa sb Ha Hb Hab.
    assert (Hget : ∀ x sx, <[p := st']> (es_streams s) !! x = Some sx →
       ∃ sx', es_streams s !! x = Some sx' ∧ stream_res sx' = stream_res sx).
    { intros x sx Hx. apply lookup_insert_Some in Hx as [[<- <-]|[_ Hx]]; eauto. }
    destruct (Hget _ _ Ha) as (sa'&Ha'&Ea). destruct (Hget _ _ Hb) as (sb'&Hb'&Eb).
    apply (Hr a b sa' sb' Ha' Hb'). congruence.
Qed.

(** The stream survives the destruction of its resource. *)
Definition kept (st : php_stream) : php_stream :=
  Stream (stream_res st) (Z.lor (stream_flags st) PHP_STREAM_FLAG_NO_RSCR_DTOR_CLOSE) (stream_exposed st) (stream_data st).
Definition survives (st : php_stream) : Prop := Z.testbit (stream_flags st) 9 = true.
Lemma kept_survives st : survives (kept st).
Proof. unfold survives, kept. cbn [stream_flags]. rewrite Z.lor_spec. apply orb_true_r. Qed.

Lemma keep_open_spec p w R T :
  owned (w_es w) R T → p ∈ T →
  wp (keep_open p)
     (λ _ w', ∃ st, es_streams (w_es w) !! p = Some st ∧ w' = with_es (with_streams (<[p := kept st]> (es_streams (w_es w))) (w_es w)) w ∧
              owned (w_es w') R T) never w.
Proof.
  intros Ho Hp. destruct (owned_stream _ _ _ _ Ho Hp) as [st Hst]. unfold keep_open.
  wp_step. wp_step. cbn beta. wp_step. eapply wp_need; [done|]. apply wp_eng. wp_step.
  exists st. split_and!; [done..|]. by eapply owned_set_stream.
Qed.

(** The resource of a stream becomes the value of a new constant: marked as known to PHP,
    under an interned name, as a resource value without constant flags. *)
Definition exposed (st : php_stream) : php_stream := Stream (stream_res st) (stream_flags st) true (stream_data st).
Definition handle_value (st : php_stream) : zval := Zval (VCounted (stream_res st)) IS_RESOURCE_EX 0.
Definition becomes_constant (p : loc) (name : bytes) (s s' : es E) : Prop := ∃ st l s1 r,
  es_streams s !! p = Some st ∧ survives st ∧
  zend_string_init_interned name (with_streams (<[p := exposed st]> (es_streams s)) s) = Ret l s1 ∧
  zend_register_constant (handle_value st) l s1 = Ret r s'.

(** A handle that was registered belongs to the engine. *)
Lemma register_handle_spec p name v w R T st :
  owned (w_es w) R (T ∪ {[p]}) → p ∉ T → es_streams (w_es w) !! p = Some st → survives st →
  wp (register_handle p name v)
     (λ _ w', ∃ s', w' = with_es s' w ∧ owned s' R T ∧ becomes_constant p name (w_es w) s' ∧
                    ∀ q, q ∈ T → es_streams s' !! q = es_streams (w_es w) !! q) never w.
Proof using laws lifecycle.
  intros Ho Hp Hst Hsv. unfold register_handle, php_stream_to_zval. wp_step. apply wp_eng. wp_step. wp_step. cbn beta. wp_step.
  eapply wp_need; [done|]. wp_step. wp_step. wp_step. fold (exposed st).
  pose proof (owned_set_stream _ _ _ p st (exposed st) Ho Hst eq_refl) as Ho1.
  wp_step. apply wp_eng. pose proof (init_interned_law name _ _ _ Ho1) as Hlaw. apply wp_result in Hlaw.
  eapply wp_mono; [exact Hlaw|cbn beta..|by intros ? [? _]]. intros l s2 [[Ho2 Hs2] Hl]. wp_step. apply wp_eng.
  assert (Hp2 : es_streams s2 !! p = Some (exposed st)) by (rewrite Hs2; apply lookup_insert_eq).
  pose proof (register_constant_law p (exposed st) (handle_value st) l s2 R T Ho2 Hp Hp2 eq_refl) as Hlaw2. apply wp_result in Hlaw2.
  eapply wp_mono; [exact Hlaw2|cbn beta..|by intros ? [? _]]. intros r s3 [[Ho3 Hs3] Hr]. wp_step.
  exists s3. split_and!; [done|done|by exists st, l, s2, r|].
  intros q Hq. rewrite Hs3, Hs2 by done. simpl. rewrite lookup_insert_ne by set_solver. done.
Qed.

Lemma close_if_open_spec p w R T T' :
  owned (w_es w) R T' → match p with Some p => T' = T ∪ {[p]} ∧ p ∉ T | None => T' = T end →
  wp (close_if_open p) (λ _ w', ∃ s', w' = with_es s' w ∧ owned s' R T) never w.
Proof using laws.
  intros Ho HT. destruct p as [p|]; simpl.
  - destruct HT as [-> Hp]. apply wp_eng. wp_use (close_law p _ _ _ Ho Hp); cbn beta; [|done].
    intros _ s' (?&_). by eexists.
  - subst. wp_step. exists (w_es w). by destruct w.
Qed.

(** The engine could not open one of the standard streams. *)
Definition handle_refused : Prop :=
  ∃ path mode (s s' : es E),
    (path, mode) ∈ [(lit "php://stdin", lit "rb"); (lit "php://stdout", lit "wb"); (lit "php://stderr", lit "wb")] ∧
    php_stream_open_wrapper path mode s = Ret None s'.

Lemma open_wrapper_spec path mode w R T ps T' :
  owned (w_es w) R T' → opened T ps T' →
  wp (eng (php_stream_open_wrapper path mode))
     (λ p w', ∃ s' T'', w' = with_es s' w ∧ php_stream_open_wrapper path mode (w_es w) = Ret p s' ∧
        owned s' R T'' ∧ opened T (p :: ps) T'') never w.
Proof using lifecycle.
  intros Ho Hop. apply wp_eng. pose proof (open_wrapper_law path mode _ _ _ Ho) as Hlaw. apply wp_result in Hlaw.
  eapply wp_mono; [exact Hlaw|cbn beta..|by intros ? [? _]].
  intros p s' [[H _] Heq]. destruct p as [p|]; [destruct H as [Hn H]|]; eexists s', _; (split_and!; [done|done|done|]); by exists T'.
Qed.

(** Three different streams become constants, in this order. *)
Definition handles_constant (i o e : loc) (s s' : es E) : Prop := ∃ m s1 s2,
  becomes_constant i (lit "STDIN") (with_streams m s) s1 ∧ becomes_constant o (lit "STDOUT") s1 s2 ∧
  becomes_constant e (lit "STDERR") s2 s'.

Lemma register_handles_spec i o e w T :
  owned (w_es w) ∅ (T ∪ {[e]} ∪ {[o]} ∪ {[i]}) → i ∉ T ∪ {[e]} ∪ {[o]} → o ∉ T ∪ {[e]} → e ∉ T →
  wp (keep_open i;; keep_open o;; keep_open e;;
      v ← register_handle i (lit "STDIN") zval_uninit;
      v ← register_handle o (lit "STDOUT") v;
      _ ← register_handle e (lit "STDERR") v;
      mret SUCCESS)
     (λ st w', st = SUCCESS ∧ ∃ s', w' = with_es s' w ∧ owned s' ∅ T ∧ handles_constant i o e (w_es w) s') never w.
Proof using laws lifecycle.
  intros Ho Hi Hu He. assert (Hio : i ≠ o) by set_solver. assert (Hie : i ≠ e) by set_solver. assert (Hoe : o ≠ e) by set_solver.
  wp_step. wp_use (keep_open_spec i w _ _ Ho); cbn beta; [set_solver| |done]. intros _ w1 (si&Hsi&->&Ho1). wp_step.
  wp_use (keep_open_spec o _ _ _ Ho1); cbn beta; [set_solver| |done]. intros _ w2 (so&Hso&->&Ho2). wp_step.
  wp_use (keep_open_spec e _ _ _ Ho2); cbn beta; [set_solver| |done]. intros _ w3 (se&Hse&->&Ho3). simpl in *.
  set (m := <[e := kept se]> _) in *. set (s3 := with_streams m _) in *.
  assert (Mi : m !! i = Some (kept si)) by (unfold m; by rewrite !lookup_insert_ne, lookup_insert_eq by done).
  assert (Mo : m !! o = Some (kept so)) by (unfold m; by rewrite lookup_insert_ne, lookup_insert_eq by done).
  assert (Me : m !! e = Some (kept se)) by (unfold m; by rewrite lookup_insert_eq).
  wp_step. wp_use (register_handle_spec i _ _ (with_es s3 w) _ _ _ Ho3 Hi Mi (kept_survives _)); cbn beta; [|done].
  intros v1 w4 (s4&->&Ho4&Hc1&Hk1). wp_step.
  assert (Mo4 : es_streams s4 !! o = Some (kept so)) by (rewrite Hk1 by set_solver; exact Mo).
  assert (Me4 : es_streams s4 !! e = Some (kept se)) by (rewrite Hk1 by set_solver; exact Me).
  wp_use (register_handle_spec o _ _ (with_es s4 w) _ _ _ Ho4 Hu Mo4 (kept_survives _)); cbn beta; [|done].
  intros v2 w5 (s5&->&Ho5&Hc2&Hk2). wp_step.
  assert (Me5 : es_streams s5 !! e = Some (kept se)) by (rewrite Hk2 by set_solver; exact Me4).
  wp_use (register_handle_spec e _ _ (with_es s5 w) _ _ _ Ho5 He Me5 (kept_survives _)); cbn beta; [|done].
  intros v3 w6 (s6&->&Ho6&Hc3&_). wp_step. split; [done|]. exists s6. split_and!; [done|done|]. by exists m, s4, s5.
Qed.

(** The three streams are opened, one after the other; they become constants if all of
    them could be opened, and are closed otherwise. *)
Definition handles_settled (s : es E) (st : Z) (s' : es E) : Prop := ∃ input output error s1 s2 s3,
  php_stream_open_wrapper (lit "php://stdin") (lit "rb") s = Ret input s1 ∧
  php_stream_open_wrapper (lit "php://stdout") (lit "wb") s1 = Ret output s2 ∧
  php_stream_open_wrapper (lit "php://stderr") (lit "wb") s2 = Ret error s3 ∧
  match input, output, error with
  | Some i, Some o, Some e => st = SUCCESS ∧ NoDup [i; o; e] ∧ handles_constant i o e s3 s'
  | _, _, _ => st = FAILURE
  end.

Lemma handles_settled_spec w T :
  owned (w_es w) ∅ T →
  wp pam_register_file_handles
     (λ st w', ∃ s', w' = with_es s' w ∧ owned s' ∅ T ∧ handles_settled (w_es w) st s') never w.
Proof using laws lifecycle.
  intros Ho. unfold pam_register_file_handles. wp_step.
  wp_use (open_wrapper_spec _ _ w ∅ T [] T Ho eq_refl); cbn beta; [|done].
  intros input w1 (s1&T1&->&E1&Ho1&H1). wp_step.
  wp_use (open_wrapper_spec _ _ (with_es s1 w) ∅ T [input] T1 Ho1 H1); cbn beta; [|done].
  intros output w2 (s2&T2&->&E2&Ho2&H2). wp_step.
  wp_use (open_wrapper_spec _ _ (with_es s2 w) ∅ T [output; input] T2 Ho2 H2); cbn beta; [|done].
  intros error w3 (s3&T3&->&E3&Ho3&H3). simpl in E1, E2, E3.
  assert (H3' : opened T [input; output; error] T3).
  { apply (opened_perm T [error; output; input]); [apply (Permutation_rev [error; output; input])|done]. }
  clear H3. destruct H3' as (T5&(T6&(T7&H7&He)&Hout)&Hin). simpl in H7. subst T7.
  assert (Hclose : (input = None ∨ output = None ∨ error = None) →
    wp (close_if_open input;; close_if_open output;; close_if_open error;; mret FAILURE)
       (λ st w', ∃ s', w' = with_es s' w ∧ owned s' ∅ T ∧ handles_settled (w_es w) st s') never (with_es s3 w)).
  { intros Hnone. wp_step. wp_use (close_if_open_spec input (with_es s3 w) _ _ _ Ho3 Hin); cbn beta; [|done].
    intros _ w4 (s4&->&Ho4). wp_step.
    wp_use (close_if_open_spec output (with_es s4 w) _ _ _ Ho4 Hout); cbn beta; [|done].
    intros _ w5 (s5&->&Ho5). wp_step.
    wp_use (close_if_open_spec error (with_es s5 w) _ _ _ Ho5 He); cbn beta; [|done].
    intros _ w6 (s6&->&Ho6). wp_step. exists s6. split_and!; [done|done|]. exists input, output, error, s1, s2, s3.
    split_and!; [done..|]. destruct input, output, error; naive_solver. }
  destruct input as [i|], output as [o|], error as [e|]; try (apply Hclose; by auto).
  clear Hclose. destruct Hin as [-> Hi], Hout as [-> Hu], He as [-> He].
  wp_use (register_handles_spec i o e (with_es s3 w) T Ho3 Hi Hu He); cbn beta; [|done].
  intros st w4 (->&s4&->&Ho4&Hc). exists s4. split_and!; [done|done|]. exists (Some i), (Some o), (Some e), s1, s2, s3.
  split_and!; [done|done|done|done| |done]. repeat constructor; set_solver.
Qed.

Lemma register_file_handles_spec w T :
  owned (w_es w) ∅ T →
  wp pam_register_file_handles
     (λ st w', (∃ s', w' = with_es s' w) ∧ owned (w_es w') ∅ T ∧
        (st = SUCCESS ∨ st = FAILURE ∧ handle_refused)) never w.
Proof using laws lifecycle.
  intros Ho. wp_use (handles_settled_spec w T Ho); cbn beta; [|done].
  intros st w' (s'&->&Ho'&input&output&error&s1&s2&s3&E1&E2&E3&H). split_and!; [by eexists|done|].
  assert (Hr : input = None ∨ output = None ∨ error = None → handle_refused).
  { intros [->|[->| ->]]; eexists _, _, _, _; (split; [|eassumption]); set_solver. }
  destruct input, output, error; naive_solver.
Qed.
End handles.

Section embed.
Context {E : Type} {engine : ZendEngine E} {own : Ownership E} {laws : EngineLaws E}
  {lifecycle : LifecycleLaws E} {host : Host}.
Implicit Types (w : world E) (R : gmultiset loc) (T : gset loc).

(** The INI text of the process: the defaults, the overrides, a terminator. *)
Definition ini_text : block := (Some <$> (ini_defaults ++ ini_overrides)) ++ [Some NUL].

(** [malloc] and the copies leave exactly that text in a fresh block. *)
Lemma ini_block_written p w :
  w_cheap w !! p = Some (replicate (length ini_defaults + length ini_overrides + 1) None) →
  (memcpy p 0 (Some <$> ini_defaults);;
   (if (0 <? length ini_overrides)%nat
    then memcpy p (length ini_defaults) (Some <$> ini_overrides) else mret ());;
   memcpy p (length ini_defaults + length ini_overrides) [Some NUL]) w
  = Ret () (with_cheap (<[p := ini_text]> (w_cheap w)) (w_mallocs w) w).
Proof.
  set (d := ini_defaults). set (o := ini_overrides). intros Hp.
  set (n := (length d + length o + 1)%nat) in *.
  assert (Hd : blk_write (replicate n None) 0 (Some <$> d) = Some ((Some <$> d) ++ replicate (length o + 1) None)).
  { rewrite blk_write_fits by (rewrite length_fmap, length_replicate; lia).
    rewrite length_fmap, drop_replicate.
    by replace (n - (0 + length d))%nat with (length o + 1)%nat by lia. }
  assert (Ho : blk_write ((Some <$> d) ++ replicate (length o + 1) None) (length d) (Some <$> o)
               = Some ((Some <$> d ++ o) ++ [None])).
  { rewrite blk_write_fits by (rewrite length_app, !length_fmap, length_replicate; lia).
    rewrite take_app_length' by by rewrite length_fmap. rewrite length_fmap, drop_app_ge by (rewrite length_fmap; lia).
    rewrite length_fmap, drop_replicate, fmap_app, <- app_assoc.
    replace (length o + 1 - (length d + length o - length d))%nat with 1%nat by lia. done. }
  assert (Hn : blk_write ((Some <$> d ++ o) ++ [None]) (length d + length o) [Some NUL] = Some ini_text).
  { rewrite blk_write_fits by (rewrite length_app, length_fmap, length_app; simpl; lia).
    rewrite take_app_length' by (rewrite length_fmap, length_app; lia).
    rewrite drop_ge by (rewrite length_app, length_fmap, length_app; simpl; lia). done. }
  unfold mbind, M_bind, memcpy at 1. rewrite Hp. cbn [mbind option_bind]. rewrite Hd.
  destruct (Nat.ltb_spec 0 (length o)) as [Hl|Hl].
  - unfold memcpy at 1. cbn [w_cheap w_mallocs with_cheap]. rewrite lookup_insert_eq.
    cbn [mbind option_bind]. rewrite Ho.
    unfold memcpy. cbn [w_cheap w_mallocs with_cheap]. rewrite lookup_insert_eq.
    cbn [mbind option_bind]. rewrite Hn. by rewrite !insert_insert_eq.
  - assert (o = []) as Ho0 by (destruct o; [done|simpl in Hl; lia]).
    unfold mret, M_ret, memcpy. cbn [w_cheap w_mallocs with_cheap]. rewrite lookup_insert_eq.
    cbn [mbind option_bind].
    rewrite Ho0, app_nil_r in Hn. rewrite Ho0. change (replicate (length [] + 1) None) with [@None byte].
    rewrite Hn. by rewrite insert_insert_eq.
Qed.

(** The statics other than [pam_ini_entries]. *)
Definition same_statics (p q : pam_statics) : Prop :=
  pam_initialized q = pam_initialized p ∧
  pam_native_functions_registered q = pam_native_functions_registered p ∧
  pam_runtime_class q = pam_runtime_class p ∧ pam_functions q = pam_functions p.

(** The engine is up with the INI text in the one block that was allocated. *)
Definition started w w' : Prop :=
  ∃ p, w_cheap w !! p = None ∧ w_cheap w' = <[p := ini_text]> (w_cheap w) ∧
       pam_ini_entries (w_pam w') = Some p ∧ sm_ini_entries (w_module w') = Some p.

Lemma drop_ini_entries_spec p b w :
  pam_ini_entries (w_pam w) = Some p → w_cheap w !! p = Some b →
  drop_ini_entries w
  = Ret () (set_pam_ini_entries None (with_cheap (delete p (w_cheap w)) (w_mallocs w)
              (set_module_ini_entries None w))).
Proof.
  intros Hp Hb. unfold drop_ini_entries, mbind, M_bind, get, free, modify. simpl. rewrite Hp. simpl.
  by rewrite Hb.
Qed.
End embed.

Section embed_init.
Context {E : Type} {engine : ZendEngine E} {own : Ownership E}
  {lifecycle : LifecycleLaws E} {host : Host}.
Implicit Types (w : world E).

Lemma wp_seq3 {A} (a b c : M (world E) ()) (k : M (world E) A) Q B w w' :
  (a;; b;; c) w = Ret () w' → wp k Q B w' → wp (a;; b;; c;; k) Q B w.
Proof.
  unfold wp, mbind, M_bind. destruct (a w) as [? wa|?|]; [|done..].
  destruct (b wa) as [? wb|?|]; [|done..]. by intros ->.
Qed.

Definition ini_text_fits : Prop :=
  Z.of_nat (length ini_defaults) + Z.of_nat (length ini_overrides) + 1 < 2 ^ 64.

(** The memory and the statics when the engine did not start. *)
Definition not_started w w' : Prop :=
  w_cheap w' = w_cheap w ∧ pam_ini_entries (w_pam w') = None.

(** What can keep the engine from starting. *)
Definition start_refused w : Prop :=
  malloc_ok (w_mallocs w) (Z.of_nat (length ini_defaults) + Z.of_nat (length ini_overrides) + 1) = false ∨
  (∃ m (s s' : es E), module_startup m (Some ini_text) s = Ret FAILURE s') ∨
  (∃ s s' : es E, php_request_startup s = Ret FAILURE s').

(** The INI text is in place at [p]. *)
Definition ini_ready p w w1 : Prop :=
  w_cheap w !! p = None ∧ w_cheap w1 = <[p := ini_text]> (w_cheap w) ∧
  same_statics (w_pam w) (w_pam w1) ∧
  pam_ini_entries (w_pam w1) = Some p ∧ sm_ini_entries (w_module w1) = Some p.

Lemma ini_ready_es p w w1 s : ini_ready p w w1 → ini_ready p w (with_es s w1).
Proof. done. Qed.

(** Failing after the text was placed takes it back. *)
Lemma ini_ready_drop p w w1 :
  ini_ready p w w1 →
  wp (drop_ini_entries;; mret FAILURE)
     (λ st w', same_statics (w_pam w) (w_pam w') ∧ st = FAILURE ∧ not_started w w') never w1.
Proof.
  intros (Hn&Hch&Hst&Hp&_). wp_step. unfold wp at 1.
  rewrite (drop_ini_entries_spec p ini_text) by (rewrite ?Hch, ?lookup_insert_eq; done).
  wp_step. split_and!; [exact Hst|done|]. split; [|done]. simpl. rewrite Hch. by apply delete_insert_id.
Qed.

Lemma start_engine_spec p argc argv w w1 :
  ini_ready p w w1 →
  wp (start_engine p argc argv)
     (λ st w', same_statics (w_pam w) (w_pam w') ∧
        (st = SUCCESS ∧ started w w' ∧ owned (w_es w') ∅ ∅ ∧ w_module w' = w_module w1
         ∨ st = FAILURE ∧ not_started w w' ∧ start_refused w)) never w1.
Proof using lifecycle.
  intros Hr. unfold start_engine, sg. wp_step. wp_step. cbn beta. wp_step. apply wp_eng.
  pose proof (module_startup_law (w_module w1) (w_cheap w1 !! p) (w_es w1)) as Hlaw. apply wp_result in Hlaw.
  eapply wp_mono; [exact Hlaw|cbn beta..|by intros ? [? _]]. intros st1 s1 [_ Hst1].
  destruct (Z.eqb_spec st1 FAILURE) as [->|_].
  { wp_use (ini_ready_drop p w); [by apply ini_ready_es| |done]. intros ? w' (?&?&?). split; [done|right].
    split_and!; [done..|]. right. left. destruct Hr as (_&Hch&_). rewrite Hch, lookup_insert_eq in Hst1.
    by eexists _, _, _. }
  wp_step. apply wp_eng. wp_step. wp_step. apply wp_eng. wp_step. wp_step. apply wp_eng.
  match goal with |- wp php_request_startup _ _ ?s =>
    pose proof (request_startup_law s) as Hlaw2 end. apply wp_result in Hlaw2.
  eapply wp_mono; [exact Hlaw2|cbn beta..|by intros ? [? _]]. intros st2 s2 [Ho Hst2].
  destruct (Z.eqb_spec st2 FAILURE) as [->|Hne].
  { wp_step. apply wp_eng. wp_use (module_shutdown_law); cbn beta; [|done]. intros _ s3 _.
    wp_use (ini_ready_drop p w); [by apply ini_ready_es| |done]. intros ? w' (?&?&?). split; [done|right].
    split_and!; [done..|]. right. right. by eexists _, _. }
  wp_step. apply wp_eng. wp_step. wp_step. apply wp_eng. wp_step. wp_step. apply wp_eng.
  wp_use (register_variable_law _ _ _ ∅ ∅); cbn beta; [by apply Ho| |done]. intros _ s3 Ho3. wp_step.
  destruct Hr as (Hn&Hch&Hst&Hp&Hm). split; [done|]. left. split_and!; [done| |done|done]. by exists p.
Qed.

Lemma pam_embed_init_spec argc argv w :
  ini_text_fits → (0 < argc → argv ≠ []) →
  wp (pam_embed_init argc argv)
     (λ st w', same_statics (w_pam w) (w_pam w') ∧
        (st = SUCCESS ∧ started w w' ∧ owned (w_es w') ∅ ∅ ∧
           sm_executable_location (w_module w')
           = (if 0 <? argc then head argv else sm_executable_location (w_module w))
         ∨ st = FAILURE ∧ not_started w w' ∧ start_refused w)) never w.
Proof using lifecycle.
  intros Hfit Hargv. unfold pam_embed_init. cbv zeta. wp_step. wp_step. wp_step. apply wp_eng.
  wp_use (signal_startup_law); cbn beta; [|done]. intros _ s1 _. wp_step. apply wp_eng.
  wp_use (sapi_startup_law); cbn beta; [|done]. intros _ s2 _. wp_step.
  unfold wp at 1, malloc. unfold ini_text_fits in Hfit. rewrite u64_small by lia.
  destruct (malloc_ok _ _) eqn:Hroom.
  2: { wp_step. wp_step. wp_step. split; [done|right]. split_and!; [done..|by left]. }
  cbn [w_cheap w_mallocs with_es with_sigpipe_ignored].
  set (p := fresh (dom (w_cheap w))). assert (Hp : w_cheap w !! p = None) by apply not_elem_of_dom, is_fresh.
  wp_step. wp_step. eapply wp_seq3.
  { apply ini_block_written. cbn [w_cheap with_cheap set_pam_ini_entries with_pam].
    rewrite lookup_insert_eq. do 2 f_equal. lia. }
  cbn [w_cheap w_mallocs with_es with_sigpipe_ignored with_cheap set_pam_ini_entries with_pam].
  rewrite insert_insert_eq. wp_step. wp_step. wp_step.
  set (w1 := set_module_ini_entries (Some p) _).
  assert (Hr : ∀ w2, w_pam w2 = w_pam w1 → w_cheap w2 = w_cheap w1 →
     sm_ini_entries (w_module w2) = sm_ini_entries (w_module w1) → ini_ready p w w2).
  { intros w2 Hp2 Hc2 Hm2. unfold ini_ready. rewrite Hp2, Hc2, Hm2. done. }
  eapply (wp_mono _ (λ _ w2, w_pam w2 = w_pam w1 ∧ w_cheap w2 = w_cheap w1 ∧
     sm_ini_entries (w_module w2) = Some p ∧
     sm_executable_location (w_module w2) = sm_executable_location (w_module w)) _ never);
    [by destruct (bool_decide _)| |done].
  intros _ w2 (Hp2&Hc2&Hm2&Hx2). wp_step.
  eapply (wp_mono _ (λ _ w3, ini_ready p w w3 ∧ sm_executable_location (w_module w3)
     = if 0 <? argc then head argv else sm_executable_location (w_module w)) _ never); [| |done].
  - destruct (Z.ltb_spec 0 argc) as [Ha|Ha]; [|wp_step; auto].
    destruct argv as [|a argv]; [by destruct (Hargv Ha)|]. wp_step. eapply wp_need; [done|]. wp_step.
    split; [|done]. by apply Hr.
  - intros _ w3 [Hr3 Hx3]. wp_use (start_engine_spec p argc argv w w3 Hr3); cbn beta; [|done].
    intros st w' [Hst [(->&?&?&Hm)|[-> ?]]]; (split; [done|]); [left|by right].
    rewrite Hm. done.
Qed.
End embed_init.

(** *** What the internal functions promise *)
Section internal.
Context {E : Type} {engine : ZendEngine E} {own : Ownership E} {laws : EngineLaws E}
  {lifecycle : LifecycleLaws E} {host : Host}.
Implicit Types (w : world E) (R : gmultiset loc) (T : gset loc).

(** A cached method is found without the engine. *)
Lemma cached_function method c p w :
  fst <$> method_slot method = Some c → pam_functions (w_pam w) c = Some p →
  pam_runtime_function method w = Ret (Some p) w.
Proof.
  unfold pam_runtime_function. destruct (method_slot method) as [[c' n]|]; [|done].
  intros [= ->] Hp. unfold mbind, M_bind, get. by rewrite Hp.
Qed.

Lemma not_found method w o :
  pam_runtime_function method w = o → (∀ f w', o ≠ Ret (Some f) w') → ∀ f ce s, ¬ finds method w f ce s.
Proof. intros <- Hne f ce s (w'&H&_)%finds_function. by eapply Hne. Qed.

(** C19: pam_runtime_function keeps every cached pointer the method it is cached
    for; a method it returns is found again from the cache without touching the
    engine, it returns NULL or is left by a bailout only when no sequence of
    engine steps finds the method, and a bailout loses at most the class name. *)
Theorem method_cache method w R T :
  owned (w_es w) R T → cache_ok w →
  wp (pam_runtime_function method)
     (λ f w', cache_ok w' ∧ quiet w w' ∧ ran (w_es w) R T (w_es w') ∧
        match f with
        | Some p => ∃ c, fst <$> method_slot method = Some c ∧ resolves c p w' ∧
            ∀ w2, w_pam w2 = w_pam w' → pam_runtime_function method w2 = Ret (Some p) w2
        | None => ∀ f ce s, ¬ finds method w f ce s
        end)
     (λ w', lookup_left w R T w' ∧ ∀ f ce s, ¬ finds method w f ce s) w.
Proof using laws.
  intros Ho Hc. pose proof (pam_runtime_function_spec method w R T Ho Hc) as Hspec.
  apply wp_result in Hspec. eapply wp_mono; [exact Hspec|cbn beta..].
  - intros f w' [(Hr&Hc'&Hq&_&Hf) Heq]. split_and!; [done..|]. destruct f as [p|].
    + destruct (Hf p eq_refl) as (c&Hm&Hres&Hp&_). exists c. split_and!; [done..|].
      intros w2 Hw2. apply (cached_function method c); [done|by rewrite Hw2].
    + by eapply not_found.
  - intros w' [Hl Heq]. split; [done|]. by eapply not_found.
Qed.

(** Pam_set_php_binary makes the constant PHP_BINARY, when the engine has it,
    a persistent string of its own with the executable's path, releases the old
    value and its own name string, and changes nothing without that constant. *)
Theorem php_binary_constant executable w T :
  owned (w_es w) ∅ T → fits executable →
  wp (pam_set_php_binary (Some executable))
     (λ _ w', (∃ s', w' = with_es s' w) ∧ owned (w_es w') ∅ T ∧ binary_set executable w w')
     (λ _, alloc_fails (E := E)
        (Z.max (zstr_alloc_size 10) (zstr_alloc_size (Z.of_nat (length executable))))) w.
Proof using laws lifecycle.
  intros Ho Hf. apply (pam_set_php_binary_spec (Some executable) w T Ho). by intros e [= <-].
Qed.

(** C21: pam_register_file_handles always returns, and leaves no stream to the C
    file. It opens php://stdin for reading, then php://stdout and php://stderr for
    writing. When all three can be opened it returns SUCCESS: three different
    streams, each flagged to survive the destruction of its resource and marked as
    known to PHP, have been registered with the engine as the constants STDIN,
    STDOUT and STDERR, each as its own resource value without constant flags. When
    one is refused it returns FAILURE, and those that were opened are closed. *)
Theorem file_handles_owned w T :
  owned (w_es w) ∅ T →
  wp pam_register_file_handles
     (λ st w', ∃ s', w' = with_es s' w ∧ owned s' ∅ T ∧ handles_settled (w_es w) st s') never w.
Proof using laws lifecycle. apply handles_settled_spec. Qed.
End internal.
