(* ===== verification/PamExports.v ===== *)
(** * native/pam_php.c: the exported functions

    Initialisation and shutdown, evaluation and execution of scripts, the queries
    of the runtime and the dispatch of HTTP and WebSocket events, each as the C
    function is written; pam.h declares them and src/src/php.rs calls them. *)

From S2P Require Import Prelude ZendTypes ZendArith ZendString Engine PamNative.

Section exports.
Context {E : Type} {engine : ZendEngine E} {host : Host}.
Implicit Type w : world E.

(** [pam_embed_init] gets [argc - 1] and [argv + 1], the tail of the list. *)
Definition pam_php_init (argc : Z) (argv : list bytes) : M (world E) Z :=
  exe ← (if 0 <? argc then a0 ← need (head argv); mret (Some a0) else mret None);
  modify (set_executable_location exe);;
  (if bool_decide (is_Some (getenv (lit "PAM_COMPOSER_MODE"))) ||
      bool_decide (is_Some (getenv (lit "PAM_CLI_MODE")))
   then modify (set_module_names (lit "cli") (lit "Pam CLI"))
   else modify (set_module_names (lit "embed") (lit "PHP Embedded Library")));;
  pam_reset_runtime_cache;;
  status ← pam_embed_init (argc - 1) (tail argv);
  if status =? FAILURE then mret PAM_INITIALIZATION_FAILURE
  else
    modify (set_initialized true);;
    pam_set_php_binary exe;;
    status ← eng (zend_register_functions pam_native_functions);
    if status =? FAILURE then
      eng php_embed_shutdown;;
      modify (set_initialized false);;
      mret PAM_INITIALIZATION_FAILURE
    else
      modify (set_registered true);;
      status ← pam_register_file_handles;
      if status =? FAILURE then
        pam_unregister_native_functions;;
        eng php_embed_shutdown;;
        modify (set_initialized false);;
        pam_reset_runtime_cache;;
        mret PAM_INITIALIZATION_FAILURE
      else mret PAM_SUCCESS.

Definition exit_status : M (world E) Z := gets (λ w, eg_exit_status (w_es w)).

Definition pam_php_eval (source source_name : bytes) : M (world E) Z :=
  w ← get;
  if negb (pam_initialized (w_pam w)) then mret PAM_INITIALIZATION_FAILURE
  else
    zend_first_try
      (r ← eng (zend_eval_stringl source source_name);
       let exit_code := if r =? FAILURE then PAM_INITIALIZATION_FAILURE else PAM_SUCCESS in
       st ← exit_status;
       mret (if negb (st =? PAM_SUCCESS) then st else exit_code))
      (exit_code ← exit_status;
       mret (if exit_code =? PAM_SUCCESS then PAM_INITIALIZATION_FAILURE else exit_code)).

(** [sapi_header_op(SAPI_HEADER_DELETE_ALL, NULL)] and the three assignments that
    give a run a fresh header bag. *)
Definition fresh_headers : M (world E) () :=
  eng sapi_header_op_delete_all;;
  sg (with_headers_sent 0);;
  sg (with_http_response_code 200);;
  sg (with_send_default_content_type 0).

Definition pam_php_execute_file (filename : bytes) : M (world E) Z :=
  w ← get;
  if negb (pam_initialized (w_pam w)) then mret PAM_INITIALIZATION_FAILURE
  else
    zend_first_try
      (eng (modify (with_skip_shebang true));;
       fresh_headers;;
       _ ← eng (php_execute_script filename);
       exit_status)
      exit_status.

(** *** Queries *)

(** The guarded call, its string result published; shared by the functions below. *)
Definition guarded_call (method : bytes) (parameters : list zval) : M (world E) Z :=
  zend_first_try
    (r ← pam_runtime_call method parameters;
     if r =? SUCCESS then pam_copy_string_result else mret FAILURE)
    (mret FAILURE).

(** [if (!Z_ISUNDEF(result)) zval_ptr_dtor(&result)]. *)
Definition drop_result : M (world E) () :=
  w ← get;
  if negb (Z_ISUNDEF (w_result w)) then eng (zval_ptr_dtor (w_result w)) else mret ().

(** [zval result; ZVAL_UNDEF(&result)]. *)
Definition fresh_result : M (world E) () := modify (with_result (ZVAL_UNDEF zval_uninit)).

Definition runtime_query (method : bytes) : M (world E) Z :=
  fresh_result;;
  status ← guarded_call method [];
  drop_result;;
  mret status.

Definition pam_php_server_config : M (world E) Z := runtime_query (lit "serverConfig").
Definition pam_php_runtime_info : M (world E) Z := runtime_query (lit "runtimeInfo").
Definition pam_php_runtime_metrics : M (world E) Z := runtime_query (lit "runtimeMetrics").
Definition pam_php_runtime_diagnostics : M (world E) Z := runtime_query (lit "runtimeDiagnostics").
Definition pam_php_routes_info : M (world E) Z := runtime_query (lit "routesInfo").

(** *** Dispatch *)

(** [ZVAL_STRINGL(&parameters[i], ...)] for consecutive string arguments. *)
Fixpoint marshal (strs : list bytes) : M (world E) (list zval) :=
  match strs with
  | [] => mret []
  | s :: strs => z ← eng (ZVAL_STRINGL zval_uninit s); zs ← marshal strs; mret (z :: zs)
  end.

(** [for (index...) zval_ptr_dtor(&parameters[index])]. *)
Definition drop_parameters (ps : list zval) : M (world E) () := for_each (λ z, eng (zval_ptr_dtor z)) ps.

(** Put the body under [SG(request_info).request_body]; the result is the stream
    that was there. *)
Definition install_body (body : bytes) : M (world E) (option loc) :=
  w ← get;
  let previous_request_body := request_body (SG (w_es w)) in
  b ← (if (length body =? 0)%nat then mret None else eng (php_stream_temp_open body));
  sg (with_request_body b);;
  mret previous_request_body.

(** Close whatever body is there now and put the previous one back. *)
Definition restore_body (previous_request_body : option loc) : M (world E) () :=
  w ← get;
  match request_body (SG (w_es w)) with
  | Some b => eng (php_stream_close b)
  | None => mret ()
  end;;
  sg (with_request_body previous_request_body).

(** The guarded call and everything after it. *)
Definition run_and_restore (method : bytes) (parameters : list zval) (previous_request_body : option loc)
    : M (world E) Z :=
  status ← guarded_call method parameters;
  restore_body previous_request_body;;
  drop_parameters parameters;;
  drop_result;;
  mret status.

(** The common shape of [pam_php_dispatch_http] and [pam_php_resume_http]. *)
Definition dispatch_with_body (method : bytes) (arguments : list bytes) (body : bytes) : M (world E) Z :=
  fresh_result;;
  parameters ← marshal arguments;
  fresh_headers;;
  previous_request_body ← install_body body;
  w ← get;
  if negb (length body =? 0)%nat && bool_decide (request_body (SG (w_es w)) = None) then
    sg (with_request_body previous_request_body);;
    drop_parameters parameters;;
    mret FAILURE
  else run_and_restore method parameters previous_request_body.

Definition pam_php_dispatch_http (method target headers body context request_id : bytes) : M (world E) Z :=
  dispatch_with_body (lit "beginHttpDispatch") [method; target; headers; body; context; request_id] body.

Definition pam_php_resume_http (request_id body operation_result : bytes) : M (world E) Z :=
  dispatch_with_body (lit "resumeHttpDispatch") [request_id; operation_result] body.

Definition pam_php_cancel_http (request_id : bytes) : M (world E) Z :=
  fresh_result;;
  parameters ← marshal [request_id];
  status ← zend_first_try (pam_runtime_call (lit "cancelHttpDispatch") parameters) (mret FAILURE);
  drop_parameters parameters;;
  drop_result;;
  mret status.

Definition pam_php_dispatch_ws (event_kind : Z) (socket_id payload : bytes) : M (world E) Z :=
  fresh_result;;
  strings ← marshal [socket_id; payload];
  let parameters := ZVAL_LONG zval_uninit event_kind :: strings in
  status ← guarded_call (lit "dispatchWs") parameters;
  drop_parameters parameters;;
  drop_result;;
  mret status.

Definition pam_php_string_free (value : option loc) : M (world E) () := free value.

Definition pam_php_shutdown : M (world E) () :=
  w ← get;
  if negb (pam_initialized (w_pam w)) then mret ()
  else
    pam_unregister_native_functions;;
    eng php_embed_shutdown;;
    drop_ini_entries;;
    pam_reset_runtime_cache;;
    modify (set_initialized false).

End exports.

(** ** Theorems *)

(** The references of a list of arguments. *)
Definition refs (zs : list zval) : gmultiset loc := foldr (λ z acc, zrefs z ⊎ acc) ∅ zs.

Lemma refs_elem z zs : z ∈ zs → zrefs z ⊆ refs zs.
Proof. induction 1; simpl; multiset_solver. Qed.

Lemma owned_swap (R A B : gmultiset loc) : R ⊎ (A ⊎ B) = R ⊎ B ⊎ A.
Proof. multiset_solver. Qed.

(** *** Guarded regions *)
Section guarded.
Context {E : Type} {engine : ZendEngine E} {own : Ownership E} {host : Host}.
Implicit Types (w : world E) (R : gmultiset loc) (T : gset loc).

(** No bailout leaves a guarded region whose handler does not bail out, and the
    handler of the caller is what [zend_first_try] made it: none. *)
Lemma zend_first_try_spec {A} (body handler : M (world E) A) Q w :
  wp body (λ a w', eg_bailout (w_es w') = Some the_jmp_buf ∧ Q a (set_bailout None w'))
     (λ w', eg_bailout (w_es w') = Some the_jmp_buf ∧
            wp handler (λ a w', Q a (set_bailout None w')) never (set_bailout None w'))
     (set_bailout (Some the_jmp_buf) w) →
  wp (zend_first_try body handler) Q never w.
Proof.
  unfold wp, zend_first_try, bailout_is.
  change (set_bailout (Some the_jmp_buf) (set_bailout None w)) with (set_bailout (Some the_jmp_buf) w).
  destruct (body (set_bailout (Some the_jmp_buf) w)) as [a w'|w'|]; [| |done].
  - intros [Hb HQ]. by rewrite bool_decide_true.
  - intros [Hb HQ]. rewrite bool_decide_true by done. simpl.
    by destruct (handler (set_bailout None w')).
Qed.

Definition static_same w w' : Prop :=
  w_module w' = w_module w ∧
  pam_initialized (w_pam w') = pam_initialized (w_pam w) ∧
  pam_native_functions_registered (w_pam w') = pam_native_functions_registered (w_pam w) ∧
  pam_ini_entries (w_pam w') = pam_ini_entries (w_pam w).

(** The references the caller is left with after a call: the result and, when the
    class had to be found first, at most its name. *)
Definition settled w R T w' : Prop :=
  cache_ok w' ∧ static_same w w' ∧ eg_bailout (w_es w') = None ∧
  plain_value (es_heap (w_es w')) (w_result w') ∧
  ∃ leak T', owned (w_es w') (R ⊎ zrefs (w_result w') ⊎ leak) T' ∧
    body_step (w_es w) (w_es w') T T' ∧ (size leak ≤ 1)%nat ∧
    (pam_runtime_class (w_pam w) ≠ None → leak = ∅).

(** The engine was called in [w] for [method] with [ps] and answered [bs]. *)
Definition answered (method : bytes) (ps : list zval) (bs : bytes) w R T : Prop :=
  ∃ w', called method ps (set_bailout (Some the_jmp_buf) w) R T w' ∧ result_is bs w'.

(** The status and the published output of a guarded call: success publishes what
    the engine answered, and a call that can be answered does not fail. *)
Definition outcome_of method ps w R T (st : Z) w' : Prop :=
  (st = SUCCESS ∧ ∃ bs, published bs w w' ∧ answered method ps bs w R T)
  ∨ (st = FAILURE ∧ unpublished w w' ∧ ∀ bs, ¬ answers method ps bs (set_bailout (Some the_jmp_buf) w)).

Lemma call_left_settled w R T w' :
  call_left (set_bailout (Some the_jmp_buf) w) R T w' →
  eg_bailout (w_es w') = Some the_jmp_buf ∧ settled w R T (set_bailout None w') ∧
  unpublished w w'.
Proof.
  intros (Hc&(Hm&Hch&_&Ho1&Ho2&Hi&Hr&Hn)&Hpl&leak&(Hb&_&T'&Ho&Hs)&Hl&Hcl).
  split; [done|]. split; [|done]. split_and!; try done. exists leak, T'. by split_and!.
Qed.

Lemma settled_static w R T w1 w2 :
  settled w R T (set_bailout None w1) → w_pam w2 = w_pam w1 → w_module w2 = w_module w1 →
  w_result w2 = w_result w1 → w_es w2 = w_es w1 → settled w R T (set_bailout None w2).
Proof.
  intros (Hc&Hst&Hb&Hpl&Hleak) Hp Hm Hr He. unfold settled, cache_ok, resolves, static_same in *.
  simpl in *. by rewrite Hp, Hm, Hr, He.
Qed.
End guarded.

Section dispatch.
Context {E : Type} {engine : ZendEngine E} {own : Ownership E} {laws : EngineLaws E} {host : Host}.
Implicit Types (w : world E) (R : gmultiset loc) (T : gset loc).

Lemma guarded_call_spec method ps w R T :
  owned (w_es w) R T → cache_ok w → w_result w = undef_result → Forall (λ a, zrefs a ⊆ R) ps →
  wp (guarded_call method ps) (λ st w', settled w R T w' ∧ outcome_of method ps w R T st w') never w.
Proof using laws.
  intros Ho Hc Hu Hps. unfold guarded_call. apply zend_first_try_spec. wp_step.
  pose proof (pam_runtime_call_spec method ps (set_bailout (Some the_jmp_buf) w) R T Ho Hc Hu Hps) as Hspec.
  apply wp_result in Hspec. pose proof (returns_call method ps (set_bailout (Some the_jmp_buf) w)) as Hrc.
  eapply wp_mono; [exact Hspec|cbn beta..].
  2: { intros w' [Hl Heq]. apply call_left_settled in Hl as (Hb&Hs&Hun). split; [done|].
       wp_step. split; [done|]. right. split_and!; [done|apply Hun..|].
       intros bs (_&r&s&Hret&_). destruct (Hrc r s Hu Hret) as (?&He&_). by rewrite He in Heq. }
  intros st w1 [[Hl Hst] Heq]. apply call_left_settled in Hl as (Hb&Hs&Hun).
  destruct Hst as [[-> Hcall]| ->]; simpl.
  - wp_use (pam_copy_string_result_spec w1); [apply Hs| |done]. cbn beta.
    intros st w2 [(Hp&Hm&Hr&He) Hpub]. split; [by rewrite He|].
    split; [by eapply settled_static|]. destruct Hun as (Hun1&Hun2&Hun3).
    destruct Hpub as [[-> (bs&Hbs&p&Hp1&Hp2&Hp3&Hp4)]|[-> [(Hp1&Hp2&Hp3) Hno]]]; [left|right].
    + split; [done|]. exists bs. split; [|by exists w1]. exists p. simpl.
      rewrite Hun1 in Hp1, Hp4. done.
    + split; [done|]. split; [split_and!; simpl; congruence|].
      intros bs (Hroom&r&s&Hret&Hbs). destruct (Hrc r s Hu Hret) as (w1'&He1&<-&<-&Hm1).
      rewrite He1 in Heq. simplify_eq. apply (Hno bs); [done|]. unfold room_for. by rewrite Hm1.
  - wp_step. split; [done|]. split; [done|]. right. split_and!; [done|apply Hun..|].
    intros bs (_&r&s&Hret&_). destruct (Hrc r s Hu Hret) as (?&He&_). by rewrite He in Heq.
Qed.

(** What dropping a result needs to know of it, whatever happened since. *)
Definition droppable (r : zval) : Prop :=
  counted_ok r ∧ (Z_ISUNDEF r = true → Z_REFCOUNTED r = false).

Lemma plain_droppable h r : plain_value h r → droppable r.
Proof.
  unfold plain_value, droppable, Z_ISUNDEF, counted_ok.
  destruct (Z.eqb_spec (zval_get_type r) IS_STRING) as [->|_].
  - intros (l&_&_&->&_). split; [eauto|done].
  - intros ->. split; congruence.
Qed.

Lemma drop_result_spec w R T :
  owned (w_es w) (R ⊎ zrefs (w_result w)) T → droppable (w_result w) →
  wp drop_result (λ _ w', ∃ s', w' = with_es s' w ∧ owned s' R T ∧ heap_only (w_es w) s') never w.
Proof using laws.
  intros Ho [Hcr Hur]. unfold drop_result. wp_step. wp_step. cbn beta.
  destruct (Z_ISUNDEF (w_result w)) eqn:Hu; simpl.
  - wp_step. exists (w_es w). split; [by destruct w|].
    split; [|by exists (es_heap (w_es w)); destruct (w_es w)].
    unfold zrefs in Ho. by rewrite Hur, own_nothing in Ho by done.
  - apply wp_eng. wp_use (zval_ptr_dtor_spec _ _ _ _ Ho); cbn beta; [done| |done].
    intros _ s' [??]. eauto.
Qed.

Lemma drop_parameters_spec zs w R T :
  owned (w_es w) (R ⊎ refs zs) T → Forall counted_ok zs →
  wp (drop_parameters zs)
     (λ _ w', ∃ s', w' = with_es s' w ∧ owned s' R T ∧ heap_only (w_es w) s') never w.
Proof using laws.
  revert w R. induction zs as [|z zs IH]; intros w R Ho Hz; unfold drop_parameters; simpl.
  - wp_step. exists (w_es w). simpl in Ho. rewrite own_nothing in Ho.
    split_and!; [by destruct w|done|]. exists (es_heap (w_es w)). by destruct (w_es w).
  - inversion Hz; subst. wp_step. apply wp_eng. simpl in Ho.
    rewrite owned_swap in Ho.
    wp_use (zval_ptr_dtor_spec _ _ _ _ Ho); cbn beta; [done| |done].
    intros _ s1 [Ho1 Hh1]. wp_use (IH (with_es s1 w) R Ho1); cbn beta; [done| |done].
    intros _ w' (s'&->&Ho'&Hh'). exists s'. split_and!; [done|done|].
    by eapply heap_only_trans.
Qed.

(** An argument zval is a string with the given contents. *)
Definition arg_is (h : zheap) (z : zval) (str : bytes) : Prop :=
  zval_get_type z = IS_STRING ∧ Z_REFCOUNTED z = true ∧
  ∃ l o, Z_COUNTED z = Some l ∧ h !! l = Some o ∧ zstr_ok str o.

Definition marshal_size (strs : list bytes) : Z :=
  foldr (λ s m, Z.max (zstr_alloc_size (Z.of_nat (length s))) m) 0 strs.

Lemma marshal_spec strs w R T :
  owned (w_es w) R T → Forall fits strs →
  wp (marshal strs)
     (λ zs w', ∃ s', w' = with_es s' w ∧ owned s' (R ⊎ refs zs) T ∧ heap_only (w_es w) s' ∧
        es_heap (w_es w) ⊆ es_heap s' ∧ Forall2 (arg_is (es_heap s')) zs strs ∧ Forall counted_ok zs)
     (λ _, alloc_fails (E := E) (marshal_size strs)) w.
Proof.
  revert w R. induction strs as [|str strs IH]; intros w R Ho Hf; simpl.
  - wp_step. exists (w_es w). simpl. rewrite own_nothing. split_and!; try done.
    + by destruct w.
    + exists (es_heap (w_es w)). by destruct (w_es w).
  - inversion Hf; subst. wp_step. apply wp_eng. unfold ZVAL_STRINGL. wp_step.
    wp_use (string_init_spec str false _ _ _ Ho); cbn beta; [done| |].
    2: { intros s' [_ H]. eapply alloc_fails_mono; [|done]. simpl. lia. }
    intros l s1 (Ho1&Hh1&Hn&Hs1). wp_step. wp_step.
    wp_use (IH (with_es s1 w) _ Ho1); cbn beta; [done| |].
    2: { intros _ H. eapply alloc_fails_mono; [|done]. simpl. lia. }
    intros zs w' (s'&->&Ho'&Hh'&Hsub&Hargs&Hcs). wp_step. exists s'. simpl in *.
    assert (Hl : es_heap s1 !! l = Some (new_string str false)) by by rewrite Hs1, lookup_insert_eq.
    split_and!; [done| |by eapply heap_only_trans| | |].
    + change (zrefs (ZVAL_NEW_STR zval_uninit l)) with ({[+ l +]} : gmultiset loc).
      by rewrite (assoc_L (⊎)).
    + etrans; [|done]. rewrite Hs1. by apply insert_subseteq.
    + constructor; [|done]. split; [done|]. split; [done|]. exists l, (new_string str false).
      split_and!; [done| |apply new_string_ok]. by eapply lookup_weaken.
    + constructor; [|done]. intros _. by eexists.
Qed.
End dispatch.

Section kept.
Context {E : Type}.

Lemma args_kept (s s' : es E) R ps args :
  Forall2 (arg_is (es_heap s)) ps args → refs ps ⊆ R → keeps_strings s s' R →
  Forall2 (arg_is (es_heap s')) ps args.
Proof.
  intros Hargs. induction Hargs as [|z str ps args (Ht&Hr&l&o&Hl&Ho&Hok) _ IH]; intros Hsub Hk; [done|].
  simpl in Hsub. constructor; [|apply IH; [multiset_solver|done]].
  split; [done|]. split; [done|]. exists l. destruct (Hk l o str) as (o'&?&?); [|done..|by exists o'].
  unfold zrefs in Hsub. rewrite Hr, Hl in Hsub. multiset_solver.
Qed.

Lemma keeps_strings_trans (s s1 s2 : es E) R :
  keeps_strings s s1 R → keeps_strings s1 s2 R → keeps_strings s s2 R.
Proof. intros H1 H2 l o bs Hl Ho Hok. destruct (H1 l o bs) as (o1&?&?); [done..|]. by apply (H2 l o1 bs). Qed.

Lemma args_borrowed R ps : Forall (λ a, zrefs a ⊆ R ⊎ refs ps) ps.
Proof. apply list.Forall_forall. intros z Hz%refs_elem. multiset_solver. Qed.

Lemma settle_refs (R P A L : gmultiset loc) : R ⊎ P ⊎ A ⊎ L = R ⊎ L ⊎ A ⊎ P.
Proof. multiset_solver. Qed.
End kept.

(** *** The exported functions *)
Section exported.
Context {E : Type} {engine : ZendEngine E} {own : Ownership E} {laws : EngineLaws E} {host : Host}.
Implicit Types (w : world E) (R : gmultiset loc) (T : gset loc).

(** A header bag no earlier request is visible in. *)
Definition headers_fresh (g0 g : sapi_globals) : Prop :=
  headers_sent g = 0 ∧ http_response_code g = 200 ∧ send_default_content_type g = 0 ∧
  (headers_sent g0 = 0 ∨ no_headers g0 ≠ 0 → sg_headers g = []).

Lemma fresh_headers_spec w R T :
  owned (w_es w) R T →
  wp fresh_headers
     (λ _ w', ∃ s', w' = with_es s' w ∧ owned s' R T ∧ eg_bailout s' = eg_bailout (w_es w) ∧
        keeps_methods (w_es w) s' ∧ keeps_strings (w_es w) s' R ∧
        request_body (SG s') = request_body (SG (w_es w)) ∧ headers_fresh (SG (w_es w)) (SG s')) never w.
Proof using laws.
  intros Ho. unfold fresh_headers. wp_step. apply wp_eng.
  wp_use (header_delete_law _ _ _ Ho); cbn beta; [|done].
  intros _ s1 (Ho1&Hb1&Hk1&Hks1&Hr1&Hh1). unfold sg.
  wp_step. apply wp_eng. wp_step. wp_step. apply wp_eng. wp_step. apply wp_eng. wp_step.
  eexists. split_and!; [done|exact Ho1|done|done|done|done|]. by split_and!.
Qed.

(** The body the engine sees is the one of this request. *)
Definition body_visible (body : bytes) (s : es E) : Prop :=
  match request_body (SG s) with
  | None => body = []
  | Some p => ∃ st, es_streams s !! p = Some st ∧ stream_data st = body
  end.

(** The engine could not make a stream for the body. *)
Definition body_refused (body : bytes) w : Prop :=
  body ≠ [] ∧ ∃ s s', headers_fresh (SG (w_es w)) (SG s) ∧ php_stream_temp_open body s = Ret None s'.

(** The outcome of one exchange with the runtime: the engine was called once, in
    the state [s0], with a fresh header bag, the request's body in place and the
    arguments as the parameters [ps]. *)
Definition exchanged (method : bytes) (args : list bytes) (body : bytes) w R T (st : Z) w' : Prop :=
  cache_ok w' ∧ static_same w w' ∧ (eg_bailout (w_es w) = None → eg_bailout (w_es w') = None) ∧
  request_body (SG (w_es w')) = request_body (SG (w_es w)) ∧
  (∃ leak, owned (w_es w') (R ⊎ leak) T ∧ (size leak ≤ 1)%nat ∧
           (pam_runtime_class (w_pam w) ≠ None → leak = ∅)) ∧
  ((st = FAILURE ∧ unpublished w w' ∧ body_refused body w)
   ∨ ∃ ps s0 R0 T0, headers_fresh (SG (w_es w)) (SG s0) ∧ body_visible body s0 ∧
       Forall2 (arg_is (es_heap s0)) ps args ∧
       outcome_of method ps (with_es s0 (with_result undef_result w)) R0 T0 st w').

(** Closing the body the call left and putting the previous one back. *)
Lemma restore_body_spec previous w R T T' Tfin (s0 : es E) :
  owned (w_es w) R T' → body_step s0 (w_es w) T T' →
  match request_body (SG s0) with Some b => T = Tfin ∪ {[b]} ∧ b ∉ Tfin | None => T = Tfin end →
  wp (restore_body previous)
     (λ _ w', ∃ s', w' = with_es s' w ∧ owned s' R Tfin ∧ eg_bailout s' = eg_bailout (w_es w) ∧
        keeps_methods (w_es w) s' ∧ request_body (SG s') = previous) never w.
Proof using laws.
  intros Ho Hs Hin. unfold restore_body. wp_step. wp_step. cbn beta. wp_step.
  destruct (request_body (SG (w_es w))) as [b|] eqn:Hb.
  - assert (T' = Tfin ∪ {[b]} ∧ b ∉ Tfin) as [-> Hbn].
    { destruct Hs as [[Hsame ->]|(Hnone&b'&Hb'&Hn&->)].
      - rewrite <- Hsame, Hb in Hin. done.
      - rewrite Hnone in Hin. assert (b' = b) as -> by congruence. by subst. }
    apply wp_eng. wp_use (close_law b _ _ _ Ho Hbn); cbn beta; [|done].
    intros _ s1 (Ho1&Hb1&HSG&Hk1). unfold sg. apply wp_eng. wp_step.
    eexists. by split_and!.
  - assert (T' = Tfin) as ->.
    { destruct Hs as [[Hsame ->]|(Hnone&b'&Hb'&Hn&->)]; [|congruence].
      by rewrite <- Hsame, Hb in Hin. }
    wp_step. unfold sg. apply wp_eng. wp_step.
    eexists. split_and!; [done|done|done|by intros ce n zv|done].
Qed.

(** Installing the body of a request. *)
Lemma install_body_spec body w R T :
  owned (w_es w) R T →
  wp (install_body body)
     (λ previous w', previous = request_body (SG (w_es w)) ∧
        ∃ s' b, w' = with_es s' w ∧ eg_bailout s' = eg_bailout (w_es w) ∧
          keeps_methods (w_es w) s' ∧ keeps_strings (w_es w) s' R ∧
          SG s' = with_request_body b (SG (w_es w)) ∧
          match b with
          | None => owned s' R T
          | Some p => (p ∉ T) ∧ owned s' R (T ∪ {[p]}) ∧
                      ∃ st, es_streams s' !! p = Some st ∧ stream_data st = body
          end ∧ (b = None → body = [] ∨ ∃ s1, php_stream_temp_open body (w_es w) = Ret None s1))
     (λ _, alloc_fails (E := E) (4096 + zstr_alloc_size (Z.of_nat (length body)))) w.
Proof using laws.
  intros Ho. unfold install_body. wp_step. wp_step. cbn beta zeta. wp_step.
  destruct body as [|c body]; simpl.
  - wp_step. unfold sg. wp_step. apply wp_eng. wp_step. wp_step. split; [done|].
    eexists _, None. split_and!; [done|done|by intros ce n zv|intros l o bs ??; eauto|done|done|by left].
  - apply wp_eng. pose proof (temp_open_law (c :: body) _ _ _ Ho) as Hlaw. apply wp_result in Hlaw.
    eapply wp_mono; [exact Hlaw|cbn beta..|by intros ? [? _]].
    intros b s1 [(Hb&HSG&Hk&Hks&Hown) Heq]. unfold sg. wp_step. apply wp_eng. wp_step. wp_step.
    split; [done|]. eexists _, b. simpl. rewrite HSG. split_and!; try done.
    intros ->. right. by exists s1.
Qed.

Lemma cache_ok_keeps w s : cache_ok w → keeps_methods (w_es w) s → cache_ok (with_es s w).
Proof. intros Hc Hk c f H. destruct (Hc c f H) as (ce&zv&?&?&?). exists ce, zv. split_and!; auto. Qed.

Lemma run_and_restore_spec method ps previous w R T3 T :
  owned (w_es w) (R ⊎ refs ps) T3 →
  match request_body (SG (w_es w)) with Some p => T3 = T ∪ {[p]} ∧ p ∉ T | None => T3 = T end →
  cache_ok w → w_result w = undef_result → Forall counted_ok ps →
  wp (run_and_restore method ps previous)
     (λ st w', cache_ok w' ∧ static_same w w' ∧ eg_bailout (w_es w') = None ∧
        request_body (SG (w_es w')) = previous ∧
        (∃ leak, owned (w_es w') (R ⊎ leak) T ∧ (size leak ≤ 1)%nat ∧
                 (pam_runtime_class (w_pam w) ≠ None → leak = ∅)) ∧
        outcome_of method ps w (R ⊎ refs ps) T3 st w')
     never w.
Proof using laws.
  intros Ho HT Hc Hu Hcs. unfold run_and_restore.
  wp_step. wp_use (guarded_call_spec method ps w _ _ Ho Hc Hu (args_borrowed _ ps)); cbn beta; [|done].
  intros st w4 [(Hc4&Hst4&Hb4&Hpl4&leak&T4&Ho4&Hbs4&Hl4&Hcl4) Hpub]. wp_step.
  wp_use (restore_body_spec previous _ _ _ _ T (w_es w) Ho4 Hbs4 HT); cbn beta; [|done].
  intros _ w5 (s5&->&Ho5&Hb5&Hk5&Hr5). wp_step. rewrite settle_refs in Ho5.
  wp_use (drop_parameters_spec ps (with_es s5 w4) _ T Ho5 Hcs); cbn beta; [|done].
  intros _ w6 (s6&->&Ho6&Hh6). wp_step.
  wp_use (drop_result_spec (with_es s6 w4) _ T Ho6 (plain_droppable _ _ Hpl4)); cbn beta; [|done].
  intros _ w7 (s7&->&Ho7&Hh7). wp_step.
  destruct (heap_only_local _ _ (heap_only_trans _ _ _ Hh6 Hh7)) as (Hb7&Hp7&Hr7). simpl in *.
  split_and!; [|exact Hst4|simpl; congruence|simpl; congruence|by exists leak|exact Hpub].
  apply (cache_ok_keeps w4 s7 Hc4). intros ce n zv H. rewrite Hp7. by apply Hk5.
Qed.

(** Giving up before the call: the previous body back, the arguments released. *)
Lemma abandon_spec ps previous w R T :
  owned (w_es w) (R ⊎ refs ps) T → cache_ok w → Forall counted_ok ps →
  wp (sg (with_request_body previous);; drop_parameters ps;; mret FAILURE)
     (λ st w', st = FAILURE ∧ cache_ok w' ∧
        ∃ s', w' = with_es s' w ∧ owned s' R T ∧ eg_bailout s' = eg_bailout (w_es w) ∧
              request_body (SG s') = previous) never w.
Proof using laws.
  intros Ho Hc Hcs. unfold sg. wp_step. apply wp_eng. wp_step. wp_step.
  wp_use (drop_parameters_spec ps (with_es (with_SG (with_request_body previous (SG (w_es w))) (w_es w)) w)
    R T Ho Hcs); cbn beta; [|done].
  intros _ w' (s'&->&Ho'&Hh'). wp_step. destruct (heap_only_local _ _ Hh') as (Hb&Hp&Hr). simpl in *.
  split; [done|]. split.
  - apply (cache_ok_keeps w s' Hc). intros ce n zv H. by rewrite Hp.
  - exists s'. split_and!; [done|done|congruence|congruence].
Qed.

Lemma dispatch_with_body_spec method args body w R T :
  owned (w_es w) R T → cache_ok w → Forall fits args →
  wp (dispatch_with_body method args body)
     (exchanged method args body w R T)
     (λ _, alloc_fails (E := E)
             (Z.max (marshal_size args) (4096 + zstr_alloc_size (Z.of_nat (length body))))) w.
Proof using laws.
  intros Ho Hc Hf. unfold dispatch_with_body, fresh_result. wp_step. wp_step. wp_step.
  wp_use (marshal_spec args (with_result undef_result w) R T Ho Hf); cbn beta.
  2: { intros _ H. eapply alloc_fails_mono; [|done]. lia. }
  intros ps w1 (s1&->&Ho1&Hh1&_&Hargs&Hcs). wp_step.
  wp_use (fresh_headers_spec (with_es s1 (with_result undef_result w)) _ _ Ho1); cbn beta; [|done].
  intros _ w2 (s2&->&Ho2&Hb2&Hk2&Hks2&Hr2&Hhf). wp_step.
  wp_use (install_body_spec body (with_es s2 (with_result undef_result w)) _ _ Ho2); cbn beta.
  2: { intros _ H. eapply alloc_fails_mono; [|done]. lia. }
  intros prev w3 (->&s3&b&->&Hb3&Hk3&Hks3&HSG3&Hbody&Hempty). wp_step. wp_step. cbn beta.
  assert (Hargs3 : Forall2 (arg_is (es_heap s3)) ps args).
  { eapply args_kept; [done| |by eapply keeps_strings_trans]. multiset_solver. }
  assert (Hc3 : cache_ok (with_es s3 (with_result undef_result w))).
  { apply cache_ok_keeps; [done|]. destruct (heap_only_local _ _ Hh1) as (_&Hp1&_).
    intros ce n zv H. apply Hk3, Hk2. simpl. by rewrite Hp1. }
  assert (HSGb : request_body (SG s2) = request_body (SG (w_es w))).
  { rewrite Hr2. simpl. by destruct (heap_only_local _ _ Hh1) as (_&_&->). }
  assert (Hhf2 : headers_fresh (SG (w_es w)) (SG s2)).
  { destruct (heap_only_frame _ _ Hh1) as (_&_&HSG1&_). simpl in *. unfold headers_fresh in *.
    by rewrite HSG1 in Hhf. }
  cbn [w_es with_es].
  destruct (negb (length body =? 0)%nat && bool_decide (request_body (SG s3) = None)) eqn:Hfail.
  - apply andb_prop in Hfail as [Hne Hnone%bool_decide_eq_true]. rewrite HSG3 in Hnone. simpl in Hnone.
    subst b. assert (Hbody0 : body ≠ []) by (by intros ->).
    wp_use (abandon_spec ps (request_body (SG s2)) (with_es s3 (with_result undef_result w)) R T Hbody Hc3 Hcs);
      cbn beta; [|done].
    intros st w4 (->&Hc4&s4&->&Ho4&Hb4&Hr4). destruct (heap_only_local _ _ Hh1) as (Hb1&_).
    split_and!; [done|done|simpl in *; congruence|simpl in *; congruence| |left].
    + exists ∅. rewrite gmultiset_size_empty, own_nothing. split_and!; [done|lia|done].
    + split_and!; [done..|]. destruct (Hempty eq_refl) as [?|[s5 Hs5]]; [done|].
      split; [done|]. by exists s2, s5.
  - assert (HT : ∃ T3, owned s3 (R ⊎ refs ps) T3 ∧
        match request_body (SG s3) with Some p => T3 = T ∪ {[p]} ∧ p ∉ T | None => T3 = T end).
    { rewrite HSG3. simpl. destruct b as [p|]; [|by eexists].
      destruct Hbody as (Hn&Hown&_). by eexists. }
    destruct HT as (T3&Ho3&HT3).
    wp_use (run_and_restore_spec method ps (request_body (SG s2)) (with_es s3 (with_result undef_result w))
      R T3 T Ho3 HT3 Hc3 eq_refl Hcs); cbn beta; [|done].
    intros st w4 (Hc4&Hst4&Hb4&Hr4&Hleak&Hpub). split_and!; [done|done|done|simpl in *; congruence|done|].
    right. exists ps, s3, (R ⊎ refs ps), T3. split; [by rewrite HSG3|]. split; [|done].
    unfold body_visible. simpl. rewrite HSG3. simpl. destruct b as [p|].
    + by destruct Hbody as (_&_&?).
    + apply andb_false_iff in Hfail as [Hf0|Hf0].
      * apply negb_false_iff, Nat.eqb_eq in Hf0. by destruct body.
      * rewrite HSG3 in Hf0. done.
Qed.
End exported.

Section properties.
Context {E : Type} {engine : ZendEngine E} {own : Ownership E} {laws : EngineLaws E} {host : Host}.
Implicit Types (w : world E) (R : gmultiset loc) (T : gset loc).

(** The state after an exchange that installs no body: the caller's references are
    gone but for the class name in the one case, and the streams are those of
    [body_step]. *)
Definition released w R T w' : Prop :=
  cache_ok w' ∧ static_same w w' ∧ eg_bailout (w_es w') = None ∧
  ∃ leak T', owned (w_es w') (R ⊎ leak) T' ∧ body_step (w_es w) (w_es w') T T' ∧ (size leak ≤ 1)%nat ∧
    (pam_runtime_class (w_pam w) ≠ None → leak = ∅).

(** Releasing the arguments and the result of a call that has settled. *)
Lemma drop_all_spec (st : Z) ps w w1 R T :
  settled w (R ⊎ refs ps) T w1 → Forall counted_ok ps →
  wp (drop_parameters ps;; drop_result;; mret st)
     (λ st' w', st' = st ∧ released w R T w' ∧ ∃ s', w' = with_es s' w1) never w1.
Proof using laws.
  intros (Hc&Hst&Hb&Hpl&leak&T1&Ho&Hbs&Hl&Hcl) Hcs. rewrite settle_refs in Ho. wp_step.
  wp_use (drop_parameters_spec ps w1 _ T1 Ho Hcs); cbn beta; [|done].
  intros _ w2 (s2&->&Ho2&Hh2). wp_step.
  wp_use (drop_result_spec (with_es s2 w1) _ T1 Ho2 (plain_droppable _ _ Hpl)); cbn beta; [|done].
  intros _ w3 (s3&->&Ho3&Hh3). wp_step. split; [done|]. split; [|by exists s3].
  destruct (heap_only_local _ _ (heap_only_trans _ _ _ Hh2 Hh3)) as (Hb3&Hp3&Hr3). simpl in *.
  split_and!; [|exact Hst|simpl; congruence|].
  - apply (cache_ok_keeps w1 s3 Hc). intros ce n zv H. by rewrite Hp3.
  - exists leak, T1. split_and!; try done. unfold body_step in *. simpl. by rewrite Hr3.
Qed.

(** Marshalling before the exchange changed the heap only. *)
Lemma released_local r s1 w R T w' :
  heap_only (w_es w) s1 → released (with_es s1 (with_result r w)) R T w' → released w R T w'.
Proof.
  intros (_&_&Hq)%heap_only_local (Hc2&Hst2&Hb2&leak&T'&Ho2&Hbs2&Hl2&Hcl2).
  split_and!; try done. exists leak, T'. split_and!; try done.
  unfold body_step in *. simpl in *. by rewrite <- Hq.
Qed.

Lemma cache_ok_local r s1 w : heap_only (w_es w) s1 → cache_ok w → cache_ok (with_es s1 (with_result r w)).
Proof.
  intros (_&Hp&_)%heap_only_local Hc. apply (cache_ok_keeps (with_result r w)); [done|].
  intros ce n zv H. simpl in *. by rewrite Hp.
Qed.

Lemma call_and_drop_spec method ps w R T :
  owned (w_es w) (R ⊎ refs ps) T → cache_ok w → w_result w = undef_result → Forall counted_ok ps →
  wp (status ← guarded_call method ps; drop_parameters ps;; drop_result;; mret status)
     (λ st w', released w R T w' ∧ outcome_of method ps w (R ⊎ refs ps) T st w') never w.
Proof using laws.
  intros Ho Hc Hu Hcs. wp_step.
  wp_use (guarded_call_spec method ps w _ _ Ho Hc Hu (args_borrowed _ ps)); cbn beta; [|done].
  intros st w1 [Hs Hpub]. wp_use (drop_all_spec st ps w w1 R T Hs Hcs); cbn beta; [|done].
  intros ? w2 (->&Hrel&s2&->). done.
Qed.

Lemma runtime_query_spec method w R T :
  owned (w_es w) R T → cache_ok w →
  wp (runtime_query method)
     (λ st w', released w R T w' ∧ outcome_of method [] (with_result undef_result w) R T st w') never w.
Proof using laws.
  intros Ho Hc. unfold runtime_query, fresh_result. wp_step. wp_step.
  rewrite <- (own_nothing R) in Ho.
  wp_use (call_and_drop_spec method [] (with_result undef_result w) R T Ho Hc eq_refl); cbn beta; [done| |done].
  change (refs []) with (∅ : gmultiset loc). by rewrite own_nothing.
Qed.

(** The exported queries, with the runtime method each stands for. *)
Definition queries : list (bytes * M (world E) Z) :=
  [(lit "serverConfig", pam_php_server_config); (lit "runtimeInfo", pam_php_runtime_info);
   (lit "runtimeMetrics", pam_php_runtime_metrics); (lit "runtimeDiagnostics", pam_php_runtime_diagnostics);
   (lit "routesInfo", pam_php_routes_info)].

(** With the class cached and a request body in place, nothing at all is left behind. *)
Lemma released_exact w R T w' :
  released w R T w' → pam_runtime_class (w_pam w) ≠ None → request_body (SG (w_es w)) ≠ None → owned (w_es w') R T.
Proof.
  intros (_&_&_&leak&T'&Ho&Hb&_&Hl) Hc Hr. rewrite (Hl Hc), own_nothing in Ho.
  destruct Hb as [[_ ->]|[Hn _]]; [done|by destruct Hr].
Qed.

(** C13: The five queries (serverConfig, runtimeInfo, runtimeMetrics,
    runtimeDiagnostics, routesInfo) never bail out: each returns SUCCESS with the
    answer of its own runtime method published, or FAILURE with nothing published
    and only when the method gives no string or there is no room for the copy. The
    statics and the method cache are intact and no handler is left. The caller
    holds the references it held, but for at most the class name while the class
    was not cached, and the streams it held, but for a request body that PHP code
    opened when there was none; with the class cached and a body in place it holds
    exactly what it held. *)
Theorem queries_exchange w R T :
  owned (w_es w) R T → cache_ok w →
  Forall (λ '(method, q),
    wp q (λ st w', released w R T w' ∧
            (pam_runtime_class (w_pam w) ≠ None → request_body (SG (w_es w)) ≠ None → owned (w_es w') R T) ∧
            outcome_of method [] (with_result undef_result w) R T st w') never w)
    queries.
Proof using laws.
  intros Ho Hc.
  assert (H : ∀ method, wp (runtime_query method) (λ st w', released w R T w' ∧
     (pam_runtime_class (w_pam w) ≠ None → request_body (SG (w_es w)) ≠ None → owned (w_es w') R T) ∧
     outcome_of method [] (with_result undef_result w) R T st w') never w).
  { intros method. wp_use (runtime_query_spec method w R T Ho Hc); cbn beta; [|done].
    intros st w' [Hr Hout]. split_and!; [done| |done]. by apply released_exact. }
  repeat constructor; apply H.
Qed.

(** C1: pam_php_dispatch_http returns (or bails out only because an allocation of
    the marshalled arguments failed) after one exchange with
    Runtime::beginHttpDispatch: the engine is called with a fresh header bag, the
    request's body in place and exactly the six strings as arguments; on success
    *output is a new C block with the engine's answer and a terminator, and on
    failure nothing was published and either the body stream was refused or no
    answer could be had (a call that returns a string and has room for a copy
    never fails); the previous request body is back, the method cache and the
    statics are intact, and every reference and stream is released, but for at
    most the class name while the class was not cached. *)
Theorem dispatch_http_exchange method target headers body context request_id w R T :
  owned (w_es w) R T → cache_ok w →
  Forall fits [method; target; headers; body; context; request_id] →
  wp (pam_php_dispatch_http method target headers body context request_id)
     (exchanged (lit "beginHttpDispatch") [method; target; headers; body; context; request_id] body w R T)
     (λ _, alloc_fails (E := E)
             (Z.max (marshal_size [method; target; headers; body; context; request_id])
                    (4096 + zstr_alloc_size (Z.of_nat (length body))))) w.
Proof using laws. apply dispatch_with_body_spec. Qed.

(** C11: pam_php_resume_http does the same exchange with
    Runtime::resumeHttpDispatch and its two arguments, the request's body again in
    place while PHP runs and the previous one put back afterwards, whatever way
    the call ended. *)
Theorem resume_http_exchange request_id body operation_result w R T :
  owned (w_es w) R T → cache_ok w → Forall fits [request_id; operation_result] →
  wp (pam_php_resume_http request_id body operation_result)
     (exchanged (lit "resumeHttpDispatch") [request_id; operation_result] body w R T)
     (λ _, alloc_fails (E := E)
             (Z.max (marshal_size [request_id; operation_result])
                    (4096 + zstr_alloc_size (Z.of_nat (length body))))) w.
Proof using laws. apply dispatch_with_body_spec. Qed.

Lemma dispatch_ws_spec event_kind socket_id payload w R T :
  owned (w_es w) R T → cache_ok w → Forall fits [socket_id; payload] →
  wp (pam_php_dispatch_ws event_kind socket_id payload)
     (λ st w', released w R T w' ∧
        ∃ z1 z2 s0, heap_only (w_es w) s0 ∧
          Forall2 (arg_is (es_heap s0)) [z1; z2] [socket_id; payload] ∧
          let ps := [ZVAL_LONG zval_uninit event_kind; z1; z2] in
          outcome_of (lit "dispatchWs") ps (with_es s0 (with_result undef_result w)) (R ⊎ refs ps) T st w')
     (λ _, alloc_fails (E := E) (marshal_size [socket_id; payload])) w.
Proof using laws.
  intros Ho Hc Hf. unfold pam_php_dispatch_ws, fresh_result. wp_step. wp_step. wp_step.
  wp_use (marshal_spec _ (with_result undef_result w) R T Ho Hf); cbn beta; [|done].
  intros zs w1 (s1&->&Ho1&Hh1&_&Hargs&Hcs).
  inversion Hargs as [|z1 ? zs1 ? Hz1 Hr1]; subst. inversion Hr1 as [|z2 ? zs2 ? Hz2 Hr2]; subst.
  inversion Hr2; subst. cbv zeta.
  set (ps := [ZVAL_LONG zval_uninit event_kind; z1; z2]).
  assert (Hrefs : refs ps = refs [z1; z2]).
  { subst ps. simpl. change (zrefs (ZVAL_LONG zval_uninit event_kind)) with (∅ : gmultiset loc).
    apply own_left. }
  rewrite <- Hrefs in Ho1.
  eapply wp_mono; [apply (call_and_drop_spec (lit "dispatchWs") ps
    (with_es s1 (with_result undef_result w)) R T Ho1 (cache_ok_local _ _ _ Hh1 Hc) eq_refl)| |done].
  { by constructor. }
  intros st w2 [Hrel Hout]. split; [by eapply released_local|].
  exists z1, z2, s1. split_and!; done.
Qed.

(** C12: pam_php_dispatch_ws calls Runtime::dispatchWs with the event kind as an
    integer and the two strings, publishes exactly the answered string or nothing,
    fails only when the call cannot be answered, and releases its arguments and
    the result. *)
Theorem dispatch_ws_exchange event_kind socket_id payload w R T :
  owned (w_es w) R T → cache_ok w → Forall fits [socket_id; payload] →
  wp (pam_php_dispatch_ws event_kind socket_id payload)
     (λ st w', released w R T w' ∧
        ∃ z1 z2 s0, heap_only (w_es w) s0 ∧
          Forall2 (arg_is (es_heap s0)) [z1; z2] [socket_id; payload] ∧
          let ps := [ZVAL_LONG zval_uninit event_kind; z1; z2] in
          outcome_of (lit "dispatchWs") ps (with_es s0 (with_result undef_result w)) (R ⊎ refs ps) T st w')
     (λ _, alloc_fails (E := E) (marshal_size [socket_id; payload])) w.
Proof using laws. apply dispatch_ws_spec. Qed.

Lemma cancel_http_spec request_id w R T :
  owned (w_es w) R T → cache_ok w → fits request_id →
  wp (pam_php_cancel_http request_id)
     (λ st w', released w R T w' ∧ unpublished w w' ∧
        ∃ z s0, heap_only (w_es w) s0 ∧ arg_is (es_heap s0) z request_id ∧
          let w0 := set_bailout (Some the_jmp_buf) (with_es s0 (with_result undef_result w)) in
          (st = SUCCESS ∧ ∃ w1, called (lit "cancelHttpDispatch") [z] w0 (R ⊎ refs [z]) T w1)
          ∨ (st = FAILURE ∧ ∀ r s, ¬ returns_value (lit "cancelHttpDispatch") [z] w0 r s))
     (λ _, alloc_fails (E := E) (marshal_size [request_id])) w.
Proof using laws.
  intros Ho Hc Hf. unfold pam_php_cancel_http, fresh_result. wp_step. wp_step. wp_step.
  wp_use (marshal_spec [request_id] (with_result undef_result w) R T Ho); cbn beta; [by constructor| |done].
  intros zs w1 (s1&->&Ho1&Hh1&_&Hargs&Hcs).
  inversion Hargs as [|z ? zs1 ? Hz Hr1]; subst. inversion Hr1; subst.
  set (w1 := with_es s1 (with_result undef_result w)) in *.
  assert (Hc1 : cache_ok w1) by by apply cache_ok_local.
  wp_step. eapply (wp_mono _ _ _ never); [|intros a w' H; exact H|done]. apply zend_first_try_spec.
  pose proof (pam_runtime_call_spec (lit "cancelHttpDispatch") [z] (set_bailout (Some the_jmp_buf) w1)
    (R ⊎ refs [z]) T Ho1 Hc1 eq_refl (args_borrowed _ [z])) as Hspec. apply wp_result in Hspec.
  pose proof (returns_call (lit "cancelHttpDispatch") [z] (set_bailout (Some the_jmp_buf) w1)) as Hrc.
  eapply wp_mono; [exact Hspec|cbn beta..].
  - intros st w2 [[Hl Hst] Heq]. apply call_left_settled in Hl as (Hb&Hs&Hun). split; [done|].
    wp_use (drop_all_spec st [z] w1 _ R T Hs Hcs); cbn beta; [|done].
    intros ? w3 (->&Hrel&s3&->). split; [by eapply released_local|]. split; [exact Hun|].
    exists z, s1. split_and!; [done..|]. cbv zeta. destruct Hst as [[-> Hcall]| ->]; [left; eauto|right].
    split; [done|]. intros r s Hret. destruct (Hrc r s eq_refl Hret) as (?&He&_). by rewrite He in Heq.
  - intros w2 [Hl Heq]. apply call_left_settled in Hl as (Hb&Hs&Hun). split; [done|]. wp_step.
    wp_use (drop_all_spec FAILURE [z] w1 _ R T Hs Hcs); cbn beta; [|done].
    intros ? w3 (->&Hrel&s3&->). split; [by eapply released_local|]. split; [exact Hun|].
    exists z, s1. split_and!; [done..|]. cbv zeta. right.
    split; [done|]. intros r s Hret. destruct (Hrc r s eq_refl Hret) as (?&He&_). by rewrite He in Heq.
Qed.

(** C14: pam_php_cancel_http publishes nothing, returns SUCCESS exactly when
    Runtime::cancelHttpDispatch was called with the request id and returned a
    defined value, FAILURE when it could not, and releases its argument and the
    result. *)
Theorem cancel_http_exchange request_id w R T :
  owned (w_es w) R T → cache_ok w → fits request_id →
  wp (pam_php_cancel_http request_id)
     (λ st w', released w R T w' ∧ unpublished w w' ∧
        ∃ z s0, heap_only (w_es w) s0 ∧ arg_is (es_heap s0) z request_id ∧
          let w0 := set_bailout (Some the_jmp_buf) (with_es s0 (with_result undef_result w)) in
          (st = SUCCESS ∧ ∃ w1, called (lit "cancelHttpDispatch") [z] w0 (R ⊎ refs [z]) T w1)
          ∨ (st = FAILURE ∧ ∀ r s, ¬ returns_value (lit "cancelHttpDispatch") [z] w0 r s))
     (λ _, alloc_fails (E := E) (marshal_size [request_id])) w.
Proof using laws. apply cancel_http_spec. Qed.
End properties.

(** *** Initialisation and shutdown *)
Section lifecycle.
Context {E : Type} {engine : ZendEngine E} {own : Ownership E} {laws : EngineLaws E}
  {lifecycle : LifecycleLaws E} {host : Host}.
Implicit Types (w : world E).

Definition cache_empty w : Prop :=
  pam_runtime_class (w_pam w) = None ∧ ∀ c, pam_functions (w_pam w) c = None.

(** No engine runs. *)
Definition idle w : Prop :=
  pam_initialized (w_pam w) = false ∧ pam_native_functions_registered (w_pam w) = false ∧ cache_empty w.

(** The engine runs with the INI text at [p]. *)
Definition running (p : loc) w : Prop :=
  pam_initialized (w_pam w) = true ∧ pam_native_functions_registered (w_pam w) = true ∧
  pam_ini_entries (w_pam w) = Some p ∧ sm_ini_entries (w_module w) = Some p ∧
  w_cheap w !! p = Some ini_text.

Lemma reset_cache_eq w :
  ∃ w', pam_reset_runtime_cache w = Ret () w' ∧ cache_empty w' ∧
    pam_initialized (w_pam w') = pam_initialized (w_pam w) ∧
    pam_native_functions_registered (w_pam w') = pam_native_functions_registered (w_pam w) ∧
    pam_ini_entries (w_pam w') = pam_ini_entries (w_pam w) ∧
    w_module w' = w_module w ∧ w_cheap w' = w_cheap w ∧ w_es w' = w_es w ∧ w_mallocs w' = w_mallocs w.
Proof. eexists. split; [reflexivity|]. split; [split; [done|by intros []]|]. by split_and!. Qed.

Lemma reset_cache_spec Q B w :
  (∀ w', cache_empty w' → pam_initialized (w_pam w') = pam_initialized (w_pam w) →
    pam_native_functions_registered (w_pam w') = pam_native_functions_registered (w_pam w) →
    pam_ini_entries (w_pam w') = pam_ini_entries (w_pam w) →
    w_module w' = w_module w → w_cheap w' = w_cheap w → w_es w' = w_es w → w_mallocs w' = w_mallocs w → Q () w') →
  wp pam_reset_runtime_cache Q B w.
Proof.
  intros HQ. destruct (reset_cache_eq w) as (w'&Hw&?&?&?&?&?&?&?&?). unfold wp. rewrite Hw. by apply HQ.
Qed.

Lemma unregister_spec w :
  wp pam_unregister_native_functions
     (λ _ w', ∃ s', w' = set_registered false (with_es s' w)) never w.
Proof using lifecycle.
  unfold pam_unregister_native_functions. wp_step. wp_step. cbn beta.
  destruct (pam_native_functions_registered (w_pam w)) eqn:Hr; simpl.
  - wp_step. apply wp_eng. wp_use (unregister_functions_law); cbn beta; [|done].
    intros _ s' _. wp_step. by exists s'.
  - wp_step. exists (w_es w). destruct w as [[]]. simpl in *. by subst.
Qed.

Lemma shutdown_spec p w :
  running p w →
  wp pam_php_shutdown
     (λ _ w', idle w' ∧ pam_ini_entries (w_pam w') = None ∧ sm_ini_entries (w_module w') = None ∧
              w_cheap w' = delete p (w_cheap w)) never w.
Proof using lifecycle.
  intros (Hi&Hr&Hp&Hm&Hb). unfold pam_php_shutdown. wp_step. wp_step. cbn beta. rewrite Hi. simpl.
  wp_step. wp_use (unregister_spec w); cbn beta; [|done]. intros _ w1 (s1&->).
  wp_step. apply wp_eng. wp_use (embed_shutdown_law); cbn beta; [|done]. intros _ s2 _.
  wp_step. unfold wp at 1. rewrite (drop_ini_entries_spec p ini_text) by done.
  wp_step. apply reset_cache_spec. intros w3 Hce Hi3 Hr3 Hp3 Hm3 Hc3 Hs3 _. wp_step.
  split_and!; simpl; by rewrite ?Hr3, ?Hp3, ?Hm3, ?Hc3.
Qed.

Lemma shutdown_idle w : pam_initialized (w_pam w) = false → pam_php_shutdown w = Ret () w.
Proof. intros Hi. unfold pam_php_shutdown, mbind, M_bind, get. by rewrite Hi. Qed.

(** What can go wrong once the engine runs. *)
Definition registration_refused : Prop :=
  (∃ s s' : es E, zend_register_functions pam_native_functions s = Ret FAILURE s') ∨ handle_refused.

Definition functions_registered : Prop :=
  ∃ (s s' : es E) st, zend_register_functions pam_native_functions s = Ret st s' ∧ st ≠ FAILURE.

(** What [pam_php_init] answers and leaves. *)
Definition initialised (argv : list bytes) w (st : Z) w' : Prop :=
  (st = PAM_SUCCESS ∧ functions_registered ∧ cache_empty w' ∧ owned (w_es w') ∅ ∅ ∧
     sm_executable_location (w_module w')
     = (match argv with _ :: a1 :: _ => Some a1 | [a0] => Some a0 | [] => None end) ∧
     ∃ p, running p w' ∧ w_cheap w !! p = None ∧ w_cheap w' = <[p := ini_text]> (w_cheap w))
  ∨ (st = PAM_INITIALIZATION_FAILURE ∧ idle w' ∧
     (not_started w w' ∧ start_refused w ∨
      (* a failure after the engine had started keeps the text *)
      registration_refused ∧
      ∃ p, w_cheap w !! p = None ∧ w_cheap w' = <[p := ini_text]> (w_cheap w) ∧
           pam_ini_entries (w_pam w') = Some p ∧ sm_ini_entries (w_module w') = Some p)).

(** The second half of initialisation, once the engine is up. *)
Lemma register_all_spec p exe argv w w1 :
  pam_initialized (w_pam w1) = true → pam_native_functions_registered (w_pam w1) = false →
  cache_empty w1 → pam_ini_entries (w_pam w1) = Some p → sm_ini_entries (w_module w1) = Some p →
  w_cheap w !! p = None → w_cheap w1 = <[p := ini_text]> (w_cheap w) →
  owned (w_es w1) ∅ ∅ → (∀ e, exe = Some e → fits e) →
  sm_executable_location (w_module w1)
  = (match argv with _ :: a1 :: _ => Some a1 | [a0] => Some a0 | [] => None end) →
  wp (pam_set_php_binary exe;;
      status ← eng (zend_register_functions pam_native_functions);
      if status =? FAILURE then
        eng php_embed_shutdown;; modify (set_initialized false);; mret PAM_INITIALIZATION_FAILURE
      else
        modify (set_registered true);;
        status ← pam_register_file_handles;
        if status =? FAILURE then
          pam_unregister_native_functions;; eng php_embed_shutdown;; modify (set_initialized false);;
          pam_reset_runtime_cache;; mret PAM_INITIALIZATION_FAILURE
        else mret PAM_SUCCESS)
     (initialised argv w)
     (λ _, alloc_fails (E := E)
        (Z.max (zstr_alloc_size (Z.of_nat (length (lit "PHP_BINARY"))))
               (zstr_alloc_size (Z.of_nat (length (default [] exe)))))) w1.
Proof using laws lifecycle.
  intros Hi Hr [Hcl Hfs] Hp Hm Hn Hch Ho Hf Hx. wp_step.
  wp_use (pam_set_php_binary_spec exe w1 ∅ Ho Hf); cbn beta; [|done].
  intros _ w2 ([s2 ->]&Ho2&_). wp_step. apply wp_eng.
  pose proof (register_functions_law pam_native_functions _ _ _ Ho2) as Hlaw. apply wp_result in Hlaw.
  eapply wp_mono; [exact Hlaw|cbn beta..|by intros ? [? _]]. intros st s3 [Ho3 Hst].
  destruct (Z.eqb_spec st FAILURE) as [->|Hne].
  { wp_step. apply wp_eng. wp_use (embed_shutdown_law); cbn beta; [|done]. intros _ s4 _.
    wp_step. wp_step. wp_step. right. split; [done|]. split; [by split_and!|]. right.
    split; [left; by eexists _, _|by exists p]. }
  wp_step. wp_step. wp_step.
  wp_use (register_file_handles_spec (set_registered true (with_es s3 (with_es s2 w1))) ∅ Ho3); cbn beta; [|done].
  intros st2 w3 ([s4 ->]&Ho4&Hst2). destruct (Z.eqb_spec st2 FAILURE) as [->|_].
  - wp_step. wp_use (unregister_spec); cbn beta; [|done]. intros _ w4 (s5&->). wp_step. apply wp_eng.
    wp_use (embed_shutdown_law); cbn beta; [|done]. intros _ s6 _. wp_step. wp_step. wp_step.
    apply reset_cache_spec. intros w5 Hce Hi5 Hr5 Hp5 Hm5 Hc5 _ _. wp_step. right. simpl in *.
    split; [done|]. split; [by split_and!|]. right.
    split; [right; by destruct Hst2 as [?|[_ ?]]|]. exists p. rewrite Hp5, Hm5, Hc5. done.
  - assert (w_cheap w1 !! p = Some ini_text) by (rewrite Hch; apply lookup_insert_eq).
    wp_step. left. split; [done|]. split; [by eexists _, _, _|]. split; [done|]. split; [done|]. split; [done|].
    exists p. by split_and!.
Qed.

(** The arguments of the process: at least the executable's name when there are
    any, as many as [argc] says. *)
Lemma init_spec argv w :
  idle w → ini_text_fits → Forall fits argv →
  wp (pam_php_init (Z.of_nat (length argv)) argv) (initialised argv w)
     (λ _, alloc_fails (E := E)
        (Z.max (zstr_alloc_size (Z.of_nat (length (lit "PHP_BINARY"))))
               (zstr_alloc_size (Z.of_nat (length (default [] (head argv))))))) w.
Proof using laws lifecycle.
  intros (Hi&Hr&_) Hfit Hf. unfold pam_php_init.
  assert (Hexe : (if 0 <? Z.of_nat (length argv) then a0 ← need (head argv); mret (Some a0) else mret None)
                 = (mret (head argv) : M (world E) _)).
  { by destruct argv. }
  rewrite Hexe. wp_step. wp_step. wp_step. wp_step. wp_step.
  eapply (wp_mono _ (λ _ w1, w_pam w1 = w_pam w ∧ w_cheap w1 = w_cheap w ∧ w_mallocs w1 = w_mallocs w ∧
     sm_executable_location (w_module w1) = head argv) _ never); [by destruct (_ || _)| |done].
  intros _ w1 (Hp1&Hc1&Hm1&Hx1). wp_step. apply reset_cache_spec.
  intros w2 Hce Hi2 Hr2 Hp2 Hm2 Hc2 _ Hml2. wp_step.
  wp_use (pam_embed_init_spec _ (tail argv) w2 Hfit); cbn beta; [|..|done].
  { intros Ha. destruct argv as [|a0 [|a1 argv]]; simpl in *; [lia|lia|done]. }
  intros st w3 [(Hi3&Hr3&Hcl3&Hfs3) [(->&(p&Hn&Hch&Hp3&Hm3)&Ho3&Hx3)|(->&[Hch Hp3]&Hno)]]; simpl.
  - wp_step. wp_step. rewrite Hc2, Hc1 in Hn, Hch. rewrite Hm2, Hx1 in Hx3.
    apply (register_all_spec p (head argv) argv w (set_initialized true w3)); try done.
    + simpl. congruence.
    + destruct Hce as [Hcl Hfs]. split; simpl; [congruence|intros c; rewrite Hfs3; apply Hfs].
    + intros e He. destruct argv; [done|]. simpl in He. simplify_eq. by inversion Hf.
    + simpl. rewrite Hx3. destruct argv as [|a0 [|a1 argv]]; [done..|].
      rewrite (proj2 (Z.ltb_lt _ _)) by (simpl; lia). done.
  - wp_step. right. split; [done|]. destruct Hce as [Hcl Hfs]. split.
    + split; [congruence|]. split; [congruence|]. split; [congruence|intros c; rewrite Hfs3; apply Hfs].
    + left. split; [split; [congruence|done]|]. unfold start_refused in *. by rewrite <- Hm1, <- Hml2.
Qed.

(** C16: pam_php_init followed by pam_php_shutdown leaves the statics as they were
    and, when initialisation succeeded, the C heap exactly as it was; a failed
    initialisation says which step refused. *)
Theorem init_then_shutdown argv w :
  idle w → ini_text_fits → Forall fits argv →
  wp (status ← pam_php_init (Z.of_nat (length argv)) argv; pam_php_shutdown;; mret status)
     (λ st w', idle w' ∧
        (st = PAM_SUCCESS → w_cheap w' = w_cheap w ∧ pam_ini_entries (w_pam w') = None ∧
                            sm_ini_entries (w_module w') = None) ∧
        (st ≠ PAM_SUCCESS → st = PAM_INITIALIZATION_FAILURE ∧
           (start_refused w ∧ w_cheap w' = w_cheap w ∨
            registration_refused ∧ ∃ p, w_cheap w' = <[p := ini_text]> (w_cheap w) ∧ pam_ini_entries (w_pam w') = Some p)))
     (λ _, alloc_fails (E := E)
        (Z.max (zstr_alloc_size (Z.of_nat (length (lit "PHP_BINARY"))))
               (zstr_alloc_size (Z.of_nat (length (default [] (head argv))))))) w.
Proof using laws lifecycle.
  intros Hidle Hfit Hf. wp_step. wp_use (init_spec argv w Hidle Hfit Hf); cbn beta; [|done].
  intros st w1 [(->&_&Hce&_&_&p&Hrun&Hn&Hch)|(->&Hid&Hmem)]; wp_step.
  - eapply (wp_mono _ _ _ never); [by apply (shutdown_spec p)| |done]. cbn beta.
    intros _ w2 (Hid&Hp&Hm&Hc). wp_step. split; [done|]. split; [|done]. intros _.
    rewrite Hc, Hch, delete_insert_id by done. done.
  - unfold wp at 1. rewrite shutdown_idle by apply Hid. wp_step. split; [done|]. split; [done|].
    intros _. split; [done|]. destruct Hmem as [[[Hc _] ?]|(?&p&_&Hc&Hp&_)]; [by left|right]. eauto.
Qed.

(** C15: pam_php_init started without a running engine either succeeds, with the
    INI text (defaults, PAM_INI_ENTRIES, terminator) in the one block it allocated
    and the flags, the module and the method cache set up, or returns 70 with all
    flags cleared: before the engine started the block is freed and a start-up
    step refused; after that a registration refused and the block is kept.
    executable_location is argv[1] when there is one. *)
Theorem init_outcome argv w :
  idle w → ini_text_fits → Forall fits argv →
  wp (pam_php_init (Z.of_nat (length argv)) argv) (initialised argv w)
     (λ _, alloc_fails (E := E)
        (Z.max (zstr_alloc_size (Z.of_nat (length (lit "PHP_BINARY"))))
               (zstr_alloc_size (Z.of_nat (length (default [] (head argv))))))) w.
Proof using laws lifecycle. apply init_spec. Qed.

(** Pam_php_shutdown of a running engine unregisters the native functions,
    frees the INI block, clears ini_entries, the cache and the flags; a second
    call, or a call without an engine, changes nothing. *)
Theorem shutdown_outcome p w :
  (running p w →
   wp pam_php_shutdown
     (λ _ w', idle w' ∧ pam_ini_entries (w_pam w') = None ∧ sm_ini_entries (w_module w') = None ∧
              w_cheap w' = delete p (w_cheap w) ∧ pam_php_shutdown w' = Ret () w') never w) ∧
  (idle w → pam_php_shutdown w = Ret () w).
Proof using lifecycle.
  split; [|intros Hid; by apply shutdown_idle, Hid].
  intros Hr. wp_use (shutdown_spec p w Hr); [|done]. cbn beta. intros _ w' (Hid&?&?&?).
  split_and!; try done; try apply Hid. by apply shutdown_idle, Hid.
Qed.
End lifecycle.

(** *** Scripts *)
Section scripts.
Context {E : Type} {engine : ZendEngine E} {own : Ownership E} {laws : EngineLaws E} {host : Host}.
Implicit Types (w : world E) (R : gmultiset loc) (T : gset loc).

(** After a script: no handler is left behind, the caller holds nothing new, the
    statics and the C heap are untouched and the cached methods still resolve. *)
Definition script_ran w R T w' : Prop :=
  eg_bailout (w_es w') = None ∧ w_pam w' = w_pam w ∧ w_module w' = w_module w ∧
  w_cheap w' = w_cheap w ∧ (cache_ok w → cache_ok w') ∧
  ∃ T', owned (w_es w') R T' ∧ body_step (w_es w) (w_es w') T T'.

Lemma ran_script w R T (s : es E) :
  ran (with_bailout (Some the_jmp_buf) (w_es w)) R T s →
  eg_bailout s = Some the_jmp_buf ∧ script_ran w R T (set_bailout None (with_es s w)).
Proof.
  intros (Hb&Hk&T'&Ho&Hbs). split; [done|]. split_and!; try done; [|by exists T'].
  intros Hc. by apply (cache_ok_keeps w (with_bailout None s)).
Qed.

Lemma eval_spec source source_name w R T :
  owned (w_es w) R T →
  (pam_initialized (w_pam w) = false →
     pam_php_eval source source_name w = Ret PAM_INITIALIZATION_FAILURE w) ∧
  (pam_initialized (w_pam w) = true →
     wp (pam_php_eval source source_name)
        (λ code w', script_ran w R T w' ∧
           (code = PAM_SUCCESS ↔
              ∃ s', zend_eval_stringl source source_name (with_bailout (Some the_jmp_buf) (w_es w))
                    = Ret SUCCESS s' ∧ eg_exit_status s' = PAM_SUCCESS) ∧
           (eg_exit_status (w_es w') ≠ PAM_SUCCESS → code = eg_exit_status (w_es w'))) never w).
Proof using laws.
  intros Ho. split; intros Hi.
  { unfold pam_php_eval, mbind, M_bind, get. by rewrite Hi. }
  unfold pam_php_eval. wp_step. wp_step. cbn beta. rewrite Hi. simpl. apply zend_first_try_spec.
  pose proof (eval_law source source_name (with_bailout (Some the_jmp_buf) (w_es w)) R T Ho) as Hlaw.
  wp_step. unfold wp at 1, eng. unfold wp in Hlaw. simpl in *.
  destruct (zend_eval_stringl source source_name (with_bailout (Some the_jmp_buf) (w_es w)))
    as [r s'|s'|]; [| |done].
  - destruct Hlaw as [Hr Hran]. apply ran_script in Hran as [Hb Hs]. unfold exit_status.
    wp_step. wp_step. wp_step. split; [done|]. split; [done|]. simpl.
    destruct (Z.eqb_spec (eg_exit_status s') PAM_SUCCESS) as [He|He]; simpl.
    + split; [|done]. destruct Hr as [-> | ->]; simpl; split; try done; eauto.
      intros (s2&H2&_). by inversion H2.
    + split; [|done]. split; [done|]. intros (s2&H2&H3). simplify_eq.
  - apply ran_script in Hlaw as [Hb Hs]. split; [done|]. unfold exit_status. wp_step. wp_step. wp_step.
    split; [done|]. simpl. destruct (Z.eqb_spec (eg_exit_status s') PAM_SUCCESS) as [He|He].
    + split; [|done]. split; [done|]. by intros (s2&H2&_).
    + split; [|done]. split; [done|]. by intros (s2&H2&_).
Qed.

(** C17: pam_php_eval refuses to run without an engine; with one it always
    returns, the code is 0 exactly when the evaluation returned SUCCESS with exit
    status 0, a non-zero exit status is the code, and no handler or reference is
    left behind, also after a bailout. *)
Theorem eval_exit_code source source_name w R T :
  owned (w_es w) R T →
  (pam_initialized (w_pam w) = false →
     pam_php_eval source source_name w = Ret PAM_INITIALIZATION_FAILURE w) ∧
  (pam_initialized (w_pam w) = true →
     wp (pam_php_eval source source_name)
        (λ code w', script_ran w R T w' ∧
           (code = PAM_SUCCESS ↔
              ∃ s', zend_eval_stringl source source_name (with_bailout (Some the_jmp_buf) (w_es w))
                    = Ret SUCCESS s' ∧ eg_exit_status s' = PAM_SUCCESS) ∧
           (eg_exit_status (w_es w') ≠ PAM_SUCCESS → code = eg_exit_status (w_es w'))) never w).
Proof using laws. apply eval_spec. Qed.

Lemma execute_file_spec filename w R T :
  owned (w_es w) R T →
  (pam_initialized (w_pam w) = false →
     pam_php_execute_file filename w = Ret PAM_INITIALIZATION_FAILURE w) ∧
  (pam_initialized (w_pam w) = true →
     wp (pam_php_execute_file filename)
        (λ code w', script_ran w R T w' ∧ code = eg_exit_status (w_es w') ∧
           ∃ s0, headers_fresh (SG (w_es w)) (SG s0) ∧
             match php_execute_script filename s0 with
             | Ret _ s' | Bail s' => code = eg_exit_status s'
             | Undef => False
             end) never w).
Proof using laws.
  intros Ho. split; intros Hi.
  { unfold pam_php_execute_file, mbind, M_bind, get. by rewrite Hi. }
  unfold pam_php_execute_file. wp_step. wp_step. cbn beta. rewrite Hi. simpl. apply zend_first_try_spec.
  wp_step. apply wp_eng. wp_step. wp_step.
  set (w1 := with_es _ _). assert (Ho1 : owned (w_es w1) R T) by done.
  wp_use (fresh_headers_spec w1 _ _ Ho1); cbn beta; [|done].
  intros _ w2 (s2&->&Ho2&Hb2&Hk2&_&Hr2&Hh2). wp_step. unfold wp at 1, eng. simpl.
  pose proof (execute_law filename s2 R T Ho2) as Hlaw. unfold wp in Hlaw.
  assert (Hdone : ∀ s', ran s2 R T s' → eg_bailout s' = Some the_jmp_buf ∧
     script_ran w R T (set_bailout None (with_es s' (with_es s2 w1)))).
  { intros s' Hran. apply (ran_script w R T s'). destruct Hran as (Hb&Hk&T'&Hw&Hbs).
    split; [by rewrite Hb, Hb2|]. split; [by eapply keeps_methods_trans|]. exists T'. split; [done|].
    unfold body_step in *. by rewrite Hr2 in Hbs. }
  destruct (php_execute_script filename s2) as [r s'|s'|] eqn:Hex; [| |done];
    destruct (Hdone s' Hlaw) as [Hb Hs].
  - unfold exit_status. wp_step. split; [done|]. split; [done|]. split; [done|].
    exists s2. rewrite Hex. done.
  - split; [done|]. unfold exit_status. wp_step. split; [done|]. split; [done|].
    exists s2. rewrite Hex. done.
Qed.

(** C18: pam_php_execute_file refuses to run without an engine; with one it runs
    the script with a fresh header bag and returns its exit status whether the
    script returned or bailed out. *)
Theorem execute_file_exit_code filename w R T :
  owned (w_es w) R T →
  (pam_initialized (w_pam w) = false →
     pam_php_execute_file filename w = Ret PAM_INITIALIZATION_FAILURE w) ∧
  (pam_initialized (w_pam w) = true →
     wp (pam_php_execute_file filename)
        (λ code w', script_ran w R T w' ∧ code = eg_exit_status (w_es w') ∧
           ∃ s0, headers_fresh (SG (w_es w)) (SG s0) ∧
             match php_execute_script filename s0 with
             | Ret _ s' | Bail s' => code = eg_exit_status s'
             | Undef => False
             end) never w).
Proof using laws. apply execute_file_spec. Qed.
End scripts.

(** *** Results, and the failure paths that leave something behind *)
Section failures.
Context {E : Type} {engine : ZendEngine E} {own : Ownership E} {laws : EngineLaws E}
  {lifecycle : LifecycleLaws E} {host : Host}.
Implicit Types (w : world E).

(** C20: pam_copy_string_result copies exactly the bytes of a string result and a
    terminator into a fresh block, fails only when the result is no string or
    malloc has no room, and pam_php_string_free of the published block restores
    the C heap. *)
Theorem copy_result_then_free w :
  plain_value (es_heap (w_es w)) (w_result w) →
  wp pam_copy_string_result
     (λ st w', same_but_output w w' ∧
        (st = SUCCESS ∧ (∃ bs, result_is bs w ∧ published bs w w' ∧
           ∃ w2, pam_php_string_free (w_output w') w' = Ret () w2 ∧ w_cheap w2 = w_cheap w) ∨
         st = FAILURE ∧ unpublished w w' ∧ ∀ bs, result_is bs w → ¬ room_for bs w)) never w.
Proof.
  intros Hpl. wp_use (pam_copy_string_result_spec w Hpl); cbn beta; [|done].
  intros st w' [Hs [[-> (bs&Hbs&p&Hn&Hp&Hlen&Hch)]|H]]; (split; [done|]); [left|by right].
  split; [done|]. exists bs. split; [done|]. split; [by exists p|]. rewrite Hp.
  unfold pam_php_string_free, free. rewrite Hch, lookup_insert_eq. eexists. split; [done|].
  simpl. by apply delete_insert_id.
Qed.

(** C23: When the engine starts but its native functions cannot be registered,
    pam_php_init returns 70 and the INI block stays allocated with pam_ini_entries
    pointing to it, and the pam_php_shutdown its caller issues then frees nothing. *)
Theorem late_failure_keeps_text argv w :
  idle w → ini_text_fits → Forall fits argv → ¬ start_refused w → ¬ functions_registered →
  wp (status ← pam_php_init (Z.of_nat (length argv)) argv; pam_php_shutdown;; mret status)
     (λ st w', st = PAM_INITIALIZATION_FAILURE ∧ idle w' ∧
        ∃ p, w_cheap w !! p = None ∧ w_cheap w' = <[p := ini_text]> (w_cheap w) ∧
             pam_ini_entries (w_pam w') = Some p)
     (λ _, alloc_fails (E := E)
        (Z.max (zstr_alloc_size (Z.of_nat (length (lit "PHP_BINARY"))))
               (zstr_alloc_size (Z.of_nat (length (default [] (head argv))))))) w.
Proof using laws lifecycle.
  intros Hid Hfit Hf Hst Hreg. wp_step. wp_use (init_spec argv w Hid Hfit Hf); cbn beta; [|done].
  intros st w1 [(_&Hok&_)|(->&Hid1&[[_ Hno]|(_&p&Hn&Hch&Hp&_)])]; [done..|].
  wp_step. unfold wp at 1. rewrite shutdown_idle by apply Hid1. wp_step. split_and!; try done. by exists p.
Qed.
End failures.

Section unguarded.
Context {E : Type} {engine : ZendEngine E} {host : Host}.
Implicit Types (w : world E).

(** C24: The arguments of a dispatch, a resume, a cancellation and a WebSocket
    event are built outside the guarded region: when memory for them is refused,
    the bailout leaves the exported function itself, with the handler of its
    caller. *)
Theorem marshalling_is_unguarded method target headers body context request_id payload kind w :
  (∀ n s, pemalloc_ok n false s = false) →
  Forall (λ m, m w = Bail (with_result undef_result w))
    [pam_php_dispatch_http method target headers body context request_id;
     pam_php_resume_http request_id body payload;
     pam_php_cancel_http request_id;
     pam_php_dispatch_ws kind request_id payload].
Proof.
  intros Hno.
  assert (Hs : ∀ str strs, marshal (str :: strs) (with_result undef_result w) = Bail (with_result undef_result w)).
  { intros str strs. unfold marshal, ZVAL_STRINGL, zend_string_init_m, eng, mbind, M_bind. simpl.
    rewrite Hno. by destruct w. }
  assert (Hd : ∀ m str strs b, dispatch_with_body m (str :: strs) b w = Bail (with_result undef_result w)).
  { intros. unfold dispatch_with_body, fresh_result, modify, mbind at 1 2, M_bind at 1 2. by rewrite Hs. }
  repeat constructor; [apply Hd..| |];
    unfold pam_php_cancel_http, pam_php_dispatch_ws, fresh_result, modify, mbind at 1 2, M_bind at 1 2; by rewrite Hs.
Qed.
End unguarded.
