(* ===== verification/PamProtocol.v ===== *)
(** * The host and the exported functions

    The exported functions of native/pam_php.c as one system: what the host
    (src/src/php.rs) may call and when, the sequences of calls it can make, and an
    abstract machine of three fields (is an engine up, which answers are out,
    which INI texts were lost) that every such sequence refines. *)

From S2P Require Import Prelude ZendTypes ZendArith ZendString Engine PamNative PamExports.

(** A call of a function that pam.h declares, with its arguments. *)
Inductive call : Type :=
| Init (argv : list bytes)
| Eval (source source_name : bytes)
| ExecuteFile (filename : bytes)
| ServerConfig
| RuntimeInfo
| RuntimeMetrics
| RuntimeDiagnostics
| RoutesInfo
| DispatchHttp (method target headers body context request_id : bytes)
| ResumeHttp (request_id body operation_result : bytes)
| CancelHttp (request_id : bytes)
| DispatchWs (event_kind : Z) (socket_id payload : bytes)
| StringFree (value : option loc)
| Shutdown.

(** The functions with an [output] parameter, and the two that run a script. *)
Definition publishes (c : call) : bool :=
  match c with
  | ServerConfig | RuntimeInfo | RuntimeMetrics | RuntimeDiagnostics | RoutesInfo
  | DispatchHttp _ _ _ _ _ _ | ResumeHttp _ _ _ | DispatchWs _ _ _ => true
  | _ => false
  end.
Definition is_script (c : call) : bool :=
  match c with Eval _ _ | ExecuteFile _ => true | _ => false end.

(** What the host sees of a call: the status (0 of a [void] function) and the
    buffer it was given, with the bytes in it. *)
Record event : Type := Event {
  e_call : call;
  e_status : Z;
  e_answer : option (loc * bytes) }.

Section protocol.
Context {E : Type} {engine : ZendEngine E} {host : Host}.
Implicit Type w : world E.

Definition run (c : call) : M (world E) Z :=
  match c with
  | Init argv => pam_php_init (Z.of_nat (length argv)) argv
  | Eval source source_name => pam_php_eval source source_name
  | ExecuteFile filename => pam_php_execute_file filename
  | ServerConfig => pam_php_server_config
  | RuntimeInfo => pam_php_runtime_info
  | RuntimeMetrics => pam_php_runtime_metrics
  | RuntimeDiagnostics => pam_php_runtime_diagnostics
  | RoutesInfo => pam_php_routes_info
  | DispatchHttp method target headers body context request_id =>
      pam_php_dispatch_http method target headers body context request_id
  | ResumeHttp request_id body operation_result => pam_php_resume_http request_id body operation_result
  | CancelHttp request_id => pam_php_cancel_http request_id
  | DispatchWs event_kind socket_id payload => pam_php_dispatch_ws event_kind socket_id payload
  | StringFree value => pam_php_string_free value;; mret 0
  | Shutdown => pam_php_shutdown;; mret 0
  end.

(** [slice::from_raw_parts(output, output_length)]: undefined unless the bytes are
    there and written. *)
Definition from_raw_parts (p : loc) (n : Z) w : option bytes :=
  blk ← w_cheap w !! p;
  if n <=? Z.of_nat (length blk) then mapM id (take (Z.to_nat n) blk) else None.

(** The tests and the copy of [call_for_bytes]: an answer is looked at when the
    status is 0 and the pointer is not null. *)
Definition observe (c : call) (st : Z) w : option (loc * bytes) :=
  if publishes c && (st =? SUCCESS) then
    p ← w_output w; bs ← from_raw_parts p (w_output_length w) w; Some (p, bs)
  else None.

(** [call_for_bytes] of the host: an error with the status, or a copy of the bytes
    with the buffer returned. *)
Definition call_for_bytes (c : call) : M (world E) (Z + bytes) :=
  modify (with_output None 0);;
  status ← run c;
  w ← get;
  if negb (status =? 0) then mret (inl status)
  else
    match w_output w with
    | None => mret (inl status)
    | Some p =>
        result ← need (from_raw_parts p (w_output_length w) w);
        pam_php_string_free (Some p);;
        mret (inr result)
    end.

(** The process with the buffers the host was given and has not returned. *)
Record session : Type := Session {
  s_world : world E;
  s_held : gset loc }.

(** The rules of the host: the engine is started when none runs and spoken to when
    one does ([ACTIVE]), a buffer is freed once, and strings fit the engine's. *)
Definition permitted (c : call) (σ : session) : Prop :=
  let up := pam_initialized (w_pam (s_world σ)) in
  match c with
  | Init argv => up = false ∧ Forall fits argv
  | Eval _ _ | ExecuteFile _ | Shutdown => True
  | ServerConfig | RuntimeInfo | RuntimeMetrics | RuntimeDiagnostics | RoutesInfo => up = true
  | DispatchHttp method target headers body context request_id =>
      up = true ∧ Forall fits [method; target; headers; body; context; request_id]
  | ResumeHttp request_id _ operation_result => up = true ∧ Forall fits [request_id; operation_result]
  | CancelHttp request_id => up = true ∧ fits request_id
  | DispatchWs _ socket_id payload => up = true ∧ Forall fits [socket_id; payload]
  | StringFree value => ∀ p, value = Some p → p ∈ s_held σ
  end.

Definition held_after (c : call) (a : option (loc * bytes)) (held : gset loc) : gset loc :=
  match c, a with
  | StringFree (Some p), _ => held ∖ {[p]}
  | _, Some (p, _) => held ∪ {[p]}
  | _, None => held
  end.

(** One call that returns to the host. A bailout that leaves an exported function
    ends the process: there is no handler to go to. *)
Inductive step : session → event → session → Prop :=
| step_returns c σ st w' :
    permitted c σ → run c (s_world σ) = Ret st w' →
    step σ (Event c st (observe c st w')) (Session w' (held_after c (observe c st w') (s_held σ))).

(** The calls made so far, oldest first. *)
Inductive reached (σ0 : session) : list event → session → Prop :=
| reached_start : reached σ0 [] σ0
| reached_step tr σ e σ' : reached σ0 tr σ → step σ e σ' → reached σ0 (tr ++ [e]) σ'.

(** A process in which nothing was started. *)
Definition pristine (σ : session) : Prop :=
  idle (s_world σ) ∧ w_cheap (s_world σ) = ∅ ∧ s_held σ = ∅.

(** ** The abstract machine *)

(** The block with the INI text when an engine is up, the answers the host holds
    and the texts of initialisations that failed after the engine had started. *)
Record astate : Type := AState {
  a_ini : option loc;
  a_answers : gmap loc bytes;
  a_lost : gset loc }.

Definition astate0 : astate := AState None ∅ ∅.

Definition answer_block (bs : bytes) : block := (Some <$> bs) ++ [Some NUL].

Definition texts (A : astate) : gset loc :=
  match a_ini A with Some p => {[p]} ∪ a_lost A | None => a_lost A end.

(** The C heap of an abstract state. *)
Definition heap_of (A : astate) : gmap loc block :=
  (answer_block <$> a_answers A) ∪ gset_to_gmap ini_text (texts A).

Inductive spec_step : astate → event → astate → Prop :=
| spec_init A argv p :
    a_ini A = None → heap_of A !! p = None →
    spec_step A (Event (Init argv) PAM_SUCCESS None) (AState (Some p) (a_answers A) (a_lost A))
| spec_init_refused A argv :
    a_ini A = None → spec_step A (Event (Init argv) PAM_INITIALIZATION_FAILURE None) A
| spec_init_late A argv p :
    a_ini A = None → heap_of A !! p = None →
    spec_step A (Event (Init argv) PAM_INITIALIZATION_FAILURE None)
      (AState None (a_answers A) ({[p]} ∪ a_lost A))
| spec_script A c st :
    is_script c = true → (a_ini A = None → st = PAM_INITIALIZATION_FAILURE) →
    spec_step A (Event c st None) A
| spec_answer A c p bs :
    publishes c = true → is_Some (a_ini A) → heap_of A !! p = None →
    spec_step A (Event c SUCCESS (Some (p, bs))) (AState (a_ini A) (<[p := bs]> (a_answers A)) (a_lost A))
| spec_failure A c :
    publishes c = true → is_Some (a_ini A) → spec_step A (Event c FAILURE None) A
| spec_cancel A request_id st :
    is_Some (a_ini A) → st = SUCCESS ∨ st = FAILURE →
    spec_step A (Event (CancelHttp request_id) st None) A
| spec_free A p :
    p ∈ dom (a_answers A) →
    spec_step A (Event (StringFree (Some p)) 0 None) (AState (a_ini A) (delete p (a_answers A)) (a_lost A))
| spec_free_null A : spec_step A (Event (StringFree None) 0 None) A
| spec_shutdown A :
    spec_step A (Event Shutdown 0 None) (AState None (a_answers A) (a_lost A)).

Inductive spec_reached : list event → astate → Prop :=
| spec_start : spec_reached [] astate0
| spec_next tr A e A' : spec_reached tr A → spec_step A e A' → spec_reached (tr ++ [e]) A'.

End protocol.

(** ** The C heap of an abstract state *)
Section heap.
Context {host : Host}.
Implicit Type A : astate.

(** The answers and the texts are different blocks. *)
Definition apart A : Prop :=
  dom (a_answers A) ## texts A ∧ (∀ p, a_ini A = Some p → p ∉ a_lost A).

Lemma heap_of_free A p : heap_of A !! p = None ↔ a_answers A !! p = None ∧ p ∉ texts A.
Proof.
  unfold heap_of. rewrite lookup_union_None, lookup_fmap, fmap_None, lookup_gset_to_gmap_None. done.
Qed.

Lemma heap_of_answer A p bs : a_answers A !! p = Some bs → heap_of A !! p = Some (answer_block bs).
Proof. intros H. unfold heap_of. apply lookup_union_Some_l. by rewrite lookup_fmap, H. Qed.

Lemma heap_of_insert_answer A p bs :
  heap_of (AState (a_ini A) (<[p := bs]> (a_answers A)) (a_lost A)) = <[p := answer_block bs]> (heap_of A).
Proof. unfold heap_of. simpl. by rewrite fmap_insert, insert_union_l. Qed.

Lemma heap_of_delete_answer A p :
  apart A → p ∈ dom (a_answers A) →
  heap_of (AState (a_ini A) (delete p (a_answers A)) (a_lost A)) = delete p (heap_of A).
Proof.
  intros [Hd _] Hp. unfold heap_of. simpl. rewrite fmap_delete, delete_union. f_equal.
  symmetry. apply delete_id, lookup_gset_to_gmap_None. change (p ∉ texts A). set_solver.
Qed.

(** A text enters the heap, as the text in use or as a lost one. *)
Lemma heap_of_insert_text A A' p :
  a_answers A' = a_answers A → texts A' = {[p]} ∪ texts A → heap_of A !! p = None →
  heap_of A' = <[p := ini_text]> (heap_of A).
Proof.
  intros Ha Ht [Hp _]%heap_of_free. unfold heap_of. rewrite Ha, Ht, gset_to_gmap_union_singleton.
  rewrite insert_union_r; [done|]. by rewrite lookup_fmap, Hp.
Qed.

Lemma heap_of_delete_text A p :
  apart A → a_ini A = Some p →
  heap_of (AState None (a_answers A) (a_lost A)) = delete p (heap_of A).
Proof.
  intros [Hd Hl] Hp. assert (Ha : a_answers A !! p = None).
  { apply not_elem_of_dom. unfold texts in Hd. rewrite Hp in Hd. set_solver. }
  rewrite (heap_of_insert_text (AState None (a_answers A) (a_lost A)) A p).
  - rewrite delete_insert_id; [done|]. apply heap_of_free. simpl. auto.
  - done.
  - unfold texts. by rewrite Hp.
  - apply heap_of_free. simpl. auto.
Qed.

Lemma apart_ini A p :
  apart A → a_ini A = None → heap_of A !! p = None → apart (AState (Some p) (a_answers A) (a_lost A)).
Proof.
  intros [Hd _] Hi [Hp Ht]%heap_of_free. unfold apart, texts in *. simpl in *. rewrite Hi in *.
  apply not_elem_of_dom in Hp. split; [set_solver|]. by intros q [= <-].
Qed.

Lemma apart_late A p :
  apart A → a_ini A = None → heap_of A !! p = None → apart (AState None (a_answers A) ({[p]} ∪ a_lost A)).
Proof.
  intros [Hd _] Hi [Hp Ht]%heap_of_free. unfold apart, texts in *. simpl in *. rewrite Hi in *.
  apply not_elem_of_dom in Hp. split; [set_solver|done].
Qed.

Lemma apart_insert A p bs :
  apart A → heap_of A !! p = None → apart (AState (a_ini A) (<[p := bs]> (a_answers A)) (a_lost A)).
Proof.
  intros [Hd Hl] [Hp Ht]%heap_of_free. split; [|done]. simpl. rewrite dom_insert_L.
  unfold texts in *. simpl. set_solver.
Qed.

Lemma apart_delete A p : apart A → apart (AState (a_ini A) (delete p (a_answers A)) (a_lost A)).
Proof.
  intros [Hd Hl]. split; [|done]. simpl. rewrite dom_delete_L. unfold texts in *. simpl. set_solver.
Qed.

Lemma apart_down A : apart A → apart (AState None (a_answers A) (a_lost A)).
Proof. intros [Hd Hl]. split; [|done]. unfold texts in *. simpl. destruct (a_ini A); set_solver. Qed.
End heap.

(** ** The calls refine the abstract machine *)
Section representation.
Context {E : Type} {engine : ZendEngine E} {own : Ownership E} {host : Host}.
Implicit Types (w : world E) (σ : session (E := E)) (A : astate) (R : gmultiset loc) (T : gset loc).

(** An engine that can be called: its cache is right, and the C file holds at
    most one stream, a request body some script created. *)
Definition serves w R T : Prop :=
  cache_ok w ∧ owned (w_es w) R T ∧ (size T ≤ 1)%nat ∧ (request_body (SG (w_es w)) = None → T = ∅).

Definition represents A σ : Prop :=
  let w := s_world σ in
  s_held σ = dom (a_answers A) ∧ w_cheap w = heap_of A ∧ apart A ∧
  match a_ini A with
  | None => idle w
  | Some p => running p w ∧ ∃ R T, serves w R T
  end.

Lemma body_step_serves (s s' : es E) T T' :
  body_step s s' T T' → (size T ≤ 1)%nat → (request_body (SG s) = None → T = ∅) →
  (size T' ≤ 1)%nat ∧ (request_body (SG s') = None → T' = ∅).
Proof.
  intros [[Hr ->]|(Hn&b&Hb&_&->)] Hs Hbody; [by rewrite Hr|]. rewrite (Hbody Hn), (left_id_L ∅ (∪)).
  rewrite size_singleton. split; [lia|congruence].
Qed.

Lemma serves_released w w' R T : serves w R T → released w R T w' → ∃ R' T', serves w' R' T'.
Proof.
  intros (_&_&Hs&Hb) (Hc'&_&_&leak&T'&Ho'&Hbs&_). exists (R ⊎ leak), T'.
  destruct (body_step_serves _ _ _ _ Hbs Hs Hb). done.
Qed.

Lemma serves_exchanged m args body st w w' R T :
  serves w R T → exchanged m args body w R T st w' → ∃ R' T', serves w' R' T'.
Proof.
  intros (_&_&Hs&Hb) (Hc'&_&_&Hr&(leak&Ho&_)&_). exists (R ⊎ leak), T. split_and!; try done. by rewrite Hr.
Qed.

Lemma serves_script w w' R T : serves w R T → script_ran w R T w' → ∃ R' T', serves w' R' T'.
Proof.
  intros (Hc&_&Hs&Hb) (_&_&_&_&Hc'&T'&Ho'&Hbs). exists R, T'.
  destruct (body_step_serves _ _ _ _ Hbs Hs Hb). split_and!; auto.
Qed.

Lemma running_same p w w' :
  running p w → static_same w w' → w_cheap w' !! p = Some ini_text → running p w'.
Proof. intros (?&?&?&?&_) (Hm&Hi&Hr&Hp) Hc. split_and!; congruence. Qed.

Lemma read_published bs w w' p :
  w_output w' = Some p → w_output_length w' = Z.of_nat (length bs) →
  w_cheap w' = <[p := answer_block bs]> (w_cheap w) →
  from_raw_parts p (w_output_length w') w' = Some bs.
Proof.
  intros Ho Hl Hc. unfold from_raw_parts. rewrite Hc, lookup_insert_eq, Hl. simpl.
  rewrite (proj2 (Z.leb_le _ _)), Nat2Z.id by (unfold answer_block; rewrite length_app, length_fmap; lia).
  unfold answer_block. rewrite take_app_le, firstn_all2 by (rewrite length_fmap; lia).
  apply mapM_fmap_Some. done.
Qed.

(** A call that publishes an answer or fails. *)
Lemma exchange_simulated c A σ st w' p :
  represents A σ → a_ini A = Some p → publishes c = true → static_same (s_world σ) w' →
  (∃ R T, serves w' R T) →
  (st = SUCCESS ∧ ∃ bs, published bs (s_world σ) w') ∨ (st = FAILURE ∧ unpublished (s_world σ) w') →
  ∃ A', spec_step A (Event c st (observe c st w')) A' ∧
        represents A' (Session w' (held_after c (observe c st w') (s_held σ))).
Proof.
  intros (Hh&Hc&Ha&Hp) Hi Hpub Hst Hserves Hout. rewrite Hi in Hp. destruct Hp as [Hrun _].
  unfold observe. rewrite Hpub. destruct Hout as [[-> (bs&q&Hq&Ho&Hl&Hch)]|[-> (Hch&_)]]; simpl.
  - rewrite Ho. simpl. rewrite (read_published bs (s_world σ) w' q) by done. simpl.
    rewrite Hc in Hq. eexists. split; [by apply spec_answer; [..|eauto|]|].
    assert (Hne : q ≠ p). { intros ->. destruct Hrun as (_&_&_&_&Hrun). congruence. }
    split_and!; simpl.
    + rewrite dom_insert_L, Hh. destruct c; try done; set_solver.
    + by rewrite heap_of_insert_answer, Hch, Hc.
    + by apply apart_insert.
    + rewrite Hi. split; [|done]. eapply running_same; [done..|].
      rewrite Hch, lookup_insert_ne by done. apply Hrun.
  - exists A. split; [apply spec_failure; eauto|]. split_and!; simpl.
    + rewrite <- Hh. by destruct c.
    + by rewrite Hch.
    + done.
    + rewrite Hi. split; [|done]. eapply running_same; [done..|]. rewrite Hch. apply Hrun.
Qed.
End representation.

Section simulation.
Context {E : Type} {engine : ZendEngine E} {own : Ownership E} {laws : EngineLaws E}
  {lifecycle : LifecycleLaws E} {host : Host}.
Implicit Types (w : world E) (σ : session (E := E)) (A : astate).

(** The largest allocation a call makes outside a guarded region. *)
Definition unguarded_bytes (c : call) : Z :=
  match c with
  | Init argv => Z.max (zstr_alloc_size (Z.of_nat (length (lit "PHP_BINARY"))))
                       (zstr_alloc_size (Z.of_nat (length (default [] (head argv)))))
  | DispatchHttp method target headers body context request_id =>
      Z.max (marshal_size [method; target; headers; body; context; request_id])
            (4096 + zstr_alloc_size (Z.of_nat (length body)))
  | ResumeHttp request_id body operation_result =>
      Z.max (marshal_size [request_id; operation_result]) (4096 + zstr_alloc_size (Z.of_nat (length body)))
  | CancelHttp request_id => marshal_size [request_id]
  | DispatchWs _ socket_id payload => marshal_size [socket_id; payload]
  | _ => 0
  end.

(** What a call does in a state that represents [A]. *)
Definition simulated (c : call) A σ (st : Z) w' : Prop :=
  ∃ A', spec_step A (Event c st (observe c st w')) A' ∧
        represents A' (Session w' (held_after c (observe c st w') (s_held σ))).

Lemma represents_up A σ :
  represents A σ → pam_initialized (w_pam (s_world σ)) = true →
  ∃ p, a_ini A = Some p ∧ running p (s_world σ) ∧ ∃ R T, serves (s_world σ) R T.
Proof.
  intros (_&_&_&H) Hup. destruct (a_ini A) as [p|]; [by exists p|]. destruct H as (H&_). congruence.
Qed.

Lemma represents_down A σ :
  represents A σ → pam_initialized (w_pam (s_world σ)) = false → a_ini A = None ∧ idle (s_world σ).
Proof.
  intros (_&_&_&H) Hup. destruct (a_ini A) as [p|]; [|done]. destruct H as ((H&_)&_). congruence.
Qed.

Lemma outcome_published m ps w w0 R T st w' :
  w_cheap w0 = w_cheap w → w_output w0 = w_output w → w_output_length w0 = w_output_length w →
  outcome_of m ps w0 R T st w' →
  (st = SUCCESS ∧ ∃ bs, published bs w w') ∨ (st = FAILURE ∧ unpublished w w').
Proof.
  unfold outcome_of, published, unpublished. intros -> -> -> [[-> (bs&H&_)]|[-> [H _]]]; eauto.
Qed.

Lemma query_simulated c m A σ :
  run c = runtime_query m → publishes c = true → unguarded_bytes c = 0 →
  represents A σ → pam_initialized (w_pam (s_world σ)) = true →
  wp (run c) (simulated c A σ) (λ _, alloc_fails (E := E) (unguarded_bytes c)) (s_world σ).
Proof using laws.
  intros -> Hpub -> Hrep Hup. destruct (represents_up _ _ Hrep Hup) as (p&Hi&_&R&T&Hs).
  eapply wp_mono; [apply (runtime_query_spec m _ R T); apply Hs| |done]. cbn beta.
  intros st w' [Hrel Hout]. eapply exchange_simulated; [done..|apply Hrel|by eapply serves_released|].
  eapply outcome_published; [..|exact Hout]; done.
Qed.

Lemma dispatch_simulated c m args body A σ :
  run c = dispatch_with_body m args body → publishes c = true →
  unguarded_bytes c = Z.max (marshal_size args) (4096 + zstr_alloc_size (Z.of_nat (length body))) →
  represents A σ → pam_initialized (w_pam (s_world σ)) = true → Forall fits args →
  wp (run c) (simulated c A σ) (λ _, alloc_fails (E := E) (unguarded_bytes c)) (s_world σ).
Proof using laws.
  intros -> Hpub -> Hrep Hup Hf. destruct (represents_up _ _ Hrep Hup) as (p&Hi&_&R&T&Hs).
  eapply wp_mono; [apply (dispatch_with_body_spec m args body _ R T); [apply Hs..|done]| |done].
  intros st w' Hex. eapply exchange_simulated; [done..|apply Hex|by eapply serves_exchanged|].
  destruct Hex as (_&_&_&_&_&[(->&?&_)|(ps&s0&R0&T0&_&_&_&Hout)]); [by right|].
  eapply outcome_published; [..|exact Hout]; done.
Qed.

Lemma ws_simulated k i b A σ :
  represents A σ → permitted (DispatchWs k i b) σ →
  wp (run (DispatchWs k i b)) (simulated (DispatchWs k i b) A σ)
     (λ _, alloc_fails (E := E) (unguarded_bytes (DispatchWs k i b))) (s_world σ).
Proof using laws.
  intros Hrep [Hup Hf]. destruct (represents_up _ _ Hrep Hup) as (p&Hi&_&R&T&Hs).
  eapply wp_mono; [apply (dispatch_ws_spec k i b _ R T); [apply Hs..|done]| |done]. cbn beta zeta.
  intros st w' (Hrel&z1&z2&s0&_&_&Hout).
  eapply exchange_simulated; [done..|apply Hrel|by eapply serves_released|]. eapply outcome_published; [..|exact Hout]; done.
Qed.

(** A call that changes nothing the abstract machine sees. *)
Lemma quiet_represents A σ w' p :
  represents A σ → a_ini A = Some p → static_same (s_world σ) w' → w_cheap w' = w_cheap (s_world σ) →
  (∃ R T, serves w' R T) → represents A (Session w' (s_held σ)).
Proof.
  intros (Hh&Hc&Ha&Hrun) Hi Hst Hch Hs. split_and!; simpl; [done|by rewrite Hch|done|].
  rewrite Hi in *. destruct Hrun as [Hrun _]. split; [|done].
  eapply running_same; [done..|]. rewrite Hch. apply Hrun.
Qed.

Lemma cancel_simulated i A σ :
  represents A σ → permitted (CancelHttp i) σ →
  wp (run (CancelHttp i)) (simulated (CancelHttp i) A σ)
     (λ _, alloc_fails (E := E) (unguarded_bytes (CancelHttp i))) (s_world σ).
Proof using laws.
  intros Hrep [Hup Hf]. destruct (represents_up _ _ Hrep Hup) as (p&Hi&_&R&T&Hs).
  eapply wp_mono; [apply (cancel_http_spec i _ R T); [apply Hs..|done]| |done]. cbn beta zeta.
  intros st w' (Hrel&Hun&z&s0&_&_&Hst). exists A. split.
  - apply spec_cancel; [by rewrite Hi|]. destruct Hst as [[-> _]|[-> _]]; auto.
  - eapply quiet_represents; [done..|apply Hrel|apply Hun|by eapply serves_released].
Qed.

Lemma script_idle c w :
  is_script c = true → pam_initialized (w_pam w) = false → run c w = Ret PAM_INITIALIZATION_FAILURE w.
Proof.
  intros Hc Hi. destruct c; try done; cbn [run];
    unfold pam_php_eval, pam_php_execute_file, mbind, M_bind, get; by rewrite Hi.
Qed.

Lemma script_up c w R T :
  is_script c = true → owned (w_es w) R T → pam_initialized (w_pam w) = true →
  wp (run c) (λ _, script_ran w R T) never w.
Proof using laws.
  intros Hc Ho Hi. destruct c as [|source source_name|filename| | | | | | | | | | |]; try done; cbn [run].
  - eapply wp_mono; [by apply (eval_spec source source_name w R T Ho)| |done]. by intros st w' [? _].
  - eapply wp_mono; [by apply (execute_file_spec filename w R T Ho)| |done]. by intros st w' [? _].
Qed.

Lemma script_unseen c st w : is_script c = true → observe c st w = None.
Proof. by destruct c. Qed.
Lemma script_holds c held : is_script c = true → held_after c None held = held.
Proof. by destruct c. Qed.

Lemma script_simulated c A σ :
  is_script c = true → represents A σ →
  wp (run c) (simulated c A σ) (λ _, alloc_fails (E := E) (unguarded_bytes c)) (s_world σ).
Proof using laws.
  intros Hc Hrep. destruct (pam_initialized (w_pam (s_world σ))) eqn:Hup.
  - destruct (represents_up _ _ Hrep Hup) as (p&Hi&_&R&T&Hs).
    eapply wp_mono; [apply (script_up c _ R T Hc); [apply Hs|done]| |done]. cbn beta.
    intros st w' Hran. exists A. rewrite script_unseen, script_holds by done. split.
    + apply spec_script; [done|congruence].
    + pose proof Hran as (_&Hp&Hm&Hch&_). eapply quiet_represents; [done..| |done|by eapply serves_script].
      unfold static_same. by rewrite Hp, Hm.
  - unfold wp. rewrite script_idle by done. destruct (represents_down _ _ Hrep Hup) as [Hi _].
    exists A. rewrite script_unseen, script_holds by done. split; [by apply spec_script|].
    by destruct σ.
Qed.

Lemma init_simulated argv A σ :
  represents A σ → permitted (Init argv) σ → ini_text_fits →
  wp (run (Init argv)) (simulated (Init argv) A σ)
     (λ _, alloc_fails (E := E) (unguarded_bytes (Init argv))) (s_world σ).
Proof using laws lifecycle.
  intros Hrep [Hup Hf] Hfit. destruct (represents_down _ _ Hrep Hup) as [Hi Hidle].
  destruct Hrep as (Hh&Hc&Ha&_).
  eapply wp_mono; [by apply (init_spec argv (s_world σ))| |done]. cbn beta.
  intros st w' [(->&_&Hce&Ho&_&p&Hrun&Hn&Hch)|(->&Hid&[[[Hch _] _]|(_&p&Hn&Hch&_)])].
  - rewrite Hc in Hn, Hch. eexists. split; [by apply spec_init|]. split_and!; simpl; [done| |by apply apart_ini|].
    + rewrite Hch. symmetry. apply heap_of_insert_text; [done| |done]. unfold texts. simpl. by rewrite Hi.
    + split; [done|]. exists ∅, ∅. split_and!; [|done|by rewrite size_empty; lia|done].
      intros c f Hcf. destruct Hce as [_ Hce]. congruence.
  - exists A. split; [by apply spec_init_refused|]. split_and!; simpl; [done|congruence|done|by rewrite Hi].
  - rewrite Hc in Hn, Hch. eexists. split; [by apply (spec_init_late A argv p)|].
    split_and!; simpl; [done| |by apply apart_late|done].
    rewrite Hch. symmetry. apply heap_of_insert_text; [done| |done]. unfold texts. simpl. by rewrite Hi.
Qed.

Lemma free_simulated v A σ :
  represents A σ → permitted (StringFree v) σ →
  wp (run (StringFree v)) (simulated (StringFree v) A σ) never (s_world σ).
Proof.
  intros Hrep Hv. destruct v as [q|]; [|exists A; split; [apply spec_free_null|by destruct σ]].
  destruct Hrep as (Hh&Hc&Ha&Hrun). pose proof (Hv q eq_refl) as Hq. rewrite Hh in Hq.
  pose proof Hq as [bs Hbs]%elem_of_dom.
  unfold wp. cbn [run]. unfold pam_php_string_free, free, mbind, M_bind. rewrite Hc, (heap_of_answer A q bs Hbs).
  eexists. split; [by apply spec_free|]. split_and!; simpl.
  - by rewrite dom_delete_L, Hh.
  - by rewrite heap_of_delete_answer.
  - by apply apart_delete.
  - destruct (a_ini A) as [p|] eqn:Hi; [|done]. destruct Hrun as [Hrun Hs]. split; [|done].
    destruct Hrun as (?&?&?&?&Hp). split_and!; try done. simpl. rewrite lookup_delete_ne; [congruence|].
    intros ->. destruct Ha as [Hd _]. unfold texts in Hd. rewrite Hi in Hd.
    apply (Hd p Hq), elem_of_union_l, elem_of_singleton. done.
Qed.

Lemma shutdown_simulated A σ :
  represents A σ → wp (run Shutdown) (simulated Shutdown A σ) never (s_world σ).
Proof using lifecycle.
  intros Hrep. cbn [run]. wp_step. pose proof Hrep as (Hh&Hc&Ha&Hrun). destruct (a_ini A) as [p|] eqn:Hi.
  - destruct Hrun as [Hrun _]. eapply (wp_mono _ _ _ never); [by apply (shutdown_spec p)| |done]. cbn beta.
    intros _ w' (Hid&_&_&Hch). wp_step. eexists. split; [by apply spec_shutdown|].
    split_and!; simpl; [done| |by apply apart_down|done]. by rewrite (heap_of_delete_text A p), Hch, Hc.
  - unfold wp. rewrite shutdown_idle by apply Hrun. cbn. eexists. split; [by apply spec_shutdown|].
    replace (AState None (a_answers A) (a_lost A)) with A by (destruct A; simpl in *; congruence).
    by destruct σ.
Qed.

(** Every permitted call is defined, and if it returns the abstract machine makes
    the step the host saw. *)
Lemma call_simulated c A σ :
  ini_text_fits → represents A σ → permitted c σ →
  wp (run c) (simulated c A σ) (λ _, alloc_fails (E := E) (unguarded_bytes c)) (s_world σ).
Proof using laws lifecycle.
  intros Hfit Hrep Hp. destruct c; cbn in Hp.
  1: by apply init_simulated.
  1,2: by apply script_simulated.
  1-5: by eapply query_simulated.
  1: eapply dispatch_simulated; [done..|apply Hp|apply Hp].
  1: eapply dispatch_simulated; [done..|apply Hp|apply Hp].
  1: by apply cancel_simulated.
  1: by apply ws_simulated.
  - eapply wp_mono; [by apply free_simulated|done|done].
  - eapply wp_mono; [by apply shutdown_simulated|done|done].
Qed.
End simulation.

(** ** Sessions *)

(** The answers a trace left with the host, and the initialisations that failed. *)
Definition hold (m : gmap loc bytes) (e : event) : gmap loc bytes :=
  match e_call e, e_answer e with
  | StringFree (Some p), _ => delete p m
  | _, Some (p, bs) => <[p := bs]> m
  | _, None => m
  end.
Definition outstanding (tr : list event) : gmap loc bytes := foldl hold ∅ tr.

Definition failed_init (e : event) : bool :=
  match e_call e with Init _ => e_status e =? PAM_INITIALIZATION_FAILURE | _ => false end.
Definition failed_inits (tr : list event) : nat := length (List.filter failed_init tr).

(** The calls that end a session: every buffer back, then the engine down. *)
Definition closing (held : gset loc) : list event :=
  ((λ p, Event (StringFree (Some p)) 0 None) <$> elements held) ++ [Event Shutdown 0 None].

Section traces.
Context {host : Host}.

Lemma spec_step_answers A e A' : spec_step A e A' → a_answers A' = hold (a_answers A) e.
Proof.
  destruct 1 as [| | |A c st Hc _|A c p bs Hc _ _|A c Hc _| | | |]; try done; unfold hold; simpl; by destruct c.
Qed.

Lemma size_union_le (X Y : gset loc) : (size (X ∪ Y) ≤ size X + size Y)%nat.
Proof.
  rewrite size_union_alt. assert (H : Y ∖ X ⊆ Y) by set_solver. apply subseteq_size in H. lia.
Qed.

Lemma spec_step_lost A e A' :
  spec_step A e A' → (size (a_lost A') ≤ size (a_lost A) + (if failed_init e then 1 else 0))%nat.
Proof.
  destruct 1 as [| |A argv p _ _| | | | | | |]; cbn [a_lost]; try lia.
  pose proof (size_union_le {[p]} (a_lost A)) as H. rewrite size_singleton in H. simpl. lia.
Qed.

Lemma spec_reached_trace tr A :
  spec_reached tr A → a_answers A = outstanding tr ∧ (size (a_lost A) ≤ failed_inits tr)%nat.
Proof.
  induction 1 as [|tr A e A' _ [IH1 IH2] Hs]; [done|]. unfold outstanding, failed_inits in *. split.
  - rewrite foldl_app. simpl. by rewrite <- IH1, (spec_step_answers A e A').
  - apply spec_step_lost in Hs. rewrite List.filter_app, length_app. simpl.
    destruct (failed_init e); simpl; lia.
Qed.

Lemma heap_of_size A :
  (size (heap_of A) ≤ size (a_answers A) + size (from_option (λ p, {[p]}) (∅ : gset loc) (a_ini A)) + size (a_lost A))%nat.
Proof.
  rewrite <- size_dom. unfold heap_of. rewrite dom_union_L, dom_fmap_L, dom_gset_to_gmap.
  pose proof (size_union_le (dom (a_answers A)) (texts A)) as H. rewrite size_dom in H.
  unfold texts in *. destruct (a_ini A) as [p|]; cbn [from_option]; [|lia].
  pose proof (size_union_le {[p]} (a_lost A)) as H2. lia.
Qed.
End traces.

Section sessions.
Context {E : Type} {engine : ZendEngine E} {own : Ownership E} {laws : EngineLaws E}
  {lifecycle : LifecycleLaws E} {host : Host}.
Context (σ0 : session (E := E)) (start : pristine σ0) (fitting : ini_text_fits).
Implicit Types (σ : session (E := E)) (A : astate) (tr : list event).

Lemma pristine_represents : represents astate0 σ0.
Proof using start.
  destruct start as (Hid&Hc&Hh). split_and!; [by rewrite Hh|rewrite Hc| |done].
  - symmetry. apply map_empty. intros p. by apply heap_of_free.
  - split; [|done]. intros p Hp. by rewrite elem_of_dom in Hp; destruct Hp.
Qed.

Lemma step_represents A σ e σ' :
  represents A σ → step σ e σ' → ∃ A', spec_step A e A' ∧ represents A' σ'.
Proof using laws lifecycle fitting.
  intros Hrep Hst. destruct Hst as [c σ st w' Hp Hrun].
  pose proof (call_simulated c A σ fitting Hrep Hp) as Hsim. unfold wp in Hsim. by rewrite Hrun in Hsim.
Qed.

Lemma reached_represents tr σ : reached σ0 tr σ → ∃ A, spec_reached tr A ∧ represents A σ.
Proof using All.
  induction 1 as [|tr σ e σ' _ (A&Htr&Hrep) Hst].
  - exists astate0. split; [constructor|apply pristine_represents].
  - destruct (step_represents A σ e σ' Hrep Hst) as (A'&Hs&Hrep'). exists A'. split; [by econstructor|done].
Qed.

(** C2: Every sequence of permitted calls of the exported functions, in any order
    and from a process in which nothing was started, is a run of the abstract
    machine with the same statuses and answers, and the concrete state represents
    the abstract one: an engine up with the INI text, a cache that resolves and at
    most one stream held, or nothing up; the C heap is exactly the text, the
    answers that are out, unchanged, and the texts of late failures. *)
Theorem sessions_refine tr σ : reached σ0 tr σ → ∃ A, spec_reached tr A ∧ represents A σ.
Proof using All. apply reached_represents. Qed.

(** C5: In every reachable state a permitted call is defined: it returns to the
    host, or the process ends because memory for an argument outside the guarded
    region was refused; never a write out of bounds, a double free or a release of
    something not held. *)
Theorem permitted_calls_defined tr σ c :
  reached σ0 tr σ → permitted c σ →
  (∃ st w', run c (s_world σ) = Ret st w') ∨
  (∃ w', run c (s_world σ) = Bail w' ∧ alloc_fails (E := E) (unguarded_bytes c)).
Proof using All.
  intros Hr Hp. destruct (reached_represents tr σ Hr) as (A&_&Hrep).
  pose proof (call_simulated c A σ fitting Hrep Hp) as Hsim. unfold wp in Hsim.
  destruct (run c (s_world σ)) as [st w'|w'|]; [left|right|done]; eauto.
Qed.

(** C6: Whatever calls come in between, a buffer the host was given keeps its
    bytes and terminator until the host frees it, the host holds exactly those
    buffers, and nothing else is allocated but the INI text of a running engine
    and one text for each failed initialisation at most. *)
Theorem c_heap_accounted tr σ :
  reached σ0 tr σ →
  let w := s_world σ in
  s_held σ = dom (outstanding tr) ∧
  (∀ p bs, outstanding tr !! p = Some bs → w_cheap w !! p = Some (answer_block bs)) ∧
  (∀ p b, w_cheap w !! p = Some b → outstanding tr !! p = None → b = ini_text) ∧
  (size (w_cheap w) ≤ size (outstanding tr) + (if pam_initialized (w_pam w) then 1 else 0)
                      + failed_inits tr)%nat.
Proof using All.
  intros Hr. destruct (reached_represents tr σ Hr) as (A&Htr&Hh&Hc&Ha&Hup). cbv zeta.
  destruct (spec_reached_trace tr A Htr) as [<- Hlost]. rewrite Hc. split_and!.
  - done.
  - intros p bs. apply heap_of_answer.
  - intros p b Hb Hn. unfold heap_of in Hb. rewrite lookup_union_r in Hb by by rewrite lookup_fmap, Hn.
    by apply lookup_gset_to_gmap_Some in Hb as [_ <-].
  - pose proof (heap_of_size A) as Hsz. destruct (a_ini A) as [p|]; cbn [from_option] in Hsz.
    + destruct Hup as [(Hi&_) _]. rewrite Hi. rewrite size_singleton in Hsz. lia.
    + destruct Hup as (Hi&_). rewrite Hi. rewrite size_empty in Hsz. lia.
Qed.

(** A call that cannot bail out is a step. *)
Lemma quiet_step c A σ :
  represents A σ → permitted c σ → publishes c = false → wp (run c) (simulated c A σ) never (s_world σ) →
  ∃ st σ' A', step σ (Event c st None) σ' ∧ spec_step A (Event c st None) A' ∧ represents A' σ'.
Proof using Type.
  intros Hrep Hp Hpub Hsim. unfold wp in Hsim. destruct (run c (s_world σ)) as [st w'|w'|] eqn:Hrun; [|done..].
  destruct Hsim as (A'&Hs&Hrep'). pose proof (step_returns c σ st w' Hp Hrun) as Hst.
  unfold observe in *. rewrite Hpub in *. simpl in *. eexists _, _, _. split_and!; [exact Hst|exact Hs|exact Hrep'].
Qed.

Lemma frees_reach l : ∀ tr σ A,
  reached σ0 tr σ → represents A σ → NoDup l → (∀ p, p ∈ l → p ∈ s_held σ) →
  ∃ σ' A', reached σ0 (tr ++ ((λ p, Event (StringFree (Some p)) 0 None) <$> l)) σ' ∧ represents A' σ' ∧
    s_held σ' = s_held σ ∖ list_to_set l ∧ a_lost A' = a_lost A.
Proof using All.
  induction l as [|p l IH]; intros tr σ A Hr Hrep Hnd Hl.
  - exists σ, A. simpl. rewrite app_nil_r. split_and!; [done|done|set_solver|done].
  - inversion Hnd as [|? ? Hpl Hnd']; subst.
    assert (Hp : permitted (StringFree (Some p)) σ) by (intros q [= <-]; apply Hl; set_solver).
    destruct (quiet_step _ A σ Hrep Hp eq_refl (free_simulated _ A σ Hrep Hp)) as (st&σ1&A1&Hst&Hs&Hrep1).
    assert (st = 0 ∧ a_lost A1 = a_lost A) as [-> Hlost] by (inversion Hs; simplify_eq; done).
    assert (Hh : s_held σ1 = s_held σ ∖ {[p]}) by (by inversion Hst; subst).
    destruct (IH (tr ++ [Event (StringFree (Some p)) 0 None]) σ1 A1) as (σ2&A2&Hr2&Hrep2&Hh2&Hl2).
    + by econstructor.
    + done.
    + done.
    + intros q Hq. rewrite Hh. assert (q ≠ p) by by intros ->. assert (q ∈ s_held σ) by (apply Hl; set_solver).
      set_solver.
    + exists σ2, A2. rewrite <- app_assoc in Hr2. split_and!; [exact Hr2|done| |congruence].
      rewrite Hh2, Hh. simpl. set_solver.
Qed.

(** C9: Every session can be closed: from any reachable state the host can return
    the buffers it holds and shut the engine down, these calls return, and after
    them no engine runs, no buffer is out and the C heap is empty, but for the INI
    texts of initialisations that failed. *)
Theorem sessions_can_close tr σ :
  reached σ0 tr σ →
  ∃ σ', reached σ0 (tr ++ closing (s_held σ)) σ' ∧ idle (s_world σ') ∧ s_held σ' = ∅ ∧
    (size (w_cheap (s_world σ')) ≤ failed_inits tr)%nat ∧
    (failed_inits tr = 0%nat → w_cheap (s_world σ') = ∅).
Proof using All.
  intros Hr. destruct (reached_represents tr σ Hr) as (A&Htr&Hrep).
  destruct (frees_reach (elements (s_held σ)) tr σ A Hr Hrep) as (σ1&A1&Hr1&Hrep1&Hh1&Hl1).
  { apply NoDup_elements. }
  { intros p. apply elem_of_elements. }
  destruct (quiet_step Shutdown A1 σ1 Hrep1 I eq_refl (shutdown_simulated A1 σ1 Hrep1)) as (st&σ2&A2&Hst&Hs&Hrep2).
  assert (st = 0 ∧ a_lost A2 = a_lost A1 ∧ a_ini A2 = None ∧ a_answers A2 = a_answers A1) as (->&Hl2&Hi2&Ha2)
    by (inversion Hs; simplify_eq; done).
  destruct Hrep2 as (Hh2&Hc2&_&Hid). destruct Hrep1 as (Hd1&_). rewrite Hi2 in Hid.
  rewrite list_to_set_elements_L, difference_diag_L in Hh1. rewrite Hh1 in Hd1.
  symmetry in Hd1. apply dom_empty_inv_L in Hd1.
  destruct (spec_reached_trace tr A Htr) as [_ Hlost]. pose proof (heap_of_size A2) as Hsz.
  rewrite Ha2, Hd1, Hl2, Hl1, Hi2 in Hsz. cbn [from_option] in Hsz. rewrite map_size_empty, size_empty in Hsz.
  exists σ2. split_and!.
  - unfold closing. rewrite app_assoc. by econstructor.
  - done.
  - by rewrite Hh2, Ha2, Hd1, dom_empty_L.
  - rewrite Hc2. lia.
  - intros H0. rewrite Hc2. apply map_size_empty_inv. lia.
Qed.
(** The two steps a function with an [output] parameter can make. *)
Lemma publishing_step A c st a A' :
  publishes c = true → spec_step A (Event c st a) A' →
  (st = SUCCESS ∧ ∃ p bs, a = Some (p, bs) ∧ heap_of A !! p = None ∧
     A' = AState (a_ini A) (<[p := bs]> (a_answers A)) (a_lost A)) ∨
  (st = FAILURE ∧ a = None ∧ A' = A).
Proof using Type.
  intros Hpub Hs. inversion Hs; subst; try done; [by destruct c|left; eauto 8|by right].
Qed.

(** The host's call_for_bytes, in any reachable state, gives exactly the
    bytes the call published, or an error with FAILURE, reads nothing outside the
    buffer, and leaves the C heap as it was. *)
Theorem call_for_bytes_copies tr σ c :
  reached σ0 tr σ → permitted c σ → publishes c = true →
  wp (call_for_bytes c)
     (λ r w', w_cheap w' = w_cheap (s_world σ) ∧
        match r with
        | inl st => st = FAILURE
        | inr bs => ∃ p w1, run c (with_output None 0 (s_world σ)) = Ret SUCCESS w1 ∧ w_output w1 = Some p ∧
            w_cheap (s_world σ) !! p = None ∧ w_cheap w1 = <[p := answer_block bs]> (w_cheap (s_world σ))
        end)
     (λ _, alloc_fails (E := E) (unguarded_bytes c)) (s_world σ).
Proof using All.
  intros Hr Hp Hpub. destruct (reached_represents tr σ Hr) as (A&_&Hrep).
  set (σ1 := Session (with_output None 0 (s_world σ)) (s_held σ)).
  assert (Hrep1 : represents A σ1) by exact Hrep.
  assert (Hp1 : permitted c σ1) by by destruct c.
  pose proof (call_simulated c A σ1 fitting Hrep1 Hp1) as Hsim. apply wp_result in Hsim.
  unfold call_for_bytes. wp_step. wp_step. wp_step. eapply wp_mono; [exact Hsim| |by intros w' [? _]]. cbn beta.
  intros st w' [(A'&Hs&Hh&Hc&_) Hrun]. wp_step. wp_step. cbn beta.
  destruct Hrep as (_&Hc0&_). rewrite Hc0.
  destruct (publishing_step _ _ _ _ _ Hpub Hs) as [(->&q&bs&Heq&Hq&->)|(->&_&->)].
  - unfold observe in Heq. rewrite Hpub in Heq. simpl in Heq |- *.
    destruct (w_output w') as [p|] eqn:Hout; [|done]. simpl in Heq.
    destruct (from_raw_parts p (w_output_length w') w') as [bs'|] eqn:Hread; [|done]. simpl in Heq. simplify_eq.
    cbn [s_world] in Hc. rewrite heap_of_insert_answer in Hc.
    wp_step. eapply wp_need; [done|]. wp_step. unfold wp, pam_php_string_free, free.
    rewrite Hc, lookup_insert_eq. cbn. split; [by rewrite delete_insert_id|]. eauto 8.
  - cbn. split; [|done]. exact Hc.
Qed.
End sessions.
