(* ===== verification/PamHost.v ===== *)
(** * The threads of the host (src/src/php.rs)

    The Rust host reaches the exported functions from any number of threads. It
    guards them with two shared atomics: [ACTIVE], set while a runtime exists, and
    [OWNER], the thread that initialised first. This file models every function of
    the host that touches them or calls into C, as programs whose shared accesses
    interleave, and shows that the guards are enough: whatever the schedule, one
    thread speaks to the engine, and only in the ways PamProtocol permits. *)

From S2P Require Import Prelude ZendTypes ZendArith ZendString Engine PamNative PamExports PamProtocol.

(** [std::thread::ThreadId]. *)
Abbreviation tid := positive.

(** ** Programs of a thread *)

(** What a thread does next: one atomic access to [ACTIVE] or [OWNER], one call of
    an exported function, or one read of the buffer it published. The variables
    [output] and [output_length] of a call are passed on with its status. A call that
    never returns, because a script loops, is a thread that takes no further step: the
    theorems are about what every interleaving keeps, not about a request ending. *)
Inductive prog (A : Type) : Type :=
| Done (a : A)
| ActiveLoad (k : bool → prog A)
| ActiveSwap (v : bool) (k : bool → prog A)
| ActiveStore (v : bool) (k : prog A)
| OwnerGetOrInit (k : tid → prog A)
| OwnerGet (k : option tid → prog A)
| Native (c : call) (k : Z → option loc → Z → prog A)
| RawParts (p : loc) (n : Z) (k : bytes → prog A).
Arguments Done {A} a.
Arguments ActiveLoad {A} k.
Arguments ActiveSwap {A} v k.
Arguments ActiveStore {A} v k.
Arguments OwnerGetOrInit {A} k.
Arguments OwnerGet {A} k.
Arguments Native {A} c k.
Arguments RawParts {A} p n k.

#[global] Instance prog_ret : MRet prog := @Done.
#[global] Instance prog_bind : MBind prog := λ A B f,
  fix go (m : prog A) : prog B :=
  match m with
  | Done a => f a
  | ActiveLoad k => ActiveLoad (λ b, go (k b))
  | ActiveSwap v k => ActiveSwap v (λ b, go (k b))
  | ActiveStore v k => ActiveStore v (go k)
  | OwnerGetOrInit k => OwnerGetOrInit (λ o, go (k o))
  | OwnerGet k => OwnerGet (λ o, go (k o))
  | Native c k => Native c (λ st p n, go (k st p n))
  | RawParts p n k => RawParts p n (λ bs, go (k bs))
  end.

(** [Result<A, String>], with a constructor for each message. *)
Inductive error : Type :=
| AbiMismatch (n : Z)
| OtherThread
| NoExecutable
| NulByte
| TooManyArguments
| NoComposer
| AlreadyActive
| InitFailed (status : Z)
| AutoloadFailed (status : Z)
| BadBootstrap
| BootstrapFailed (status : Z)
| NotActive
| NonOwner
| DispatchFailed (status : Z)
| CancelFailed (status : Z)
| InvalidUtf8
| InvalidJson.

(** [m?]: the error of [m] is the error of the whole. *)
Definition try {A B} (m : prog (error + A)) (k : A → prog (error + B)) : prog (error + B) :=
  r ← m; match r with inl e => mret (inl e) | inr a => k a end.
Notation "x ←? m ; k" := (try m (λ x, k)) (at level 100, m at next level, right associativity).
Notation "m ;;? k" := (try m (λ _, k)) (at level 100, right associativity).

Definition native_status (c : call) : prog Z := Native c (λ st _ _, Done st).

(** ** Rust's standard library, as far as the host uses it *)

(** [String::from_utf8] accepts: the well-formed sequences of one to four bytes. *)
Definition cont (b : byte) : bool := (128 <=? uchar b) && (uchar b <=? 191).
Definition second (x : Z) (b : byte) : bool :=
  cont b && (negb (x =? 224) || (160 <=? uchar b)) && (negb (x =? 237) || (uchar b <=? 159))
         && (negb (x =? 240) || (144 <=? uchar b)) && (negb (x =? 244) || (uchar b <=? 143)).
Fixpoint utf8 (l : bytes) : bool :=
  match l with
  | [] => true
  | b :: l =>
      let x := uchar b in
      if x <? 128 then utf8 l
      else
        match l with
        | b1 :: l1 =>
            if (194 <=? x) && (x <=? 223) then cont b1 && utf8 l1
            else
              match l1 with
              | b2 :: l2 =>
                  if (224 <=? x) && (x <=? 239) then second x b1 && cont b2 && utf8 l2
                  else
                    match l2 with
                    | b3 :: l3 => (240 <=? x) && (x <=? 244) && second x b1 && cont b2 && cont b3 && utf8 l3
                    | [] => false
                    end
              | [] => false
              end
        | [] => false
        end
  end.

(** [str::strip_prefix]. *)
Fixpoint strip_prefix (p l : bytes) : option bytes :=
  match p, l with
  | [], _ => Some l
  | a :: p, b :: l => if decide (a = b) then strip_prefix p l else None
  | _ :: _, [] => None
  end.

(** The longest slice Rust can hold: [isize::MAX] bytes. *)
Definition slice (bs : bytes) : Prop := Z.of_nat (length bs) <= 2 ^ 63 - 1.

(** What the host asks the operating system and the files of the project: the path
    of the executable, the result of [composer::discover] (an error, no project, or
    a project with its autoload file), whether that file is there, the text of a
    bootstrap compiled in, and whether [serde_json] takes an answer. *)
Class HostEnv : Type := {
  current_exe : option bytes;
  discover : bytes → option (option bytes);
  is_file : bytes → bool;
  include_str : string → bytes;
  from_json : call → bytes → bool }.

(** ** The functions of php.rs *)
Section functions.
Context {env : HostEnv}.

(** The C string at the start of a buffer, and the buffer [to_c_buffer] makes. *)
Fixpoint c_string (l : bytes) : bytes :=
  match l with [] => [] | b :: l => if decide (b = NUL) then [] else b :: c_string l end.
Definition to_c_buffer (value : bytes) : error + bytes :=
  if bool_decide (NUL ∈ value) then inl NulByte else inr (value ++ [NUL]).

Definition EX_SOFTWARE : Z := 70.
Definition NATIVE_ABI_VERSION : Z := 1.
Definition normalize_exit_status (status : Z) : Z :=
  if (0 <=? status) && (status <=? 255) then status else EX_SOFTWARE.

Definition ensure_owner (me : tid) : prog (error + ()) :=
  ActiveLoad (λ active,
    if negb active then mret (inl NotActive)
    else OwnerGet (λ owner,
      if bool_decide (owner = Some me) then mret (inr ()) else mret (inl NonOwner))).

Definition call_for_string (c : call) : prog (error + bytes) :=
  Native c (λ status output output_length,
    match status =? 0, output with
    | true, Some p =>
        RawParts p output_length (λ bytes,
          let result := if utf8 bytes then inr bytes else inl InvalidUtf8 in
          native_status (StringFree (Some p));; mret result)
    | _, _ => mret (inl (DispatchFailed status))
    end).

Definition call_for_vec (c : call) : prog (error + bytes) :=
  Native c (λ status output output_length,
    match status =? 0, output with
    | true, Some p =>
        RawParts p output_length (λ result, native_status (StringFree (Some p));; mret (inr result))
    | _, _ => mret (inl (DispatchFailed status))
    end).

Definition execute_file_raw (script : bytes) : prog (error + Z) :=
  match to_c_buffer script with
  | inl e => mret (inl e)
  | inr filename =>
      status ← native_status (ExecuteFile (c_string filename));
      mret (inr (normalize_exit_status status))
  end.

Definition evaluate_runtime_source (source source_name : bytes) : prog (error + ()) :=
  match strip_prefix (lit "<?php") source with
  | None => mret (inl BadBootstrap)
  | Some source =>
      status ← native_status (Eval source source_name);
      if status =? 0 then mret (inr ()) else mret (inl (BootstrapFailed status))
  end.

(** The bootstraps in the order they are chained with [and_then]. *)
Definition bootstraps : list (string * string) :=
  [("async.php", "Pam async bootstrap"); ("io.php", "Pam I/O bootstrap");
   ("streams.php", "Pam streams bootstrap"); ("http_client.php", "Pam HTTP client bootstrap");
   ("redis.php", "Pam Redis bootstrap"); ("tasks.php", "Pam tasks bootstrap");
   ("database.php", "Pam database bootstrap"); ("ws.php", "Pam WebSocket bootstrap");
   ("observability.php", "Pam observability bootstrap"); ("scope.php", "Pam request scope bootstrap");
   ("native.php", "Pam Native API bootstrap"); ("diagnostics.php", "Pam diagnostics bootstrap");
   ("bootstrap.php", "Pam runtime bootstrap"); ("laravel.php", "Pam Laravel bootstrap")]%string.

Fixpoint evaluate_bootstraps (l : list (string * string)) : prog (error + ()) :=
  match l with
  | [] => mret (inr ())
  | (file, name) :: l => evaluate_runtime_source (include_str file) (lit name);;? evaluate_bootstraps l
  end.

(** The way out of [initialize_with_composer] once C was called. *)
Definition abandon {A} (e : error) : prog (error + A) :=
  native_status Shutdown;; ActiveStore false (mret (inl e)).

Fixpoint c_buffers (l : list bytes) : error + list bytes :=
  match l with
  | [] => inr []
  | a :: l =>
      match to_c_buffer a with
      | inl e => inl e
      | inr b => match c_buffers l with inl e => inl e | inr bs => inr (b :: bs) end
      end
  end.

(** The argument vector and the Composer project, or the first thing that fails. *)
Definition prepare (script : bytes) (arguments : list bytes) : error + (list bytes * option bytes) :=
  match current_exe with
  | None => inl NoExecutable
  | Some exe =>
      match c_buffers (exe :: script :: arguments) with
      | inl e => inl e
      | inr native_args =>
          if 2 ^ 31 - 1 <? Z.of_nat (length native_args) then inl TooManyArguments
          else match discover script with None => inl NoComposer | Some composer => inr (native_args, composer) end
      end
  end.

(** The Composer autoloader is run when it is asked for and there. *)
Definition preload (composer : option bytes) (preload_composer : bool) : prog (error + ()) :=
  match composer with
  | Some autoload =>
      if preload_composer && is_file autoload then
        status ← execute_file_raw autoload;
        match status with
        | inl e => mret (inl e)
        | inr st => if st =? 0 then mret (inr ()) else mret (inl (AutoloadFailed st))
        end
      else mret (inr ())
  | None => mret (inr ())
  end.

Definition initialize_with_composer (me : tid) (script : bytes) (arguments : list bytes)
    (preload_composer : bool) : prog (error + ()) :=
  if negb (pam_native_abi_version =? NATIVE_ABI_VERSION) then mret (inl (AbiMismatch pam_native_abi_version))
  else OwnerGetOrInit (λ owner,
    if negb (bool_decide (owner = me)) then mret (inl OtherThread)
    else
      match prepare script arguments with
      | inl e => mret (inl e)
      | inr (native_args, composer) =>
          ActiveSwap true (λ was_active,
            if was_active then mret (inl AlreadyActive)
            else
              status ← native_status (Init (c_string <$> native_args));
              if negb (status =? 0) then abandon (InitFailed status)
              else
                r ← preload composer preload_composer;
                match r with
                | inl e => abandon e
                | inr _ =>
                    r ← evaluate_bootstraps bootstraps;
                    match r with inl e => abandon e | inr _ => mret (inr ()) end
                end)
      end).

Definition execute_file (me : tid) (script : bytes) : prog (error + Z) :=
  ensure_owner me;;? execute_file_raw script.

Definition execute_file_quiet (me : tid) (script : bytes) : prog (error + Z) :=
  ensure_owner me;;?
  (evaluate_runtime_source (lit "<?php ob_start();") (lit "Pam output capture start");;?
   (result ← execute_file_raw script;
    cleanup ← evaluate_runtime_source (lit "<?php if (ob_get_level() > 0) { ob_end_clean(); }")
                (lit "Pam output capture end");
    match result, cleanup with
    | inr status, inr _ => mret (inr status)
    | inl e, _ => mret (inl e)
    | _, inl e => mret (inl e)
    end)).

Definition execute_code (me : tid) (source : bytes) : prog (error + Z) :=
  ensure_owner me;;?
  (status ← native_status (Eval (default source (strip_prefix (lit "<?php") source)) (lit "Command line code"));
   mret (inr (normalize_exit_status status))).

(** [server_config], [runtime_info], [routes_info], [runtime_diagnostics] and
    [runtime_metrics]: an answer in JSON. *)
Definition query (me : tid) (c : call) : prog (error + bytes) :=
  ensure_owner me;;?
  (json ←? call_for_string c; if from_json c json then mret (inr json) else mret (inl InvalidJson)).

(** [Drop for PhpRuntime]. *)
Definition drop_runtime (me : tid) : prog () :=
  r ← ensure_owner me;
  match r with
  | inr _ => native_status Shutdown;; ActiveStore false (mret ())
  | inl _ => ActiveStore false (mret ())
  end.

Definition dispatch_http (me : tid) (method target headers body context request_id : bytes) : prog (error + bytes) :=
  ensure_owner me;;? call_for_vec (DispatchHttp method target headers body context request_id).
Definition resume_http (me : tid) (request_id body operation_result : bytes) : prog (error + bytes) :=
  ensure_owner me;;? call_for_vec (ResumeHttp request_id body operation_result).
Definition cancel_http (me : tid) (request_id : bytes) : prog (error + ()) :=
  ensure_owner me;;?
  (status ← native_status (CancelHttp request_id);
   if status =? 0 then mret (inr ()) else mret (inl (CancelFailed status))).
Definition dispatch_ws (me : tid) (event_kind : Z) (socket_id payload : bytes) : prog (error + bytes) :=
  ensure_owner me;;? call_for_string (DispatchWs event_kind socket_id payload).
End functions.

(** ** Requests of a thread *)

Inductive request : Type :=
| Initialize (script : bytes) (arguments : list bytes) (preload_composer : bool)
| RunFile (script : bytes)
| RunFileQuiet (script : bytes)
| RunCode (source : bytes)
| AskConfig
| AskInfo
| AskRoutes
| AskDiagnostics
| DropRuntime
| HttpDispatch (method target headers body context request_id : bytes)
| HttpResume (request_id body operation_result : bytes)
| HttpCancel (request_id : bytes)
| AskMetrics
| WsDispatch (event_kind : Z) (socket_id payload : bytes).

(** What a request gives its caller: a [PhpRuntime], or something else. *)
Inductive reply : Type := Runtime | Status (n : Z) | Data (bs : bytes) | Unit.

Definition reply_with {A} (f : A → reply) (m : prog (error + A)) : prog (error + reply) :=
  r ← m; mret (match r with inl e => inl e | inr a => inr (f a) end).

Definition serve `{HostEnv} (me : tid) (r : request) : prog (error + reply) :=
  match r with
  | Initialize script arguments preload_composer =>
      reply_with (λ _, Runtime) (initialize_with_composer me script arguments preload_composer)
  | RunFile script => reply_with Status (execute_file me script)
  | RunFileQuiet script => reply_with Status (execute_file_quiet me script)
  | RunCode source => reply_with Status (execute_code me source)
  | AskConfig => reply_with Data (query me ServerConfig)
  | AskInfo => reply_with Data (query me RuntimeInfo)
  | AskRoutes => reply_with Data (query me RoutesInfo)
  | AskDiagnostics => reply_with Data (query me RuntimeDiagnostics)
  | AskMetrics => reply_with Data (query me RuntimeMetrics)
  | DropRuntime => drop_runtime me;; mret (inr Unit)
  | HttpDispatch method target headers body context request_id =>
      reply_with Data (dispatch_http me method target headers body context request_id)
  | HttpResume request_id body operation_result => reply_with Data (resume_http me request_id body operation_result)
  | HttpCancel request_id => reply_with (λ _, Unit) (cancel_http me request_id)
  | WsDispatch event_kind socket_id payload => reply_with Data (dispatch_ws me event_kind socket_id payload)
  end.

(** The requests that borrow or consume a [PhpRuntime], and the one that ends it. *)
Definition needs_runtime (r : request) : bool :=
  match r with
  | RunFile _ | RunFileQuiet _ | RunCode _ | AskConfig | AskInfo | AskRoutes | AskDiagnostics | DropRuntime => true
  | _ => false
  end.
Definition consumes (r : request) : nat := match r with DropRuntime => 1 | _ => 0 end.
Definition produces (r : error + reply) : nat := match r with inr Runtime => 1 | _ => 0 end.

Definition slices_of (r : request) : list bytes :=
  match r with
  | Initialize script arguments _ => script :: arguments
  | RunFile s | RunFileQuiet s | RunCode s | HttpCancel s => [s]
  | HttpDispatch method target headers body context request_id =>
      [method; target; headers; body; context; request_id]
  | HttpResume request_id body operation_result => [request_id; body; operation_result]
  | WsDispatch _ socket_id payload => [socket_id; payload]
  | _ => []
  end.

(** ** Interleavings *)

(** A thread: the runtimes it owns ([PhpRuntime] is neither [Send] nor [Sync], so
    they stay with it), and the request it is at work on. *)
Record thread : Type := Thread {
  t_runtimes : nat;
  t_work : option (prog (error + reply)) }.

Section machine.
Context {E : Type} {engine : ZendEngine E} {host : Host} {env : HostEnv}.

Record shared : Type := Shared {
  ACTIVE : bool;
  OWNER : option tid;
  sh_session : session (E := E);
  sh_trace : list event }.

Record config : Type := Config {
  g_shared : shared;
  g_pool : tid → thread }.

Definition set_active (v : bool) (s : shared) : shared := Shared v (OWNER s) (sh_session s) (sh_trace s).
Definition set_owner (o : option tid) (s : shared) : shared := Shared (ACTIVE s) o (sh_session s) (sh_trace s).

(** The variables [output] and [output_length] are null and zero before a call that
    takes them. *)
Definition enter (c : call) (w : world E) : world E := if publishes c then with_output None 0 w else w.
Definition record (c : call) (st : Z) (w : world E) (s : shared) : shared :=
  Shared (ACTIVE s) (OWNER s) (Session w (held_after c (observe c st w) (s_held (sh_session s))))
    (sh_trace s ++ [Event c st (observe c st w)]).

(** One atomic step of a thread. *)
Inductive exec {A} (me : tid) : shared → prog A → shared → prog A → Prop :=
| exec_load s k : exec me s (ActiveLoad k) s (k (ACTIVE s))
| exec_swap s v k : exec me s (ActiveSwap v k) (set_active v s) (k (ACTIVE s))
| exec_store s v k : exec me s (ActiveStore v k) (set_active v s) k
| exec_get_or_init s k :
    exec me s (OwnerGetOrInit k) (set_owner (Some (default me (OWNER s))) s) (k (default me (OWNER s)))
| exec_get s k : exec me s (OwnerGet k) s (k (OWNER s))
| exec_native s c k st w' :
    run c (enter c (s_world (sh_session s))) = Ret st w' →
    exec me s (Native c k) (record c st w' s) (k st (w_output w') (w_output_length w'))
| exec_raw_parts s p n k bs :
    from_raw_parts p n (s_world (sh_session s)) = Some bs → exec me s (RawParts p n k) s (k bs).

Definition pool_set (t : tid) (th : thread) (P : tid → thread) : tid → thread :=
  λ t', if decide (t' = t) then th else P t'.

(** A step of the process, by the thread it names: it takes up a request it has the
    runtime for, it makes a step of it, or it hands the result to its caller. *)
Inductive hstep (t : tid) : config → config → Prop :=
| hstep_start s P n r :
    P t = Thread n None → (needs_runtime r = true → (0 < n)%nat) → Forall slice (slices_of r) →
    hstep t (Config s P) (Config s (pool_set t (Thread (n - consumes r) (Some (serve t r))) P))
| hstep_work s P n p s' p' :
    P t = Thread n (Some p) → exec t s p s' p' →
    hstep t (Config s P) (Config s' (pool_set t (Thread n (Some p')) P))
| hstep_finish s P n res :
    P t = Thread n (Some (Done res)) →
    hstep t (Config s P) (Config s (pool_set t (Thread (n + produces res) None) P)).

(** A process in which no thread has done anything yet. *)
Definition fresh_host (g : config) : Prop :=
  ACTIVE (g_shared g) = false ∧ OWNER (g_shared g) = None ∧ sh_trace (g_shared g) = [] ∧
  pristine (sh_session (g_shared g)) ∧ ∀ t, g_pool g t = Thread 0 None.

Inductive hreached (g0 : config) : config → Prop :=
| hreached_start : hreached g0 g0
| hreached_step t g g' : hreached g0 g → hstep t g g' → hreached g0 g'.

(** The thread is about to enter C or to read memory of C. *)
Definition at_native (g : config) (t : tid) : Prop :=
  match t_work (g_pool g t) with Some (Native _ _) | Some (RawParts _ _ _) => True | _ => False end.
End machine.

(** ** What the guards give a thread

    [ACTIVE], the engine and the buffers out change only by the hand of the owner,
    so the owner knows them between its steps. [insider] is the weakest precondition
    of a program run by the owner, in terms of that knowledge; [outsider] that of a
    program of any other thread, which may only look. *)

(** [permitted], from what the owner knows. *)
Definition allowed (c : call) (up : bool) (held : gmap loc bytes) : Prop :=
  match c with
  | Init argv => up = false ∧ Forall fits argv
  | Eval _ _ | ExecuteFile _ | Shutdown => True
  | ServerConfig | RuntimeInfo | RuntimeMetrics | RuntimeDiagnostics | RoutesInfo => up = true
  | DispatchHttp method target headers body context request_id =>
      up = true ∧ Forall fits [method; target; headers; body; context; request_id]
  | ResumeHttp request_id _ operation_result => up = true ∧ Forall fits [request_id; operation_result]
  | CancelHttp request_id => up = true ∧ fits request_id
  | DispatchWs _ socket_id payload => up = true ∧ Forall fits [socket_id; payload]
  | StringFree value => ∀ p, value = Some p → is_Some (held !! p)
  end.

(** What a call may have done when it returned [st] and wrote [out] and [n]. *)
Definition effect (c : call) (up : bool) (held : gmap loc bytes) (st : Z) (out : option loc) (n : Z)
    (up' : bool) (held' : gmap loc bytes) : Prop :=
  match c with
  | Init _ => held' = held ∧ up' = (st =? 0)
  | Shutdown => held' = held ∧ up' = false
  | StringFree (Some p) => held' = delete p held ∧ up' = up
  | _ =>
      up' = up ∧
      if publishes c then
        (st = SUCCESS ∧ ∃ p bs, held !! p = None ∧ out = Some p ∧ Z.to_nat n = length bs ∧ held' = <[p := bs]> held)
        ∨ (st = FAILURE ∧ held' = held)
      else held' = held
  end.

Fixpoint insider {A} (me : tid) (Q : A → bool → bool → gmap loc bytes → Prop)
    (active up : bool) (held : gmap loc bytes) (p : prog A) : Prop :=
  match p with
  | Done a => Q a active up held
  | ActiveLoad k => insider me Q active up held (k active)
  | ActiveSwap v k => insider me Q v up held (k active)
  | ActiveStore v k => insider me Q v up held k
  | OwnerGetOrInit k => insider me Q active up held (k me)
  | OwnerGet k => insider me Q active up held (k (Some me))
  | Native c k =>
      allowed c up held ∧
      ∀ st out n up' held', effect c up held st out n up' held' → insider me Q active up' held' (k st out n)
  | RawParts p n k =>
      ∃ bs, held !! p = Some bs ∧ Z.to_nat n = length bs ∧ insider me Q active up held (k bs)
  end.

(** A thread that initialises before any other becomes the owner, of an engine that
    is down. *)
Fixpoint outsider {A} (me : tid) (Q : A → Prop) (Q' : A → bool → bool → gmap loc bytes → Prop) (p : prog A) : Prop :=
  match p with
  | Done a => Q a
  | ActiveLoad k => ∀ b, outsider me Q Q' (k b)
  | OwnerGetOrInit k =>
      (∀ o, o ≠ me → outsider me Q Q' (k o)) ∧ insider me Q' false false ∅ (k me)
  | OwnerGet k => ∀ o, o ≠ Some me → outsider me Q Q' (k o)
  | ActiveSwap _ _ | ActiveStore _ _ | Native _ _ | RawParts _ _ _ => False
  end.

Section rules.
Context {A B : Type} (me : tid).
Implicit Types (Q : A → bool → bool → gmap loc bytes → Prop) (held : gmap loc bytes).

Lemma insider_mono Q Q' (p : prog A) : ∀ active up held,
  (∀ a x y z, Q a x y z → Q' a x y z) → insider me Q active up held p → insider me Q' active up held p.
Proof.
  induction p as [a|k IH|v k IH|v k IH|k IH|k IH|c k IH|l n k IH]; simpl; intros active up held HQ; eauto.
  - intros [? Hk]. split; [done|]. intros. eapply IH; eauto.
  - intros (bs&?&?&?). exists bs. split_and!; eauto.
Qed.

Lemma insider_bind (Q : B → bool → bool → gmap loc bytes → Prop) (m : prog A) (f : A → prog B) : ∀ active up held,
  insider me (λ a x y z, insider me Q x y z (f a)) active up held m → insider me Q active up held (m ≫= f).
Proof.
  induction m as [a|k IH|v k IH|v k IH|k IH|k IH|c k IH|l n k IH]; intros active up held; simpl;
    try (intros; apply IH; assumption); [done|..].
  - intros [? Hk]. split; [done|]. intros st out n up' held' Heff. apply IH, (Hk _ _ _ _ _ Heff).
  - intros (bs&?&?&Hk). exists bs. split_and!; [done..|]. apply IH, Hk.
Qed.

Lemma outsider_bind (Q : B → Prop) (Q' : B → bool → bool → gmap loc bytes → Prop) (m : prog A) (f : A → prog B) :
  outsider me (λ a, outsider me Q Q' (f a)) (λ a x y z, insider me Q' x y z (f a)) m →
  outsider me Q Q' (m ≫= f).
Proof.
  induction m as [a|k IH|v k IH|v k IH|k IH|k IH|c k IH|l n k IH]; simpl; try done.
  - intros H b. apply IH, H.
  - intros [H1 H2]. split; [intros o Ho; by apply IH, H1|]. by apply insider_bind.
  - intros H o Ho. apply IH, H, Ho.
Qed.
End rules.

(** A program that leaves what the owner knows as it was. *)
Definition quiet {A} (me : tid) (active up : bool) (held : gmap loc bytes) (p : prog A) : Prop :=
  insider me (λ _ x y z, x = active ∧ y = up ∧ z = held) active up held p.

Lemma quiet_insider {A} me Q active up held (p : prog A) :
  quiet me active up held p → (∀ a, Q a active up held) → insider me Q active up held p.
Proof. intros Hp HQ. eapply insider_mono; [|exact Hp]. cbn. by intros a x y z (->&->&->). Qed.

Lemma quiet_then {A B} me Q active up held (m : prog A) (f : A → prog B) :
  quiet me active up held m → (∀ a, insider me Q active up held (f a)) → insider me Q active up held (m ≫= f).
Proof. intros Hm Hf. apply insider_bind. by eapply quiet_insider. Qed.

Lemma quiet_try {A B} me active up held (m : prog (error + A)) (k : A → prog (error + B)) :
  quiet me active up held m → (∀ a, quiet me active up held (k a)) → quiet me active up held (try m k).
Proof. intros Hm Hk. apply quiet_then; [done|]. intros [e|a]; [done|apply Hk]. Qed.

Section quiet_functions.
Context {env : HostEnv} (me : tid) (active up : bool) (held : gmap loc bytes).

Lemma quiet_done {A} (a : A) : quiet me active up held (Done a).
Proof. done. Qed.

(** A call that only returns a status. *)
Definition status_only (c : call) : bool :=
  is_script c || match c with CancelHttp _ => true | _ => false end.

Lemma quiet_status c : status_only c = true → allowed c up held → quiet me active up held (native_status c).
Proof.
  intros Hc Ha. split; [done|]. intros st out n up' held' Heff.
  destruct c; try done; destruct Heff as [-> ->]; done.
Qed.

Lemma quiet_ensure_owner : quiet me active up held (ensure_owner me).
Proof. unfold quiet, ensure_owner. simpl. destruct active; [|done]. simpl. by rewrite bool_decide_true. Qed.

(** A published buffer is read and freed: the buffers out are as before. *)
Lemma quiet_publish {A} c (f : bytes → A) (g : Z → A) :
  publishes c = true → allowed c up held →
  quiet me active up held
    (Native c (λ status output output_length,
       match status =? 0, output with
       | true, Some p => RawParts p output_length (λ bs, native_status (StringFree (Some p));; mret (f bs))
       | _, _ => mret (g status)
       end)).
Proof.
  intros Hpub Ha. split; [done|]. intros st out n up' held' Heff.
  assert (Heff' : up' = up ∧ ((st = SUCCESS ∧ ∃ p bs, held !! p = None ∧ out = Some p ∧ Z.to_nat n = length bs ∧
                                held' = <[p := bs]> held) ∨ (st = FAILURE ∧ held' = held))) by by destruct c.
  destruct Heff' as [-> [[-> (p&bs&Hp&->&Hn&->)]|[-> ->]]]; [|done]. simpl.
  exists bs. rewrite lookup_insert_eq. split_and!; [done|done|..].
  - intros q [= <-]. by rewrite lookup_insert_eq.
  - intros st' out' n' up' held' [-> ->]. by rewrite delete_insert_id.
Qed.

Lemma quiet_call_for_string c : publishes c = true → allowed c up held → quiet me active up held (call_for_string c).
Proof. apply quiet_publish. Qed.
Lemma quiet_call_for_vec c : publishes c = true → allowed c up held → quiet me active up held (call_for_vec c).
Proof. apply (quiet_publish c (λ bs, inr bs) (λ st, inl (DispatchFailed st))). Qed.

Lemma quiet_execute_file_raw script : quiet me active up held (execute_file_raw script).
Proof.
  unfold execute_file_raw. destruct (to_c_buffer script); [done|].
  apply quiet_then; [by apply quiet_status|done].
Qed.

Lemma quiet_evaluate source name : quiet me active up held (evaluate_runtime_source source name).
Proof.
  unfold evaluate_runtime_source. destruct (strip_prefix _ source); [|done].
  apply quiet_then; [by apply quiet_status|]. intros st. by destruct (st =? 0).
Qed.

Lemma quiet_bootstraps l : quiet me active up held (evaluate_bootstraps l).
Proof.
  induction l as [|[file name] l IH]; [done|]. apply quiet_try; [apply quiet_evaluate|done].
Qed.

Lemma quiet_preload composer b : quiet me active up held (preload composer b).
Proof.
  unfold preload. destruct composer as [f|]; [|done]. destruct (b && is_file f); [|done].
  apply quiet_then; [apply quiet_execute_file_raw|]. intros [e|st]; [done|]. by destruct (st =? 0).
Qed.
End quiet_functions.

Lemma slice_fits bs : slice bs → fits bs.
Proof. unfold slice, fits, ZSTR_MAX_LEN. change ZSTR_MAX_OVERHEAD with 32. lia. Qed.
Lemma slices_fit l : Forall slice l → Forall fits l.
Proof. apply Forall_impl, slice_fits. Qed.

(** The C string of a buffer is the value it was made from, so the engine sees the
    arguments of the host. *)
Lemma c_string_app v : NUL ∉ v → c_string (v ++ [NUL]) = v.
Proof.
  induction v as [|b v IH]; intros Hv; [done|]. simpl. rewrite decide_False by set_solver.
  f_equal. apply IH. set_solver.
Qed.
Lemma to_c_buffer_spec v b : to_c_buffer v = inr b → c_string b = v.
Proof. unfold to_c_buffer. case_bool_decide; intros [= <-]. by apply c_string_app. Qed.
Lemma c_buffers_spec l bs : c_buffers l = inr bs → c_string <$> bs = l.
Proof.
  revert bs. induction l as [|v l IH]; simpl; intros bs; [by intros [= <-]|].
  destruct (to_c_buffer v) as [e|b] eqn:Hb; [done|]. destruct (c_buffers l) as [e|bs']; [done|].
  intros [= <-]. rewrite fmap_cons. f_equal; [by apply to_c_buffer_spec|by apply IH].
Qed.
Lemma prepare_spec `{HostEnv} script arguments native_args composer :
  prepare script arguments = inr (native_args, composer) →
  ∃ exe, current_exe = Some exe ∧ c_string <$> native_args = exe :: script :: arguments ∧
    discover script = Some composer.
Proof.
  unfold prepare. destruct current_exe as [exe|]; [|done].
  destruct (c_buffers _) as [e|bs] eqn:Hb; [done|]. destruct (_ <? _); [done|].
  destruct (discover script) as [project|]; [|done]. intros [= <- <-]. exists exe.
  split_and!; [done|by apply c_buffers_spec|done].
Qed.

(** The end of a request: no buffer is out, the engine is up exactly when [ACTIVE]
    says so, and then the caller has the one runtime. *)
Definition settled (n : nat) (res : error + reply) (active up : bool) (held : gmap loc bytes) : Prop :=
  held = ∅ ∧ up = active ∧ (n + produces res = if active then 1 else 0)%nat.

Section requests.
Context {env : HostEnv} (exe_slice : ∀ exe, current_exe = Some exe → slice exe) (me : tid).
Implicit Types (active up : bool) (held : gmap loc bytes).

Lemma guarded {A} Q active up held (k : prog (error + A)) :
  (active = true → insider me Q active up held k) → (active = false → Q (inl NotActive) active up held) →
  insider me Q active up held (ensure_owner me;;? k).
Proof.
  intros Hk Hn. unfold try, ensure_owner. simpl. destruct active; simpl; [|by apply Hn].
  rewrite bool_decide_true by done. by apply Hk.
Qed.

Lemma guarded_quiet {A} active up held (k : prog (error + A)) :
  (active = true → quiet me active up held k) → quiet me active up held (ensure_owner me;;? k).
Proof. intros Hk. by apply guarded. Qed.

Lemma reply_quiet {A} n (f : A → reply) active (m : prog (error + A)) :
  quiet me active active ∅ m → (∀ a, f a ≠ Runtime) → n = (if active then 1 else 0)%nat →
  insider me (settled n) active active ∅ (reply_with f m).
Proof.
  intros Hm Hf Hn. eapply quiet_then; [exact Hm|]. intros [e|a]; simpl; unfold settled; simpl.
  - by rewrite Nat.add_0_r.
  - split_and!; [done..|]. specialize (Hf a). destruct (f a); simpl; lia || done.
Qed.

Lemma abandon_settles {A} Q up (e : error) :
  (Q (inl e : error + A) false false ∅) → insider me Q true up ∅ (abandon e).
Proof. intros HQ. split; [done|]. by intros st out n up' held' [-> ->]. Qed.

Lemma initialize_settles n script arguments b active :
  Forall slice (script :: arguments) → n = (if active then 1 else 0)%nat →
  insider me (settled n) active active ∅ (reply_with (λ _, Runtime) (initialize_with_composer me script arguments b)).
Proof using exe_slice.
  intros Hsl Hn. unfold reply_with. apply insider_bind. unfold initialize_with_composer.
  assert (Herr : ∀ e, insider me (settled n) active active ∅ (mret (inl e : error + reply))).
  { intros e. unfold settled. simpl. by rewrite Nat.add_0_r. }
  destruct (negb _); [apply Herr|]. cbn [insider]. rewrite bool_decide_true by done.
  change (negb true) with false. cbv iota beta.
  destruct (prepare script arguments) as [e|[native_args composer]] eqn:Hprep; [apply Herr|].
  destruct (prepare_spec _ _ _ _ Hprep) as (exe&Hexe&Hargs&_). cbn [insider].
  destruct active; [apply Herr|]. subst n. apply insider_bind. split.
  { split; [done|]. rewrite Hargs. apply slices_fit. constructor; auto. }
  intros st out n up' held' [-> ->]. cbn [insider native_status]. destruct (st =? 0); cbn [negb]; [|by apply abandon_settles].
  eapply (quiet_then me); [apply quiet_preload|]. intros [e|[]]; [by apply abandon_settles|].
  eapply (quiet_then me); [apply quiet_bootstraps|]. intros [e|[]]; [by apply abandon_settles|done].
Qed.

Lemma drop_settles : insider me (settled 0) true true ∅ (drop_runtime me;; mret (inr Unit)).
Proof.
  unfold drop_runtime. simpl. rewrite bool_decide_true by done. simpl. split; [done|].
  by intros st out n up' held' [-> ->].
Qed.

(** Every request of the owner is settled. *)
Lemma serve_settles r n active :
  Forall slice (slices_of r) → (needs_runtime r = true → (0 < n)%nat) → n = (if active then 1 else 0)%nat →
  insider me (settled (n - consumes r)) active active ∅ (serve me r).
Proof using exe_slice.
  intros Hsl Hneed Hn. destruct r; cbn [consumes]; rewrite ?Nat.sub_0_r; cbn [serve].
  1: by apply initialize_settles.
  8: { destruct active; subst; [apply drop_settles|]. specialize (Hneed eq_refl). lia. }
  all: apply reply_quiet; [|done|done]; apply guarded_quiet; intros ->.
  1: apply quiet_execute_file_raw.
  1: { apply quiet_try; [apply quiet_evaluate|]. intros [].
       eapply quiet_then; [apply quiet_execute_file_raw|]. intros res.
       eapply quiet_then; [apply quiet_evaluate|]. intros [e|[]]; by destruct res. }
  1: by eapply quiet_then; [by apply quiet_status|].
  1-4: apply quiet_try; [by apply quiet_call_for_string|]; intros json; by destruct (from_json _ json).
  1: apply quiet_call_for_vec; [done|]. split; [done|]. by apply slices_fit.
  1: apply quiet_call_for_vec; [done|]; split; [done|]; apply slices_fit; inversion_clear Hsl as [|? ? H1 H2];
       inversion_clear H2 as [|? ? H3 H4]; by constructor.
  1: { eapply quiet_then; [apply quiet_status; [done|]; split; [done|]; apply slice_fits; by inversion Hsl|].
       intros st. by destruct (st =? 0). }
  1: apply quiet_try; [by apply quiet_call_for_string|]; intros json; by destruct (from_json _ json).
  1: apply quiet_call_for_string; [done|]; split; [done|]; by apply slices_fit.
Qed.
End requests.

(** ** Other threads are turned away *)
Section others.
Context {env : HostEnv} (exe_slice : ∀ exe, current_exe = Some exe → slice exe) (me : tid).

Lemma turned_away {A} (Q : error + A → Prop) Q' (k : prog (error + A)) :
  (∀ e, Q (inl e)) → outsider me Q Q' (ensure_owner me;;? k).
Proof.
  intros HQ [|]; simpl; [|apply HQ]. intros o Ho. rewrite bool_decide_false by done. apply HQ.
Qed.

Lemma reply_turned_away {A} (f : A → reply) Q' (k : prog (error + A)) :
  outsider me (λ res, produces res = 0%nat) Q' (reply_with f (ensure_owner me;;? k)).
Proof. apply outsider_bind, turned_away. done. Qed.

Lemma initialize_outsider script arguments b :
  Forall slice (script :: arguments) →
  outsider me (λ res, produces res = 0%nat) (settled 0) (serve me (Initialize script arguments b)).
Proof using exe_slice.
  intros Hsl. pose proof (initialize_settles exe_slice me 0 script arguments b false Hsl eq_refl) as Hin.
  unfold serve, reply_with, initialize_with_composer in *. destruct (negb (_ =? _)); [done|].
  split; [|exact Hin]. intros o Ho. by rewrite bool_decide_false.
Qed.

(** A request that needs no runtime, made by a thread that is not the owner. *)
Lemma serve_outsider r :
  Forall slice (slices_of r) → needs_runtime r = false →
  outsider me (λ res, produces res = 0%nat) (settled 0) (serve me r).
Proof using exe_slice.
  intros Hsl Hr. destruct r; try done; [by apply initialize_outsider|apply reply_turned_away..].
Qed.
End others.

(** ** The invariant of the process *)
Section process.
Context {E : Type} {engine : ZendEngine E} {own : Ownership E} {laws : EngineLaws E}
  {lifecycle : LifecycleLaws E} {host : Host} {env : HostEnv}.
Context (fitting : ini_text_fits) (exe_slice : ∀ exe, current_exe = Some exe → slice exe).
Implicit Types (σ : session (E := E)) (A : astate) (s : shared (E := E)) (g : config (E := E)).

Definition is_up σ : bool := pam_initialized (w_pam (s_world σ)).

Lemma represents_is_up A σ : represents A σ → is_up σ = bool_decide (is_Some (a_ini A)).
Proof.
  intros (_&_&_&H). unfold is_up. destruct (a_ini A) as [p|].
  - rewrite bool_decide_true by eauto. apply H.
  - rewrite bool_decide_false by by intros [? ?]. apply H.
Qed.

Lemma represents_enter c A σ : represents A σ → represents A (Session (enter c (s_world σ)) (s_held σ)).
Proof. unfold enter. by destruct (publishes c), σ. Qed.

Lemma allowed_permitted c A σ :
  represents A σ → allowed c (is_up σ) (a_answers A) → permitted c (Session (enter c (s_world σ)) (s_held σ)).
Proof.
  intros (Hh&_) Ha. destruct c; try done. intros p Hp. simpl. rewrite Hh. apply elem_of_dom. by apply Ha.
Qed.

Lemma from_raw_parts_length p n (w : world E) bs : from_raw_parts p n w = Some bs → Z.to_nat n = length bs.
Proof.
  unfold from_raw_parts. destruct (w_cheap w !! p) as [blk|]; [|done]. simpl. destruct (n <=? _) eqn:Hn; [|done].
  intros H%length_mapM. rewrite length_take in H. lia.
Qed.

(** What the owner learns from the step of the abstract machine. *)
Lemma publishing_effect c up held st out n held' :
  publishes c = true →
  (st = SUCCESS ∧ ∃ p bs, held !! p = None ∧ out = Some p ∧ Z.to_nat n = length bs ∧ held' = <[p := bs]> held)
  ∨ (st = FAILURE ∧ held' = held) → effect c up held st out n up held'.
Proof. by destruct c. Qed.

Lemma spec_step_effect c A st (w' : world E) A' :
  spec_step A (Event c st (observe c st w')) A' →
  effect c (bool_decide (is_Some (a_ini A))) (a_answers A) st (w_output w') (w_output_length w')
    (bool_decide (is_Some (a_ini A'))) (a_answers A').
Proof.
  intros Hs. destruct (publishes c) eqn:Hpub.
  - destruct (publishing_step _ _ _ _ _ Hpub Hs) as [(->&p&bs&Heq&[Hp _]%heap_of_free&->)|(->&_&->)];
      apply publishing_effect; [done| |done|by right].
    unfold observe in Heq. rewrite Hpub in Heq. simpl in Heq. destruct (w_output w') as [q|]; [|done]. simpl in Heq.
    destruct (from_raw_parts q (w_output_length w') w') as [bs'|] eqn:Hread; [|done]. simpl in Heq. simplify_eq.
    left. eauto 8 using from_raw_parts_length.
  - inversion Hs; subst; try done; try (destruct c; done); simpl.
    + match goal with H : a_ini A' = None |- _ => by rewrite H end.
Qed.

(** A call the owner may make, in a state the abstract machine represents. *)
Lemma native_effect c A σ st w' :
  represents A σ → allowed c (is_up σ) (a_answers A) → run c (enter c (s_world σ)) = Ret st w' →
  let σ' := Session w' (held_after c (observe c st w') (s_held σ)) in
  ∃ A', spec_step A (Event c st (observe c st w')) A' ∧ represents A' σ' ∧
    effect c (is_up σ) (a_answers A) st (w_output w') (w_output_length w') (is_up σ') (a_answers A').
Proof using laws lifecycle fitting.
  intros Hrep Ha Hrun. pose proof (represents_enter c A σ Hrep) as Hrep1.
  pose proof (call_simulated c A _ fitting Hrep1 (allowed_permitted c A σ Hrep Ha)) as Hsim.
  unfold wp in Hsim. cbn [s_world] in Hsim. rewrite Hrun in Hsim. destruct Hsim as (A'&Hs&Hrep'). cbn [s_held] in Hrep'. cbv zeta.
  exists A'. split_and!; [done..|]. rewrite (represents_is_up A σ Hrep), (represents_is_up A' _ Hrep').
  by apply spec_step_effect.
Qed.

(** A read of a buffer the host holds. *)
Lemma held_read A σ p n bs :
  represents A σ → a_answers A !! p = Some bs → Z.to_nat n = length bs →
  from_raw_parts p n (s_world σ) = Some bs.
Proof.
  intros (_&Hc&_) Hp Hn. unfold from_raw_parts. rewrite Hc, (heap_of_answer A p bs Hp). simpl.
  rewrite (proj2 (Z.leb_le _ _)) by (unfold answer_block; rewrite length_app, length_fmap; simpl; lia).
  rewrite Hn. unfold answer_block. rewrite take_app_le, firstn_all2 by (rewrite length_fmap; lia).
  apply mapM_fmap_Some. done.
Qed.

(** A thread that is not the owner, and the owner. *)
Definition thread_out (t : tid) (th : thread) : Prop :=
  t_runtimes th = 0%nat ∧
  match t_work th with
  | None => True
  | Some p => outsider t (λ res, produces res = 0%nat) (settled 0) p
  end.
Definition thread_in (t : tid) (th : thread) (active up : bool) (held : gmap loc bytes) : Prop :=
  match t_work th with
  | None => held = ∅ ∧ up = active ∧ t_runtimes th = (if active then 1 else 0)%nat
  | Some p => insider t (settled (t_runtimes th)) active up held p
  end.

Definition guarded_by s (P : tid → thread) A : Prop :=
  match OWNER s with
  | None => ACTIVE s = false ∧ is_up (sh_session s) = false ∧ a_answers A = ∅ ∧ ∀ t, thread_out t (P t)
  | Some o =>
      thread_in o (P o) (ACTIVE s) (is_up (sh_session s)) (a_answers A) ∧ ∀ t, t ≠ o → thread_out t (P t)
  end.

Definition process_ok g : Prop :=
  ∃ A, spec_reached (sh_trace (g_shared g)) A ∧ represents A (sh_session (g_shared g)) ∧
       guarded_by (g_shared g) (g_pool g) A.

Lemma pool_set_same t th (P : tid → thread) : pool_set t th P t = th.
Proof. unfold pool_set. by rewrite decide_True. Qed.
Lemma pool_set_other t th (P : tid → thread) t' : t' ≠ t → pool_set t th P t' = P t'.
Proof. unfold pool_set. intros. by rewrite decide_False. Qed.

(** A step of the owner keeps what it knows. *)
Lemma exec_insider {R} t (Q : R → bool → bool → gmap loc bytes → Prop) s (p : prog R) s' p' A :
  OWNER s = Some t → exec t s p s' p' → spec_reached (sh_trace s) A → represents A (sh_session s) →
  insider t Q (ACTIVE s) (is_up (sh_session s)) (a_answers A) p →
  OWNER s' = Some t ∧
  ∃ A', spec_reached (sh_trace s') A' ∧ represents A' (sh_session s') ∧
    insider t Q (ACTIVE s') (is_up (sh_session s')) (a_answers A') p'.
Proof using laws lifecycle fitting.
  intros Ho Hex Htr Hrep Hin.
  destruct Hex as [s k|s v k|s v k|s k|s k|s c k st w' Hrun|s p n k bs Hread]; cbn [insider] in Hin;
    [| | |by rewrite Ho; split; [done|exists A]|by rewrite Ho; split; [done|exists A]|..];
    split; try done; [by exists A..| |].
  - destruct Hin as [Ha Hk]. destruct (native_effect c A (sh_session s) st w' Hrep Ha Hrun) as (A'&Hs&Hrep'&Heff).
    exists A'. split_and!; [by econstructor|done|by apply Hk].
  - destruct Hin as (bs'&Hp&Hn&Hk). rewrite (held_read A _ p n bs') in Hread by done. simplify_eq. by exists A.
Qed.

(** A step of another thread changes nothing, unless it is the first to initialise:
    then it is the owner. *)
Lemma exec_outsider {R} t (Q : R → Prop) Q' s (p : prog R) s' p' :
  OWNER s ≠ Some t → exec t s p s' p' → outsider t Q Q' p →
  (s' = s ∧ outsider t Q Q' p') ∨
  (OWNER s = None ∧ s' = set_owner (Some t) s ∧ insider t Q' false false ∅ p').
Proof.
  intros Ho Hex Hout. destruct Hex as [s k|s v k|s v k|s k|s k|s c k st w' Hrun|s p n k bs Hread]; cbn in Hout; try done.
  - left. by split; [|apply Hout].
  - destruct Hout as [H1 H2]. destruct (OWNER s) as [o|] eqn:Hs; [left|right; done]. simpl.
    split; [by destruct s; simpl in *; subst|]. apply H1. congruence.
  - left. by split; [|apply Hout].
Qed.

Lemma others_out t th (P : tid → thread) o :
  (∀ t', t' ≠ o → thread_out t' (P t')) → (t ≠ o → thread_out t th) →
  ∀ t', t' ≠ o → thread_out t' (pool_set t th P t').
Proof.
  intros HP Ht t' Ho. destruct (decide (t' = t)) as [->|Hne].
  - rewrite pool_set_same. auto.
  - rewrite pool_set_other by done. auto.
Qed.

(** Replacing the state of a thread that is not the owner. *)
Lemma guarded_other s P A t th :
  OWNER s ≠ Some t → guarded_by s P A → thread_out t th → guarded_by s (pool_set t th P) A.
Proof.
  unfold guarded_by. destruct (OWNER s) as [o|]; intros Ho.
  - intros [Hin Hout] Hth. split; [rewrite pool_set_other by congruence; done|by apply others_out].
  - intros (?&?&?&Hout) Hth. split_and!; [done..|]. intros t'. destruct (decide (t' = t)) as [->|Hne].
    + by rewrite pool_set_same.
    + by rewrite pool_set_other.
Qed.

(** Replacing the state of the owner. *)
Lemma guarded_owner s s' P A A' t th :
  OWNER s = Some t → OWNER s' = Some t → guarded_by s P A →
  thread_in t th (ACTIVE s') (is_up (sh_session s')) (a_answers A') → guarded_by s' (pool_set t th P) A'.
Proof.
  unfold guarded_by. intros -> -> [_ Hout] Hth. split; [by rewrite pool_set_same|by apply others_out].
Qed.

Lemma guarded_in s P A t : OWNER s = Some t → guarded_by s P A →
  thread_in t (P t) (ACTIVE s) (is_up (sh_session s)) (a_answers A).
Proof. unfold guarded_by. by intros -> [? _]. Qed.
Lemma guarded_out s P A t : OWNER s ≠ Some t → guarded_by s P A → thread_out t (P t).
Proof. unfold guarded_by. destruct (OWNER s) as [o|]; intros Ho; [intros [_ H]|intros (_&_&_&H)]; apply H. congruence. Qed.
Lemma start_ok t s P n r :
  process_ok (Config s P) → P t = Thread n None → (needs_runtime r = true → (0 < n)%nat) →
  Forall slice (slices_of r) →
  process_ok (Config s (pool_set t (Thread (n - consumes r) (Some (serve t r))) P)).
Proof using exe_slice.
  intros (A&Htr&Hrep&Hg) HP Hneed Hsl. exists A. split_and!; [done..|]. cbn [g_shared g_pool] in *.
  destruct (decide (OWNER s = Some t)) as [Ho|Ho].
  - pose proof (guarded_in _ _ _ _ Ho Hg) as Hin. rewrite HP in Hin. destruct Hin as (Ha&Hup&Hn). simpl in Hn.
    eapply guarded_owner; [done..|]. unfold thread_in. cbn [t_work t_runtimes]. rewrite Ha, Hup. by apply serve_settles.
  - pose proof (guarded_out _ _ _ _ Ho Hg) as [Hn _]. rewrite HP in Hn. simpl in Hn. subst n.
    apply guarded_other; [done..|]. split; [done|]. cbn [t_work].
    apply serve_outsider; [done..|]. destruct (needs_runtime r); [|done]. specialize (Hneed eq_refl). lia.
Qed.

Lemma work_ok t s P n p s' p' :
  process_ok (Config s P) → P t = Thread n (Some p) → exec t s p s' p' →
  process_ok (Config s' (pool_set t (Thread n (Some p')) P)).
Proof using laws lifecycle fitting.
  intros (A&Htr&Hrep&Hg) HP Hex. cbn [g_shared g_pool] in *. destruct (decide (OWNER s = Some t)) as [Ho|Ho].
  - pose proof (guarded_in _ _ _ _ Ho Hg) as Hin. unfold thread_in in Hin. rewrite HP in Hin. simpl in Hin.
    destruct (exec_insider t _ s p s' p' A Ho Hex Htr Hrep Hin) as (Ho'&A'&Htr'&Hrep'&Hin').
    exists A'. split_and!; [done..|]. by eapply (guarded_owner s s' P A A').
  - pose proof (guarded_out _ _ _ _ Ho Hg) as [Hn Hout]. rewrite HP in Hn, Hout. simpl in Hn, Hout. subst n.
    destruct (exec_outsider t _ _ s p s' p' Ho Hex Hout) as [[-> Hout']|(Hs&->&Hin)].
    + exists A. split_and!; [done..|]. by apply guarded_other.
    + exists A. split_and!; [done..|]. unfold guarded_by in Hg |- *. rewrite Hs in Hg. cbn.
      destruct Hg as (Ha&Hup&Hh&Hall). split; [|by apply others_out].
      unfold thread_in. rewrite pool_set_same. simpl. by rewrite Ha, Hup, Hh.
Qed.

Lemma finish_ok t s P n res :
  process_ok (Config s P) → P t = Thread n (Some (Done res)) →
  process_ok (Config s (pool_set t (Thread (n + produces res) None) P)).
Proof.
  intros (A&Htr&Hrep&Hg) HP. exists A. split_and!; [done..|]. cbn [g_shared g_pool] in *.
  destruct (decide (OWNER s = Some t)) as [Ho|Ho].
  - pose proof (guarded_in _ _ _ _ Ho Hg) as Hin. unfold thread_in in Hin. rewrite HP in Hin. by eapply (guarded_owner s s P A A).
  - pose proof (guarded_out _ _ _ _ Ho Hg) as [Hn Hout]. rewrite HP in Hn, Hout. simpl in Hn, Hout.
    apply guarded_other; [done..|]. split; [|done]. simpl. lia.
Qed.

Lemma hstep_ok t g g' : process_ok g → hstep t g g' → process_ok g'.
Proof using laws lifecycle fitting exe_slice.
  intros Hok Hst. destruct Hst as [s P n r HP Hneed Hsl|s P n p s' p' HP Hex|s P n res HP].
  - by apply start_ok.
  - by eapply work_ok.
  - by apply finish_ok.
Qed.

Lemma fresh_ok g : fresh_host g → process_ok g.
Proof.
  intros (Ha&Ho&Htr&Hpr&HP). exists astate0. rewrite Htr. split_and!; [constructor|by apply pristine_represents|].
  unfold guarded_by. rewrite Ho. split_and!; [done| |done|].
  - destruct Hpr as ((Hi&_)&_). exact Hi.
  - intros t. by rewrite HP.
Qed.

Lemma hreached_ok g0 g : fresh_host g0 → hreached g0 g → process_ok g.
Proof using laws lifecycle fitting exe_slice.
  intros H0 Hr. induction Hr as [|t g g' Hr IH Hst]; [by apply fresh_ok|]. by eapply hstep_ok.
Qed.

(** The thread that is about to enter C, or to read its memory, is the owner. *)
Lemma native_is_owner g t : process_ok g → at_native g t → OWNER (g_shared g) = Some t.
Proof.
  intros (A&_&_&Hg) Hat. destruct (decide (OWNER (g_shared g) = Some t)) as [|Ho]; [done|].
  pose proof (guarded_out _ _ _ _ Ho Hg) as [_ Hout]. unfold at_native in Hat.
  destruct (t_work (g_pool g t)) as [p|]; [|done]. by destruct p.
Qed.
(** What a thread that is about to enter C or to read its memory can rely on. *)
Definition next_defined g (p : prog (error + reply)) : Prop :=
  let σ := sh_session (g_shared g) in
  match p with
  | Native c _ =>
      permitted c σ ∧
      ((∃ st w', run c (enter c (s_world σ)) = Ret st w') ∨
       (∃ w', run c (enter c (s_world σ)) = Bail w' ∧ alloc_fails (E := E) (unguarded_bytes c)))
  | RawParts q m _ => ∃ bs, from_raw_parts q m (s_world σ) = Some bs ∧ w_cheap (s_world σ) !! q = Some (answer_block bs)
  | _ => True
  end.

Lemma work_defined g t n p : process_ok g → g_pool g t = Thread n (Some p) → next_defined g p.
Proof using laws lifecycle fitting.
  intros Hr HP. unfold next_defined. cbv zeta.
  assert (Ho : at_native g t → OWNER (g_shared g) = Some t) by by apply native_is_owner.
  unfold at_native in Ho. rewrite HP in Ho. destruct Hr as (A&_&Hrep&Hg).
  destruct p as [| | | | | |c k|q m k]; try done; specialize (Ho I);
    pose proof (guarded_in _ _ _ _ Ho Hg) as Hin; unfold thread_in in Hin; rewrite HP in Hin; simpl in Hin.
  - destruct Hin as [Ha _]. pose proof (allowed_permitted c A _ Hrep Ha) as Hp. split; [by destruct c|].
    pose proof (call_simulated c A _ fitting (represents_enter c A _ Hrep) Hp) as Hsim.
    unfold wp in Hsim. cbn [s_world] in Hsim. destruct (run c _) as [st w'|w'|]; [left|right|done]; eauto.
  - destruct Hin as (bs&Hq&Hm&_). exists bs. split; [by eapply held_read|].
    destruct Hrep as (_&Hc&_). rewrite Hc. by apply heap_of_answer.
Qed.
End process.

Section theorems.
Context {E : Type} {engine : ZendEngine E} {own : Ownership E} {laws : EngineLaws E}
  {lifecycle : LifecycleLaws E} {host : Host} {env : HostEnv}.
Context (fitting : ini_text_fits) (exe_slice : ∀ exe, current_exe = Some exe → slice exe).
Context (g0 : config (E := E)) (start : fresh_host g0).
Implicit Types (g : config (E := E)).

(** C3: Whatever the threads of the host do and however they interleave, at most
    one of them is about to enter an exported function or to read a buffer of C:
    the thread that initialised first. The C code, which takes no lock, is never
    entered twice. *)
Theorem one_thread_speaks g t t' :
  hreached g0 g → at_native g t → at_native g t' → t = t' ∧ OWNER (g_shared g) = Some t.
Proof using All.
  intros Hr%(hreached_ok fitting exe_slice g0 g start) Ht Ht'.
  pose proof (native_is_owner g t Hr Ht). pose proof (native_is_owner g t' Hr Ht'). split; congruence.
Qed.

(** C4: Every call the host makes, in any interleaving of its threads, is one that
    the rules of the C interface permit: the engine is up when it is asked
    something and down when it is started, a buffer is freed while it is held. So
    the call is defined, it returns or ends the process for want of memory, and
    the buffer it published can be read in full. *)
Theorem host_calls_defined g t n p :
  hreached g0 g → g_pool g t = Thread n (Some p) →
  next_defined g p.
Proof using All.
  intros Hr. apply work_defined; [done|]. by apply (hreached_ok fitting exe_slice g0 g start).
Qed.

(** C7: When every thread of the host is done with its requests, the host holds no
    buffer; the engine is up exactly when ACTIVE is set, exactly when the owner
    holds the one runtime of the process; and without one the C heap holds nothing
    but the texts of failed initialisations. *)
Theorem host_at_rest g :
  hreached g0 g → (∀ t, t_work (g_pool g t) = None) →
  let s := g_shared g in
  s_held (sh_session s) = ∅ ∧ is_up (sh_session s) = ACTIVE s ∧
  (∀ t, t_runtimes (g_pool g t) = if bool_decide (OWNER s = Some t) && ACTIVE s then 1%nat else 0%nat) ∧
  (size (w_cheap (s_world (sh_session s))) ≤ (if ACTIVE s then 1 else 0) + failed_inits (sh_trace s))%nat.
Proof using All.
  intros Hr%(hreached_ok fitting exe_slice g0 g start) Hidle. cbv zeta. destruct Hr as (A&Htr&Hrep&Hg).
  assert (Hrest : a_answers A = ∅ ∧ is_up (sh_session (g_shared g)) = ACTIVE (g_shared g) ∧
    ∀ t, t_runtimes (g_pool g t) = if bool_decide (OWNER (g_shared g) = Some t) && ACTIVE (g_shared g) then 1%nat else 0%nat).
  { unfold guarded_by in Hg. destruct (OWNER (g_shared g)) as [o|].
    - destruct Hg as [Hin Hout]. unfold thread_in in Hin. rewrite Hidle in Hin. destruct Hin as (?&?&Hn).
      split_and!; [done..|]. intros t. case_bool_decide as Ho; [by simplify_eq|].
      apply Hout. congruence.
    - destruct Hg as (->&?&?&Hout). split_and!; [done..|]. intros t. rewrite andb_false_r. apply Hout. }
  destruct Hrest as (Ha&Hup&Hn). split_and!; [|done..|].
  - destruct Hrep as (-> & _). by rewrite Ha, dom_empty_L.
  - rewrite <- Hup, (represents_is_up A _ Hrep). destruct Hrep as (_&->&_).
    destruct (spec_reached_trace _ A Htr) as [_ Hlost]. pose proof (heap_of_size A) as Hsz.
    rewrite Ha, map_size_empty in Hsz. destruct (a_ini A) as [p|]; cbn [from_option] in Hsz.
    + rewrite size_singleton in Hsz. simpl. lia.
    + rewrite size_empty in Hsz. simpl. lia.
Qed.
End theorems.

(** ** What initialisation does to the engine *)

(** A complete run of a program, whatever the shared variables and C answer: the
    calls it made with their statuses, and its result. *)
Inductive path {A} : prog A → list (call * Z) → A → Prop :=
| path_done a : path (Done a) [] a
| path_load k b tr a : path (k b) tr a → path (ActiveLoad k) tr a
| path_swap v k b tr a : path (k b) tr a → path (ActiveSwap v k) tr a
| path_store v k tr a : path k tr a → path (ActiveStore v k) tr a
| path_get_or_init k o tr a : path (k o) tr a → path (OwnerGetOrInit k) tr a
| path_get k o tr a : path (k o) tr a → path (OwnerGet k) tr a
| path_native c k st out n tr a : path (k st out n) tr a → path (Native c k) ((c, st) :: tr) a
| path_raw p n k bs tr a : path (k bs) tr a → path (RawParts p n k) tr a.

Lemma path_bind_inv {A B} (m : prog A) (f : A → prog B) : ∀ tr b,
  path (m ≫= f) tr b → ∃ tr1 tr2 a, path m tr1 a ∧ path (f a) tr2 b ∧ tr = tr1 ++ tr2.
Proof.
  induction m as [a|k IH|v k IH|v k IH|k IH|k IH|c k IH|p n k IH]; intros tr b Hp; cbn in Hp.
  1: exists [], tr, a; split_and!; [constructor|done..].
  all: inversion Hp; subst; clear Hp; match goal with H : path _ _ _ |- _ => apply IH in H as (tr1&tr2&a&H1&H2&->) end.
  6: eexists (_ :: tr1), tr2, a; split_and!; [by econstructor|done..].
  all: exists tr1, tr2, a; split_and!; [by econstructor|done..].
Qed.

Lemma path_done_inv {A} (a b : A) tr : path (mret a) tr b → tr = [] ∧ b = a.
Proof. intros Hp. by inversion Hp. Qed.

Lemma path_swap_inv {A} v k tr (a : A) : path (ActiveSwap v k) tr a → ∃ b, path (k b) tr a.
Proof. intros Hp. inversion Hp; eauto. Qed.
Lemma path_owner_inv {A} k tr (a : A) : path (OwnerGetOrInit k) tr a → ∃ o, path (k o) tr a.
Proof. intros Hp. inversion Hp; eauto. Qed.

Lemma path_status_inv c tr st : path (native_status c) tr st → tr = [(c, st)].
Proof. intros Hp. inversion Hp; subst. match goal with H : path (Done _) _ _ |- _ => by inversion H end. Qed.

Section sequence.
Context {env : HostEnv}.

(** The evaluations of the bootstraps that succeeded, in order. *)
Definition bootstrap_call (b : string * string) : call * Z :=
  (Eval (default [] (strip_prefix (lit "<?php") (include_str (fst b)))) (lit (snd b)), 0).

Lemma bootstraps_path l tr : path (evaluate_bootstraps l) tr (inr ()) → tr = bootstrap_call <$> l.
Proof.
  revert tr. induction l as [|[file name] l IH]; intros tr Hp; cbn in Hp; [by apply path_done_inv in Hp as [-> _]|].
  apply path_bind_inv in Hp as (tr1&tr2&[e|[]]&H1&H2&->); [by apply path_done_inv in H2 as [_ ?]|].
  rewrite (IH tr2 H2). rewrite fmap_cons. change (bootstrap_call (file, name) :: ?l) with ([bootstrap_call (file, name)] ++ l).
  f_equal. unfold evaluate_runtime_source in H1. unfold bootstrap_call. cbn [fst snd].
  destruct (strip_prefix _ (include_str file)) as [src|]; [|by apply path_done_inv in H1 as [_ ?]].
  apply path_bind_inv in H1 as (tr3&tr4&st&->%path_status_inv&H4&->).
  destruct (st =? 0) eqn:Hst; apply path_done_inv in H4 as [-> ?]; [|done]. by apply Z.eqb_eq in Hst as ->.
Qed.

Definition preload_calls (composer : option bytes) (b : bool) : list (call * Z) :=
  match composer with
  | Some autoload => if b && is_file autoload then [(ExecuteFile autoload, 0)] else []
  | None => []
  end.

Lemma preload_path composer b tr : path (preload composer b) tr (inr ()) → tr = preload_calls composer b.
Proof.
  unfold preload, preload_calls. destruct composer as [f|]; [|by intros [-> _]%path_done_inv].
  destruct (b && is_file f); [|by intros [-> _]%path_done_inv].
  intros (tr1&tr2&[e|st]&H1&H2&->)%path_bind_inv; [by apply path_done_inv in H2 as [_ ?]|].
  destruct (st =? 0) eqn:Hst; apply path_done_inv in H2 as [-> ?]; [|done]. apply Z.eqb_eq in Hst as ->.
  unfold execute_file_raw in H1. destruct (to_c_buffer f) as [e|buf] eqn:Hbuf; [by apply path_done_inv in H1 as [_ ?]|].
  apply path_bind_inv in H1 as (tr3&tr4&st&->%path_status_inv&[-> Heq]%path_done_inv&->).
  rewrite (to_c_buffer_spec f buf Hbuf). injection Heq as Heq. unfold normalize_exit_status, EX_SOFTWARE in Heq.
  by destruct ((0 <=? st) && (st <=? 255)); subst.
Qed.

Lemma abandon_path {A} e tr (r : error + A) :
  path (abandon e) tr r → ∃ st, tr = [(Shutdown, st)] ∧ r = inl e.
Proof.
  intros (tr1&tr2&st&->%path_status_inv&H2&->)%path_bind_inv. exists st. inversion H2; subst.
  match goal with H : path (mret _) _ _ |- _ => apply path_done_inv in H as [-> ->] end. done.
Qed.

(** C10: An initialisation that gives a runtime made exactly these calls, all of
    them successful: pam_php_init with the executable, the script and the
    arguments, the Composer autoloader if it is asked for and there, and the
    bootstraps in order. One that fails made no call, or its last call is
    pam_php_shutdown. *)
Theorem initialize_sequence me script arguments b tr r :
  path (initialize_with_composer me script arguments b) tr r →
  match r with
  | inr _ =>
      ∃ exe composer, current_exe = Some exe ∧ discover script = Some composer ∧
        tr = (Init (exe :: script :: arguments), 0) :: preload_calls composer b ++ (bootstrap_call <$> bootstraps)
  | inl _ => tr = [] ∨ ∃ tr' st, tr = tr' ++ [(Shutdown, st)]
  end.
Proof.
  unfold initialize_with_composer. destruct (negb (_ =? _)); [intros [-> ->]%path_done_inv; by left|].
  intros [owner Hp1]%path_owner_inv.
  destruct (negb (bool_decide _)); [apply path_done_inv in Hp1 as [-> ->]; by left|].
  destruct (prepare script arguments) as [e|[native_args composer]] eqn:Hprep;
    [apply path_done_inv in Hp1 as [-> ->]; by left|].
  destruct (prepare_spec _ _ _ _ Hprep) as (exe&Hexe&Hargs&Hd). rewrite Hargs in Hp1.
  apply path_swap_inv in Hp1 as [was Hp].
  destruct was; [apply path_done_inv in Hp as [-> ->]; by left|].
  apply path_bind_inv in Hp as (tr1&tr2&st&->%path_status_inv&Hp&->).
  destruct (st =? 0) eqn:Hst; cbn [negb] in Hp; [apply Z.eqb_eq in Hst as ->|];
    [|apply abandon_path in Hp as (st'&->&->); right; by exists [(Init (exe :: script :: arguments), st)], st'].
  apply path_bind_inv in Hp as (tr3&tr4&[e|[]]&H3&Hp&->);
    [apply abandon_path in Hp as (st'&->&->); right; eexists _, st'; by rewrite app_assoc|].
  apply path_bind_inv in Hp as (tr5&tr6&[e|[]]&H5&Hp&->);
    [apply abandon_path in Hp as (st'&->&->); right; eexists _, st'; by rewrite !app_assoc|].
  apply path_done_inv in Hp as [-> ->]. exists exe, composer. split_and!; [done..|].
  by rewrite (preload_path _ _ _ H3), (bootstraps_path _ _ H5), app_nil_r.
Qed.
End sequence.

(** ** Schedules that run

    The step relation as a function of the schedule. *)
Section schedules.
Context {E : Type} {engine : ZendEngine E} {host : Host} {env : HostEnv}.

Definition exec1 {A} (me : tid) (s : shared (E := E)) (p : prog A) : option (shared (E := E) * prog A) :=
  match p with
  | Done _ => None
  | ActiveLoad k => Some (s, k (ACTIVE s))
  | ActiveSwap v k => Some (set_active v s, k (ACTIVE s))
  | ActiveStore v k => Some (set_active v s, k)
  | OwnerGetOrInit k => let o := default me (OWNER s) in Some (set_owner (Some o) s, k o)
  | OwnerGet k => Some (s, k (OWNER s))
  | Native c k =>
      match run c (enter c (s_world (sh_session s))) with
      | Ret st w' => Some (record c st w' s, k st (w_output w') (w_output_length w'))
      | _ => None
      end
  | RawParts p n k => bs ← from_raw_parts p n (s_world (sh_session s)); Some (s, k bs)
  end.

Lemma exec1_exec {A} me s (p : prog A) s' p' : exec1 me s p = Some (s', p') → exec me s p s' p'.
Proof.
  destruct p as [a|k|v k|v k|k|k|c k|q n k]; simpl; [done|intros [= <- <-]..| |].
  - apply exec_load.
  - apply exec_swap.
  - apply exec_store.
  - apply exec_get_or_init.
  - apply exec_get.
  - destruct (run c _) eqn:Hrun; intros [= <- <-]. by apply exec_native.
  - destruct (from_raw_parts _ _ _) as [bs|] eqn:Hread; [|done]. intros [= <- <-]. by apply exec_raw_parts.
Qed.

(** A move of the scheduler: a thread takes up a request or makes its next step. *)
Inductive move : Type := Take (t : tid) (r : request) | Go (t : tid).

Definition slice_ok (bs : bytes) : bool := Z.of_nat (length bs) <=? 2 ^ 63 - 1.

Definition play (m : move) (g : config (E := E)) : option (config (E := E)) :=
  match m with
  | Take t r =>
      match g_pool g t with
      | Thread n None =>
          if (negb (needs_runtime r) || (0 <? n)%nat) && forallb slice_ok (slices_of r)
          then Some (Config (g_shared g) (pool_set t (Thread (n - consumes r) (Some (serve t r))) (g_pool g)))
          else None
      | _ => None
      end
  | Go t =>
      match g_pool g t with
      | Thread n (Some (Done res)) =>
          Some (Config (g_shared g) (pool_set t (Thread (n + produces res) None) (g_pool g)))
      | Thread n (Some p) =>
          '(s', p') ← exec1 t (g_shared g) p;
          Some (Config s' (pool_set t (Thread n (Some p')) (g_pool g)))
      | _ => None
      end
  end.

Fixpoint play_all (ms : list move) (g : config (E := E)) : option (config (E := E)) :=
  match ms with [] => Some g | m :: ms => g' ← play m g; play_all ms g' end.

Definition mover (m : move) : tid := match m with Take t _ | Go t => t end.

Lemma play_step m g g' : play m g = Some g' → hstep (mover m) g g'.
Proof.
  destruct g as [s P], m as [t r|t]; simpl; destruct (P t) as [n [p|]] eqn:HP; try done.
  - destruct (_ && _) eqn:Hok; [|done]. intros [= <-]. apply andb_true_iff in Hok as [Hn Hsl].
    apply hstep_start; [done| |].
    + intros Hr. rewrite Hr in Hn. simpl in Hn. by apply Nat.ltb_lt in Hn.
    + apply list.Forall_forall. intros b Hb%list_elem_of_In. eapply forallb_forall in Hsl; [|done]. unfold slice_ok in Hsl.
      unfold slice. lia.
  - destruct p as [res|k|v k|v k|k|k|c k|q m k]; [intros [= <-]; by apply hstep_finish|..];
      match goal with |- context [exec1 t s ?p] => destruct (exec1 t s p) as [[s' p']|] eqn:Hex; [|done] end;
      intros [= <-]; (eapply hstep_work; [done|by apply exec1_exec]).
Qed.

Lemma play_reached g0 ms : ∀ g g', hreached g0 g → play_all ms g = Some g' → hreached g0 g'.
Proof.
  induction ms as [|m ms IH]; simpl; intros g g' Hr; [by intros [= <-]|].
  destruct (play m g) as [g1|] eqn:Hm; [|done]. apply IH. by eapply hreached_step, play_step.
Qed.
End schedules.
