(* ===== verification/PamWitnesses.v ===== *)
(** * native/pam_php.c: the properties on a concrete engine

    Each property of the C file at a concrete input, on the small engine: the
    hypotheses hold together and the conclusions are about runs that happen. *)

From S2P Require Import Prelude ZendTypes ZendArith ZendString ZendParams Engine ModelEngine PamNative PamExports PamProtocol.

(** An engine that answers, one whose function registration fails, and one
    without memory. *)
Definition answering : config := Config (lit "ok") true SUCCESS true.
Definition refusing : config := Config (lit "ok") true FAILURE true.
Definition starved : config := Config (lit "ok") true SUCCESS false.

Definition module0 : sapi_module_struct := SapiModule [] [] None 0 0 None.
Definition world0 : world (gset positive) := World statics0 module0 ∅ 0 false zval_uninit None 0 es0.
(** The same once the process started the engine. *)
Definition world1 : world (gset positive) := set_initialized true world0.

Lemma es0_owned : owned es0 ∅ ∅.
Proof.
  split_and!; [done| |by intros l ?%gmultiset_not_elem_of_empty].
  split_and!; [done|done|]. by intros p q sp sq [=].
Qed.

Lemma ok_fits : fits (lit "ok").
Proof. by vm_compute. Qed.

#[local] Existing Instance plain_host.

(** The value a run returned. *)
Definition returned {S A} (o : outcome S A) : option A :=
  match o with Ret a _ => Some a | _ => None end.
(** The bytes a run published. *)
Definition output_of {E A} (o : outcome (world E) A) : option block :=
  match o with Ret _ w => w_output w ≫= λ p, w_cheap w !! p | _ => None end.

Lemma lits_fit (strs : list bytes) :
  forallb (λ s, Z.of_nat (length s) <? 2 ^ 32) strs = true → Forall fits strs.
Proof.
  rewrite forallb_forall, list.Forall_forall. intros H s Hs%list_elem_of_In. specialize (H s Hs).
  unfold fits, ZSTR_MAX_LEN. change ZSTR_MAX_OVERHEAD with 32. lia.
Qed.

(** *** Exchanges with an engine that answers *)
Section answering.
#[local] Instance engine1 : ZendEngine (gset positive) := model answering.
#[local] Instance laws1 : EngineLaws (gset positive) := model_laws answering ok_fits.
#[local] Instance lifecycle1 : LifecycleLaws (gset positive) := model_lifecycle answering.

Lemma cache1 : cache_ok world1.
Proof. by intros c f. Qed.

Lemma idle0 : idle world0.
Proof. done. Qed.

Lemma ini_fits0 : ini_text_fits.
Proof. by vm_compute. Qed.

Lemma dispatch_http_exchange_witness :
  let run := pam_php_dispatch_http (lit "POST") (lit "/orders") (lit "{}") (lit "body") (lit "{}") (lit "r1") in
  returned (run world1) = Some SUCCESS ∧ output_of (run world1) = Some [Some Byte.x6f; Some Byte.x6b; Some NUL] ∧
  wp run
    (exchanged (lit "beginHttpDispatch")
       [lit "POST"; lit "/orders"; lit "{}"; lit "body"; lit "{}"; lit "r1"] (lit "body") world1 ∅ ∅)
    (λ _, alloc_fails (E := gset positive)
       (Z.max (marshal_size [lit "POST"; lit "/orders"; lit "{}"; lit "body"; lit "{}"; lit "r1"])
              (4096 + zstr_alloc_size 4))) world1.
Proof.
  split_and!; [by vm_compute..|].
  apply (dispatch_http_exchange (lit "POST") (lit "/orders") (lit "{}") (lit "body") (lit "{}") (lit "r1")
    world1 ∅ ∅ es0_owned cache1). by apply lits_fit.
Defined.

Lemma resume_http_exchange_witness :
  let run := pam_php_resume_http (lit "r1") [] (lit "done") in
  returned (run world1) = Some SUCCESS ∧
  wp run (exchanged (lit "resumeHttpDispatch") [lit "r1"; lit "done"] [] world1 ∅ ∅)
    (λ _, alloc_fails (E := gset positive)
       (Z.max (marshal_size [lit "r1"; lit "done"]) (4096 + zstr_alloc_size 0))) world1.
Proof.
  split; [by vm_compute|].
  apply (resume_http_exchange (lit "r1") [] (lit "done") world1 ∅ ∅ es0_owned cache1). by apply lits_fit.
Defined.

Lemma queries_exchange_witness :
  Forall (λ q, returned (q.2 world1) = Some SUCCESS) queries ∧
  Forall (λ '(method, q),
    wp q (λ st w', released world1 ∅ ∅ w' ∧
                   (pam_runtime_class (w_pam world1) ≠ None → request_body (SG (w_es world1)) ≠ None → owned (w_es w') ∅ ∅) ∧
                   outcome_of method [] (with_result undef_result world1) ∅ ∅ st w') never world1) queries.
Proof. split; [repeat constructor; by vm_compute|]. exact (queries_exchange world1 ∅ ∅ es0_owned cache1). Defined.

Lemma dispatch_ws_exchange_witness :
  returned (pam_php_dispatch_ws 1 (lit "s1") (lit "hi") world1) = Some SUCCESS ∧
  wp (pam_php_dispatch_ws 1 (lit "s1") (lit "hi"))
     (λ st w', released world1 ∅ ∅ w' ∧
        ∃ z1 z2 s0, heap_only (w_es world1) s0 ∧
          Forall2 (arg_is (es_heap s0)) [z1; z2] [lit "s1"; lit "hi"] ∧
          let ps := [ZVAL_LONG zval_uninit 1; z1; z2] in
          outcome_of (lit "dispatchWs") ps (with_es s0 (with_result undef_result world1)) (∅ ⊎ refs ps) ∅ st w')
     (λ _, alloc_fails (E := gset positive) (marshal_size [lit "s1"; lit "hi"])) world1.
Proof.
  split; [by vm_compute|].
  apply (dispatch_ws_exchange 1 (lit "s1") (lit "hi") world1 ∅ ∅ es0_owned cache1). by apply lits_fit.
Defined.

Lemma cancel_http_exchange_witness :
  returned (pam_php_cancel_http (lit "r1") world1) = Some SUCCESS ∧
  wp (pam_php_cancel_http (lit "r1"))
     (λ st w', released world1 ∅ ∅ w' ∧ unpublished world1 w' ∧
        ∃ z s0, heap_only (w_es world1) s0 ∧ arg_is (es_heap s0) z (lit "r1") ∧
          let w0 := set_bailout (Some the_jmp_buf) (with_es s0 (with_result undef_result world1)) in
          (st = SUCCESS ∧ ∃ w1, called (lit "cancelHttpDispatch") [z] w0 (∅ ⊎ refs [z]) ∅ w1)
          ∨ (st = FAILURE ∧ ∀ r s, ¬ returns_value (lit "cancelHttpDispatch") [z] w0 r s))
     (λ _, alloc_fails (E := gset positive) (marshal_size [lit "r1"])) world1.
Proof.
  split; [by vm_compute|]. apply (cancel_http_exchange (lit "r1") world1 ∅ ∅ es0_owned cache1). by vm_compute.
Defined.

(** *** Lifecycle *)

Lemma init_outcome_witness :
  returned (pam_php_init 2 [lit "pam"; lit "serve"] world0) = Some PAM_SUCCESS ∧
  wp (pam_php_init 2 [lit "pam"; lit "serve"]) (initialised [lit "pam"; lit "serve"] world0)
     (λ _, alloc_fails (E := gset positive) (Z.max (zstr_alloc_size 10) (zstr_alloc_size 3))) world0.
Proof.
  split; [by vm_compute|]. apply (init_outcome [lit "pam"; lit "serve"] world0 idle0 ini_fits0). by apply lits_fit.
Defined.

Lemma init_then_shutdown_witness :
  returned ((status ← pam_php_init 1 [lit "pam"]; pam_php_shutdown;; mret status) world0) = Some PAM_SUCCESS ∧
  wp (status ← pam_php_init 1 [lit "pam"]; pam_php_shutdown;; mret status)
     (λ st w', idle w' ∧
        (st = PAM_SUCCESS → w_cheap w' = ∅ ∧ pam_ini_entries (w_pam w') = None ∧
                            sm_ini_entries (w_module w') = None) ∧
        (st ≠ PAM_SUCCESS → st = PAM_INITIALIZATION_FAILURE ∧
           (start_refused world0 ∧ w_cheap w' = ∅ ∨
            registration_refused ∧ ∃ p, w_cheap w' = <[p := ini_text]> ∅ ∧ pam_ini_entries (w_pam w') = Some p)))
     (λ _, alloc_fails (E := gset positive) (Z.max (zstr_alloc_size 10) (zstr_alloc_size 3))) world0.
Proof.
  split; [by vm_compute|]. apply (init_then_shutdown [lit "pam"] world0 idle0 ini_fits0). by apply lits_fit.
Defined.

(** A process that runs with its INI text at [1]. *)
Definition running0 : world (gset positive) :=
  World (Statics true true (Some 1%positive) None (λ _, None)) (SapiModule [] [] None 0 0 (Some 1%positive))
    {[1%positive := ini_text]} 1 false zval_uninit None 0 es0.

Lemma shutdown_outcome_witness :
  running 1 running0 ∧
  wp pam_php_shutdown
     (λ _ w', idle w' ∧ pam_ini_entries (w_pam w') = None ∧ sm_ini_entries (w_module w') = None ∧
              w_cheap w' = delete 1%positive {[1%positive := ini_text]} ∧ pam_php_shutdown w' = Ret () w')
     never running0.
Proof.
  assert (Hr : running 1 running0) by done. split; [done|].
  exact (proj1 (shutdown_outcome 1 running0) Hr).
Defined.

(** *** Scripts *)

Lemma eval_exit_code_witness :
  pam_php_eval (lit "1;") (lit "t") world0 = Ret PAM_INITIALIZATION_FAILURE world0 ∧
  wp (pam_php_eval (lit "1;") (lit "t"))
     (λ code w', script_ran world1 ∅ ∅ w' ∧
        (code = PAM_SUCCESS ↔
           ∃ s', zend_eval_stringl (lit "1;") (lit "t") (with_bailout (Some the_jmp_buf) es0)
                 = Ret SUCCESS s' ∧ eg_exit_status s' = PAM_SUCCESS) ∧
        (eg_exit_status (w_es w') ≠ PAM_SUCCESS → code = eg_exit_status (w_es w'))) never world1.
Proof.
  split; [by apply (eval_exit_code (lit "1;") (lit "t") world0 ∅ ∅ es0_owned)|].
  by apply (eval_exit_code (lit "1;") (lit "t") world1 ∅ ∅ es0_owned).
Defined.

Lemma execute_file_exit_code_witness :
  pam_php_execute_file (lit "a.php") world0 = Ret PAM_INITIALIZATION_FAILURE world0 ∧
  wp (pam_php_execute_file (lit "a.php"))
     (λ code w', script_ran world1 ∅ ∅ w' ∧ code = eg_exit_status (w_es w') ∧
        ∃ s0, headers_fresh (SG es0) (SG s0) ∧
          match php_execute_script (lit "a.php") s0 with
          | Ret _ s' | Bail s' => code = eg_exit_status s'
          | Undef => False
          end) never world1.
Proof.
  split; [by apply (execute_file_exit_code (lit "a.php") world0 ∅ ∅ es0_owned)|].
  by apply (execute_file_exit_code (lit "a.php") world1 ∅ ∅ es0_owned).
Defined.

(** *** The internal functions *)

Lemma method_cache_witness :
  returned (pam_runtime_function (lit "routesInfo") world1) = Some (Some 9%positive) ∧
  wp (pam_runtime_function (lit "routesInfo"))
     (λ f w', cache_ok w' ∧ quiet world1 w' ∧ ran es0 ∅ ∅ (w_es w') ∧
        match f with
        | Some p => ∃ c, fst <$> method_slot (lit "routesInfo") = Some c ∧ resolves c p w' ∧
            ∀ w2, w_pam w2 = w_pam w' → pam_runtime_function (lit "routesInfo") w2 = Ret (Some p) w2
        | None => ∀ f ce s, ¬ finds (lit "routesInfo") world1 f ce s
        end)
     (λ w', lookup_left world1 ∅ ∅ w' ∧ ∀ f ce s, ¬ finds (lit "routesInfo") world1 f ce s) world1.
Proof. split; [by vm_compute|]. exact (method_cache (lit "routesInfo") world1 ∅ ∅ es0_owned cache1). Defined.

(** A world whose [result] is the string "ok". *)
Definition world2 : world (gset positive) :=
  World statics0 module0 ∅ 0 false (ZVAL_NEW_STR zval_uninit 3) None 0
    (with_heap {[3%positive := new_string (lit "ok") false]} es0).

Lemma copy_result_witness :
  returned (pam_copy_string_result world2) = Some SUCCESS ∧
  wp pam_copy_string_result
     (λ st w', same_but_output world2 w' ∧
        (st = SUCCESS ∧ (∃ bs, result_is bs world2 ∧ published bs world2 w' ∧
           ∃ w2, pam_php_string_free (w_output w') w' = Ret () w2 ∧ w_cheap w2 = ∅) ∨
         st = FAILURE ∧ unpublished world2 w' ∧ ∀ bs, result_is bs world2 → ¬ room_for bs world2)) never world2.
Proof.
  split; [by vm_compute|]. apply (copy_result_then_free world2).
  exists 3%positive, (new_string (lit "ok") false), (lit "ok").
  split_and!; [done|done|apply new_string_str|apply new_string_ok|apply ok_fits|done].
Defined.

Lemma php_binary_witness :
  wp (pam_set_php_binary (Some (lit "/bin/pam")))
     (λ _ w', (∃ s', w' = with_es s' world1) ∧ owned (w_es w') ∅ ∅ ∧ binary_set (lit "/bin/pam") world1 w')
     (λ _, alloc_fails (E := gset positive) (Z.max (zstr_alloc_size 10) (zstr_alloc_size 8))) world1.
Proof. apply (php_binary_constant (lit "/bin/pam") world1 ∅ es0_owned). by vm_compute. Defined.

Lemma file_handles_witness :
  returned (pam_register_file_handles world1) = Some SUCCESS ∧
  wp pam_register_file_handles
     (λ st w', ∃ s', w' = with_es s' world1 ∧ owned s' ∅ ∅ ∧ handles_settled (w_es world1) st s') never world1.
Proof. split; [by vm_compute|]. exact (file_handles_owned world1 ∅ es0_owned). Defined.

(** A resource with a descriptor, and two calls with the wrong arguments. *)
Definition resource1 : zval := ZVAL_RES zval_uninit 1%positive.
Lemma native_functions_witness :
  (∃ fd s', descriptor resource1 (w_es world1) (Some fd) s' ∧
     zif_pam_native_stream_fd [resource1] false zval_uninit world1 = Ret (Returned (ZVAL_LONG zval_uninit fd)) (with_es s' world1)) ∧
  zif_pam_native_stream_fd [] false zval_uninit world1 = Ret (ParameterErrors (argument_errors [])) world1 ∧
  zif_pam_native_abi_version [] false zval_uninit world1 = Ret (Returned (ZVAL_LONG zval_uninit 1)) world1.
Proof.
  destruct (native_functions_typed [] false zval_uninit world1) as ([Ha _] & Hn & _).
  destruct (native_functions_typed [resource1] false zval_uninit world1) as (_ & _ & Hr). specialize (Hr resource1 eq_refl eq_refl).
  split; [|split; [apply Hn; by intros (z & ? & _)|exact Ha]].
  destruct (zif_pam_native_stream_fd [resource1] false zval_uninit world1) as [r w'|w'|] eqn:Hz; [|by vm_compute in Hz..].
  destruct Hr as (d & s' & Hd & -> & -> & _). destruct d as [fd|]; [by exists fd, s'|by vm_compute in Hz].
Defined.

(** *** A session: initialisation, a query, a request that is answered *)

(** The state a call leaves. *)
Definition after (c : call) (σ : session (E := gset positive)) : session :=
  match run c (s_world σ) with
  | Ret st w' => Session w' (held_after c (observe c st w') (s_held σ))
  | _ => σ
  end.

Lemma step_after c σ st :
  permitted c σ → returned (run c (s_world σ)) = Some st →
  step σ (Event c st (observe c st (s_world (after c σ)))) (after c σ).
Proof.
  intros Hp Hr. unfold after. destruct (run c (s_world σ)) as [st' w'|w'|] eqn:Hrun; [|done..].
  injection Hr as ->. by apply step_returns.
Qed.

Definition session0 : session (E := gset positive) := Session world0 ∅.
Definition request : call := DispatchHttp (lit "GET") (lit "/") (lit "{}") (lit "b") (lit "{}") (lit "r1").
Definition session1 : session := after (Init [lit "pam"]) session0.
Definition session2 : session := after RoutesInfo session1.
Definition session3 : session := after request session2.

Lemma pristine0 : pristine session0.
Proof. done. Qed.

(** The trace of the session: two buffers are with the host at the end. *)
Definition trace3 : list event :=
  [Event (Init [lit "pam"]) 0 None; Event RoutesInfo 0 (Some (2%positive, lit "ok"));
   Event request 0 (Some (3%positive, lit "ok"))].

Lemma reached1 : reached session0 [Event (Init [lit "pam"]) 0 None] session1.
Proof.
  apply (reached_step session0 [] session0); [constructor|]. apply (step_after (Init [lit "pam"]) session0 0).
  - split; [done|by apply lits_fit].
  - by vm_compute.
Qed.

Lemma reached2 : reached session0 (take 2 trace3) session2.
Proof.
  apply (reached_step session0 (take 1 trace3) session1); [apply reached1|].
  replace (Event RoutesInfo 0 (Some (2%positive, lit "ok")))
    with (Event RoutesInfo 0 (observe RoutesInfo 0 (s_world session2))) by (f_equal; by vm_compute).
  apply (step_after RoutesInfo session1 0); by vm_compute.
Qed.

Lemma request_permitted (σ : session (E := gset positive)) : pam_initialized (w_pam (s_world σ)) = true → permitted request σ.
Proof. intros Hi. split; [done|by apply lits_fit]. Qed.

Lemma reached3 : reached session0 trace3 session3.
Proof.
  apply (reached_step session0 (take 2 trace3) session2); [apply reached2|].
  replace (Event request 0 (Some (3%positive, lit "ok")))
    with (Event request 0 (observe request 0 (s_world session3))) by (f_equal; by vm_compute).
  apply (step_after request session2 0); [apply request_permitted|]; by vm_compute.
Qed.

Lemma sessions_refine_witness : ∃ A, spec_reached trace3 A ∧ represents A session3.
Proof. exact (sessions_refine session0 pristine0 ini_fits0 trace3 session3 reached3). Defined.

Lemma permitted_calls_witness :
  (∃ st w', run Shutdown (s_world session3) = Ret st w') ∨
  (∃ w', run Shutdown (s_world session3) = Bail w' ∧ alloc_fails (E := gset positive) 0).
Proof. exact (permitted_calls_defined session0 pristine0 ini_fits0 trace3 session3 Shutdown reached3 I). Defined.

Lemma c_heap_accounted_witness :
  outstanding trace3 !! 3%positive = Some (lit "ok") ∧
  w_cheap (s_world session3) !! 3%positive = Some (answer_block (lit "ok")).
Proof.
  assert (H : outstanding trace3 !! 3%positive = Some (lit "ok")) by by vm_compute. split; [done|].
  exact (proj1 (proj2 (c_heap_accounted session0 pristine0 ini_fits0 trace3 session3 reached3)) _ _ H).
Defined.

Lemma sessions_can_close_witness :
  ∃ σ', reached session0 (trace3 ++ closing (s_held session3)) σ' ∧ idle (s_world σ') ∧
        w_cheap (s_world σ') = ∅.
Proof.
  destruct (sessions_can_close session0 pristine0 ini_fits0 trace3 session3 reached3)
    as (σ'&Hr&Hid&_&_&Hc). exists σ'. split; [done|]. split; [done|]. by apply Hc.
Defined.

Lemma call_for_bytes_witness :
  returned (call_for_bytes request (s_world session3)) = Some (inr (lit "ok")) ∧
  wp (call_for_bytes request)
     (λ r w', w_cheap w' = w_cheap (s_world session3) ∧
        match r with
        | inl st => st = FAILURE
        | inr bs => ∃ p w1, run request (with_output None 0 (s_world session3)) = Ret SUCCESS w1 ∧
            w_output w1 = Some p ∧ w_cheap (s_world session3) !! p = None ∧
            w_cheap w1 = <[p := answer_block bs]> (w_cheap (s_world session3))
        end)
     (λ _, alloc_fails (E := gset positive) (unguarded_bytes request)) (s_world session3).
Proof.
  split; [by vm_compute|].
  apply (call_for_bytes_copies session0 pristine0 ini_fits0 trace3 session3 request reached3); [|done].
  apply request_permitted. by vm_compute.
Defined.
End answering.

(** *** Failures *)
Section refusing.
#[local] Instance engine2 : ZendEngine (gset positive) := model refusing.
#[local] Instance laws2 : EngineLaws (gset positive) := model_laws refusing ok_fits.
#[local] Instance lifecycle2 : LifecycleLaws (gset positive) := model_lifecycle refusing.

Lemma late_failure_witness :
  wp (status ← pam_php_init 1 [lit "pam"]; pam_php_shutdown;; mret status)
     (λ st w', st = PAM_INITIALIZATION_FAILURE ∧ idle w' ∧
        ∃ p, w_cheap world0 !! p = None ∧ w_cheap w' = <[p := ini_text]> ∅ ∧ pam_ini_entries (w_pam w') = Some p)
     (λ _, alloc_fails (E := gset positive) (Z.max (zstr_alloc_size 10) (zstr_alloc_size 3))) world0.
Proof.
  apply (late_failure_keeps_text [lit "pam"] world0 idle0); [by vm_compute|by apply lits_fit|..].
  - intros [H|[(m&s&s'&H)|(s&s'&H)]]; discriminate H.
  - intros (s&s'&st&H&Hne). apply Hne. by inversion H.
Defined.
End refusing.

Section starved.
#[local] Instance engine3 : ZendEngine (gset positive) := model starved.

Lemma marshalling_witness :
  Forall (λ m, m world1 = Bail (with_result undef_result world1))
    [pam_php_dispatch_http (lit "GET") (lit "/") [] [] [] (lit "r"); pam_php_resume_http (lit "r") [] [];
     pam_php_cancel_http (lit "r"); pam_php_dispatch_ws 1 (lit "r") []].
Proof.
  apply (marshalling_is_unguarded (lit "GET") (lit "/") [] [] [] (lit "r") [] 1 world1). done.
Defined.
End starved.
