(* ===== verification/PamHostWitnesses.v ===== *)
(** * The threads of the host on a concrete schedule

    Two threads: the first initialises and dispatches a request, the second tries
    to dispatch in between and is turned away. *)

From S2P Require Import Prelude ZendTypes ZendArith ZendString ZendParams Engine ModelEngine PamNative PamExports PamProtocol PamHost PamWitnesses.

#[local] Existing Instance plain_host.
#[local] Instance engine_w : ZendEngine (gset positive) := model answering.
#[local] Instance laws_w : EngineLaws (gset positive) := model_laws answering ok_fits.
#[local] Instance lifecycle_w : LifecycleLaws (gset positive) := model_lifecycle answering.

(** A project without Composer whose bootstraps are small. *)
#[local] Instance env_w : HostEnv := {|
  current_exe := Some (lit "/usr/bin/pam");
  discover := λ _, Some None;
  is_file := λ _, false;
  include_str := λ _, lit "<?php ;";
  from_json := λ _ _, true |}.

Lemma exe_slice_w : ∀ exe, current_exe = Some exe → slice exe.
Proof. intros exe [= <-]. by vm_compute. Qed.

Definition host0 : config (E := gset positive) :=
  Config (Shared false None session0 []) (λ _, Thread 0 None).

Lemma fresh0 : fresh_host host0.
Proof. done. Qed.

Definition start_up : PamHost.request := Initialize (lit "app.php") [] true.
Definition dispatch : PamHost.request := HttpDispatch (lit "GET") (lit "/") (lit "{}") (lit "b") (lit "{}") (lit "r1").

(** The first thread initialises: two accesses to the shared variables, the call of
    [pam_php_init], fourteen bootstraps and the return. *)
Definition booting : list move := Take 1 start_up :: replicate 18 (Go 1).
(** Both threads ask for a dispatch; the second has read [ACTIVE]. *)
Definition serving : list move := booting ++ [Take 1 dispatch; Take 2 dispatch; Go 1; Go 2; Go 1].
(** The first thread is inside the dispatch, the second was turned away. *)
Definition reading : list move := serving ++ [Go 1; Go 2; Go 2].
(** Everything is over, and the runtime is dropped. *)
Definition closing_moves : list move := reading ++ [Go 1; Go 1; Go 1; Take 1 DropRuntime; Go 1; Go 1; Go 1; Go 1; Go 1].

Definition played (ms : list move) : config := default host0 (play_all ms host0).

Lemma played_reached ms :
  match play_all ms host0 with Some _ => True | None => False end → hreached host0 (played ms).
Proof.
  unfold played. destruct (play_all ms host0) as [g|] eqn:Hg; [|done]. intros _. simpl.
  eapply play_reached; [constructor|exact Hg].
Qed.

(** The second thread is between its two reads when the first is about to enter C. *)
Lemma one_thread_witness :
  at_native (played serving) 1 ∧ OWNER (g_shared (played serving)) = Some 1%positive ∧
  ¬ at_native (played serving) 2.
Proof.
  assert (Hr : hreached host0 (played serving)) by (apply played_reached; by vm_compute).
  assert (H1 : at_native (played serving) 1) by by vm_compute.
  split; [done|]. split.
  - exact (proj2 (one_thread_speaks ini_fits0 exe_slice_w host0 fresh0 _ 1 1 Hr H1 H1)).
  - intros H2. destruct (one_thread_speaks ini_fits0 exe_slice_w host0 fresh0 _ 1 2 Hr H1 H2) as [[=] _].
Defined.

(** The buffer of the answer, read in the state the dispatch left. *)
Lemma host_calls_witness :
  match t_work (g_pool (played reading) 1) with
  | Some p => next_defined (played reading) p
  | None => False
  end.
Proof.
  assert (Hr : hreached host0 (played reading)) by (apply played_reached; by vm_compute).
  destruct (g_pool (played reading) 1) as [n [p|]] eqn:HP; [|by vm_compute in HP].
  exact (host_calls_defined ini_fits0 exe_slice_w host0 fresh0 (played reading) 1 n p Hr HP).
Defined.

(** A schedule leaves the threads it does not name alone. *)
Lemma play_others t ms : ∀ g g',
  Forall (λ m, mover m ≠ t) ms → play_all ms g = Some g' → g_pool g' t = g_pool g t.
Proof.
  induction ms as [|m ms IH]; simpl; intros g g' Hms; [by intros [= <-]|].
  inversion_clear Hms as [|? ? Hm Hms']. destruct (play m g) as [g1|] eqn:Hg1; [|done].
  intros Hg'. rewrite (IH g1 g' Hms' Hg'). apply play_step in Hg1. destruct Hg1; by apply pool_set_other.
Qed.

Lemma closed_idle : ∀ t, t_work (g_pool (played closing_moves) t) = None.
Proof.
  intros t. destruct (decide (t = 1%positive)) as [->|H1]; [by vm_compute|].
  destruct (decide (t = 2%positive)) as [->|H2]; [by vm_compute|].
  unfold played. destruct (play_all closing_moves host0) as [g|] eqn:Hg; [|done]. change (default host0 (Some g)) with g.
  rewrite (play_others t closing_moves host0 g); [done| |done]. repeat constructor; simpl; congruence.
Qed.

Lemma host_at_rest_witness :
  w_cheap (s_world (sh_session (g_shared (played closing_moves)))) = ∅ ∧
  t_runtimes (g_pool (played closing_moves) 1) = 0%nat.
Proof.
  assert (Hr : hreached host0 (played closing_moves)) by (apply played_reached; by vm_compute).
  destruct (host_at_rest ini_fits0 exe_slice_w host0 fresh0 _ Hr closed_idle) as (_&_&Hn&Hsz).
  split; [|rewrite Hn; by vm_compute]. apply map_size_empty_inv.
  assert (H0 : ((if ACTIVE (g_shared (played closing_moves)) then 1 else 0) +
    failed_inits (sh_trace (g_shared (played closing_moves))) = 0)%nat) by by vm_compute. lia.
Defined.

(** A run of the initialisation in which every call succeeds. *)
Ltac walk :=
  repeat first
    [ apply path_done
    | apply (path_get_or_init _ 1%positive)
    | apply (path_swap _ _ false)
    | apply (path_native _ _ 0 None 0) ].

Lemma initialize_sequence_witness :
  ∃ tr, path (initialize_with_composer 1 (lit "app.php") [] true) tr (inr ()) ∧
    tr = (Init [lit "/usr/bin/pam"; lit "app.php"], 0) :: (bootstrap_call <$> bootstraps).
Proof.
  assert (Hp : ∃ tr, path (initialize_with_composer 1 (lit "app.php") [] true) tr (inr ())).
  { eexists. cbv -[lit strip_prefix]. walk. }
  destruct Hp as [tr Hp]. exists tr. split; [exact Hp|].
  destruct (initialize_sequence 1 (lit "app.php") [] true tr _ Hp) as (exe&composer&[= <-]&[= <-]&Htr). exact Htr.
Defined.
